(* ===== verification/_CoqProject ===== *)
-Q . S2P
Prelude.v
Strconv.v
Utf8.v
NetAddr.v
Scan.v
Rate.v
Float64.v
Size.v
Keys.v
Errors.v
ErrorsText.v
Status.v
FixedWindow.v
Zone.v
TokenBucket.v
LocalZone.v
Front.v
Mux.v
Logging.v
RedisZone.v
LocalLimits.v
ZoneDrivers.v
RedisScripts.v
Consistent.v
Resolver.v
Cache.v
CacheCalls.v
CacheLayers.v
CacheLifecycle.v
Etag.v
EtagFields.v
GrpcPool.v
GrpcClient.v
WErrors.v
Interceptors.v
ClientTimeout.v
Filters.v
SafeMap.v
Watcher.v
Pgw.v
PgwMonitor.v
PgwSetup.v
PgwTracer.v
Consul.v
ConsulRegistry.v
RegistryCalls.v
Discovery.v
ResolverBuild.v
ConsulHeartbeat.v
DiscoveryOptions.v
RabbitBroker.v
RabbitClients.v
RabbitConsumer.v
HttpProxy.v
HttpWatch.v
SqlDriver.v
SqlConnector.v
OtelLevel.v
OtelDsn.v
OtelLog.v
OtelRecord.v
OtelSdk.v
OtelOtlp.v
OtelBridge.v
OtelAttrs.v
PgxTracer.v
LoggerClient.v
FtsClient.v
ProtocGen.v
AppConfig.v
Adapters.v
