(* ===== verification/Prelude.v ===== *)
(** * A verification library for webitel-go-kit

    The repository is a kit of Go packages for services: a rate limiter with its
    HTTP and gRPC fronts, structured errors, service discovery with client-side
    subsets, a pool of gRPC connections, PostgreSQL pools, a RabbitMQ client,
    proxy settings, an instrumented SQL driver, the set-up of OpenTelemetry with its log
    codecs, bridges and tracers, filters, etags, a layered cache, shared configuration, small clients and a
    protobuf plugin.
    This library models the code of these packages as Rocq functions, one file per
    component, and proves what the components promise.

    ** The parts and how they interact

    The rate limiter (src/infra/ratelimit) is the largest part.  A front
    ([Front]: http.go, grpc.go) turns an incoming call into a request ([Keys]:
    request.go, keys.go, context.go) and asks a handler for a status ([Status]:
    status.go, error.go).  The usual handler is the router ([Mux]: mux/route.go,
    router.go, http.go, ctx.go, logs.go), which finds the route of the request
    and checks all zones of the route, keeping the worst status; [Logging] is what it logs on the way
    (logs.go, mux/logs.go).  A zone has options,
    salts and a driver ([Zone]: zone/options.go, request.go, driver.go, forbidden.go);
    local zones ([LocalZone]: zone/local/local_zone.go) keep a table of limiters,
    a fixed window ([FixedWindow]: fixed_window.go) or a token bucket
    ([TokenBucket]: token_bucket.go) per key value; redis zones ([RedisZone]:
    zone/redis) run a script on a server ([RedisScripts]: sliding_window.lua, token_bucket.lua).
    [ZoneDrivers] is how the two kinds register themselves and what a data source gives (zone/local/factory.go,
    zone/redis/factory.go).  Rates and sizes come from text
    ([Rate]: time.go, limit.go; [Size]: size.go).  Errors are those of
    src/infra/errors ([Errors]: error.go, code.go; [ErrorsText]: their texts, copies and log values).

    [Consistent] is the hash circle of src/infra/transport/internal (consistent.go,
    subset.go), [Resolver] the list of addresses built from it
    (transport/endpoint, transport/gRPC/resolver/discovery), [ResolverBuild] the builder of a resolver with its timeout and
    the loop that watches a service of the registry, [GrpcPool] the
    pool of connections (transport/gRPC/pool), and [GrpcClient] the client that dials and
    calls through it (transport/gRPC/client.go, options.go).  [Cache] is src/pkg/cache: map, two
    levels, circuit breaker, loading cache, helpers; [CacheCalls] overlapping calls of the two levels; [CacheLayers] its codecs, the redis and
    ristretto layers, statistics and the builder, [CacheLifecycle] how a cache is closed, started and spread over time.  [Etag] is src/pkg/etag: opaque
    references made of a type, an id and a version, and lists of requested fields; [EtagFields] the expansion of
    selectors, types and constraints of nodes.

    Discovery is src/infra/discovery: [Consul] turns instances into registrations
    and entries into instances (consul/client.go, factory.go), [ConsulHeartbeat] is the
    life of a registration (Register, Deregister and the goroutines they start), and
    [ConsulRegistry] the sets of watchers that share the instances of a service
    (registry.go, service.go, watcher.go, kv_client.go, kv_watcher.go), whose instances the resolver
    turns into addresses; [RegistryCalls] takes the calls of the registry apart at their locks.  [DiscoveryOptions] is the interface of configurable providers, its options and the Consul
    provider as its implementation (abstraction.go, generic_options.go, consul/init.go).  [Discovery] composes them: from the
    registration of one process to the addresses that the resolver of another one dials.

    [Pgw] is src/infra/pgw: the state of a pool and its subscribers (pool_state.go),
    connecting and checking a pool (pool.go), strategies and options (config.go),
    choice of a pool (pool_manager.go) and errors (errors_manager.go); [PgwMonitor] is the
    goroutines that watch the primary and the standbys (pool_manager.go,
    standby_manager.go), [PgwSetup] the settings, set-up and shutdown of the managers, and [PgwTracer] the adapter of
    tracers and the migration check (tracer.go, verifier/goose).  The stores of standbys are [SafeMap]s (src/pkg/safemap).
    [RabbitBroker] is the connection of src/infra/pubsub/rabbitmq (broker.go, config.go);
    [RabbitClients] the publisher and the settings of the consumer, which share its channel, and [RabbitConsumer] the
    goroutines of the consumer.
    [HttpProxy] is src/infra/httpproxy, [HttpWatch] the whole watch of its settings file with what callers see of the
    settings (filewatch.go, manager.go, transport.go), [SqlDriver] the connections and statements of src/infra/sqldb/sql and
    [SqlConnector] its drivers and connectors.

    OpenTelemetry is src/infra/otel: [OtelLevel] the severities and the other scales of
    levels (log/level.go, sdk/log.go, log/bridge), [OtelDsn] addresses of exporters, log files
    and variables (internal), [OtelLog] the codecs and the exporter of log records
    (sdk/log/stdout), [OtelRecord] the records of the codec otel and the pool of buffers, [OtelSdk] the registries of exporters and [Configure] (sdk/otel.go,
    sdk/log, sdk/trace, sdk/metric), [OtelOtlp] the OTLP exporters (sdk/log/otlp, sdk/trace/otlp, sdk/metric/otlp), [OtelBridge] and [OtelAttrs] the loggers of other libraries, their options and attributes
    (log/bridge), [PgxTracer] the spans of PostgreSQL calls (instrumentation/pgx, semconv).

    [WErrors] is src/pkg/errors: chains of errors with values and causes; [Interceptors] is
    src/pkg/interceptors, which turns them into gRPC statuses, and [ClientTimeout] its client interceptor.  [Filters] is
    src/pkg/filters: the translation of CEL expressions into filters.  [Watcher] is
    src/pkg/watcher: observers of events.  [AppConfig] is src/appconfig: flags, variables and files of a
    service.  [LoggerClient] and [FtsClient] are src/infra/logger_client and src/infra/fts_client, which
    publish messages; [ProtocGen] is the plugin in src/cmd/protoc-gen-go-webitel/internal.
    [Adapters] is the loggers of src/pkg/logger and of the RabbitMQ packages and the profiler (src/infra/profiler).

    ** Files

    - [Prelude]: machine integers with their wrap-around, results and panics with
      their notation, Go string functions on bytes, decimal numbers, the tactics
      [go_split] and [z_bool], the hint database [gokit], runs of a step relation.
    - [Strconv]: case mapping, cutting, booleans, quoting and unquoting.
    - [Utf8]: runes, their encoding and validity.
    - [NetAddr]: positions in strings, host and port, IP addresses and CIDR blocks.
    - [Scan]: the verbs of fmt.Sscanf that the parsers use.
    - [Float64]: IEEE doubles as fractions with round-to-nearest-even, with the
      bounds the clients need.
    - [Rate], [Size], [Keys], [Errors], [ErrorsText], [Status], [FixedWindow], [Zone],
      [TokenBucket], [LocalZone], [Front], [Mux], [Logging], [RedisZone], [RedisScripts], [ZoneDrivers], [Consistent],
      [Resolver], [ResolverBuild], [Cache], [CacheCalls], [CacheLayers], [CacheLifecycle], [Etag], [EtagFields], [GrpcPool], [GrpcClient], [WErrors],
      [Interceptors], [ClientTimeout], [Filters], [SafeMap], [Watcher], [Pgw], [PgwMonitor], [PgwSetup], [PgwTracer],
      [Consul], [ConsulRegistry], [RegistryCalls], [ConsulHeartbeat], [DiscoveryOptions], [RabbitBroker], [RabbitClients], [RabbitConsumer],
      [HttpProxy], [HttpWatch],
      [SqlDriver], [SqlConnector], [OtelLevel], [OtelDsn], [OtelLog], [OtelRecord], [OtelSdk], [OtelOtlp], [OtelBridge],
      [OtelAttrs], [PgxTracer], [LoggerClient], [FtsClient], [ProtocGen], [AppConfig], [Adapters]: one component each; the definitions carry the names
      of the source, methods as [Type_Method] where a bare name would clash.
    - [LocalLimits]: the local zones as an implementation of the interface the
      router is verified against.
    - [Discovery]: Consul client, registry and resolver put together.

    ** Conventions

    An [int64], [uint32] and so on is a [Z]; every operation that can leave the width is
    written with [i64], [u32], [u64].  Time is a number of nanoseconds.  [outcome] is
    a value or a panic; [res] a value or an error; a nil pointer is [None].
    Shared mutable data (the Env map of a request and its clones, the limiters
    behind the table, the service configurations of gRPC clients) live in a heap or a store
    that is passed explicitly.  Goroutines interleave in the step relations of [LocalZone]
    ([thread_step]), [CacheCalls], [RegistryCalls], [ConsulHeartbeat], [ResolverBuild], [Pgw] ([pool_run]), [PgwMonitor], [PgwSetup],
    [RabbitBroker], [RabbitConsumer], [Adapters] and [OtelRecord]: there a section under a lock is one step and accesses without one are steps of their own.
    Elsewhere a call is one step, also when it makes several accesses ([GrpcPool], the breaker and the loading cache of [Cache],
    [ConsulRegistry], [Resolver], [Watcher], [HttpProxy]), and what is shown there is about calls that do not overlap.  Slices that share an array are an array and a
    length ([Watcher.slice]); a channel is its buffer and whether it is closed
    ([Pgw.chan]).  What a server or a driver answers is an argument, so that theorems
    hold for all answers.  Code outside the repository is a
    parameter or a class with the documented laws it is used for: golang-lru
    ([LocalZone.LRU]), x/time/rate ([TokenBucket.RateLimiter]), the redis server
    ([RedisZone.Redis], [RedisScripts.ZRedis]), gorilla/mux ([mux_match]), protobuf any and JSON
    ([Errors], [Front]), url.Parse ([Resolver]), protowire ([Etag.Varint]), amqp091-go ([AMQP], [AMQPLaws]), go-redis, ristretto and gzip
    ([CacheLayers.Redis], [CacheLayers.Ristretto], [CacheLayers.Gzip]), the CEL parser
    ([Filters]), the Consul agent ([Consul], [ConsulRegistry]), pgxpool.ParseConfig ([PgwSetup.Pgx]), tracers
    ([PgwTracer.Tracer], [PgxTracer.Otel]), viper ([AppConfig.Viper]); each class has an instance that
    shows its laws can hold.

    ** What is proved

    - Limiters: the fixed window refines its specification and never grants more
      than its limit in a window; the retry time of a refusal is the first moment
      at which the request can pass; the token bucket is all or nothing; a redis window
      refines its specification over calls and pauses on a server that takes its expiry, and no schedule of calls and pauses gets more moments into a sliding window than its limit;
      the redis token bucket is all or nothing too.
    - Zones and routes: the local zone is a map of limiters; a route lets a request
      through iff every zone that applied does, first against the interface
      [Zone.ZoneLaws], then for local zones that are shown to implement it; what each data source gives once the
      drivers are loaded.
    - Fronts: HTTP and gRPC enforce the same verdict, and the service runs only
      for admitted requests.
    - Text forms and errors: rates, sizes and gRPC statuses survive their round trips; the
      whole seconds of a duration are its ceiling, through the double arithmetic of the source.
    - Consistent hashing: lookups are successors on the circle, adding or
      removing a member moves only its keys, [GetN] ends with the first distinct members.
    - Connection pool: in every reachable state each open connection is idle or with one
      caller, and slots are neither lost nor created while the pool is open; a call of the
      client gives its slot back on every path.
    - Etags: what is encoded decodes to the same type, id and version; the expansion of a selector ends.
    - Discovery: a registration resolves to the instance that was registered; in every interleaving the sets of
      watchers are counted exactly and removed with the last one; a deregistered service stays
      deregistered when its calls do not overlap; a resolver is built or refused in time and its loop ends after it is
      closed; the addresses a client dials are those of the processes that are registered, whatever addresses the agent adds, at first and after a change; a provider has the settings its options ask for, proved against the interface and for the Consul registry.
    - PostgreSQL: no interleaving sends on or closes a closed channel; a connection
      with retries makes the attempts and waits it is configured for; failures of the primary reach
      the monitor once it has subscribed; closing a manager releases every pool but those whose
      set-up is still running and those that a move has in hand.
    - RabbitMQ: one open connection at most, one goroutine that reconnects, and
      recovery unless a new connection closes too early; which confirmation a publisher
      reads; bounds on workers and attempts; the semaphore and the wait group of a consumer count its goroutines, and after a shutdown
      every schedule ends once no more deliveries are taken.
    - Proxy settings: redaction hides what comes before the last at-sign, a pending change
      keeps the reload timer armed, pooled connections are never of earlier settings; the watch of a file leaves no watcher
      open and ends when its context does, over any sequence of signals.
    - SQL driver: a wrapped statement has the interfaces of its parent and returns what it
      returns; a wrapped driver opens, connects and closes like the driver.
    - Configuration: what the loader sets in viper gives a flag, its variable, the file it names and its default, in this order; flags of the
      sections never clash.
    - Plugin and clients: the generated braces are balanced and bindings are written for the rules that are allowed;
      a message is published exactly when it is valid.
    - Filters, errors, watchers: a query parses to the filter it means and every filter
      is well formed; [Is] looks at the main chain and the last cause; notifications reach
      the attached observers.
    - Cache: two levels serve no stale value for a key whose writes overlap no other call of the key, also over redis with a lossless
      codec; the breaker is the documented machine for calls that do not overlap; statistics change nothing; the builder wires the
      layers in the documented order; closing closes every layer; jitter stays within its fraction, through double arithmetic.
    - OpenTelemetry: severities survive their text form over all of [int]; parameters of a log
      file set their own fields in any order; text records are single lines when their
      strings are; which records the JSON codec can write; what the codec otel writes gives a record of valid UTF-8 back; calls of
      the text codec never share a buffer; each traced PostgreSQL call has one span, ended once, with texts of at most 256 runes;
      UTF-8 decodes what it encodes; a provider is shut down iff it was installed; every error of a handler reaches the client.
    - Divergences: theorems that state what the code does where it differs from
      its documentation or purpose (a refusal hidden by a grant, windows that
      never reset, a race of first requests, loops that do not end, failures nobody sees,
      watchers that wait for ever, confirmations of other messages, a heartbeat that cannot
      be stopped, a refill that undoes a delete, a pool that is in no store while it moves, errors that are never traced, attributes that are dropped or become text, a default that
      clients overwrite, a misspelt codec that panics, an interval that stops the process, a selector that is passed
      over, a watcher that nobody stops, ids that collide, a cost nobody reads, a window of no length, and others).

    ** Bounds and fuel

    Loops that follow their data are structural.  [format_nat] gets one unit of fuel per
    bit of the number ([format_nat_fuel]).  The loops of [Consistent.GetN]
    and [GetTwo] take fuel because they may not end: [GetN_run] shows that one unit per
    point of the circle is enough when there are enough distinct members, and
    [getN_diverges] that no fuel is enough in the other case.
    The walks over error chains in [WErrors] recurse on the size of the error
    (Equations).  [NetAddr.v6_groups] gets one unit per byte.  [Pgw.retry_loop] and
    [RabbitClients.publish_loop] count down the configured attempts; the endless loops of
    goroutines are step relations.  [Strconv.unquote_body] gets one unit per byte, the loops of
    [OtelBridge] one per pair.  The loop of [EtagFields.SelectFields] restarts behind what it inserts;
    [select_bound] turns are enough ([select_terminates]).
    [Front.HttpWriteError] restarts on a marshalling error; the callers give it two
    rounds, and the theorems assume a marshaller that accepts the package's own errors.
    [sort.Sort] is the insertion sort it is for at most twelve elements, and the
    theorems on routes are stated for at most twelve zones.

    ** Not modelled

    Log lines, except where their form is the component; the sharing of one load by several callers (singleflight); the
    file watch of viper; case mapping beyond ASCII; the bytes of JSON, protobuf and
    SQL drivers, which are parameters.  The examples (src/infra/discovery/examples.go, src/infra/otel/example), the main function of
    the plugin and the re-exported names of src/infra/otel/semconv have no logic of their own.  What is left of the modelled
    files is imports, interfaces, type names and methods that only forward to one call. *)
From stdpp Require Import prelude strings list gmap.
From Stdlib Require Import ZArith Lia Ascii.

Local Open Scope Z_scope.

(** ** Machine integers *)

Definition wrap_unsigned (bits z : Z) : Z := z mod 2 ^ bits.

Definition wrap_signed (bits z : Z) : Z :=
  (z + 2 ^ (bits - 1)) mod 2 ^ bits - 2 ^ (bits - 1).

Abbreviation u8 := (wrap_unsigned 8).
Abbreviation u32 := (wrap_unsigned 32).
Abbreviation u64 := (wrap_unsigned 64).
Abbreviation i32 := (wrap_signed 32).
Abbreviation i64 := (wrap_signed 64).

(** The largest and the smallest [int64]. *)
Definition max_int64 : Z := 2 ^ 63 - 1.
Definition min_int64 : Z := - 2 ^ 63.

(** ** Outcomes: a Go call returns a value, fails with an error, or panics. *)

Inductive outcome (A : Type) : Type :=
| Ret (a : A)
| Panic (msg : string).
Global Arguments Ret {A} a.
Global Arguments Panic {A} msg.

(** A Go function with an [error] result: either the value or the error. *)
Inductive res (E A : Type) : Type :=
| Ok (a : A)
| Err (e : E).
Global Arguments Ok {E A} a.
Global Arguments Err {E A} e.

Definition is_Ok {E A} (m : res E A) : Prop := exists a, m = Ok a.

Definition res_bind {E A B} (m : res E A) (f : A -> res E B) : res E B :=
  match m with Ok a => f a | Err e => Err e end.

Definition outcome_bind {A B} (m : outcome A) (f : A -> outcome B) : outcome B :=
  match m with Ret a => f a | Panic p => Panic p end.

Declare Scope go_scope.
Delimit Scope go_scope with go.
Notation "'let?' x ':=' m 'in' k" := (res_bind m (fun x => k))
  (at level 10, x pattern, m at level 100, k at level 200) : go_scope.
Notation "'let!' x ':=' m 'in' k" := (outcome_bind m (fun x => k))
  (at level 10, x pattern, m at level 100, k at level 200) : go_scope.

(** ** Strings: Go strings as byte sequences (ASCII case mapping and spaces) *)

Definition byte_val (c : ascii) : Z := Z.of_N (N_of_ascii c).

Definition in_range (lo hi : ascii) (c : ascii) : bool :=
  (byte_val lo <=? byte_val c) && (byte_val c <=? byte_val hi).

Definition is_space (c : ascii) : bool :=
  (byte_val c =? 32) || ((9 <=? byte_val c) && (byte_val c <=? 13)).

Definition is_digit (c : ascii) : bool := in_range "0" "9" c.

Definition is_upper (c : ascii) : bool := in_range "A" "Z" c.

Definition lower_byte (c : ascii) : ascii :=
  if is_upper c then ascii_of_N (N_of_ascii c + 32) else c.

(** [strings.ToLower] on ASCII input. *)
Fixpoint ToLower (s : string) : string :=
  match s with
  | EmptyString => EmptyString
  | String c s => String (lower_byte c) (ToLower s)
  end.

Fixpoint trim_left (s : string) : string :=
  match s with
  | EmptyString => EmptyString
  | String c s' => if is_space c then trim_left s' else s
  end.

Fixpoint trim_right (s : string) : string :=
  match s with
  | EmptyString => EmptyString
  | String c s' =>
      match trim_right s' with
      | EmptyString => if is_space c then EmptyString else String c EmptyString
      | t => String c t
      end
  end.

(** [strings.TrimSpace] on ASCII input. *)
Definition TrimSpace (s : string) : string := trim_right (trim_left s).

(** [strings.FieldsFunc]: the maximal runs of bytes for which [sep] is false. *)
Fixpoint fields_func (sep : ascii -> bool) (cur : string) (s : string) : list string :=
  match s with
  | EmptyString => if decide (cur = EmptyString) then [] else [cur]
  | String c s' =>
      if sep c then
        (if decide (cur = EmptyString) then fields_func sep EmptyString s'
         else cur :: fields_func sep EmptyString s')
      else fields_func sep (cur +:+ String c EmptyString) s'
  end.

Definition FieldsFunc_str (sep : ascii -> bool) (s : string) : list string :=
  fields_func sep EmptyString s.

(** The longest prefix whose bytes satisfy [p], and the rest. *)
Fixpoint span (p : ascii -> bool) (s : string) : string * string :=
  match s with
  | EmptyString => (EmptyString, EmptyString)
  | String c s' =>
      if p c then let '(a, b) := span p s' in (String c a, b)
      else (EmptyString, s)
  end.

Fixpoint all_bytes (p : ascii -> bool) (s : string) : bool :=
  match s with
  | EmptyString => true
  | String c s' => p c && all_bytes p s'
  end.

(** No byte of [s] is taken by [p] at its head. *)
Definition stops (p : ascii -> bool) (s : string) : bool :=
  match s with EmptyString => true | String c _ => negb (p c) end.

(** ** Decimal numbers: [strconv.FormatInt] and [strconv.ParseInt] in base 10 *)

Definition digit_char (d : Z) : ascii := ascii_of_N (Z.to_N (48 + d)).
Definition digit_val (c : ascii) : Z := byte_val c - 48.

Fixpoint dec_digits (fuel : nat) (n : Z) (acc : string) : string :=
  match fuel with
  | O => acc
  | S f =>
      let acc' := String (digit_char (n mod 10)) acc in
      if n <? 10 then acc' else dec_digits f (n / 10) acc'
  end.

Definition format_nat (n : Z) : string :=
  dec_digits (S (Z.to_nat (Z.log2 n))) n EmptyString.

Definition FormatInt (z : Z) : string :=
  if z <? 0 then String "-" (format_nat (- z)) else format_nat z.

(** The value of a non-empty run of decimal digits read after [acc]. *)
Fixpoint dec_value (s : string) (acc : Z) : option Z :=
  match s with
  | EmptyString => Some acc
  | String c s' => if is_digit c then dec_value s' (acc * 10 + digit_val c) else None
  end.

Definition parse_nat (s : string) : option Z :=
  match s with EmptyString => None | _ => dec_value s 0 end.

(** [strconv.ParseInt(s, 10, bits)]: [None] is a syntax or a range error. *)
Definition ParseInt (bits : Z) (s : string) : option Z :=
  let signed :=
    match s with
    | String "-" s' => n ← parse_nat s'; Some (- n)
    | String "+" s' => parse_nat s'
    | _ => parse_nat s
    end in
  z ← signed;
  if (- 2 ^ (bits - 1) <=? z) && (z <? 2 ^ (bits - 1)) then Some z else None.

(** ** Runs of a step relation *)

Inductive runs {A} (step : A -> A -> Prop) (a : A) : A -> Prop :=
| runs_refl : runs step a a
| runs_step b c : runs step a b -> step b c -> runs step a c.

(** ** Lookup in a literal Go map, written as its list of entries *)

Fixpoint assoc_lookup {K V} `{EqDecision K} (k : K) (l : list (K * V)) : option V :=
  match l with
  | [] => None
  | (k', v) :: l' => if decide (k = k') then Some v else assoc_lookup k l'
  end.

(** ** Lemmas and automation *)

Create HintDb gokit.
Create Rewrite HintDb gokit.

(** Splits every [match], [if] and [decide] of the goal and the context and
    closes what congruence closes. *)
Ltac go_split :=
  repeat (case_match || case_decide || case_bool_decide); simplify_eq/=.

(** Turns boolean comparisons on [Z] into propositions. *)
Ltac z_bool :=
  repeat match goal with
  | H : (_ && _) = true |- _ => apply andb_prop in H as [? ?]
  | H : (_ || _) = false |- _ => apply orb_false_elim in H as [? ?]
  | H : (_ <? _) = true |- _ => apply Z.ltb_lt in H
  | H : (_ <? _) = false |- _ => apply Z.ltb_ge in H
  | H : (_ <=? _) = true |- _ => apply Z.leb_le in H
  | H : (_ <=? _) = false |- _ => apply Z.leb_gt in H
  | H : (_ =? _) = true |- _ => apply Z.eqb_eq in H
  | H : (_ =? _) = false |- _ => apply Z.eqb_neq in H
  end.

Lemma runs_inv {A} (step : A -> A -> Prop) (I : A -> Prop) a b :
  (forall x y, I x -> step x y -> I y) -> I a -> runs step a b -> I b.
Proof. intros Hstep Ha. induction 1; [done|eauto]. Qed.

Lemma runs_trans {A} (step : A -> A -> Prop) a b c : runs step a b -> runs step b c -> runs step a c.
Proof. intros Hab. induction 1; [done|by eapply runs_step]. Qed.

Lemma wrap_unsigned_small bits z :
  0 <= z < 2 ^ bits -> wrap_unsigned bits z = z.
Proof. intros. unfold wrap_unsigned. by apply Z.mod_small. Qed.

Lemma wrap_unsigned_range bits z :
  0 <= bits -> 0 <= wrap_unsigned bits z < 2 ^ bits.
Proof. intros. unfold wrap_unsigned. apply Z.mod_pos_bound. lia. Qed.

Lemma wrap_signed_small bits z :
  0 < bits -> - 2 ^ (bits - 1) <= z < 2 ^ (bits - 1) -> wrap_signed bits z = z.
Proof.
  intros Hb Hz. unfold wrap_signed.
  assert (2 ^ bits = 2 * 2 ^ (bits - 1)) as E
    by (rewrite <- Z.pow_succ_r by lia; f_equal; lia).
  rewrite Z.mod_small; lia.
Qed.

Lemma wrap_signed_range bits z :
  0 < bits -> - 2 ^ (bits - 1) <= wrap_signed bits z < 2 ^ (bits - 1).
Proof.
  intros Hb. unfold wrap_signed.
  assert (2 ^ bits = 2 * 2 ^ (bits - 1)) as E
    by (rewrite <- Z.pow_succ_r by lia; f_equal; lia).
  pose proof (Z.mod_pos_bound (z + 2 ^ (bits - 1)) (2 ^ bits)). lia.
Qed.

#[export] Hint Rewrite wrap_unsigned_small wrap_signed_small using lia : gokit.

Lemma byte_val_digit d : 0 <= d < 10 -> byte_val (digit_char d) = 48 + d.
Proof.
  intros. unfold byte_val, digit_char.
  rewrite N_ascii_embedding by lia. lia.
Qed.

Lemma is_digit_digit_char d : 0 <= d < 10 -> is_digit (digit_char d) = true.
Proof.
  intros. unfold is_digit, in_range. rewrite byte_val_digit by done.
  change (byte_val "0") with 48. change (byte_val "9") with 57. lia.
Qed.

Lemma digit_val_digit_char d : 0 <= d < 10 -> digit_val (digit_char d) = d.
Proof. intros. unfold digit_val. rewrite byte_val_digit by done. lia. Qed.

(** Reading back the digits that [dec_digits] writes. *)
Lemma dec_value_dec_digits fuel : forall n s,
  0 <= n < 2 ^ Z.of_nat fuel -> (0 < fuel)%nat ->
  exists k, 0 <= k /\
    forall acc, dec_value (dec_digits fuel n s) acc = dec_value s (acc * 10 ^ k + n).
Proof.
  induction fuel as [|fuel IH]; intros n s Hn Hf; [lia|].
  simpl. pose proof (Z.mod_pos_bound n 10).
  destruct (Z.ltb_spec n 10) as [Hlt|Hge].
  - exists 1. split; [lia|]. intros acc. simpl.
    rewrite is_digit_digit_char, digit_val_digit_char by lia.
    rewrite Z.mod_small by lia. f_equal; lia.
  - destruct (IH (n / 10) (String (digit_char (n mod 10)) s)) as (k & Hk & E).
    { split; [apply Z.div_pos; lia|].
      apply Z.div_lt_upper_bound; [lia|].
      rewrite Nat2Z.inj_succ, Z.pow_succ_r in Hn by lia. lia. }
    { destruct fuel; [simpl in Hn; lia | lia]. }
    exists (k + 1). split; [lia|]. intros acc. rewrite E. simpl.
    rewrite is_digit_digit_char, digit_val_digit_char by lia.
    f_equal. rewrite Z.pow_add_r by lia.
    pose proof (Z.div_mod n 10 ltac:(lia)). lia.
Qed.

Lemma dec_digits_nonempty fuel n s :
  (0 < fuel)%nat -> exists c t, dec_digits fuel n s = String c t /\
    (is_digit c = true \/ ~ 0 <= n).
Proof.
  revert n s. induction fuel as [|fuel IH]; intros n s Hf; [lia|]. simpl.
  destruct (Z.ltb_spec n 10).
  - eexists _, _. split; [done|].
    destruct (decide (0 <= n)); [left|by right].
    apply is_digit_digit_char, Z.mod_pos_bound; lia.
  - destruct fuel as [|fuel].
    + simpl. eexists _, _. split; [done|]. left.
      apply is_digit_digit_char, Z.mod_pos_bound; lia.
    + destruct (IH (n / 10) (String (digit_char (n mod 10)) s)) as (c & t & E & Hc);
        [lia|].
      exists c, t. split; [done|]. destruct Hc as [?|Hc]; [by left|].
      exfalso. apply Hc. apply Z.div_pos; lia.
Qed.

Lemma format_nat_fuel n : 0 <= n -> n < 2 ^ Z.of_nat (S (Z.to_nat (Z.log2 n))).
Proof.
  intros Hn. rewrite Nat2Z.inj_succ, Z2Nat.id by apply Z.log2_nonneg.
  destruct (decide (n = 0)) as [->|]; [done|]. apply Z.log2_spec. lia.
Qed.

(** [strconv] reads back what it prints. *)
Lemma parse_nat_format_nat n : 0 <= n -> parse_nat (format_nat n) = Some n.
Proof.
  intros Hn. unfold parse_nat.
  destruct (dec_digits_nonempty (S (Z.to_nat (Z.log2 n))) n EmptyString) as (c & t & E & _);
    [lia|].
  destruct (dec_value_dec_digits (S (Z.to_nat (Z.log2 n))) n EmptyString) as (k & Hk & Hv);
    [split; [done|by apply format_nat_fuel] | lia |].
  unfold format_nat in *. rewrite E. rewrite <- E, Hv. done.
Qed.

Lemma format_nat_head n : 0 <= n ->
  exists c t, format_nat n = String c t /\ is_digit c = true.
Proof.
  intros Hn.
  destruct (dec_digits_nonempty (S (Z.to_nat (Z.log2 n))) n EmptyString) as (c & t & E & [?|?]);
    [lia| eauto | done].
Qed.

Lemma digit_not_sign c : is_digit c = true -> c ≠ "-"%char /\ c ≠ "+"%char.
Proof. by split; intros ->. Qed.

(** [ParseInt] inverts [FormatInt] on every integer of the width. *)
Lemma ParseInt_FormatInt bits z :
  - 2 ^ (bits - 1) <= z < 2 ^ (bits - 1) -> ParseInt bits (FormatInt z) = Some z.
Proof.
  intros Hz. unfold ParseInt, FormatInt.
  destruct (Z.ltb_spec z 0).
  - rewrite parse_nat_format_nat by lia. simpl. rewrite Z.opp_involutive.
    case_match; [done|]. apply andb_false_iff in H0 as [?|?]; lia.
  - destruct (format_nat_head z) as (c & t & E & Hc); [lia|].
    apply digit_not_sign in Hc as [Hm Hp].
    assert (match format_nat z with
            | String "-" s' => n ← parse_nat s'; Some (- n)
            | String "+" s' => parse_nat s'
            | _ => parse_nat (format_nat z) end = Some z) as ->.
    { rewrite E. repeat (case_match; simplify_eq); rewrite <- E;
        by apply parse_nat_format_nat. }
    simpl. case_match; [done|]. apply andb_false_iff in H0 as [?|?]; lia.
Qed.

Lemma append_nil_r (s : string) : s +:+ EmptyString = s.
Proof. induction s as [|c s IH]; [done|]. change (String c (s +:+ EmptyString) = String c s). by rewrite IH. Qed.

Lemma append_assoc (a b c : string) : (a +:+ b) +:+ c = a +:+ (b +:+ c).
Proof.
  induction a as [|x a IH]; [done|].
  change (String x ((a +:+ b) +:+ c) = String x (a +:+ (b +:+ c))). by rewrite IH.
Qed.

Lemma append_cons x (a b : string) : String x a +:+ b = String x (a +:+ b).
Proof. done. Qed.

Lemma span_app p a b :
  all_bytes p a = true -> stops p b = true -> span p (a +:+ b) = (a, b).
Proof.
  induction a as [|c a IH]; simpl; intros Ha Hb.
  - destruct b as [|c b]; [done|]. simpl in *. change (span p (String c b) = (EmptyString, String c b)).
    simpl. by apply negb_true_iff in Hb as ->.
  - apply andb_prop in Ha as [Hc Ha]. rewrite ?append_cons. simpl.
    by rewrite Hc, IH.
Qed.

Lemma span_all p s : all_bytes p s = true -> span p s = (s, EmptyString).
Proof. intros H. rewrite <- (append_nil_r s) at 1. by apply span_app. Qed.

Lemma all_bytes_dec_digits fuel n s :
  0 <= n -> all_bytes is_digit s = true -> all_bytes is_digit (dec_digits fuel n s) = true.
Proof.
  revert n s. induction fuel as [|fuel IH]; intros n s Hn Hs; [done|]. simpl.
  pose proof (Z.mod_pos_bound n 10).
  assert (all_bytes is_digit (String (digit_char (n mod 10)) s) = true) as Hs'.
  { simpl. by rewrite is_digit_digit_char, Hs by lia. }
  destruct (n <? 10); [done|]. apply IH; [|done]. apply Z.div_pos; lia.
Qed.

Lemma all_bytes_format_nat n : 0 <= n -> all_bytes is_digit (format_nat n) = true.
Proof. intros. by apply all_bytes_dec_digits. Qed.

Lemma assoc_lookup_In {K V} `{EqDecision K} (k : K) (v : V) l :
  assoc_lookup k l = Some v -> (k, v) ∈ l.
Proof.
  induction l as [|[k' v'] l IH]; simpl; [done|].
  case_decide; intros; simplify_eq; [by left|right; auto].
Qed.

Lemma assoc_lookup_app {K V} `{EqDecision K} (k : K) (l l' : list (K * V)) :
  assoc_lookup k (l ++ l') =
    match assoc_lookup k l with Some v => Some v | None => assoc_lookup k l' end.
Proof. induction l as [|[k' v] l IH]; simpl; [done|]. by destruct (decide (k = k')). Qed.

Lemma div_pos_iff a b : 0 < b -> 0 <= a -> 0 < a / b <-> b <= a.
Proof.
  intros Hb Ha. split; intros H.
  - destruct (decide (b <= a)); [done|]. rewrite Z.div_small in H; lia.
  - by apply Z.div_str_pos.
Qed.

Lemma dec_digits_app fuel n s t :
  dec_digits fuel n (s +:+ t) = dec_digits fuel n s +:+ t.
Proof.
  revert n s. induction fuel as [|fuel IH]; intros n s; [done|]. simpl.
  change (String (digit_char (n mod 10)) (s +:+ t))
    with (String (digit_char (n mod 10)) s +:+ t).
  rewrite IH. by destruct (n <? 10).
Qed.

Lemma format_nat_app n t :
  0 <= n -> format_nat n +:+ t = dec_digits (S (Z.to_nat (Z.log2 n))) n t.
Proof. intros. unfold format_nat. by rewrite <- dec_digits_app. Qed.

(** *** Case mapping and trimming *)

Lemma lower_byte_idem c : lower_byte (lower_byte c) = lower_byte c.
Proof. by destruct c as [[] [] [] [] [] [] [] []]. Qed.

Lemma is_space_lower c : is_space (lower_byte c) = is_space c.
Proof. by destruct c as [[] [] [] [] [] [] [] []]. Qed.

Lemma ToLower_idem s : ToLower (ToLower s) = ToLower s.
Proof. induction s as [|c s IH]; simpl; [done|]. by rewrite lower_byte_idem, IH. Qed.

Lemma trim_left_ToLower s : trim_left (ToLower s) = ToLower (trim_left s).
Proof. induction s as [|c s IH]; simpl; [done|]. rewrite is_space_lower. by destruct (is_space c). Qed.

Lemma trim_right_ToLower s : trim_right (ToLower s) = ToLower (trim_right s).
Proof.
  induction s as [|c s IH]; simpl; [done|]. rewrite IH.
  destruct (trim_right s); simpl; [|done]. rewrite is_space_lower. by destruct (is_space c).
Qed.

Lemma TrimSpace_ToLower s : TrimSpace (ToLower s) = ToLower (TrimSpace s).
Proof. unfold TrimSpace. by rewrite trim_left_ToLower, trim_right_ToLower. Qed.

Lemma trim_right_idem s : trim_right (trim_right s) = trim_right s.
Proof.
  induction s as [|c s IH]; simpl; [done|].
  destruct (trim_right s) as [|c' t] eqn:E.
  - destruct (is_space c) eqn:Hc; simpl; [done|by rewrite Hc].
  - change (match trim_right (String c' t) with
            | EmptyString => if is_space c then EmptyString else String c EmptyString
            | u => String c u end = String c (String c' t)). by rewrite IH.
Qed.

Lemma trim_left_stops s : stops is_space (trim_left s) = true.
Proof. induction s as [|c s IH]; simpl; [done|]. destruct (is_space c) eqn:E; simpl; [done|by rewrite E]. Qed.

Lemma trim_left_trim_right s :
  stops is_space s = true -> trim_left (trim_right s) = trim_right s.
Proof.
  destruct s as [|c s]; simpl; [done|]. intros Hc%negb_true_iff.
  destruct (trim_right s); simpl; by rewrite ?Hc; simpl; rewrite ?Hc.
Qed.

Lemma TrimSpace_idem s : TrimSpace (TrimSpace s) = TrimSpace s.
Proof.
  unfold TrimSpace. rewrite trim_left_trim_right by apply trim_left_stops.
  apply trim_right_idem.
Qed.
