(* ===== verification/Strconv.v ===== *)
(** * Go string functions: case mapping, cutting, booleans, quoting

    What the sources use of the packages strings and strconv beyond [Prelude].
    Case mapping is that of ASCII; quoting and unquoting copy the bytes of other runes,
    as the source does on valid UTF-8. *)
From stdpp Require Import prelude strings list.
From Stdlib Require Import ZArith Lia Ascii.
From S2P Require Import Prelude.

Local Open Scope Z_scope.

Module Strconv.

(** ** Case *)

Definition upper_byte (c : ascii) : ascii :=
  if in_range "a" "z" c then ascii_of_N (N_of_ascii c - 32) else c.

(** [strings.ToUpper] on ASCII input. *)
Fixpoint ToUpper (s : string) : string :=
  match s with EmptyString => EmptyString | String c s => String (upper_byte c) (ToUpper s) end.

(** [strings.EqualFold] on ASCII input. *)
Definition EqualFold (a b : string) : bool := bool_decide (ToLower a = ToLower b).

(** ** Cutting *)

(** [strings.Cut] at the first byte for which [p] holds; the flag says whether there is one. *)
Fixpoint cut_at (p : ascii -> bool) (s : string) : string * string * bool :=
  match s with
  | EmptyString => (EmptyString, EmptyString, false)
  | String c s' =>
      if p c then (EmptyString, s', true)
      else let '(a, b, found) := cut_at p s' in (String c a, b, found)
  end.

Definition is_byte (d c : ascii) : bool := bool_decide (c = d).

(** [strings.Cut] for a separator of one byte. *)
Definition Cut (s : string) (sep : ascii) : string * string * bool := cut_at (is_byte sep) s.

(** [strings.CutPrefix]. *)
Fixpoint CutPrefix (s p : string) {struct p} : string * bool :=
  match p with
  | EmptyString => (s, true)
  | String d p' =>
      match s with
      | String c s' =>
          if decide (c = d) then
            match CutPrefix s' p' with (rest, true) => (rest, true) | (_, false) => (s, false) end
          else (s, false)
      | EmptyString => (s, false)
      end
  end.

(** ** Booleans and integers *)

(** [strconv.ParseBool]; [None] is the syntax error. *)
Definition ParseBool (s : string) : option bool :=
  if decide (s ∈ ["1"; "t"; "T"; "true"; "TRUE"; "True"]%string) then Some true
  else if decide (s ∈ ["0"; "f"; "F"; "false"; "FALSE"; "False"]%string) then Some false
  else None.

(** [strconv.Atoi] where [int] has 64 bits. *)
Definition Atoi (s : string) : option Z := ParseInt 64 s.

(** The verb [%+d]. *)
Definition fmt_plus_d (z : Z) : string := if z <? 0 then FormatInt z else String "+" (FormatInt z).

(** ** Quoting *)

Definition hex_digit (d : Z) : ascii :=
  if d <? 10 then ascii_of_N (Z.to_N (48 + d)) else ascii_of_N (Z.to_N (87 + d)).

(** The letter of a one-letter escape for a control byte. *)
Definition control_escape (c : ascii) : option ascii :=
  let n := byte_val c in
  if n =? 7 then Some "a"%char else if n =? 8 then Some "b"%char
  else if n =? 9 then Some "t"%char else if n =? 10 then Some "n"%char
  else if n =? 11 then Some "v"%char else if n =? 12 then Some "f"%char
  else if n =? 13 then Some "r"%char else None.

Definition quote_byte (c : ascii) : string :=
  let n := byte_val c in
  if (n =? 34) || (n =? 92) then String "\" (String c EmptyString)
  else if ((32 <=? n) && (n <=? 126)) || (128 <=? n) then String c EmptyString
  else match control_escape c with
       | Some l => String "\" (String l EmptyString)
       | None => String "\" (String "x" (String (hex_digit (n / 16)) (String (hex_digit (n mod 16)) EmptyString)))
       end.

Fixpoint quote_bytes (s : string) : string :=
  match s with EmptyString => EmptyString | String c s => quote_byte c +:+ quote_bytes s end.

Definition dquote : ascii := ascii_of_N 34.

(** [strconv.AppendQuote(nil, s)]. *)
Definition Quote (s : string) : string :=
  String dquote (quote_bytes s +:+ String dquote EmptyString).

Definition hex_val (c : ascii) : option Z :=
  if is_digit c then Some (byte_val c - 48)
  else if in_range "a" "f" c then Some (byte_val c - 87)
  else if in_range "A" "F" c then Some (byte_val c - 55)
  else None.

(** [n] hexadecimal digits read after [acc]. *)
Fixpoint read_hex (n : nat) (s : string) (acc : Z) : option (Z * string) :=
  match n with
  | O => Some (acc, s)
  | S n => match s with
           | EmptyString => None
           | String c s => d ← hex_val c; read_hex n s (acc * 16 + d)
           end
  end.

Definition octal_val (c : ascii) : option Z := if in_range "0" "7" c then Some (byte_val c - 48) else None.

Definition byte_string (n : Z) : string := String (ascii_of_N (Z.to_N n)) EmptyString.

(** UTF-8 of a rune. *)
Definition AppendRune (r : Z) : string :=
  if r <? 128 then byte_string r
  else if r <? 2048 then byte_string (192 + r / 64) +:+ byte_string (128 + r mod 64)
  else if r <? 65536 then
    byte_string (224 + r / 4096) +:+ byte_string (128 + r / 64 mod 64) +:+ byte_string (128 + r mod 64)
  else byte_string (240 + r / 262144) +:+ byte_string (128 + r / 4096 mod 64)
       +:+ byte_string (128 + r / 64 mod 64) +:+ byte_string (128 + r mod 64).

Definition ValidRune (r : Z) : bool :=
  ((0 <=? r) && (r <? 55296)) || ((57343 <? r) && (r <=? 1114111)).

(** [strconv.UnquoteChar] after a backslash: the bytes that are written, and the rest. *)
Definition unescape (quote : ascii) (s : string) : option (string * string) :=
  match s with
  | EmptyString => None
  | String c s =>
      match c with
      | "a"%char => Some (byte_string 7, s)
      | "b"%char => Some (byte_string 8, s)
      | "f"%char => Some (byte_string 12, s)
      | "n"%char => Some (byte_string 10, s)
      | "r"%char => Some (byte_string 13, s)
      | "t"%char => Some (byte_string 9, s)
      | "v"%char => Some (byte_string 11, s)
      | "x"%char => '(v, s) ← read_hex 2 s 0; Some (byte_string v, s)
      | "u"%char => '(v, s) ← read_hex 4 s 0; if ValidRune v then Some (AppendRune v, s) else None
      | "U"%char => '(v, s) ← read_hex 8 s 0; if ValidRune v then Some (AppendRune v, s) else None
      | "\"%char => Some (byte_string 92, s)
      | _ =>
          match octal_val c with
          | Some v =>
              match s with
              | String c1 (String c2 s) =>
                  v1 ← octal_val c1; v2 ← octal_val c2;
                  let v := v * 64 + v1 * 8 + v2 in
                  if 255 <? v then None else Some (byte_string v, s)
              | _ => None
              end
          | None =>
              if ((byte_val c =? 34) || (byte_val c =? 39)) && bool_decide (c = quote)
              then Some (String c EmptyString, s) else None
          end
      end
  end.

(** The text up to the closing quote; an escape takes at least two bytes, so one unit of
    fuel per byte is enough. *)
Fixpoint unquote_body (fuel : nat) (quote : ascii) (s : string) : option (string * string) :=
  match fuel with
  | O => None
  | S fuel =>
      match s with
      | EmptyString => None
      | String c s' =>
          if decide (c = quote) then Some (EmptyString, s')
          else if byte_val c =? 10 then None
          else if byte_val c =? 92 then
            '(b, s') ← unescape quote s';
            '(t, rest) ← unquote_body fuel quote s';
            Some (b +:+ t, rest)
          else '(t, rest) ← unquote_body fuel quote s'; Some (String c t, rest)
      end
  end.

(** The number of runes of valid UTF-8: the bytes that do not continue a rune. *)
Fixpoint rune_count (s : string) : nat :=
  match s with
  | EmptyString => 0
  | String c s => (if (128 <=? byte_val c) && (byte_val c <? 192) then 0 else 1) + rune_count s
  end.

Fixpoint drop_cr (s : string) : string :=
  match s with
  | EmptyString => EmptyString
  | String c s => if byte_val c =? 13 then drop_cr s else String c (drop_cr s)
  end.

(** The single character of a single-quoted literal, and the closing quote. *)
Definition unquote_char (s : string) : option string :=
  match s with
  | EmptyString => None
  | String c s' =>
      if byte_val c =? 10 then None
      else if byte_val c =? 92 then
        '(b, rest) ← unescape "'" s'; if decide (rest = "'") then Some b else None
      else match cut_at (is_byte "'") s with
           | (t, EmptyString, true) => if decide (rune_count t = 1%nat) then Some t else None
           | _ => None
           end
  end.

(** [strconv.Unquote]; [None] is ErrSyntax. *)
Definition Unquote (s : string) : option string :=
  match s with
  | EmptyString => None
  | String q s =>
      if decide (q = dquote) then
        match unquote_body (S (String.length s)) q s with
        | Some (t, EmptyString) => Some t
        | _ => None
        end
      else if decide (q = "'"%char) then unquote_char s
      else if decide (q = "`"%char) then
        match cut_at (is_byte "`") s with
        | (t, EmptyString, true) => Some (drop_cr t)
        | _ => None
        end
      else None
  end.

(** ** Lemmas *)

Lemma upper_lower_byte c : upper_byte (lower_byte c) = upper_byte c.
Proof. by destruct c as [[] [] [] [] [] [] [] []]. Qed.

Lemma ToUpper_ToLower s : ToUpper (ToLower s) = ToUpper s.
Proof. induction s as [|c s IH]; simpl; [done|]. by rewrite upper_lower_byte, IH. Qed.

Lemma cut_at_app p a b c : all_bytes (fun x => negb (p x)) a = true -> p c = true ->
  cut_at p (a +:+ String c b) = (a, b, true).
Proof.
  induction a as [|x a IH]; intros Ha Hc.
  - change (cut_at p (String c b) = (EmptyString, b, true)). simpl. by rewrite Hc.
  - rewrite append_cons. simpl in *. apply andb_prop in Ha as [Hx%negb_true_iff Ha]. by rewrite Hx, IH.
Qed.

Lemma cut_at_none p a : all_bytes (fun x => negb (p x)) a = true -> cut_at p a = (a, EmptyString, false).
Proof.
  induction a as [|x a IH]; simpl; [done|]. intros [Hx%negb_true_iff Ha]%andb_prop. by rewrite Hx, IH.
Qed.

Lemma all_bytes_app p a b : all_bytes p (a +:+ b) = all_bytes p a && all_bytes p b.
Proof.
  induction a as [|c a IH]; [done|]. rewrite append_cons. simpl. rewrite IH. apply andb_assoc.
Qed.

Lemma all_bytes_impl (p q : ascii -> bool) s :
  (forall c, p c = true -> q c = true) -> all_bytes p s = true -> all_bytes q s = true.
Proof.
  intros Hpq. induction s as [|c s IH]; simpl; [done|]. intros [? ?]%andb_prop. by rewrite Hpq, IH.
Qed.

Lemma CutPrefix_app p s : CutPrefix (p +:+ s) p = (s, true).
Proof.
  induction p as [|c p IH]; [done|]. rewrite append_cons. cbn [CutPrefix]. rewrite decide_True by done. by rewrite IH.
Qed.

(** Atoi reads back [%+d]. *)
Lemma Atoi_fmt_plus_d z : min_int64 <= z <= max_int64 -> Atoi (fmt_plus_d z) = Some z.
Proof.
  unfold min_int64, max_int64, Atoi, fmt_plus_d. intros Hz. destruct (Z.ltb_spec z 0).
  - apply ParseInt_FormatInt. lia.
  - unfold ParseInt, FormatInt. destruct (Z.ltb_spec z 0); [lia|].
    rewrite parse_nat_format_nat by lia. simpl. case_match eqn:E; [done|].
    apply andb_false_iff in E as [?|?]; z_bool; lia.
Qed.

(** One quoted byte is read back. *)
Lemma unquote_quote_byte c fuel t :
  unquote_body (S fuel) dquote (quote_byte c +:+ t) =
    ('(u, rest) ← unquote_body fuel dquote t; Some (String c u, rest)).
Proof.
  destruct c as [[] [] [] [] [] [] [] []]; cbn -[unquote_body]; cbn; by destruct (unquote_body fuel dquote t) as [[]|].
Qed.

Lemma unquote_quote_bytes s fuel rest : (String.length s < fuel)%nat ->
  unquote_body fuel dquote (quote_bytes s +:+ String dquote rest) = Some (s, rest).
Proof.
  revert fuel. induction s as [|c s IH]; intros [|fuel] Hf; simpl in Hf; try lia.
  - change (quote_bytes EmptyString +:+ String dquote rest) with (String dquote rest).
    cbn [unquote_body]. by rewrite decide_True.
  - simpl quote_bytes. rewrite append_assoc, unquote_quote_byte, IH by lia. done.
Qed.

Lemma quote_bytes_length s : (String.length s <= String.length (quote_bytes s))%nat.
Proof.
  induction s as [|c s IH]; simpl; [lia|].
  assert (forall a b : string, String.length (a +:+ b) = (String.length a + String.length b)%nat) as ->.
  { induction a as [|x a IHa]; intros b; [done|]. rewrite append_cons. simpl. by rewrite IHa. }
  assert (1 <= String.length (quote_byte c))%nat; [|lia].
  unfold quote_byte. repeat case_match; simpl; lia.
Qed.

(** strconv reads back the strings it quotes. *)
Lemma Unquote_Quote s : Unquote (Quote s) = Some s.
Proof.
  unfold Unquote, Quote. rewrite decide_True by done.
  rewrite unquote_quote_bytes; [done|]. pose proof (quote_bytes_length s).
  assert (forall a : string, String.length (a +:+ String dquote EmptyString) = S (String.length a)) as ->.
  { induction a as [|x a IHa]; [done|]. rewrite append_cons. simpl. by rewrite IHa. }
  lia.
Qed.

End Strconv.
