(* ===== verification/Utf8.v ===== *)
(** * Runes: the UTF-8 conversions of Go

    [[]rune(s)] and [string(runes)] as the language defines them: every byte that does not
    belong to a well-formed rune becomes U+FFFD on its own. *)
From stdpp Require Import prelude strings list.
From Stdlib Require Import ZArith Lia Ascii.
From S2P Require Import Prelude Strconv.

Local Open Scope Z_scope.

Module Utf8.
Import Strconv.

Definition RuneError : Z := 65533.

(** The bounds of the second byte after a first byte of a longer rune, and the number
    of bytes that continue it; [None] for bytes that start no rune. *)
Definition first_byte (b : Z) : option (Z * Z * nat) :=
  if (194 <=? b) && (b <=? 223) then Some (128, 191, 1%nat)
  else if b =? 224 then Some (160, 191, 2%nat)
  else if ((225 <=? b) && (b <=? 236)) || ((238 <=? b) && (b <=? 239)) then Some (128, 191, 2%nat)
  else if b =? 237 then Some (128, 159, 2%nat)
  else if b =? 240 then Some (144, 191, 3%nat)
  else if (241 <=? b) && (b <=? 243) then Some (128, 191, 3%nat)
  else if b =? 244 then Some (128, 143, 3%nat)
  else None.

Definition between (lo hi : Z) (c : ascii) : bool := (lo <=? byte_val c) && (byte_val c <=? hi).
Definition continues (c : ascii) : bool := between 128 191 c.

(** [[]rune(s)] *)
Fixpoint decode_runes (s : string) : list Z :=
  match s with
  | EmptyString => []
  | String c0 s1 =>
      let b0 := byte_val c0 in
      if b0 <? 128 then b0 :: decode_runes s1
      else
        match first_byte b0 with
        | None => RuneError :: decode_runes s1
        | Some (lo, hi, n) =>
            match s1 with
            | EmptyString => [RuneError]
            | String c1 s2 =>
                if negb (between lo hi c1) then RuneError :: decode_runes s1
                else match n with
                     | 1%nat => (b0 - 192) * 64 + (byte_val c1 - 128) :: decode_runes s2
                     | _ =>
                         match s2 with
                         | EmptyString => RuneError :: decode_runes s1
                         | String c2 s3 =>
                             if negb (continues c2) then RuneError :: decode_runes s1
                             else match n with
                                  | 2%nat =>
                                      (b0 - 224) * 4096 + (byte_val c1 - 128) * 64 + (byte_val c2 - 128)
                                        :: decode_runes s3
                                  | _ =>
                                      match s3 with
                                      | EmptyString => RuneError :: decode_runes s1
                                      | String c3 s4 =>
                                          if negb (continues c3) then RuneError :: decode_runes s1
                                          else (b0 - 240) * 262144 + (byte_val c1 - 128) * 4096
                                               + (byte_val c2 - 128) * 64 + (byte_val c3 - 128)
                                               :: decode_runes s4
                                      end
                                  end
                         end
                     end
            end
        end
  end.

(** [string(runes)] *)
Fixpoint encode_runes (rs : list Z) : string :=
  match rs with
  | [] => EmptyString
  | r :: rs => AppendRune (if ValidRune r then r else RuneError) +:+ encode_runes rs
  end.

(** ** Lemmas *)

Lemma byte_val_of z : 0 <= z < 256 -> byte_val (ascii_of_N (Z.to_N z)) = z.
Proof.
  intros Hz. unfold byte_val. rewrite N_ascii_embedding; [by rewrite Z2N.id by lia|].
  apply N2Z.inj_lt. rewrite Z2N.id by lia. simpl. lia.
Qed.

Lemma byte_val_bounds c : 0 <= byte_val c < 256.
Proof. unfold byte_val. pose proof (N_ascii_bounded c). lia. Qed.

(** One step of the decoding. *)
Lemma decode_cons c0 s1 : decode_runes (String c0 s1) =
  let b0 := byte_val c0 in
  if b0 <? 128 then b0 :: decode_runes s1
  else
    match first_byte b0 with
    | None => RuneError :: decode_runes s1
    | Some (lo, hi, n) =>
        match s1 with
        | EmptyString => [RuneError]
        | String c1 s2 =>
            if negb (between lo hi c1) then RuneError :: decode_runes s1
            else match n with
                 | 1%nat => (b0 - 192) * 64 + (byte_val c1 - 128) :: decode_runes s2
                 | _ =>
                     match s2 with
                     | EmptyString => RuneError :: decode_runes s1
                     | String c2 s3 =>
                         if negb (continues c2) then RuneError :: decode_runes s1
                         else match n with
                              | 2%nat =>
                                  (b0 - 224) * 4096 + (byte_val c1 - 128) * 64 + (byte_val c2 - 128)
                                    :: decode_runes s3
                              | _ =>
                                  match s3 with
                                  | EmptyString => RuneError :: decode_runes s1
                                  | String c3 s4 =>
                                      if negb (continues c3) then RuneError :: decode_runes s1
                                      else (b0 - 240) * 262144 + (byte_val c1 - 128) * 4096
                                           + (byte_val c2 - 128) * 64 + (byte_val c3 - 128)
                                           :: decode_runes s4
                                  end
                              end
                     end
                 end
        end
    end.
Proof. reflexivity. Qed.

Lemma byte_string_app z s : byte_string z +:+ s = String (ascii_of_N (Z.to_N z)) s.
Proof. reflexivity. Qed.

(** A first byte has one set of bounds. *)
Ltac byte_cases :=
  repeat first
    [ progress cbn [andb orb negb]
    | match goal with
      | |- context [(?a <=? ?b)] => destruct (Z.leb_spec a b); try lia
      | |- context [(?a <? ?b)] => destruct (Z.ltb_spec a b); try lia
      | |- context [(?a =? ?b)] => destruct (Z.eqb_spec a b); try lia
      end ].

Lemma decode_2 a b s : 2 <= a < 32 -> 0 <= b < 64 ->
  decode_runes (byte_string (192 + a) +:+ byte_string (128 + b) +:+ s) = a * 64 + b :: decode_runes s.
Proof.
  intros Ha Hb. rewrite !byte_string_app.
  rewrite decode_cons. cbv zeta. rewrite byte_val_of by lia. unfold first_byte, between, negb. rewrite byte_val_of by lia. byte_cases.
  f_equal; lia.
Qed.

Lemma decode_3 a b c s : 0 <= a < 16 -> 0 <= b < 64 -> 0 <= c < 64 ->
  (a = 0 -> 32 <= b) -> (a = 13 -> b < 32) ->
  decode_runes (byte_string (224 + a) +:+ byte_string (128 + b) +:+ byte_string (128 + c) +:+ s)
  = a * 4096 + b * 64 + c :: decode_runes s.
Proof.
  intros Ha Hb Hc H0 H13. rewrite !byte_string_app.
  rewrite decode_cons. cbv zeta. rewrite byte_val_of by lia. unfold first_byte, continues, between, negb. rewrite !byte_val_of by lia.
  byte_cases; f_equal; lia.
Qed.

Lemma decode_4 a b c d s : 0 <= a <= 4 -> 0 <= b < 64 -> 0 <= c < 64 -> 0 <= d < 64 ->
  (a = 0 -> 16 <= b) -> (a = 4 -> b < 16) ->
  decode_runes (byte_string (240 + a) +:+ byte_string (128 + b) +:+ byte_string (128 + c) +:+ byte_string (128 + d) +:+ s)
  = a * 262144 + b * 4096 + c * 64 + d :: decode_runes s.
Proof.
  intros Ha Hb Hc Hd H0 H4. rewrite !byte_string_app.
  rewrite decode_cons. cbv zeta. rewrite byte_val_of by lia. unfold first_byte, continues, between, negb. rewrite !byte_val_of by lia.
  byte_cases; f_equal; lia.
Qed.

(** Encoding a valid rune and decoding it. *)
Lemma decode_append r s : ValidRune r = true -> decode_runes (AppendRune r +:+ s) = r :: decode_runes s.
Proof.
  intros Hv. assert (0 <= r < 55296 \/ 57343 < r <= 1114111) as Hr.
  { unfold ValidRune in Hv. apply orb_true_iff in Hv as [Hv|Hv]; z_bool; lia. }
  unfold AppendRune.
  pose proof (Z.div_mod r 64 ltac:(lia)) as E1. pose proof (Z.mod_pos_bound r 64 ltac:(lia)) as B1.
  pose proof (Z.div_mod (r / 64) 64 ltac:(lia)) as E2. pose proof (Z.mod_pos_bound (r / 64) 64 ltac:(lia)) as B2.
  pose proof (Z.div_mod (r / 4096) 64 ltac:(lia)) as E3. pose proof (Z.mod_pos_bound (r / 4096) 64 ltac:(lia)) as B3.
  rewrite Z.div_div in E2 by lia. rewrite Z.div_div in E3 by lia. change (64 * 64) with 4096 in E2.
  change (4096 * 64) with 262144 in E3.
  destruct (Z.ltb_spec r 128) as [H1|H1]; [|destruct (Z.ltb_spec r 2048) as [H2|H2]; [|destruct (Z.ltb_spec r 65536) as [H3|H3]]].
  - rewrite byte_string_app. rewrite decode_cons. cbv zeta. rewrite byte_val_of by lia. byte_cases. done.
  - rewrite append_assoc. rewrite decode_2 by lia. f_equal. lia.
  - rewrite !append_assoc. rewrite decode_3 by lia. f_equal. lia.
  - rewrite !append_assoc. rewrite decode_4 by lia. f_equal. lia.
Qed.

Lemma decode_encode rs s : Forall (fun r => ValidRune r = true) rs ->
  decode_runes (encode_runes rs +:+ s) = rs ++ decode_runes s.
Proof.
  induction 1 as [|r rs Hr Hrs IH]; [done|]. cbn [encode_runes]. rewrite Hr, append_assoc, decode_append by done.
  simpl. by rewrite IH.
Qed.

(** Text of single-byte runes. *)
Lemma decode_ascii s : all_bytes (fun c => byte_val c <? 128) s = true -> length (decode_runes s) = String.length s.
Proof.
  induction s as [|c s IH]; [done|]. cbn [all_bytes]. intros [Hc Hs]%andb_prop. rewrite decode_cons. cbv zeta. rewrite Hc.
  cbn [List.length String.length]. by rewrite IH.
Qed.

Lemma valid_rune r : 0 <= r < 55296 \/ 57343 < r <= 1114111 -> ValidRune r = true.
Proof. intros Hr. unfold ValidRune. byte_cases; lia. Qed.

Lemma first_byte_spec b lo hi n : first_byte b = Some (lo, hi, n) ->
  n = 1%nat /\ 194 <= b <= 223 /\ lo = 128 /\ hi = 191 \/
  n = 2%nat /\ 224 <= b <= 239 /\ (lo = 128 \/ lo = 160) /\ (hi = 191 \/ hi = 159) /\
    (b = 224 -> lo = 160) /\ (b = 237 -> hi = 159) \/
  n = 3%nat /\ 240 <= b <= 244 /\ (lo = 128 \/ lo = 144) /\ (hi = 191 \/ hi = 143) /\
    (b = 240 -> lo = 144) /\ (b = 244 -> hi = 143).
Proof. unfold first_byte. byte_cases; intros E; simplify_eq; lia. Qed.

(** What is decoded can be encoded. *)
Lemma decode_valid s : Forall (fun r => ValidRune r = true) (decode_runes s).
Proof.
  enough (forall n s, (String.length s <= n)%nat -> Forall (fun r => ValidRune r = true) (decode_runes s)) as H by eauto.
  clear s. induction n as [|n IH]; intros [|c0 s1] Hn; simpl in Hn; try (constructor || lia).
  assert (ValidRune RuneError = true) as Herr by reflexivity.
  rewrite decode_cons. cbv zeta. pose proof (byte_val_bounds c0) as B0.
  destruct (Z.ltb_spec (byte_val c0) 128); [constructor; [apply valid_rune; lia|apply IH; lia]|].
  destruct (first_byte (byte_val c0)) as [[[lo hi] k]|] eqn:Ef; [|constructor; [done|apply IH; lia]].
  apply first_byte_spec in Ef. destruct s1 as [|c1 s2]; [by repeat constructor|].
  assert (Forall (fun r => ValidRune r = true) (decode_runes (String c1 s2))) as H1 by (apply IH; lia).
  simpl in Hn. destruct (between lo hi c1) eqn:E1; cbn [negb]; [|by constructor]. unfold between in E1. z_bool.
  destruct k as [|[|[|k]]]; [lia|constructor; [apply valid_rune; lia|apply IH; lia]| |].
  all: destruct s2 as [|c2 s3]; [by constructor|]; simpl in Hn.
  all: destruct (continues c2) eqn:E2; cbn [negb]; [|by constructor]; unfold continues, between in E2; z_bool.
  - constructor; [apply valid_rune; lia|apply IH; lia].
  - destruct s3 as [|c3 s4]; [by constructor|]. simpl in Hn.
    destruct (continues c3) eqn:E3; cbn [negb]; [|by constructor]. unfold continues, between in E3. z_bool.
    constructor; [apply valid_rune; lia|apply IH; lia].
Qed.

End Utf8.
