(* ===== verification/NetAddr.v ===== *)
(** * Network addresses and byte strings of the Go standard library

    Positions of bytes and substrings (package strings), host and port, IP addresses and
    CIDR blocks (packages net and net/netip). *)
From stdpp Require Import prelude strings list.
From Stdlib Require Import ZArith Lia Ascii.
From S2P Require Import Prelude.

Local Open Scope Z_scope.

Module NetAddr.

(** ** Host and port (package net) *)

Fixpoint index_byte (c : ascii) (s : string) : option nat :=
  match s with
  | EmptyString => None
  | String b s => if decide (b = c) then Some 0%nat else S <$> index_byte c s
  end.

Fixpoint last_index (c : ascii) (s : string) : option nat :=
  match s with
  | EmptyString => None
  | String b s =>
      match last_index c s with
      | Some i => Some (S i)
      | None => if decide (b = c) then Some 0%nat else None
      end
  end.

Fixpoint str_take (n : nat) (s : string) : string :=
  match n, s with
  | S n, String b s => String b (str_take n s)
  | _, _ => EmptyString
  end.
Fixpoint str_drop (n : nat) (s : string) : string :=
  match n, s with
  | 0%nat, _ => s
  | S n, String _ s => str_drop n s
  | _, EmptyString => EmptyString
  end.

Definition has_byte (c : ascii) (s : string) : bool := match index_byte c s with Some _ => true | None => false end.

(** [net.JoinHostPort] *)
Definition JoinHostPort (host port : string) : string :=
  if has_byte ":" host then "[" +:+ host +:+ "]:" +:+ port else host +:+ ":" +:+ port.

(** [net.SplitHostPort] *)
Definition split_host_port (hostport : string) : option (string * string) :=
  match last_index ":" hostport with
  | None => None
  | Some i =>
      let port := str_drop (S i) hostport in
      match hostport with
      | String "["%char rest =>
          match index_byte "]" hostport with
          | None => None
          | Some e =>
              if (S e =? i)%nat then
                let host := str_take (e - 1) rest in
                if has_byte "[" rest || has_byte "]" (str_drop (S e) hostport) then None else Some (host, port)
              else None
          end
      | _ =>
          let host := str_take i hostport in
          if has_byte ":" host || has_byte "[" hostport || has_byte "]" hostport then None
          else Some (host, port)
      end
  end.

(** Its two strings, empty on an error. *)
Definition SplitHostPort (hostport : string) : string * string := default ("", "") (split_host_port hostport).

Example split_v4 : SplitHostPort "10.0.0.1:8080" = ("10.0.0.1", "8080").
Proof. reflexivity. Qed.
Example split_v6 : SplitHostPort (JoinHostPort "fe80::1" "80") = ("fe80::1", "80").
Proof. reflexivity. Qed.

(** ** Substrings (package strings) *)

Fixpoint str_prefix (p s : string) : bool :=
  match p, s with
  | EmptyString, _ => true
  | String a p, String b s => bool_decide (a = b) && str_prefix p s
  | _, _ => false
  end.

(** [strings.Index] *)
Fixpoint str_index (p s : string) : option nat :=
  if str_prefix p s then Some 0%nat
  else match s with
       | EmptyString => None
       | String _ s => S <$> str_index p s
       end.

(** [strings.Split] at a byte. *)
Fixpoint split_byte (c : ascii) (s : string) : list string :=
  match s with
  | EmptyString => [EmptyString]
  | String b s =>
      if decide (b = c) then EmptyString :: split_byte c s
      else match split_byte c s with
           | [] => [String b EmptyString]
           | x :: l => String b x :: l
           end
  end.

(** [strings.HasSuffix] for one byte. *)
Fixpoint ends_with (c : ascii) (s : string) : bool :=
  match s with
  | EmptyString => false
  | String b EmptyString => bool_decide (b = c)
  | String _ s => ends_with c s
  end.

(** ** IP addresses *)

(** The fields of an IPv4 address: [val] and [digits] describe the field under way, [pos]
    counts the fields before it. *)
Fixpoint v4_fields (s : string) (val digits pos : Z) : bool :=
  match s with
  | EmptyString => (pos =? 3) && (0 <? digits)
  | String c s =>
      if is_digit c then
        if (digits =? 1) && (val =? 0) then false
        else let val := val * 10 + digit_val c in
             if 255 <? val then false else v4_fields s val (digits + 1) pos
      else if decide (c = "."%char) then
        if (digits =? 0) || (pos =? 3) then false else v4_fields s 0 0 (pos + 1)
      else false
  end.

Definition valid_v4 (s : string) : bool := v4_fields s 0 0 0.

Definition is_hex (c : ascii) : bool := is_digit c || in_range "a" "f" c || in_range "A" "F" c.

(** The groups of an IPv6 address: [n] bytes are filled, [ellipsis] tells whether a double
    colon has been seen; each turn reads a group, so the length of the text is fuel
    enough. *)
Fixpoint v6_groups (fuel : nat) (s : string) (n : Z) (ellipsis : bool) : bool :=
  match fuel with
  | 0%nat => false
  | S fuel =>
      let '(group, rest) := span is_hex s in
      if 16 <=? n then false
      else if decide (group = "") then false
      else if (4 <? String.length group)%nat then false
      else match rest with
           | EmptyString => if n + 2 =? 16 then negb ellipsis else ellipsis
           | String c rest' =>
               if decide (c = "."%char) then
                 if negb ellipsis && negb (n =? 12) then false
                 else if 16 <? n + 4 then false
                 else valid_v4 s && (if n + 4 =? 16 then negb ellipsis else ellipsis)
               else if decide (c = ":"%char) then
                 match rest' with
                 | EmptyString => false
                 | String ":"%char rest'' =>
                     if ellipsis then false
                     else if decide (rest'' = "") then n + 2 <? 16
                     else v6_groups fuel rest'' (n + 2) true
                 | _ => v6_groups fuel rest' (n + 2) ellipsis
                 end
               else false
           end
  end.

Definition valid_v6 (s : string) : bool :=
  match s with
  | String ":"%char (String ":"%char rest) =>
      if decide (rest = "") then true else v6_groups (S (String.length rest)) rest 0 true
  | _ => v6_groups (S (String.length s)) s 0 false
  end.

(** The first dot or colon decides the kind; [None] without one. *)
Fixpoint ip_kind (s : string) : option bool :=
  match s with
  | EmptyString => None
  | String c s =>
      if decide (c = "."%char) then Some true
      else if decide (c = ":"%char) then Some false
      else if decide (c = "%"%char) then None
      else ip_kind s
  end.

(** [net.ParseIP] succeeds; the width of the address. *)
Definition ip_width (s : string) : option Z :=
  match ip_kind s with
  | Some true => if valid_v4 s then Some 32 else None
  | Some false => if valid_v6 s then Some 128 else None
  | None => None
  end.
Definition ParseIP (s : string) : bool := match ip_width s with Some _ => true | None => false end.

(** [net.ParseCIDR] succeeds. *)
Definition ParseCIDR (s : string) : bool :=
  match index_byte "/" s with
  | None => false
  | Some i =>
      match ip_width (str_take i s), parse_nat (str_drop (S i) s) with
      | Some w, Some n => n <=? w
      | _, _ => false
      end
  end.

Example ip_samples : ParseIP <$> ["10.0.0.1"; "10.0.0.256"; "10.0.0"; "010.0.0.1"; "::1"; "fe80::1"; "1::2::3"; "::"; "1:2:3:4:5:6:7:8"; "::1.2.3.4"; "1:2:3:4:5:6:7::"]
  = [true; false; false; false; true; true; false; true; true; true; true].
Proof. reflexivity. Qed.
Example cidr_samples : ParseCIDR <$> ["10.0.0.0/8"; "10.0.0.0/33"; "10.0.0/8"; "::/0"; "fe80::/129"; "10.0.0.0/"]
  = [true; false; false; true; false; false].
Proof. reflexivity. Qed.

(** ** Lemmas *)

Definition no_byte (c : ascii) (s : string) : bool := all_bytes (fun b => negb (bool_decide (b = c))) s.

Lemma has_byte_no c s : has_byte c s = negb (no_byte c s).
Proof.
  unfold has_byte, no_byte. induction s as [|b s IH]; simpl; [done|].
  case_decide; case_bool_decide; try done. simpl. rewrite <- IH. by destruct (index_byte c s).
Qed.

Lemma no_byte_app c a b : no_byte c (a +:+ b) = no_byte c a && no_byte c b.
Proof. unfold no_byte. induction a as [|x a IH]; simpl; [done|]. by rewrite IH, andb_assoc. Qed.

Lemma last_index_none c s : no_byte c s = true -> last_index c s = None.
Proof.
  unfold no_byte. induction s as [|b s IH]; simpl; [done|]. intros [Hb Hs]%andb_prop.
  rewrite (IH Hs). case_decide; [|done]. by rewrite bool_decide_true in Hb.
Qed.

Lemma last_index_app c a s : no_byte c s = true -> last_index c (a +:+ String c s) = Some (String.length a).
Proof.
  intros Hs. induction a as [|b a IH]; simpl.
  - rewrite last_index_none by done. by rewrite decide_True.
  - by rewrite IH.
Qed.

Lemma index_byte_app c a s : no_byte c a = true -> index_byte c (a +:+ String c s) = Some (String.length a).
Proof.
  unfold no_byte. induction a as [|b a IH]; simpl; [by rewrite decide_True|].
  intros [Hb Ha]%andb_prop. rewrite decide_False; [by rewrite IH|].
  intros ->. by rewrite bool_decide_true in Hb.
Qed.

Lemma str_length_app (a b : string) : String.length (a +:+ b) = (String.length a + String.length b)%nat.
Proof. induction a as [|x a IH]; [done|]. rewrite append_cons. simpl. by rewrite IH. Qed.

Lemma str_take_app a s : str_take (String.length a) (a +:+ s) = a.
Proof. induction a as [|b a IH]; simpl; [by destruct s|]. by rewrite IH. Qed.

Lemma str_drop_app a s : str_drop (String.length a) (a +:+ s) = s.
Proof. by induction a. Qed.

Lemma str_drop_app1 a b s : str_drop (S (String.length a)) (a +:+ String b s) = s.
Proof. by induction a. Qed.

Lemma str_index_app a s : no_byte ":" a = true -> str_index "://" (a +:+ "://" +:+ s) = Some (String.length a).
Proof.
  unfold no_byte. induction a as [|b a IH]; [done|]. rewrite append_cons. cbn [all_bytes]. intros [Hb Ha]%andb_prop.
  apply negb_true_iff, bool_decide_eq_false in Hb. cbn [str_index str_prefix].
  rewrite (bool_decide_false (":"%char = b)) by congruence. simpl. by rewrite (IH Ha).
Qed.

(** The decimal digits of one field of an IPv4 address. *)
Fixpoint v4_digits (s : string) (val digits : Z) : option (Z * Z) :=
  match s with
  | EmptyString => Some (val, digits)
  | String c s =>
      if (digits =? 1) && (val =? 0) then None
      else let val := val * 10 + digit_val c in if 255 <? val then None else v4_digits s val (digits + 1)
  end.

Lemma v4_fields_digits f rest pos : all_bytes is_digit f = true -> forall val digits,
  v4_fields (f +:+ rest) val digits pos =
    match v4_digits f val digits with Some (v, d) => v4_fields rest v d pos | None => false end.
Proof.
  induction f as [|c f IH]; intros Hf val digits; [done|]. rewrite append_cons. cbn [all_bytes] in Hf. apply andb_prop in Hf as [Hc Hf].
  cbn [v4_fields v4_digits]. rewrite Hc. destruct (_ && _); [done|]. destruct (255 <? _); [done|]. by apply IH.
Qed.

Definition v4_field_ok (n : Z) : bool :=
  match v4_digits (format_nat n) 0 0 with Some (_, d) => (n <=? 255) && (0 <? d) | None => 255 <? n end.

Lemma v4_field_checked : forallb v4_field_ok (seqZ 0 1000) = true.
Proof. vm_compute. reflexivity. Qed.

(** A number of up to three digits is a field of an IPv4 address exactly up to 255. *)
Lemma v4_field n : 0 <= n < 1000 ->
  match v4_digits (format_nat n) 0 0 with Some (_, d) => n <= 255 /\ 0 < d | None => 255 < n end.
Proof.
  intros Hn. pose proof v4_field_checked as H. rewrite forallb_forall in H. specialize (H n).
  unfold v4_field_ok in H. destruct (v4_digits (format_nat n) 0 0) as [[v d]|].
  - assert ((n <=? 255) && (0 <? d) = true) as E by (apply H, list_elem_of_In, elem_of_seqZ; lia). z_bool. lia.
  - assert ((255 <? n) = true) as E by (apply H, list_elem_of_In, elem_of_seqZ; lia). z_bool. lia.
Qed.

Definition v4_text (a b c d : Z) : string :=
  format_nat a +:+ "." +:+ format_nat b +:+ "." +:+ format_nat c +:+ "." +:+ format_nat d.

Lemma v4_step n rest pos : 0 <= n < 1000 -> pos <> 3 ->
  v4_fields (format_nat n +:+ "." +:+ rest) 0 0 pos = (n <=? 255) && v4_fields rest 0 0 (pos + 1).
Proof.
  intros Hn Hp. rewrite v4_fields_digits by (apply all_bytes_format_nat; lia). pose proof (v4_field n Hn) as Hf.
  destruct (v4_digits (format_nat n) 0 0) as [[v d]|].
  - change ("." +:+ rest) with (String "." rest). cbn [v4_fields]. change (is_digit ".") with false. cbn match.
    rewrite (decide_True (P := "."%char = "."%char)) by done.
    rewrite (proj2 (Z.eqb_neq d 0)), (proj2 (Z.eqb_neq pos 3)), (proj2 (Z.leb_le n 255)) by lia. done.
  - by rewrite (proj2 (Z.leb_gt n 255)).
Qed.

(** Four fields are a valid IPv4 address exactly when none exceeds 255. *)
Lemma v4_text_valid a b c d : 0 <= a < 1000 -> 0 <= b < 1000 -> 0 <= c < 1000 -> 0 <= d < 1000 ->
  valid_v4 (v4_text a b c d) = (a <=? 255) && ((b <=? 255) && ((c <=? 255) && (d <=? 255))).
Proof.
  intros Ha Hb Hc Hd. unfold valid_v4, v4_text. rewrite !v4_step by lia. do 3 f_equal.
  rewrite <- (append_nil_r (format_nat d)), v4_fields_digits by (apply all_bytes_format_nat; lia). pose proof (v4_field d Hd) as Hf.
  destruct (v4_digits (format_nat d) 0 0) as [[v n]|]; simpl.
  - rewrite (proj2 (Z.leb_le d 255)) by lia. apply Z.ltb_lt. lia.
  - symmetry. apply Z.leb_gt. lia.
Qed.

End NetAddr.
