(* ===== verification/Scan.v ===== *)
(** * Scanning: the part of [fmt.Sscanf] that the rate and the size parsers use

    A scanner step takes the unread input and returns the value read with the
    rest of the input, or [None] when [Sscanf] reports an error.  Input left
    over after the last verb is not an error. *)
From stdpp Require Import prelude strings list.
From Stdlib Require Import ZArith Lia Ascii.
From S2P Require Import Prelude.
Local Open Scope Z_scope.

Module Scan.

(** Leading spaces are skipped; a newline is an error. *)
Fixpoint SkipSpace (s : string) : option string :=
  match s with
  | EmptyString => Some EmptyString
  | String c s' =>
      if byte_val c =? 10 then None
      else if is_space c then SkipSpace s' else Some s
  end.

(** [%d] into a signed integer of [bits] bits: an optional sign, digits. *)
Definition scan_int (bits : Z) (s : string) : option (Z * string) :=
  s ← SkipSpace s;
  let '(sign, body) :=
    match s with
    | String "-" t => ("-", t)
    | String "+" t => ("+", t)
    | _ => (EmptyString, s)
    end in
  let '(tok, rest) := span is_digit body in
  z ← ParseInt bits (sign +:+ tok);
  Some (z, rest).

(** [%d] into an unsigned 64-bit integer: digits only. *)
Definition scan_uint64 (s : string) : option (Z * string) :=
  s ← SkipSpace s;
  let '(tok, rest) := span is_digit s in
  z ← parse_nat tok;
  if z <? 2 ^ 64 then Some (z, rest) else None.

(** A literal of the format, byte by byte. *)
Fixpoint scan_lit (lit s : string) : option string :=
  match lit, s with
  | EmptyString, _ => Some s
  | String l lit', String c s' => if decide (l = c) then scan_lit lit' s' else None
  | String _ _, EmptyString => None
  end.

(** [%s]: the next word. *)
Definition scan_word (s : string) : option (string * string) :=
  s ← SkipSpace s;
  match s with
  | EmptyString => None
  | _ => Some (span (fun c => negb (is_space c)) s)
  end.

Lemma scan_lit_app lit s : scan_lit lit (lit +:+ s) = Some s.
Proof.
  induction lit as [|c lit IH]; [done|]. rewrite ?append_cons. simpl.
  by rewrite decide_True.
Qed.

Lemma digit_not_space c : is_digit c = true -> is_space c = false /\ byte_val c <> 10.
Proof.
  unfold is_digit, in_range, is_space.
  change (byte_val "0") with 48. change (byte_val "9") with 57. intros; z_bool. split; lia.
Qed.

Lemma SkipSpace_stop s c t :
  s = String c t -> is_space c = false -> SkipSpace s = Some s.
Proof.
  intros -> Hc. simpl.
  destruct (Z.eqb_spec (byte_val c) 10) as [E|].
  - exfalso. revert Hc. unfold is_space. rewrite E. done.
  - by rewrite Hc.
Qed.

(** Scanning a printed number gives the number and leaves the rest. *)
Lemma scan_int_FormatInt bits z rest :
  - 2 ^ (bits - 1) <= z < 2 ^ (bits - 1) -> stops is_digit rest = true ->
  scan_int bits (FormatInt z +:+ rest) = Some (z, rest).
Proof.
  intros Hz Hr. unfold scan_int.
  assert (SkipSpace (FormatInt z +:+ rest) = Some (FormatInt z +:+ rest)) as ->.
  { unfold FormatInt. destruct (Z.ltb_spec z 0); [by eapply SkipSpace_stop|].
    destruct (format_nat_head z) as (c & t & -> & Hc); [lia|].
    eapply SkipSpace_stop; [done|]. by apply digit_not_space. }
  simpl. pose proof (ParseInt_FormatInt bits z Hz) as HP. revert HP.
  unfold FormatInt. destruct (Z.ltb_spec z 0).
  - intros HP. rewrite append_cons. rewrite span_app by (try apply all_bytes_format_nat; done || lia).
    change ("-" +:+ format_nat (- z)) with (String "-" (format_nat (- z))). by rewrite HP.
  - destruct (format_nat_head z) as (c & t & E & Hc); [lia|].
    pose proof (all_bytes_format_nat z ltac:(lia)) as Ha. rewrite E in *. intros HP.
    apply digit_not_sign in Hc as [Hm Hp].
    assert (match String c t +:+ rest with
            | String "-" t0 => ("-", t0)
            | String "+" t0 => ("+", t0)
            | _ => (EmptyString, String c t +:+ rest) end
            = (EmptyString, String c t +:+ rest)) as ->.
    { rewrite append_cons. by repeat (case_match; simplify_eq). }
    rewrite span_app by done. change (EmptyString +:+ String c t) with (String c t).
    by rewrite HP.
Qed.

Lemma scan_uint64_format_nat n rest :
  0 <= n < 2 ^ 64 -> stops is_digit rest = true ->
  scan_uint64 (format_nat n +:+ rest) = Some (n, rest).
Proof.
  intros Hn Hr. unfold scan_uint64.
  destruct (format_nat_head n) as (c & t & E & Hc); [lia|].
  assert (SkipSpace (format_nat n +:+ rest) = Some (format_nat n +:+ rest)) as ->.
  { rewrite E. eapply SkipSpace_stop; [done|]. by apply digit_not_space. }
  simpl. rewrite span_app; [|apply all_bytes_format_nat; lia|done].
  rewrite parse_nat_format_nat by lia. simpl.
  destruct (Z.ltb_spec n (2 ^ 64)); [done|lia].
Qed.

(** A word without spaces is read whole. *)
Lemma scan_word_all c t :
  all_bytes (fun c => negb (is_space c)) (String c t) = true ->
  scan_word (String c t) = Some (String c t, EmptyString).
Proof.
  intros H. unfold scan_word.
  rewrite (SkipSpace_stop _ c t); [|done|].
  - change (Some (span (fun c => negb (is_space c)) (String c t))
            = Some (String c t, EmptyString)).
    f_equal. by apply span_all.
  - simpl in H. apply andb_prop in H as [H _]. by apply negb_true_iff in H.
Qed.

End Scan.
