(* ===== verification/Rate.v ===== *)
(** * Rates: infra/ratelimit/time.go and infra/ratelimit/limit.go

    A rate is a number of events per time unit, written [10r/s].  The file
    models the time units and their two lookup tables, the textual form and
    its parser ([fmt.Sscanf] with [%dr/%s]), the interval between two events
    and the validity test that decides between a limiting zone and a
    forbidden one. *)
From stdpp Require Import prelude strings list.
From Stdlib Require Import ZArith Lia Ascii.
From S2P Require Import Prelude Scan.
Local Open Scope Z_scope.

Module Rate.

(** ** time.go: durations in nanoseconds *)

Definition Millisecond : Z := 1000000.
Definition Second : Z := 1000 * Millisecond.
Definition Minute : Z := 60 * Second.
Definition Hour : Z := 60 * Minute.
Definition Day : Z := 24 * Hour.
Definition Week : Z := 7 * Day.
Definition MinInterval : Z := Millisecond.

Definition timeUnitMap : list (Z * string) :=
  [(u64 Millisecond, "ms"); (u64 Second, "s"); (u64 Minute, "m");
   (u64 Hour, "h"); (u64 Day, "d"); (u64 Week, "w")].

Definition unitTimeMap : list (string * Z) :=
  [("ms", u64 Millisecond); ("s", u64 Second); ("m", u64 Minute);
   ("h", u64 Hour); ("d", u64 Day); ("w", u64 Week);
   ("msec", u64 Millisecond); ("sec", u64 Second); ("min", u64 Minute);
   ("hour", u64 Hour); ("day", u64 Day); ("week", u64 Week)].

Definition parseTimeUnit (spec : string) : Z * bool :=
  match assoc_lookup spec unitTimeMap with
  | Some unit => (i64 unit, true)
  | None => (0, false)
  end.

Definition formatTimeUnit (unit : Z) : string :=
  match assoc_lookup (u64 unit) timeUnitMap with
  | Some spec => spec
  | None => "-"
  end.

(** ** limit.go *)

(** [Rate]; a [*Rate] is an [option Rate], [None] for nil. *)
Record Rate := mkRate { Limit : Z; Window : Z }.

Definition rate_zero : Rate := mkRate 0 0.

(** The fields hold Go [int] and [time.Duration] values. *)
Definition rate_wf (v : Rate) : Prop :=
  min_int64 <= Limit v <= max_int64 /\ min_int64 <= Window v <= max_int64.

Definition rate_text (v : Rate) : string :=
  FormatInt (Limit v) +:+ "r/" +:+ formatTimeUnit (Window v).

Definition Rate_String (v : option Rate) : string :=
  match v with
  | None => "0r/s"
  | Some v => rate_text v
  end.

Definition Every (v : option Rate) : Z :=
  match v with
  | Some v =>
      if (0 <? Limit v) && (0 <? Window v)
      then i64 (u64 (Window v) / u64 (Limit v))
      else 0
  | None => 0
  end.

Definition Rate_IsValid (v : option Rate) : bool :=
  0 <? Z.quot (Every v) MinInterval.

(** [MarshalText]: [None] is the nil text. *)
Definition Rate_MarshalText (v : option Rate) : option string :=
  match v with
  | None => None
  | Some v => Some (rate_text v)
  end.

Definition ParseRate (spec : string) : Rate * bool :=
  let scanned :=
    '(max, rest) ← Scan.scan_int 64 spec;
    rest ← Scan.scan_lit "r/" rest;
    '(per, _) ← Scan.scan_word rest;
    Some (max, per) in
  match scanned with
  | None => (rate_zero, false)
  | Some (max, per) =>
      let '(unit, ok) := parseTimeUnit per in
      if ok then (mkRate max unit, true) else (rate_zero, false)
  end.

(** The receiver is overwritten in every case; the flag is [err != nil]. *)
Definition Rate_UnmarshalText (text : string) : Rate * bool :=
  let '(v1, ok) := ParseRate text in (v1, negb ok).

Definition MustRate (spec : string) : outcome Rate :=
  let '(v, ok) := ParseRate spec in
  if ok then Ret v else Panic "rate: invalid spec".

(** ** Lemmas *)

(** The windows that have a name. *)
Definition known_units : list Z := [Millisecond; Second; Minute; Hour; Day; Week].

Lemma parse_format_unit w :
  w ∈ known_units ->
  parseTimeUnit (formatTimeUnit w) = (w, true) /\
  exists c t, formatTimeUnit w = String c t /\
    all_bytes (fun c => negb (is_space c)) (String c t) = true.
Proof.
  unfold known_units. intros Hw.
  repeat (apply elem_of_cons in Hw as [->|Hw];
          [split; [reflexivity|by eexists _, _]|]).
  by apply elem_of_nil in Hw.
Qed.

Lemma unitTimeMap_known s u :
  assoc_lookup s unitTimeMap = Some u -> u ∈ known_units.
Proof.
  intros H%assoc_lookup_In. revert H. unfold unitTimeMap.
  rewrite !elem_of_cons, elem_of_nil.
  intros H. repeat destruct H as [[= -> ->]|H]; try done;
    unfold known_units; rewrite !elem_of_cons; vm_compute; tauto.
Qed.

Lemma Every_some v :
  rate_wf v -> 0 < Limit v -> 0 < Window v -> Every (Some v) = Window v / Limit v.
Proof.
  intros [HL HW] Hl Hw. unfold max_int64, min_int64 in *. simpl.
  destruct (Z.ltb_spec 0 (Limit v)), (Z.ltb_spec 0 (Window v)); try lia. simpl.
  rewrite !wrap_unsigned_small by lia. apply wrap_signed_small; [lia|].
  assert (0 <= Window v / Limit v) by (apply Z.div_pos; lia).
  assert (Window v / Limit v <= Window v) by (apply Z.div_le_upper_bound; nia).
  lia.
Qed.

(** ** Properties *)

(** The textual form of a rate reads back as that rate: for every 64-bit
    limit (negative and zero included) and every window that has a unit name,
    [ParseRate] of [String] gives the same rate and reports success. *)
Theorem parse_rate_text v :
  min_int64 <= Limit v <= max_int64 -> Window v ∈ known_units ->
  ParseRate (Rate_String (Some v)) = (v, true).
Proof.
  intros HL HW. apply parse_format_unit in HW as (HP & c & t & E & Ht).
  unfold ParseRate, Rate_String, rate_text. unfold max_int64, min_int64 in HL.
  rewrite Scan.scan_int_FormatInt by (done || lia). cbn [mbind option_bind].
  rewrite Scan.scan_lit_app, E. cbn [mbind option_bind].
  rewrite (Scan.scan_word_all c t) by done. cbn [mbind option_bind].
  rewrite <- E, HP. by destruct v.
Qed.

Lemma parse_rate_text_witness :
  Rate_String (Some (mkRate (-15) Minute)) = "-15r/m" /\
  ParseRate (Rate_String (Some (mkRate (-15) Minute))) = (mkRate (-15) Minute, true).
Proof.
  split; [reflexivity|]. apply (parse_rate_text (mkRate (-15) Minute)); [done|].
  by do 2 right; left.
Defined.

(** A rate is valid, so that a zone is built for it, exactly when its limit
    and its window are positive and it asks for at most one event per
    millisecond on average; every other rate is treated as forbidden. *)
Theorem is_valid_iff v :
  rate_wf v ->
  Rate_IsValid (Some v) = true <->
  0 < Limit v /\ 0 < Window v /\ Limit v * MinInterval <= Window v.
Proof.
  intros Hwf. unfold Rate_IsValid.
  destruct (decide (0 < Limit v /\ 0 < Window v)) as [[Hl Hw]|Hn].
  - rewrite Every_some by done. unfold MinInterval, Millisecond.
    assert (0 <= Window v / Limit v) by (apply Z.div_pos; lia).
    rewrite Z.quot_div_nonneg by lia. rewrite Z.ltb_lt, Z.div_div by lia.
    rewrite div_pos_iff by lia. lia.
  - assert (Every (Some v) = 0) as ->.
    { simpl. by destruct (Z.ltb_spec 0 (Limit v)), (Z.ltb_spec 0 (Window v)); try lia. }
    split; [done|]. lia.
Qed.

Lemma is_valid_iff_witness :
  Rate_IsValid (Some (mkRate 1000 Second)) = true /\
  Rate_IsValid (Some (mkRate 1001 Second)) = false.
Proof.
  split.
  - apply (is_valid_iff (mkRate 1000 Second)); vm_compute; intuition discriminate.
  - reflexivity.
Defined.

(** Whatever text is read, a parsed window is one of the six units. *)
Lemma ParseRate_window spec v :
  ParseRate spec = (v, true) -> Window v ∈ known_units.
Proof.
  unfold ParseRate. case_match eqn:Hs; [|done]. destruct p as [max per].
  unfold parseTimeUnit. destruct (assoc_lookup per unitTimeMap) as [u|] eqn:Hu;
    simpl; intros Heq; simplify_eq. simpl. apply unitTimeMap_known in Hu.
  assert (i64 u = u) as ->; [|done]. revert Hu. unfold known_units.
  rewrite !elem_of_cons, elem_of_nil. by intros [->|[->|[->|[->|[->|[->|[]]]]]]].
Qed.

End Rate.
