(* ===== verification/Float64.v ===== *)
(** * Binary64: the [float64] arithmetic the repository relies on

    A finite double is kept as a fraction: [fnum / fden], the denominator a
    power of two.  Every operation is the exact rational result rounded to
    53 significant bits, to nearest, ties to even.  The operands the code
    computes with (seconds, byte counts and their ratios) stay between
    [2 ^ -60] and [2 ^ 80], so neither overflow nor subnormal numbers occur
    and the exponent range is not bounded. *)
From stdpp Require Import prelude.
From Stdlib Require Import ZArith Lia.
From S2P Require Import Prelude.
Local Open Scope Z_scope.

Module Float64.

Record f64 := mkF { fnum : Z; fden : Z }.

(** The integer nearest to [n / d], ties to even. *)
Definition rne_div (n d : Z) : Z :=
  let q := n / d in
  let r := n mod d in
  if 2 * r <? d then q
  else if d <? 2 * r then q + 1
  else if Z.even q then q else q + 1.

(** The exponent [e] with [2 ^ 52 <= (n / d) / 2 ^ e < 2 ^ 53]. *)
Definition lsb_exp (n d : Z) : Z :=
  let l := Z.log2 n - Z.log2 d in
  let below := if 0 <=? l then n <? d * 2 ^ l else n * 2 ^ (- l) <? d in
  (if below then l - 1 else l) - 52.

(** The double nearest to the positive fraction [n / d]. *)
Definition round_pos (n d : Z) : f64 :=
  let e := lsb_exp n d in
  if 0 <=? e then mkF (rne_div n (d * 2 ^ e) * 2 ^ e) 1
  else mkF (rne_div (n * 2 ^ (- e)) d) (2 ^ (- e)).

Definition fneg (x : f64) : f64 := mkF (- fnum x) (fden x).

(** The double nearest to [n / d], [0 < d]. *)
Definition f64_round (n d : Z) : f64 :=
  if n =? 0 then mkF 0 1
  else if n <? 0 then fneg (round_pos (- n) d) else round_pos n d.

Definition of_Z (z : Z) : f64 := f64_round z 1.
Definition fadd (x y : f64) : f64 :=
  f64_round (fnum x * fden y + fnum y * fden x) (fden x * fden y).
Definition fmul (x y : f64) : f64 := f64_round (fnum x * fnum y) (fden x * fden y).
Definition fsub (x y : f64) : f64 := fadd x (fneg y).

(** Division by a positive double. *)
Definition fdiv (x y : f64) : f64 := f64_round (fnum x * fden y) (fden x * fnum y).

(** [math.Ceil] and the truncating conversion to an integer. *)
Definition fceil (x : f64) : Z := - ((- fnum x) / fden x).
Definition ftrunc (x : f64) : Z := Z.quot (fnum x) (fden x).

(** ** Rounding to the nearest integer *)

Lemma rne_div_lower n d j : 0 < d -> j * d <= n -> j <= rne_div n d.
Proof.
  intros Hd H. unfold rne_div.
  assert (j <= n / d) by (apply Z.div_le_lower_bound; lia).
  repeat case_match; lia.
Qed.

Lemma rne_div_upper n d j : 0 < d -> n <= j * d -> rne_div n d <= j.
Proof.
  intros Hd H. unfold rne_div.
  pose proof (Z.div_mod n d ltac:(lia)). pose proof (Z.mod_pos_bound n d Hd).
  assert (n / d <= j) by (apply Z.div_le_upper_bound; lia).
  repeat case_match; z_bool; try lia; assert (n / d < j) by nia; lia.
Qed.

(** More than half a unit above an integer rounds up. *)
Lemma rne_div_above n d j : 0 < d -> d < 2 * (n - j * d) -> j < rne_div n d.
Proof.
  intros Hd H. unfold rne_div.
  pose proof (Z.div_mod n d ltac:(lia)). pose proof (Z.mod_pos_bound n d Hd).
  assert (j <= n / d) by (apply Z.div_le_lower_bound; nia).
  destruct (decide (j = n / d)) as [->|]; [|repeat case_match; lia].
  repeat case_match; z_bool; nia.
Qed.

(** ** The exponent *)

Lemma lsb_exp_spec n d :
  0 < n -> 0 < d ->
  let e := lsb_exp n d in
  (0 <= e -> d * 2 ^ e * 2 ^ 52 <= n < d * 2 ^ e * 2 ^ 53) /\
  (e < 0 -> d * 2 ^ 52 <= n * 2 ^ (- e) < d * 2 ^ 53).
Proof.
  intros Hn Hd. unfold lsb_exp.
  pose proof (Z.log2_spec n Hn) as [Hn1 Hn2]. pose proof (Z.log2_spec d Hd) as [Hd1 Hd2].
  pose proof (Z.log2_nonneg n). pose proof (Z.log2_nonneg d).
  set (a := Z.log2 n) in *. set (b := Z.log2 d) in *.
  (* scale everything by a common power of two *)
  assert (forall l, 0 <= l -> 2 ^ (Z.succ l) = 2 * 2 ^ l) as Hs by (intros; apply Z.pow_succ_r; lia).
  rewrite Hs in Hn2, Hd2 by lia.
  (* bracket: with l = a - b, d * 2^(l-1) < n < d * 2^(l+1), scaled by 2^b *)
  assert (forall k, 0 <= k -> 2 ^ k > 0) as Hp by (intros; lia).
  destruct (Z.leb_spec 0 (a - b)) as [Hl|Hl].
  - assert (2 ^ a = 2 ^ (a - b) * 2 ^ b) as Ea by (rewrite <- Z.pow_add_r by lia; f_equal; lia).
    set (l := a - b) in *.
    assert (n < 2 * (d * 2 ^ l)) by nia.
    assert (d * 2 ^ l < 2 * n) by nia.
    destruct (Z.ltb_spec n (d * 2 ^ l)) as [Hb|Hb]; split; intros He.
    + assert (2 ^ l = 2 * (2 ^ (l - 1 - 52) * 2 ^ 52)) as E
        by (rewrite <- Z.pow_add_r, <- Z.pow_succ_r by lia; f_equal; lia).
      change (2 ^ 53) with (2 * 2 ^ 52). nia.
    + assert (2 ^ 53 = 2 ^ l * 2 ^ (- (l - 1 - 52))) as E
        by (rewrite <- Z.pow_add_r by lia; f_equal; lia).
      assert (2 * 2 ^ 52 = 2 ^ 53) as E2 by done.
      pose proof (Hp (- (l - 1 - 52)) ltac:(lia)). split; [|nia].
      assert (2 * (d * 2 ^ 52) <= 2 * (n * 2 ^ (- (l - 1 - 52)))); [|lia]. nia.
    + assert (2 ^ l = 2 ^ (l - 52) * 2 ^ 52) as E by (rewrite <- Z.pow_add_r by lia; f_equal; lia).
      change (2 ^ 53) with (2 * 2 ^ 52). nia.
    + assert (2 ^ 52 = 2 ^ l * 2 ^ (- (l - 52))) as E
        by (rewrite <- Z.pow_add_r by lia; f_equal; lia).
      change (2 ^ 53) with (2 * 2 ^ 52). pose proof (Hp (- (l - 52)) ltac:(lia)). nia.
  - assert (2 ^ b = 2 ^ (- (a - b)) * 2 ^ a) as Ea by (rewrite <- Z.pow_add_r by lia; f_equal; lia).
    set (l := a - b) in *. set (m := - l) in *.
    assert (n * 2 ^ m < 2 * d) by nia.
    assert (d < 2 * (n * 2 ^ m)) by nia.
    destruct (Z.ltb_spec (n * 2 ^ m) d) as [Hb|Hb]; split; intros He; try lia.
    + assert (2 ^ (- (l - 1 - 52)) = 2 ^ m * 2 ^ 53) as E
        by (rewrite <- Z.pow_add_r by lia; f_equal; lia).
      assert (2 * 2 ^ 52 = 2 ^ 53) as E2 by done. nia.
    + assert (2 ^ (- (l - 52)) = 2 ^ m * 2 ^ 52) as E
        by (rewrite <- Z.pow_add_r by lia; f_equal; lia).
      change (2 ^ 53) with (2 * 2 ^ 52). nia.
Qed.

(** ** Rounding a positive fraction *)

Lemma round_pos_den n d : 0 < fden (round_pos n d).
Proof. unfold round_pos. case_match; simpl; z_bool; lia. Qed.

(** Integers up to [2 ^ 53] are doubles, so rounding does not cross them. *)
Lemma round_pos_lower n d k :
  0 < n -> 0 < d -> 0 <= k <= 2 ^ 53 -> k * d <= n ->
  k * fden (round_pos n d) <= fnum (round_pos n d).
Proof.
  intros Hn Hd Hk H. pose proof (lsb_exp_spec n d Hn Hd) as [He1 He2].
  unfold round_pos. set (e := lsb_exp n d) in *.
  destruct (Z.leb_spec 0 e); simpl.
  - specialize (He1 ltac:(done)).
    assert (2 ^ 52 <= rne_div n (d * 2 ^ e)) by (apply rne_div_lower; lia).
    destruct (decide (e = 0)) as [->|].
    + rewrite !Z.mul_1_r in *. by apply rne_div_lower.
    + assert (2 ^ 1 <= 2 ^ e) by (apply Z.pow_le_mono_r; lia).
      assert (2 ^ 53 = 2 ^ 52 * 2 ^ 1) by done. nia.
  - apply rne_div_lower; [done|]. assert (0 < 2 ^ (- e)) by lia. nia.
Qed.

Lemma round_pos_upper n d k :
  0 < n -> 0 < d -> 0 <= k < 2 ^ 53 -> n <= k * d ->
  fnum (round_pos n d) <= k * fden (round_pos n d).
Proof.
  intros Hn Hd Hk H. pose proof (lsb_exp_spec n d Hn Hd) as [He1 He2].
  unfold round_pos. set (e := lsb_exp n d) in *.
  destruct (Z.leb_spec 0 e); simpl.
  - specialize (He1 ltac:(done)).
    destruct (decide (e = 0)) as [->|].
    + rewrite !Z.mul_1_r in *. by apply rne_div_upper.
    + assert (2 ^ 1 <= 2 ^ e) by (apply Z.pow_le_mono_r; lia).
      assert (2 ^ 53 = 2 ^ 52 * 2 ^ 1) by done. nia.
  - apply rne_div_upper; [done|]. assert (0 < 2 ^ (- e)) by lia. nia.
Qed.

(** Rounding loses less than half of the value. *)
Lemma round_pos_half n d :
  0 < n -> 0 < d -> n * fden (round_pos n d) <= 2 * d * fnum (round_pos n d).
Proof.
  intros Hn Hd. pose proof (lsb_exp_spec n d Hn Hd) as [He1 He2].
  unfold round_pos. set (e := lsb_exp n d) in *.
  destruct (Z.leb_spec 0 e); simpl.
  - specialize (He1 ltac:(done)).
    assert (2 ^ 52 <= rne_div n (d * 2 ^ e)) by (apply rne_div_lower; lia).
    assert (0 < 2 ^ e) by lia. nia.
  - specialize (He2 ltac:(done)).
    assert (2 ^ 52 <= rne_div (n * 2 ^ (- e)) d) by (apply rne_div_lower; lia). nia.
Qed.

(** Below [2 ^ 23] a fraction above [k] by more than [2 ^ -31] stays above it. *)
Lemma round_pos_above n d k :
  0 < n -> 0 < d -> n < 2 ^ 23 * d -> d < 2 ^ 31 * (n - k * d) ->
  k * fden (round_pos n d) < fnum (round_pos n d).
Proof.
  intros Hn Hd Hs Hf. pose proof (lsb_exp_spec n d Hn Hd) as [He1 He2].
  unfold round_pos. set (e := lsb_exp n d) in *.
  destruct (Z.leb_spec 0 e); simpl.
  - specialize (He1 ltac:(done)). assert (d * 1 <= d * 2 ^ e) by (apply Z.mul_le_mono_nonneg_l; lia).
    lia.
  - specialize (He2 ltac:(done)).
    assert (30 <= - e).
    { destruct (decide (30 <= - e)); [done|].
      assert (n * 2 ^ (- e) <= n * 2 ^ 29); [|lia].
      apply Z.mul_le_mono_nonneg_l; [lia|]. apply Z.pow_le_mono_r; lia. }
    assert ((n - k * d) * 2 ^ 30 <= (n - k * d) * 2 ^ (- e)).
    { apply Z.mul_le_mono_nonneg_l; [lia|]. apply Z.pow_le_mono_r; lia. }
    apply rne_div_above; [done|]. lia.
Qed.

(** A value [m * 2 ^ j] with [m < 2 ^ 53] is a double: rounding is exact. *)
Lemma round_pos_exact d m j :
  0 < d -> 0 < m < 2 ^ 53 -> 0 <= j ->
  fnum (round_pos (m * 2 ^ j * d) d) = m * 2 ^ j * fden (round_pos (m * 2 ^ j * d) d).
Proof.
  intros Hd Hm Hj. assert (0 < 2 ^ j) by lia. set (n := m * 2 ^ j * d).
  assert (0 < n) by (subst n; nia).
  pose proof (lsb_exp_spec n d ltac:(done) Hd) as [He1 He2].
  unfold round_pos. set (e := lsb_exp n d) in *.
  destruct (Z.leb_spec 0 e); simpl.
  - specialize (He1 ltac:(done)).
    assert (e <= j).
    { destruct (decide (e <= j)); [done|].
      assert (2 ^ (Z.succ j) <= 2 ^ e) as Hp by (apply Z.pow_le_mono_r; lia).
      rewrite Z.pow_succ_r in Hp by lia.
      assert (m * (2 ^ j * d) < 2 ^ 53 * (2 ^ j * d)) by (apply Z.mul_lt_mono_pos_r; nia).
      assert (d * (2 * 2 ^ j) <= d * 2 ^ e) by (apply Z.mul_le_mono_nonneg_l; lia).
      subst n. lia. }
    assert (2 ^ j = 2 ^ (j - e) * 2 ^ e) as Ej by (rewrite <- Z.pow_add_r by lia; f_equal; lia).
    assert (rne_div n (d * 2 ^ e) = m * 2 ^ (j - e)) as ->; [|rewrite Ej; ring].
    apply Z.le_antisymm; [apply rne_div_upper|apply rne_div_lower];
      (assert (0 < 2 ^ e) by lia); (nia || (subst n; rewrite Ej; apply Z.eq_le_incl; ring)).
  - apply Z.le_antisymm; [apply rne_div_upper|apply rne_div_lower]; [done| |done|];
      apply Z.eq_le_incl; subst n; ring.
Qed.

(** ** The operations *)

Lemma f64_round_pos n d : 0 < n -> f64_round n d = round_pos n d.
Proof. intros. unfold f64_round. by destruct (Z.eqb_spec n 0), (Z.ltb_spec n 0); try lia. Qed.

(** [of_Z] is exact on [m * 2 ^ j]: the numerator is the value times the
    denominator. *)
Lemma of_Z_exact m j :
  0 <= m < 2 ^ 53 -> 0 <= j ->
  fnum (of_Z (m * 2 ^ j)) = m * 2 ^ j * fden (of_Z (m * 2 ^ j)) /\
  0 < fden (of_Z (m * 2 ^ j)).
Proof.
  intros Hm Hj. unfold of_Z. destruct (decide (m = 0)) as [->|].
  - by rewrite Z.mul_0_l.
  - assert (0 < 2 ^ j) by lia. assert (0 < m * 2 ^ j) by nia.
    rewrite f64_round_pos by done. split; [|apply round_pos_den].
    rewrite <- (Z.mul_1_r (m * 2 ^ j)) at 1 3. apply round_pos_exact; lia.
Qed.

Lemma of_Z_exact_int m :
  0 <= m < 2 ^ 53 -> fnum (of_Z m) = m * fden (of_Z m) /\ 0 < fden (of_Z m).
Proof.
  intros Hm. pose proof (of_Z_exact m 0 Hm ltac:(lia)) as H.
  by rewrite Z.mul_1_r in H.
Qed.

(** Exact integer quotients: a double of value [k * v] over one of value [v]. *)
Lemma fdiv_exact x y k v :
  0 < fden x -> 0 < fden y -> 0 < v -> 0 <= k < 2 ^ 53 ->
  fnum x = k * v * fden x -> fnum y = v * fden y ->
  fnum (fdiv x y) = k * fden (fdiv x y) /\ 0 < fden (fdiv x y).
Proof.
  intros Hx Hy Hv Hk Ex Ey. unfold fdiv. rewrite Ex, Ey.
  destruct (decide (k = 0)) as [->|]; [done|].
  replace (k * v * fden x * fden y) with (k * 2 ^ 0 * (fden x * (v * fden y))) by ring.
  rewrite f64_round_pos by nia. split; [|apply round_pos_den].
  rewrite round_pos_exact by nia. ring.
Qed.

(** Exact products of integers below [2 ^ 53]. *)
Lemma fmul_exact x y a b :
  0 < fden x -> 0 < fden y -> 0 <= a * b < 2 ^ 53 ->
  fnum x = a * fden x -> fnum y = b * fden y ->
  fnum (fmul x y) = a * b * fden (fmul x y) /\ 0 < fden (fmul x y).
Proof.
  intros Hx Hy Hab Ex Ey. unfold fmul. rewrite Ex, Ey.
  destruct (decide (a * b = 0)) as [E|].
  - replace (a * fden x * (b * fden y)) with (a * b * (fden x * fden y)) by ring.
    by rewrite E.
  - replace (a * fden x * (b * fden y)) with (a * b * 2 ^ 0 * (fden x * fden y)) by ring.
    rewrite f64_round_pos by nia. split; [|apply round_pos_den].
    rewrite round_pos_exact by nia. ring.
Qed.

(** Adding a zero quotient keeps an exact integer. *)
Lemma fadd_zero x a :
  0 < fden x -> fnum x = a * fden x -> 0 <= a < 2 ^ 53 ->
  let y := fadd x (fdiv (of_Z 0) (of_Z 1000000000)) in
  fnum y = a * fden y /\ 0 < fden y.
Proof.
  intros Hx E Ha. unfold fadd. change (fdiv (of_Z 0) (of_Z 1000000000)) with (mkF 0 1). simpl.
  rewrite E. replace (a * fden x * 1 + 0 * fden x) with (a * 2 ^ 0 * fden x) by ring. rewrite (Z.mul_1_r (fden x)).
  destruct (decide (a = 0)) as [->|]; [done|].
  rewrite f64_round_pos by nia. split; [|apply round_pos_den].
  rewrite round_pos_exact by lia. ring.
Qed.

Lemma ftrunc_exact x a : 0 < fden x -> fnum x = a * fden x -> ftrunc x = a.
Proof. intros Hx E. unfold ftrunc. rewrite E. apply Z.quot_mul. lia. Qed.

(** [math.Ceil] of a value between two integers. *)
Lemma fceil_between x a :
  0 < fden x -> (a - 1) * fden x < fnum x -> fnum x <= a * fden x -> fceil x = a.
Proof.
  intros Hx H1 H2. unfold fceil. assert ((- fnum x) / fden x = - a); [|lia].
  symmetry. apply (Z.div_unique_pos _ _ _ (a * fden x - fnum x)); lia.
Qed.

End Float64.
