(* ===== verification/Size.v ===== *)
(** * Byte sizes: infra/ratelimit/size.go

    Sizes with units ([b], [Kb] .. [Xb]): parsing ([fmt.Sscanf] with [%d%s]),
    formatting through [float64] into a fixed 32-byte buffer filled from its
    end, and the text marshalling built on both. *)
From stdpp Require Import prelude strings list.
From Stdlib Require Import ZArith Lia Ascii.
From S2P Require Import Prelude Scan Float64.
Local Open Scope Z_scope.
Local Open Scope go_scope.

Module Size.

Definition Byte : Z := 1.
Definition Kilobyte : Z := Z.shiftl Byte 10.
Definition Megabyte : Z := Z.shiftl Kilobyte 10.
Definition Gigabyte : Z := Z.shiftl Megabyte 10.
Definition Terabyte : Z := Z.shiftl Gigabyte 10.
Definition Petabyte : Z := Z.shiftl Terabyte 10.
Definition Exabyte : Z := Z.shiftl Petabyte 10.

Definition unitByteMap : list (string * Z) :=
  [("b", Byte); ("kb", Kilobyte); ("mb", Megabyte); ("gb", Gigabyte);
   ("tb", Terabyte); ("pb", Petabyte); ("xb", Exabyte)].

Definition byteUnitMap : list (Z * string) :=
  [(Byte, "b"); (Kilobyte, "Kb"); (Megabyte, "Mb"); (Gigabyte, "Gb");
   (Terabyte, "Tb"); (Petabyte, "Pb"); (Exabyte, "Xb")].

(** A [*ByteUnit] is an [option Z], [None] for nil. *)
Definition Capacity (v : option Z) (unit : Z) : Z :=
  match v with
  | Some v => v / Z.max unit Byte
  | None => 0
  end.

Definition ParseByteUnit (unit : string) : Z * bool :=
  match assoc_lookup (ToLower unit) unitByteMap with
  | Some size => (size, true)
  | None => (0, false)
  end.

Definition byteUnitString (size : Z) : string :=
  match assoc_lookup size byteUnitMap with
  | Some unit => unit
  | None => "b"
  end.

Definition ParseSize (spec : string) : Z * bool :=
  let scanned :=
    '(num, rest) ← Scan.scan_uint64 spec;
    '(unit, _) ← Scan.scan_word rest;
    Some (num, unit) in
  match scanned with
  | None => (0, false)
  | Some (num, unit) =>
      let '(size, ok) := ParseByteUnit unit in
      if ok then (u64 (size * num), true) else (0, false)
  end.

(** The output buffer: [bw] bytes are free in front of the text [btext]. *)
Record buffer := mkBuf { bw : Z; btext : string }.

Definition buf_put (c : ascii) (b : buffer) : outcome buffer :=
  if 0 <? bw b then Ret (mkBuf (bw b - 1) (String c (btext b)))
  else Panic "index out of range".

(** The digits after the point, trailing zeros omitted; [prec] rounds left. *)
Fixpoint fmtFrac_loop (prec : nat) (print : bool) (v : Z) (b : buffer)
  : outcome (bool * Z * buffer) :=
  match prec with
  | O => Ret (print, v, b)
  | S prec' =>
      let digit := v mod 10 in
      let print' := print || negb (digit =? 0) in
      if print'
      then let! b' := buf_put (digit_char digit) b in fmtFrac_loop prec' print' (v / 10) b'
      else fmtFrac_loop prec' print' (v / 10) b
  end.

Definition fmtFrac (b : buffer) (v : Z) (prec : Z) : outcome (buffer * Z) :=
  let! (print, v', b') := fmtFrac_loop (Z.to_nat prec) false v b in
  if (print : bool)
  then let! b'' := buf_put "."%char b' in Ret (b'', v')
  else Ret (b', v').

(** [for v > 0]; the fuel bounds the number of digits. *)
Fixpoint fmtInt_loop (fuel : nat) (v : Z) (b : buffer) : outcome buffer :=
  match fuel with
  | O => Ret b
  | S fuel' =>
      if 0 <? v
      then let! b' := buf_put (digit_char (v mod 10)) b in fmtInt_loop fuel' (v / 10) b'
      else Ret b
  end.

Definition fmtInt (b : buffer) (v : Z) : outcome buffer :=
  if v =? 0 then buf_put "0"%char b
  else fmtInt_loop (S (Z.to_nat (Z.log2 v))) v b.

(** The unit loop: it steps at most from [Byte] to [Exabyte]. *)
Fixpoint find_unit (fuel : nat) (unit size : Z) : Z :=
  match fuel with
  | O => unit
  | S fuel' =>
      if (unit <? Exabyte) && (Z.shiftl unit 10 <=? size)
      then find_unit fuel' (Z.shiftl unit 10) size else unit
  end.

Fixpoint mul10 (n : nat) (x : Float64.f64) : Float64.f64 :=
  match n with
  | O => x
  | S n' => mul10 n' (Float64.fmul x (Float64.of_Z 10))
  end.

Definition FormatSize (size : Z) (prec : Z) : outcome string :=
  if size =? 0 then Ret "0b"
  else
    let unit := find_unit 6 Byte size in
    let s := byteUnitString unit in
    let b := mkBuf (32 - Z.of_nat (String.length s)) s in
    let form := mul10 (Z.to_nat prec)
                  (Float64.fdiv (Float64.of_Z size) (Float64.of_Z unit)) in
    let digit := u64 (Float64.ftrunc form) in
    let! (b, digit) := fmtFrac b digit prec in
    let! b := fmtInt b digit in
    Ret (btext b).

(** [None] is the nil text. *)
Definition ByteUnit_MarshalText (v : option Z) : outcome (option string) :=
  match v with
  | None => Ret None
  | Some v =>
      if v =? 0 then Ret None
      else let! text := FormatSize v 1 in Ret (Some text)
  end.

(** The receiver before the call is [v]; the flag is [err != nil]. *)
Definition ByteUnit_UnmarshalText (v : Z) (text : string) : Z * bool :=
  match text with
  | EmptyString => (0, false)
  | _ =>
      let '(setv, ok) := ParseSize text in
      if ok then (setv, false) else (v, true)
  end.

(** ** The examples of size_test.go *)

Example format_100Kb : FormatSize (100 * Kilobyte) 1 = Ret "100Kb".
Proof. reflexivity. Qed.
Example format_1_2Mb : FormatSize (Megabyte + 253 * Kilobyte) 1 = Ret "1.2Mb".
Proof. reflexivity. Qed.
Example format_1_333Gb : FormatSize (Gigabyte + Gigabyte / 3) 3 = Ret "1.333Gb".
Proof. reflexivity. Qed.
Example format_2_5Gb : FormatSize (2 * Gigabyte + Gigabyte / 2) 3 = Ret "2.5Gb".
Proof. reflexivity. Qed.
Example format_16Xb : FormatSize (2 ^ 64 - 1) 0 = Ret "16Xb".
Proof. reflexivity. Qed.
Example format_15_99999Xb : FormatSize (2 ^ 64 - 1 - 3 * Terabyte) 5 = Ret "15.99999Xb".
Proof. reflexivity. Qed.

(** ** Lemmas *)

Definition units : list Z :=
  [Byte; Kilobyte; Megabyte; Gigabyte; Terabyte; Petabyte; Exabyte].

(** The digit loop writes what [strconv] writes, if the buffer has room. *)
Lemma fmtInt_loop_digits fuel v w t :
  0 < v < 2 ^ Z.of_nat fuel -> 0 <= w -> v < 10 ^ w ->
  exists w', fmtInt_loop fuel v (mkBuf w t) = Ret (mkBuf w' (dec_digits fuel v t)).
Proof.
  revert v w t. induction fuel as [|fuel IH]; intros v w t Hv Hw Hs; [simpl in Hv; lia|].
  assert (w <> 0) by (intros ->; simpl in Hs; lia).
  assert (10 ^ w = 10 * 10 ^ (w - 1)) as Ew
    by (rewrite <- Z.pow_succ_r by lia; f_equal; lia).
  rewrite Nat2Z.inj_succ, Z.pow_succ_r in Hv by lia.
  simpl. destruct (Z.ltb_spec 0 v); [|lia]. unfold buf_put. simpl.
  destruct (Z.ltb_spec 0 w); [|lia]. simpl.
  destruct (Z.ltb_spec v 10).
  - rewrite Z.div_small by lia. destruct fuel; simpl; eauto.
  - assert (1 <= v / 10) by (apply Z.div_le_lower_bound; lia).
    apply IH; [split; [lia|]; apply Z.div_lt_upper_bound; lia|lia|].
    apply Z.div_lt_upper_bound; lia.
Qed.

Lemma fmtInt_text v w t :
  0 < v -> 0 <= w -> v < 10 ^ w -> exists w', fmtInt (mkBuf w t) v = Ret (mkBuf w' (format_nat v +:+ t)).
Proof.
  intros Hv Hw Hs. unfold fmtInt. destruct (Z.eqb_spec v 0); [lia|].
  rewrite format_nat_app by lia. apply fmtInt_loop_digits; [|done..].
  split; [done|]. apply format_nat_fuel. lia.
Qed.

(** The loop finds the largest unit not above the size. *)
Lemma find_unit_spec unit size :
  unit ∈ units -> unit <= size -> (size < 1024 * unit \/ unit = Exabyte) ->
  find_unit 6 Byte size = unit.
Proof.
  intros Hu Hl Hr. revert Hu Hl Hr. unfold units.
  rewrite !elem_of_cons, elem_of_nil.
  unfold Exabyte, Petabyte, Terabyte, Gigabyte, Megabyte, Kilobyte, Byte.
  rewrite !Z.shiftl_mul_pow2 by lia. intros Hu Hl Hr.
  cbn -[Z.leb] in *. rewrite !Z.shiftl_mul_pow2 by lia.
  repeat destruct Hu as [->|Hu]; try done;
    repeat (match goal with |- context [?a <=? size] => destruct (Z.leb_spec a size) end;
            simpl; try lia).
Qed.

Lemma parse_unit_string unit :
  unit ∈ units ->
  ParseByteUnit (byteUnitString unit) = (unit, true) /\
  (exists c t, byteUnitString unit = String c t) /\
  all_bytes (fun c => negb (is_space c)) (byteUnitString unit) = true /\
  stops is_digit (byteUnitString unit) = true /\
  (String.length (byteUnitString unit) <= 2)%nat /\
  exists j, 0 <= j <= 60 /\ unit = 2 ^ j.
Proof.
  unfold units. rewrite !elem_of_cons, elem_of_nil.
  intros Hu. repeat destruct Hu as [->|Hu]; try done;
    (split_and!; [reflexivity|by eexists _, _|reflexivity|reflexivity|vm_compute; lia|]);
    first [by exists 0|by exists 10|by exists 20|by exists 30|by exists 40|by exists 50|by exists 60].
Qed.

(** The scaled ratio of a whole multiple is exact. *)
Lemma form_exact k j :
  0 < k < 1024 -> 0 <= j ->
  Float64.ftrunc (mul10 1 (Float64.fdiv (Float64.of_Z (k * 2 ^ j)) (Float64.of_Z (2 ^ j))))
  = k * 10.
Proof.
  intros Hk Hj. simpl.
  destruct (Float64.of_Z_exact k j) as [Ea Ha]; [lia..|].
  destruct (Float64.of_Z_exact 1 j) as [Eb Hb]; [lia..|].
  rewrite Z.mul_1_l in Eb, Hb.
  destruct (Float64.fdiv_exact _ _ k (2 ^ j) Ha Hb) as [Eq Hq]; [lia..|done|done|].
  destruct (Float64.of_Z_exact_int 10) as [Et Ht]; [lia|].
  destruct (Float64.fmul_exact _ _ k 10 Hq Ht) as [Em Hm]; [lia|done|done|].
  by apply Float64.ftrunc_exact.
Qed.

(** A whole number of units, below 1024 of them, is printed as such. *)
Lemma FormatSize_whole k unit :
  unit ∈ units -> 0 < k < 1024 ->
  FormatSize (k * unit) 1 = Ret (format_nat k +:+ byteUnitString unit).
Proof.
  intros Hu Hk.
  destruct (parse_unit_string unit Hu) as (_ & _ & _ & _ & Hlen & j & Hj & Ej).
  unfold FormatSize. assert (0 < unit) by (subst; lia).
  destruct (Z.eqb_spec (k * unit) 0); [nia|].
  rewrite (find_unit_spec unit) by (done || nia).
  change (Z.to_nat 1) with 1%nat.
  assert (Float64.ftrunc (mul10 1 (Float64.fdiv (Float64.of_Z (k * unit)) (Float64.of_Z unit)))
          = k * 10) as -> by (rewrite Ej; apply form_exact; lia).
  rewrite wrap_unsigned_small by lia.
  unfold fmtFrac. change (Z.to_nat 1) with 1%nat. simpl fmtFrac_loop.
  rewrite Z.mod_mul, Z.div_mul by lia. simpl.
  destruct (fmtInt_text k (32 - Z.of_nat (String.length (byteUnitString unit)))
              (byteUnitString unit)) as [w' ->]; [lia..| |done].
  assert (10 ^ 30 <= 10 ^ (32 - Z.of_nat (String.length (byteUnitString unit))))
    by (apply Z.pow_le_mono_r; lia). lia.
Qed.

(** ** Properties *)

(** C38: a whole number of units survives the text form: marshalling [k] units
    ([0 < k < 1024], the product a 64-bit value) never overruns the buffer and
    unmarshalling the text restores the size. *)
Theorem size_text_roundtrip k unit v :
  unit ∈ units -> 0 < k < 1024 -> k * unit < 2 ^ 64 ->
  exists text,
    ByteUnit_MarshalText (Some (k * unit)) = Ret (Some text) /\
    ByteUnit_UnmarshalText v text = (k * unit, false).
Proof.
  intros Hu Hk Hb. exists (format_nat k +:+ byteUnitString unit).
  destruct (parse_unit_string unit Hu) as (HP & (c & t & E) & Hw & Hst & _ & j & Hj & Ej).
  assert (0 < unit) by (subst; lia). split.
  - unfold ByteUnit_MarshalText. destruct (Z.eqb_spec (k * unit) 0); [nia|].
    by rewrite FormatSize_whole.
  - destruct (format_nat_head k) as (c' & t' & E' & _); [lia|].
    assert (ParseSize (format_nat k +:+ byteUnitString unit) = (k * unit, true)) as HPS.
    { unfold ParseSize. rewrite Scan.scan_uint64_format_nat by (done || lia).
      cbn [mbind option_bind]. rewrite E in *. rewrite (Scan.scan_word_all c t) by done.
      cbn [mbind option_bind]. rewrite HP. do 2 f_equal.
      rewrite wrap_unsigned_small; nia. }
    unfold ByteUnit_UnmarshalText. rewrite E' in *. simpl. by rewrite HPS.
Qed.

Lemma size_text_roundtrip_witness :
  exists text,
    ByteUnit_MarshalText (Some (100 * Kilobyte)) = Ret (Some text) /\
    ByteUnit_UnmarshalText 7 text = (100 * Kilobyte, false).
Proof.
  apply (size_text_roundtrip 100 Kilobyte 7); [|lia|reflexivity].
  by right; left.
Defined.

(** A size that is not a whole number of units is marshalled with a decimal
    point, and no text with a point after the integer part can be read back:
    [ParseSize] rejects every [<digits>.<rest>], and one such text is what
    [MarshalText] produces for 1 Mb and 253 Kb. *)
Theorem fractional_size_unreadable n rest :
  0 <= n < 2 ^ 64 ->
  ParseSize (format_nat n +:+ String "." rest) = (0, false) /\
  ByteUnit_MarshalText (Some (Megabyte + 253 * Kilobyte)) = Ret (Some "1.2Mb").
Proof.
  intros Hn. split; [|reflexivity]. unfold ParseSize.
  rewrite Scan.scan_uint64_format_nat by done. cbn [mbind option_bind].
  unfold Scan.scan_word. rewrite (Scan.SkipSpace_stop _ "."%char rest) by done.
  cbn [mbind option_bind]. simpl span.
  destruct (span (fun c => negb (is_space c)) rest) as [w rest'].
  reflexivity.
Qed.

Lemma fractional_size_unreadable_witness :
  ParseSize "1.2Mb" = (0, false).
Proof. apply (fractional_size_unreadable 1 "2Mb"); lia. Defined.

End Size.
