(* ===== verification/Keys.v ===== *)
(** * Limit keys: infra/ratelimit/keys.go, context.go and request.go

    A key names a characteristic of a request and reads its value.  Values are
    cached in the request's [Env], a Go map: it is kept in a heap under its
    address, so that a request, its clones and the wrapped keys share one map.
    [Key] is an interface; its dynamic types are [NamedKey] and [readEnv] of
    the package (structs with a func and a map field, hence not comparable)
    and pointer types of client code, comparable by address. *)
From stdpp Require Import prelude strings list gmap.
From Stdlib Require Import ZArith Lia Ascii.
From S2P Require Import Prelude.
Local Open Scope Z_scope.
Local Open Scope go_scope.

Module Keys.

(** ** request.go *)

Record URL := mkURL { Path : string; RequestURI_ : string }.
Record HttpRequest := mkHttp {
  Method : string;
  http_URL : option URL;
  Host : string;
  Header : list (string * string)
}.

(** Addresses of [Env] maps and the heap that holds them. *)
Abbreviation addr := nat.
Abbreviation heap := (gmap addr (gmap string string)).

(** The fields the limit handlers use; [Env] is the address of the map. *)
Record Request := mkReq {
  Env : addr;
  Date : Z;
  Cost : Z;
  Http : option HttpRequest
}.

Definition Value := string.
Definition Undefined : Value := EmptyString.

(** A [ValueFunc] may read and fill [Env] maps. *)
Definition ValueFunc := Request -> heap -> Value * heap.

(** ** keys.go and context.go: the keys *)

Inductive Key :=
| NamedKey (Name : string) (Read : option ValueFunc)
| readEnv (env : addr) (key : Key)
| PtrKey (id : positive) (Name : string) (Read : ValueFunc).

Fixpoint Key_String (k : Key) : string :=
  match k with
  | NamedKey Name _ => if decide (Name = "") then "" else Name
  | readEnv _ key => Key_String key
  | PtrKey _ Name _ => Name
  end.

Definition env_lookup (h : heap) (e : addr) (name : string) : option Value :=
  m ← h !! e; m !! name.

Definition env_store (h : heap) (e : addr) (name : string) (v : Value) : heap :=
  <[e := <[name := v]> (default ∅ (h !! e))]> h.

Fixpoint Key_Value (k : Key) (req : Request) (h : heap) : Value * heap :=
  match k with
  | NamedKey _ (Some Read) => Read req h
  | NamedKey _ None => (Undefined, h)
  | PtrKey _ _ Read => Read req h
  | readEnv env key =>
      let name := Key_String key in
      match env_lookup h env name with
      | Some v => (v, h)
      | None =>
          let '(v, h') := Key_Value key req h in
          (v, env_store h' env name v)
      end
  end.

(** [Env.Key]: wraps a key once, and re-binds a key bound to another map. *)
Definition Env_Key (e : addr) (set : Key) : Key :=
  match set with
  | readEnv env key => if decide (e = env) then set else readEnv e key
  | _ => readEnv e set
  end.

Definition Request_Get (req : Request) (env : Key) (h : heap) : Value * heap :=
  Key_Value (Env_Key (Env req) env) req h.

Definition Request_Set (req : Request) (env : Key) (h : heap) : heap :=
  snd (Request_Get req env h).

(** A request option sets fields; the cost is normalised afterwards. *)
Definition Request_setup (opts : list (Request -> Request)) (req : Request) : Request :=
  let req := fold_left (fun r o => o r) opts req in
  mkReq (Env req) (Date req) (Z.max 1 (Cost req)) (Http req).

(** [NewRequest] allocates an empty map. *)
Definition NewRequest (now : Z) (opts : list (Request -> Request)) (h : heap) : Request * heap :=
  let e := fresh (dom h) in
  (Request_setup opts (mkReq e now 0 None), <[e := ∅]> h).

(** The copied struct keeps the address of the map. *)
Definition Clone (req : Request) : Request := req.

Definition KeyFunc (name : string) (read : option ValueFunc) : Key := NamedKey name read.

Definition KeyValue (name : string) (value : Value) : Key :=
  NamedKey name (Some (fun _ h => (value, h))).

(** [k1 == k2] on two non-nil interface values. *)
Definition key_eq (k1 k2 : Key) : outcome bool :=
  match k1, k2 with
  | NamedKey _ _, NamedKey _ _ => Panic "comparing uncomparable type ratelimit.NamedKey"
  | readEnv _ _, readEnv _ _ => Panic "comparing uncomparable type ratelimit.readEnv"
  | PtrKey a _ _, PtrKey b _ _ => Ret (bool_decide (a = b))
  | _, _ => Ret false
  end.

Definition EqualKeys (k1 k2 : option Key) : outcome bool :=
  match k1, k2 with
  | Some k1, Some k2 =>
      let! same := key_eq k1 k2 in
      Ret ((same : bool) || bool_decide (Key_String k1 = Key_String k2))
  | _, _ => Ret false
  end.

(** The salts appended to the primary value, undefined ones skipped. *)
Fixpoint add_salts (sep : string) (req : Request) (vs : Value) (salts : list Key) (h : heap)
  : Value * heap :=
  match salts with
  | [] => (vs, h)
  | sk :: rest =>
      let '(salt, h) := Request_Get req sk h in
      if decide (salt = Undefined) then add_salts sep req vs rest h
      else add_salts sep req (vs +:+ (sep +:+ salt)) rest h
  end.

Definition multi_read (sep : string) (pk : Key) (salts : list Key) : ValueFunc :=
  fun req h =>
    let '(vs, h) := Request_Get req pk h in
    if decide (vs = Undefined) then (Undefined, h)
    else add_salts sep req vs salts h.

Definition multi_name (sep : string) (keys : list Key) : string :=
  fold_left (fun name x => name +:+ (sep +:+ Key_String x)) keys EmptyString.

(** [None] entries are nil keys. *)
Definition MultiKeys (sep : string) (keys : list (option Key)) : outcome Key :=
  match omap id keys with
  | [] => Panic "multi: keys missing"
  | [k] => Ret k
  | pk :: salts => Ret (KeyFunc (multi_name sep (pk :: salts)) (Some (multi_read sep pk salts)))
  end.

Definition MultiKey (sep : string) (pkey : option Key) (salt : list (option Key))
  : outcome (option Key) :=
  match salt with
  | [] => Ret pkey
  | _ => let! k := MultiKeys sep (pkey :: salt) in Ret (Some k)
  end.

(** ** The registry *)

Abbreviation NamedKeys := (gmap string Key).

Definition KeyName (name : string) : string := ToLower (TrimSpace name).

Inductive reg_error := key_nil | key_duplicate (name : string) | key_undefined (name : string).

Definition NamedKeys_Add (m : gmap string Key) (env : option Key)
  : outcome (gmap string Key * option reg_error) :=
  match env with
  | None => Ret (m, Some key_nil)
  | Some env =>
      let name := KeyName (Key_String env) in
      match m !! name with
      | Some reg =>
          let! same := key_eq reg env in
          if (same : bool) then Ret (m, None) else Ret (m, Some (key_duplicate name))
      | None => Ret (<[name := env]> m, None)
      end
  end.

Definition NamedKeys_AddFunc (m : gmap string Key) (name : string) (read : option ValueFunc)
  : outcome (gmap string Key * option reg_error) :=
  match read with
  | None => Ret (m, Some (key_undefined name))
  | Some read => NamedKeys_Add m (Some (KeyFunc (KeyName name) (Some read)))
  end.

Definition NamedKeys_Set (m : gmap string Key) (name : string) (env : option Key)
  : gmap string Key * option reg_error :=
  match env with
  | None => (m, Some (key_undefined name))
  | Some env =>
      let name := if decide (name = "") then Key_String env else name in
      (<[KeyName name := env]> m, None)
  end.

Definition NamedKeys_Get (m : gmap string Key) (name : string) : option Key :=
  m !! KeyName name.

Definition NamedKeys_Del (m : gmap string Key) (name : string)
  : gmap string Key * (option Key * bool) :=
  match m !! KeyName name with
  | Some reg => (delete (KeyName name) m, (Some reg, true))
  | None => (m, (None, false))
  end.

(** ** Lemmas *)

Lemma env_lookup_store h e name v : env_lookup (env_store h e name v) e name = Some v.
Proof. unfold env_lookup, env_store. rewrite lookup_insert_eq. simpl. apply lookup_insert_eq. Qed.

Lemma env_lookup_store_ne h e name name' v :
  name <> name' -> env_lookup (env_store h e name v) e name' = env_lookup h e name'.
Proof.
  intros Hn. unfold env_lookup, env_store. rewrite lookup_insert_eq. simpl.
  rewrite lookup_insert_ne by done. destruct (h !! e); [done|]. apply lookup_empty.
Qed.

(** What [Env.Key] wraps. *)
Definition unwrap (e : addr) (k : Key) : Key :=
  match k with readEnv _ key => key | _ => k end.

Lemma Env_Key_readEnv e k : Env_Key e k = readEnv e (unwrap e k).
Proof. destruct k; simpl; try done. case_decide; congruence. Qed.

Lemma Key_String_unwrap e k : Key_String (unwrap e k) = Key_String k.
Proof. by destruct k. Qed.

(** [Get] is a cache read, or a read of the key followed by a cache write. *)
Lemma Request_Get_eq req k h :
  Request_Get req k h =
  match env_lookup h (Env req) (Key_String k) with
  | Some v => (v, h)
  | None =>
      let '(v, h') := Key_Value (unwrap (Env req) k) req h in
      (v, env_store h' (Env req) (Key_String k) v)
  end.
Proof.
  unfold Request_Get. rewrite Env_Key_readEnv. simpl. by rewrite Key_String_unwrap.
Qed.

Lemma Request_Get_cached req k h v h' :
  Request_Get req k h = (v, h') -> env_lookup h' (Env req) (Key_String k) = Some v.
Proof.
  rewrite Request_Get_eq. destruct (env_lookup _ _ _) as [v'|] eqn:E; intros ?; simplify_eq; [done|].
  destruct (Key_Value _ _ _); simplify_eq. apply env_lookup_store.
Qed.

Lemma KeyName_idem name : KeyName (KeyName name) = KeyName name.
Proof. unfold KeyName. by rewrite TrimSpace_ToLower, TrimSpace_idem, ToLower_idem. Qed.

(** A key whose value is a function of the request: its read leaves the heap
    alone. *)
Definition reads (k : Key) (f : Request -> Value) : Prop :=
  forall req h, Key_Value (unwrap (Env req) k) req h = (f req, h).

(** The cache of [req] holds nothing but right values of [k]. *)
Definition coherent (req : Request) (h : heap) (k : Key) (f : Request -> Value) : Prop :=
  forall v, env_lookup h (Env req) (Key_String k) = Some v -> v = f req.

Lemma Request_Get_reads req k h f :
  reads k f -> coherent req h k f -> fst (Request_Get req k h) = f req.
Proof.
  intros Hr Hc. rewrite Request_Get_eq.
  destruct (env_lookup _ _ _) as [v|] eqn:E; simpl; [by apply Hc|]. by rewrite Hr.
Qed.

(** A read keeps the cache right for every key that agrees on the name. *)
Lemma Request_Get_coherent req k h f k' f' :
  reads k f -> coherent req h k f -> coherent req h k' f' ->
  (Key_String k = Key_String k' -> f req = f' req) ->
  coherent req (snd (Request_Get req k h)) k' f'.
Proof.
  intros Hr Hc Hc' Hn. rewrite Request_Get_eq.
  destruct (env_lookup _ _ _) as [v|] eqn:E; simpl; [done|]. rewrite Hr. simpl.
  intros v. destruct (decide (Key_String k = Key_String k')) as [Heq|Hne].
  - rewrite <- Heq, env_lookup_store. intros [= <-]. auto.
  - rewrite env_lookup_store_ne by done. apply Hc'.
Qed.

(** The value a multi key promises: the primary value and the defined salts. *)
Fixpoint salted (sep vs : string) (salts : list Value) : string :=
  match salts with
  | [] => vs
  | v :: rest => salted sep (if decide (v = Undefined) then vs else vs +:+ (sep +:+ v)) rest
  end.

Definition multi_spec (sep vs : string) (salts : list Value) : Value :=
  if decide (vs = Undefined) then Undefined else salted sep vs salts.

(** Keys with their value functions, compatible and coherent with the cache. *)
Definition compatible (req : Request) (h : heap) (ks : list (Key * (Request -> Value))) : Prop :=
  Forall (fun kf => reads kf.1 kf.2 /\ coherent req h kf.1 kf.2) ks /\
  forall a b, a ∈ ks -> b ∈ ks -> Key_String a.1 = Key_String b.1 -> a.2 req = b.2 req.

Lemma compatible_step req h k f ks :
  compatible req h ((k, f) :: ks) ->
  fst (Request_Get req k h) = f req /\ compatible req (snd (Request_Get req k h)) ks.
Proof.
  intros [Hall Hsame]. apply Forall_cons in Hall as [[Hr Hc] Hall]. simpl in *.
  split; [by apply Request_Get_reads|]. split.
  - rewrite Forall_forall in *. intros [k' f'] Hin. destruct (Hall _ Hin) as [Hr' Hc'].
    split; [done|]. simpl in *. eapply Request_Get_coherent; eauto.
    intros Heq. apply (Hsame (k, f) (k', f')); [by left|by right|done].
  - intros a b Ha Hb. apply Hsame; by right.
Qed.

Lemma add_salts_spec sep req ks : forall vs h,
  compatible req h ks ->
  fst (add_salts sep req vs ks.*1 h) = salted sep vs ((fun kf => kf.2 req) <$> ks).
Proof.
  induction ks as [|[k f] ks IH]; intros vs h Hc; simpl; [done|].
  apply compatible_step in Hc as [Hv Hc]. destruct (Request_Get req k h) as [v h']. simpl in *.
  subst v. case_decide; by apply IH.
Qed.

(** ** Properties *)

(** A key is resolved at most once per request: after [Get], a second [Get]
    of any key with the same name (bound to the request's map, to another map
    or unbound) returns the same value and changes nothing, whatever the key's
    read function does. *)
Theorem get_resolves_once req k k' h v h' :
  Key_String k = Key_String k' ->
  Request_Get req k h = (v, h') -> Request_Get req k' h' = (v, h').
Proof.
  intros Hn H%Request_Get_cached. rewrite Request_Get_eq, <- Hn. by rewrite H.
Qed.

Lemma get_resolves_once_witness :
  let req := mkReq 0%nat 0 1 None in
  Request_Get req (KeyValue "ip" "10.0.0.1") ∅ =
    ("10.0.0.1", {[ 0%nat := {[ "ip" := "10.0.0.1" ]} ]}) /\
  Request_Get req (KeyValue "ip" "other") {[ 0%nat := {[ "ip" := "10.0.0.1" ]} ]} =
    ("10.0.0.1", {[ 0%nat := {[ "ip" := "10.0.0.1" ]} ]}).
Proof.
  intros req. split; [reflexivity|].
  apply (get_resolves_once req (KeyValue "ip" "10.0.0.1") _ ∅); reflexivity.
Defined.

(** A multi key reads as its specification: with a primary key and at least
    one salt whose reads depend on the request alone and whose cached values
    are right, the key built by [MultiKeys] resolves to the primary value
    followed by the separator and each defined salt, and to the undefined
    value when the primary is undefined. *)
Theorem multi_keys_value sep req h pk pf sk sf ks :
  compatible req h ((pk, pf) :: (sk, sf) :: ks) ->
  env_lookup h (Env req) (multi_name sep (pk :: sk :: ks.*1)) = None ->
  exists k, MultiKeys sep (Some <$> (pk :: sk :: ks.*1)) = Ret k /\
    fst (Request_Get req k h) =
      multi_spec sep (pf req) (sf req :: ((fun kf => kf.2 req) <$> ks)).
Proof.
  intros Hc Hnone. assert (forall l : list Key, omap id (Some <$> l) = l) as Hom.
  { intros l. induction l as [|x l IH]; simpl; [done|]. f_equal. apply IH. }
  unfold MultiKeys. rewrite Hom. eexists. split; [done|].
  rewrite Request_Get_eq. change (Key_String (KeyFunc ?n _)) with (if decide (n = "") then "" else n).
  assert ((if decide (multi_name sep (pk :: sk :: ks.*1) = "") then ""
           else multi_name sep (pk :: sk :: ks.*1)) = multi_name sep (pk :: sk :: ks.*1)) as ->
    by (case_decide; congruence).
  rewrite Hnone. simpl unwrap. simpl Key_Value. unfold multi_read.
  pose proof (compatible_step _ _ _ _ _ Hc) as [Hv Hc'].
  destruct (Request_Get req pk h) as [v h1]. simpl in Hv, Hc'. subst v. unfold multi_spec.
  repeat case_decide; try done.
  pose proof (add_salts_spec sep req ((sk, sf) :: ks) (pf req) h1 Hc') as Hs.
  change (((sk, sf) :: ks).*1) with (sk :: ks.*1) in Hs.
  destruct (add_salts sep req (pf req) (sk :: ks.*1) h1) as [v' h2]. done.
Qed.

Lemma multi_keys_value_witness :
  exists k, MultiKeys "+" (Some <$> [KeyValue "ip" "1.1.1.1"; KeyValue "no" ""; KeyValue "ua" "curl"])
    = Ret k /\
    fst (Request_Get (mkReq 0%nat 0 1 None) k ∅) = "1.1.1.1+curl".
Proof.
  apply (multi_keys_value "+" (mkReq 0%nat 0 1 None) ∅
           (KeyValue "ip" "1.1.1.1") (fun _ => "1.1.1.1") (KeyValue "no" "") (fun _ => "")
           [(KeyValue "ua" "curl", fun _ => "curl")]); [|reflexivity].
  split.
  - repeat (apply Forall_cons; split; [split; [by intros|by intros v ?]|]). by apply Forall_nil.
  - intros a b Ha Hb. rewrite !elem_of_cons, elem_of_nil in Ha, Hb.
    destruct Ha as [->|[->|[->|[]]]], Hb as [->|[->|[->|[]]]]; simpl; done.
Defined.

(** Registering a second [NamedKey] under a taken name does not report the
    duplicate: [Add] compares the two interface values first, and comparing
    two [NamedKey] structs (they hold a func) panics.  The same comparison
    makes [EqualKeys] panic on any two named keys. *)
Theorem add_duplicate_panics m name n1 r1 r2 :
  m !! KeyName name = Some (NamedKey n1 r1) ->
  NamedKeys_Add m (Some (NamedKey name r2))
    = Panic "comparing uncomparable type ratelimit.NamedKey" /\
  EqualKeys (Some (NamedKey n1 r1)) (Some (NamedKey name r2))
    = Panic "comparing uncomparable type ratelimit.NamedKey".
Proof.
  intros Hm. split; [|done]. simpl. 
  assert ((if decide (name = "") then "" else name) = name) as -> by (case_decide; congruence).
  by rewrite Hm.
Qed.

Lemma add_duplicate_panics_witness :
  let m := match NamedKeys_Add ∅ (Some (KeyValue "ip" "a")) with Ret (m, _) => m | Panic _ => ∅ end in
  NamedKeys_Add m (Some (KeyValue " IP " "b")) =
    Panic "comparing uncomparable type ratelimit.NamedKey".
Proof.
  intros m. apply (add_duplicate_panics m " IP " "ip" (Some (fun _ h => ("a", h)))).
  reflexivity.
Defined.

(** The registry is a map on canonical names: a key that [Set] stores under
    a name is found under every spelling of it (case and surrounding spaces
    ignored), other names keep their entry, and [Del] removes exactly it. *)
Theorem registry_lookup m name env other :
  name <> "" ->
  let m1 := fst (NamedKeys_Set m name (Some env)) in
  (NamedKeys_Get m1 other =
     if decide (KeyName other = KeyName name) then Some env else NamedKeys_Get m other) /\
  NamedKeys_Get (fst (NamedKeys_Del m1 (KeyName name))) other =
     (if decide (KeyName other = KeyName name) then None else NamedKeys_Get m other).
Proof.
  intros Hn. simpl. rewrite decide_False by done. unfold NamedKeys_Get, NamedKeys_Del. simpl.
  rewrite KeyName_idem, lookup_insert_eq. simpl. split.
  - case_decide as E; [rewrite E; apply lookup_insert_eq|by rewrite lookup_insert_ne].
  - case_decide as E; [rewrite E; apply lookup_delete_eq|].
    by rewrite lookup_delete_ne, lookup_insert_ne.
Qed.

Lemma registry_lookup_witness :
  let m1 := fst (NamedKeys_Set ∅ "User-IP" (Some (KeyValue "ip" "x"))) in
  NamedKeys_Get m1 "  user-ip" = Some (KeyValue "ip" "x") /\
  NamedKeys_Get (fst (NamedKeys_Del m1 (KeyName "User-IP"))) "  user-ip" = None.
Proof.
  apply (registry_lookup ∅ "User-IP" (KeyValue "ip" "x") "  user-ip"). done.
Defined.

(** A clone is not a deep copy: a value resolved through the clone lands in
    the map of the original, so the original request answers it from its cache
    without reading the key again. *)
Theorem clone_shares_env req k h v h' :
  Request_Get (Clone req) k h = (v, h') ->
  env_lookup h' (Env req) (Key_String k) = Some v.
Proof. apply (Request_Get_cached (Clone req)). Qed.

Lemma clone_shares_env_witness :
  env_lookup (snd (Request_Get (Clone (mkReq 3%nat 0 1 None)) (KeyValue "ip" "a") ∅)) 3%nat "ip"
  = Some "a".
Proof.
  apply (clone_shares_env (mkReq 3%nat 0 1 None) (KeyValue "ip" "a") ∅). reflexivity.
Defined.

End Keys.
