(* ===== verification/Errors.v ===== *)
(** * API errors: infra/errors/error.go and infra/errors/code.go

    The error structure shared by the HTTP and the gRPC fronts, its functional
    options and constructors, the HTTP to gRPC code map, and the conversions
    from and to gRPC statuses.  Protobuf and gRPC are not part of the
    repository: the [Any] encoding of an error, the JSON codec and the names of
    the gRPC codes are parameters. *)
From stdpp Require Import prelude strings list.
From Stdlib Require Import ZArith Lia.
From S2P Require Import Prelude.
Local Open Scope Z_scope.

Module Errors.

(** The fields of [pbrpc.Error]. *)
Record Error := mkErr { Id : string; Code_ : Z; Status_ : string; Message_ : string }.

#[global] Instance Error_eq_dec : EqDecision Error.
Proof. solve_decision. Defined.

(** The gRPC codes the package uses. *)
Inductive GrpcCode :=
| gOK | gCanceled | gUnknown | gInvalidArgument | gDeadlineExceeded | gNotFound
| gAlreadyExists | gPermissionDenied | gResourceExhausted | gFailedPrecondition
| gUnimplemented | gInternal | gUnavailable | gUnauthenticated.

Definition grpc_num (c : GrpcCode) : Z :=
  match c with
  | gOK => 0 | gCanceled => 1 | gUnknown => 2 | gInvalidArgument => 3
  | gDeadlineExceeded => 4 | gNotFound => 5 | gAlreadyExists => 6
  | gPermissionDenied => 7 | gResourceExhausted => 8 | gFailedPrecondition => 9
  | gUnimplemented => 12 | gInternal => 13 | gUnavailable => 14
  | gUnauthenticated => 16
  end.

Definition codeMap : list (Z * GrpcCode) :=
  [(0, gUnknown); (200, gOK); (400, gInvalidArgument); (401, gUnauthenticated);
   (403, gPermissionDenied); (404, gNotFound); (405, gPermissionDenied);
   (408, gDeadlineExceeded); (409, gAlreadyExists); (412, gFailedPrecondition);
   (429, gResourceExhausted); (500, gInternal); (501, gUnimplemented);
   (502, gUnavailable); (504, gDeadlineExceeded); (503, gUnavailable);
   (511, gUnauthenticated)].

Definition http2grpcCode (code : Z) : GrpcCode :=
  let code := if code <? 0 then i32 (code * -1) else code in
  match assoc_lookup code codeMap with
  | Some grpc => grpc
  | None => gUnknown
  end.

(** ** Options *)

Definition Option_ := Error -> Error.

Definition Code (code : Z) : Option_ := fun err =>
  if 0 <? code then mkErr (Id err) code (Status_ err) (Message_ err) else err.

Definition Status (code : string) : Option_ := fun err =>
  if decide (code = "") then err else mkErr (Id err) (Code_ err) code (Message_ err).

(** [Message] without arguments: the text as it is. *)
Definition Message (form : string) : Option_ := fun err =>
  mkErr (Id err) (Code_ err) (Status_ err) form.

Definition init (opts : list Option_) (e : Error) : Error :=
  fold_left (fun e setup => setup e) opts e.

Definition New (opts : list Option_) : Error := init opts (mkErr "" 0 "" "").

Definition Errorf (message : string) : Error := New [Message message].

Definition BadRequest (opts : list Option_) : Error :=
  init opts (New [Status "BAD_REQUEST"; Code 400]).
Definition Unauthorized (opts : list Option_) : Error :=
  init opts (New [Status "UNAUTHORIZED"; Code 401]).
Definition Forbidden (opts : list Option_) : Error :=
  init opts (New [Status "FORBIDDEN"; Code 403]).
Definition NotFound (opts : list Option_) : Error :=
  init opts (New [Status "NOT_FOUND"; Code 404]).
Definition Internal (opts : list Option_) : Error :=
  init opts (New [Status "INTERNAL"; Code 500]).
Definition BadGateway (opts : list Option_) : Error :=
  init opts (New [Status "BAD_GATEWAY"; Code 502]).

Definition Error_String (e : option Error) : string :=
  match e with
  | None => ""
  | Some e =>
      let '(format, indent) :=
        if 0 <? Code_ e then ("(#" +:+ FormatInt (Code_ e) +:+ ")", " ") else ("", "") in
      let '(format, indent) :=
        if decide (Status_ e = "") then (format, indent)
        else (format +:+ indent +:+ Status_ e, " ; ") in
      if decide (Message_ e = "") then format else format +:+ indent +:+ Message_ e
  end.

(** ** Conversions *)

Section Conversions.
(** [anypb.Any] values; decoding one gives nothing (an error), another message,
    or an error. *)
Context {Any : Type}.
Context (any_new : Error -> option Any).
Context (any_decode : Any -> option (option Error)).
(** The JSON codec of the error message, which leaves the fields it had read when it fails,
    and the names of the gRPC codes. *)
Context (json_parse : string -> res Error Error) (json_format : Error -> string).
Context (code_name : Z -> string).

Record GStatus := mkSt { st_code : Z; st_message : string; st_details : list Any }.

(** An [error] value: the package's own, one with a [GRPCStatus] method, or
    any other with its text. *)
Inductive goerror :=
| EError (e : Error)
| EStatus (s : option GStatus)
| EPlain (text : string).

Definition Parse (message : string) : option Error * bool :=
  let message := TrimSpace message in
  if decide (message = "") then (None, true)
  else match json_parse message with
       | Ok src => (Some src, true)
       | Err src => (Some (mkErr (Id src) (Code_ src) (Status_ src) message), false)
       end.

Fixpoint find_detail (details : list Any) : option Error :=
  match details with
  | [] => None
  | a :: rest =>
      match any_decode a with
      | Some (Some e) => Some e
      | _ => find_detail rest
      end
  end.

Definition FromStatus (src : option GStatus) : option Error * bool :=
  match src with
  | None => (None, true)
  | Some src =>
      match find_detail (st_details src) with
      | Some e => (Some e, true)
      | None =>
          match Parse (st_message src) with
          | (Some dst, false) =>
              (Some (mkErr (Id dst) (i32 (st_code src)) (code_name (st_code src)) (Message_ dst)),
               false)
          | r => r
          end
      end
  end.

Definition FromError (src : option goerror) : option Error * bool :=
  match src with
  | None => (None, true)
  | Some (EError e) => (Some e, true)
  | Some (EStatus s) => FromStatus s
  | Some (EPlain text) => Parse text
  end.

Definition GRPCStatus (e : Error) : GStatus :=
  let code := grpc_num (http2grpcCode (Code_ e)) in
  let message := if decide (Status_ e = "") then Message_ e else Status_ e in
  match any_new e with
  | None => mkSt code (json_format e) []
  | Some sub => mkSt code message [sub]
  end.

(** The documented inverse pair of [anypb]: an error packed into an [Any]
    unpacks to itself. *)
Hypothesis any_decode_new : forall e a, any_new e = Some a -> any_decode a = Some (Some e).

(** An API error survives the gRPC status: when it can be packed, the
    status built by [GRPCStatus] converts back to the same error, and the
    status carries the gRPC code of the error's HTTP code. *)
Theorem grpc_status_roundtrip e a :
  any_new e = Some a ->
  FromStatus (Some (GRPCStatus e)) = (Some e, true) /\
  FromError (Some (EStatus (Some (GRPCStatus e)))) = (Some e, true) /\
  st_code (GRPCStatus e) = grpc_num (http2grpcCode (Code_ e)).
Proof.
  intros Ha. unfold FromError, FromStatus, GRPCStatus. rewrite Ha. simpl.
  by rewrite (any_decode_new e a Ha).
Qed.

End Conversions.
Arguments goerror : clear implicits.
Arguments GStatus : clear implicits.

(** A codec that reads nothing. *)
Definition no_json (_ : string) : res Error Error := Err (mkErr "" 0 "" "").

Lemma grpc_status_roundtrip_witness :
  let e := Forbidden [Message "no"] in
  FromStatus (fun a => Some (Some a)) no_json (fun _ => "")
    (Some (GRPCStatus Some (fun _ => "") e)) = (Some e, true).
Proof.
  intros e.
  apply (grpc_status_roundtrip Some (fun a => Some (Some a)) no_json (fun _ => "")
           (fun _ => "") (fun e a H => match H with eq_refl => eq_refl end) e e).
  reflexivity.
Defined.

(** The statuses of the six constructors, after client options that set the
    message only. *)
Lemma constructor_codes m :
  (fun e => (Code_ e, http2grpcCode (Code_ e))) <$>
    [BadRequest [Message m]; Unauthorized [Message m]; Forbidden [Message m];
     NotFound [Message m]; Internal [Message m]; BadGateway [Message m]] =
  [(400, gInvalidArgument); (401, gUnauthenticated); (403, gPermissionDenied);
   (404, gNotFound); (500, gInternal); (502, gUnavailable)].
Proof. reflexivity. Qed.

End Errors.
