(* ===== verification/ErrorsText.v ===== *)
(** * The texts and copies of an API error: infra/errors/error.go, code.go, logs.go

    The error as a protobuf message behind a pointer: conversions that share the message and
    the one that copies it; its text, which is JSON, and the way back from the text; its log
    value; the canonical code of a Go error.  The JSON codec and protobuf's packing stay
    parameters, as in Errors.v. *)
From stdpp Require Import prelude strings list gmap.
From Stdlib Require Import ZArith Lia.
From S2P Require Import Prelude Errors.
Local Open Scope Z_scope.

Module ErrorsText.
Import Errors.

(** ** Pointers to messages *)

(** [nil] is [None]. *)
Abbreviation pointer := (option nat).
Abbreviation heap := (gmap nat Error).

(** Conversions between pointer types keep the address. *)
Definition FromProto (src : pointer) : pointer := src.
Definition proto (e : pointer) : pointer := e.

(** [proto.CloneOf]: a new message with the same fields. *)
Definition CloneOf (e : nat) (h : heap) : nat * heap :=
  let a := fresh (dom h) in
  (a, match h !! e with Some m => <[a := m]> h | None => h end).

Definition Proto (e : pointer) (h : heap) : pointer * heap :=
  match e with
  | None => (None, h)
  | Some e => let '(a, h) := CloneOf e h in (Some a, h)
  end.

(** [anypb.New], which is an error for nil. *)
Definition ProtoAny {Any} (any_new : Error -> option Any) (e : pointer) (h : heap) : option Any :=
  match proto e with
  | None => None
  | Some a => m ← h !! a; any_new m
  end.

(** The constructors' loop over the options, on the message itself. *)
Definition setup_at (opts : list Option_) (e : nat) (h : heap) : heap := alter (init opts) e h.

(** ** Messages with arguments *)

Section Format.
Context {V : Type} (Sprint : list V -> string) (Sprintf : string -> list V -> string).

(** [Message] with its arguments; without any the form is not a format. *)
Definition Message_args (form : string) (args : list V) : Option_ := fun err =>
  let text :=
    match args with
    | [] => form
    | _ => if decide (form = "") then Sprint args else Sprintf form args
    end in
  mkErr (Id err) (Code_ err) (Status_ err) text.

Definition Errorf_args (message : string) (args : list V) : Error := New [Message_args message args].

(** The last message of the options is that of the error, with the code and the status of the options before it; a
    message without arguments is kept byte by byte, percent signs included. *)
Theorem last_message_kept opts form args e :
  let err := init (opts ++ [Message_args form args]) e in
  Code_ err = Code_ (init opts e) /\ Status_ err = Status_ (init opts e) /\
  Message_ err = Message_ (Errorf_args form args) /\ Errorf_args form [] = Errorf form.
Proof.
  cbv zeta. assert (init (opts ++ [Message_args form args]) e = Message_args form args (init opts e)) as -> by apply fold_left_app.
  by destruct args.
Qed.

End Format.

(** ** Text *)

Section Text.
Context (json_parse : string -> res Error Error) (json_format : Error -> string).

Definition Error_Error (e : option Error) : string :=
  match e with
  | None => ""
  | Some e => json_format e
  end.

(** An attribute of a log value. *)
Inductive attr := IntAttr (key : string) (v : Z) | StringAttr (key : string) (v : string).

(** [int(e.Code)] widens an int32. *)
Definition LogValue (e : option Error) : list attr :=
  match e with
  | None => [IntAttr "code" 0; StringAttr "status" "OK"]
  | Some e => [IntAttr "code" (Code_ e); StringAttr "status" (Status_ e); StringAttr "message" (Message_ e)]
  end.

(** The codec reads what it writes, spaces around it aside, for the errors it can write
    ([writable]: those whose texts are UTF-8). *)
Context (writable : Error -> Prop).
Hypothesis format_parses : forall e, writable e -> json_parse (TrimSpace (json_format e)) = Ok e.
Hypothesis format_not_blank : forall e, writable e -> TrimSpace (json_format e) <> "".

(** An error that went through its text comes back: what [FromError] makes of a
    plain error with the text of an API error is that API error; and of a gRPC status that
    carries the text and no details, too, whatever the code of the status. *)
Theorem error_text_roundtrip {Any} (any_decode : Any -> option (option Error)) code_name e code :
  writable e ->
  FromError any_decode json_parse code_name (Some (EPlain (Error_Error (Some e)))) = (Some e, true) /\
  FromStatus any_decode json_parse code_name (Some (mkSt code (Error_Error (Some e)) [])) = (Some e, true).
Proof.
  intros He. assert (Parse json_parse (json_format e) = (Some e, true)) as Hp.
  { unfold Parse. by rewrite decide_False, format_parses by auto. }
  split; unfold FromError, FromStatus; cbn [Error_Error find_detail st_details st_message]; by rewrite Hp.
Qed.
End Text.

(** ** Copies *)

(** What [Proto] gives is a copy: it has the fields of the error, and neither options applied
    to it nor to the error show in the other; what [FromProto] gives is the message itself. *)
Theorem proto_copies e h m opts : h !! e = Some m ->
  exists a h', Proto (Some e) h = (Some a, h') /\ a <> e /\ h' !! a = Some m /\ h' !! e = Some m /\
    setup_at opts a h' !! e = Some m /\ setup_at opts e h' !! a = Some m /\
    (FromProto (proto (Some e)) = Some e /\ setup_at opts e h !! e = Some (init opts m)).
Proof.
  intros He. unfold Proto, CloneOf. rewrite He. eexists _, _. split; [done|].
  assert (fresh (dom h) <> e) as Hne.
  { intros Heq. apply (is_fresh (dom h)). rewrite Heq. apply elem_of_dom. by eexists. }
  unfold setup_at. split_and!; [done|by rewrite lookup_insert_eq|by rewrite lookup_insert_ne|..].
  - by rewrite lookup_alter_ne, lookup_insert_ne by done.
  - by rewrite lookup_alter_ne, lookup_insert_eq by done.
  - done.
  - by rewrite lookup_alter_eq, He.
Qed.

(** ** The canonical code of a Go error (code.go) *)

(** The values the first switch compares with. *)
Inductive sentinel :=
| EOF | ErrClosedPipe | ErrNoProgress | ErrShortBuffer | ErrShortWrite | ErrUnexpectedEOF
| ErrInvalid | Canceled | DeadlineExceeded | ErrExist | ErrNotExist | ErrPermission.

#[global] Instance sentinel_eq_dec : EqDecision sentinel.
Proof. solve_decision. Defined.

(** Error numbers of the system that os knows. *)
Inductive errno := EEXIST | ENOTEMPTY | ENOENT | EACCES | EPERM | EOTHER.

(** A Go error: a sentinel, an error number, one of the os types around another error
    (PathError, LinkError, SyscallError), an error wrapped with "%w", any other. *)
Inductive gerror :=
| ESentinel (s : sentinel)
| EErrno (n : errno)
| EOs (inner : gerror)
| EWrapped (text : string) (inner : gerror)
| EOther (text : string).

(** [underlyingError] of os: one level, and the os types only. *)
Definition underlyingError (err : gerror) : gerror :=
  match err with EOs inner => inner | _ => err end.

(** [Errno.Is] *)
Definition Errno_Is (n : errno) (target : sentinel) : bool :=
  match target, n with
  | ErrExist, (EEXIST | ENOTEMPTY) => true
  | ErrNotExist, ENOENT => true
  | ErrPermission, (EACCES | EPERM) => true
  | _, _ => false
  end.

Definition underlyingErrorIs (err : gerror) (target : sentinel) : bool :=
  match underlyingError err with
  | ESentinel s => bool_decide (s = target)
  | EErrno n => Errno_Is n target
  | _ => false
  end.

(** The codes are those of google.golang.org/grpc/codes. *)
Definition errorStatusCode (err : option gerror) : Z :=
  match err with
  | None => 0
  | Some (ESentinel EOF) => 11
  | Some (ESentinel (ErrClosedPipe | ErrNoProgress | ErrShortBuffer | ErrShortWrite | ErrUnexpectedEOF)) => 9
  | Some (ESentinel ErrInvalid) => 3
  | Some (ESentinel Canceled) => 1
  | Some (ESentinel DeadlineExceeded) => 4
  | Some err =>
      if underlyingErrorIs err ErrExist then 6
      else if underlyingErrorIs err ErrNotExist then 5
      else if underlyingErrorIs err ErrPermission then 7
      else 2
  end.

(** An error of os keeps its code under one level of the os types; an error
    wrapped with "%w" gets the code Unknown, whatever it wraps. *)
Theorem canonical_code_unwraps n s text err :
  errorStatusCode (Some (EOs (EErrno n))) = errorStatusCode (Some (EErrno n)) /\
  (errorStatusCode (Some (EOs (ESentinel s))) = errorStatusCode (Some (ESentinel s)) <->
     s ∈ [ErrExist; ErrNotExist; ErrPermission]) /\
  errorStatusCode (Some (EWrapped text err)) = 2.
Proof.
  split; [done|]. split; [|done].
  destruct s; vm_compute; (split; intros H; try done; try set_solver).
Qed.

(** ** Witnesses *)

Definition demo_format (e : Error) : string := Id e +:+ "!".
Definition demo_read (s : string) : res Error Error :=
  if decide (s = "a!") then Ok (mkErr "a" 0 "" "") else Err (mkErr "" 0 "" "").

Lemma error_text_roundtrip_witness :
  FromError (fun a : Error => Some (Some a)) demo_read (fun _ => "") (Some (EPlain (demo_format (mkErr "a" 0 "" "")))) =
    (Some (mkErr "a" 0 "" ""), true).
Proof.
  refine (proj1 (error_text_roundtrip demo_read demo_format (fun e => e = mkErr "a" 0 "" "") _ _ (fun a : Error => Some (Some a)) (fun _ => "")
    (mkErr "a" 0 "" "") 0 eq_refl)); by intros ? ->.
Defined.

Lemma proto_copies_witness :
  exists a h', Proto (Some 0%nat) {[0%nat := mkErr "" 404 "NOT_FOUND" "x"]} = (Some a, h') /\ a <> 0%nat.
Proof.
  destruct (proto_copies 0 {[0%nat := mkErr "" 404 "NOT_FOUND" "x"]} (mkErr "" 404 "NOT_FOUND" "x") [Code 500] ltac:(apply lookup_singleton_eq))
    as (a & h' & H & Hne & _). by exists a, h'.
Defined.

End ErrorsText.
