(* ===== verification/Status.v ===== *)
(** * Limit status: infra/ratelimit/status.go and error.go

    The outcome of a limit check, its constructors and tests, the conversion of
    durations to whole seconds through [float64], and the header map with the
    error of a response. *)
From stdpp Require Import prelude strings list gmap.
From Stdlib Require Import ZArith Lia.
From S2P Require Import Prelude Float64 Rate Keys Errors.
Local Open Scope Z_scope.

Module Status.

Record Status := mkStatus {
  sDate : Z;
  Limit : Z;
  Allowed : Z;
  Remaining : Z;
  ResetAfter : Z;
  RetryAfter : Z
}.

#[global] Instance Status_eq_dec : EqDecision Status.
Proof. solve_decision. Defined.

(** The three counters are [uint32], the two durations [int64]. *)
Definition status_wf (s : Status) : Prop :=
  0 <= Limit s < 2 ^ 32 /\ 0 <= Allowed s < 2 ^ 32 /\ 0 <= Remaining s < 2 ^ 32 /\
  min_int64 <= ResetAfter s <= max_int64 /\ min_int64 <= RetryAfter s <= max_int64.

Definition StatusOption := Status -> Status.

Definition Status_apply (opts : list StatusOption) (res : Status) : Status :=
  fold_left (fun r setup => setup r) opts res.

Definition Allow (req : Keys.Request) (opts : list StatusOption) : Status :=
  Status_apply opts (mkStatus (Keys.Date req) 0 (Z.max (Keys.Cost req) 1) 0 0 0).

Definition Deny (req : Keys.Request) (opts : list StatusOption) : Status :=
  Status_apply opts (mkStatus (Keys.Date req) 0 0 0 0 0).

(** A [*Status] is an [option Status], [None] for nil (not affected). *)
Definition OK (res : option Status) : bool :=
  match res with
  | None => true
  | Some res => 0 <? Allowed res
  end.

(** ** error.go *)

Definition ErrForbidden : Errors.Error :=
  Errors.Forbidden [Errors.Status "FORBIDDEN"; Errors.Message "service: forbidden request"].

Definition ErrFloodWait : Errors.Error :=
  Errors.New [Errors.Code 429; Errors.Status "FLOOD_WAIT";
              Errors.Message "service: too many requests"].

(** [*ratelimit.Error]: the status it carries. *)
Inductive limit_error :=
| forbidden_error
| rate_error (res : Status).

Definition Error_Error (e : limit_error) : string := Errors.Message_ ErrFloodWait.

(** The status of a rate error; [forbidden_error] is another type. *)
Definition Error_Status (e : limit_error) : option Status :=
  match e with rate_error res => Some res | forbidden_error => None end.

(** [GRPCStatus] of either error: that of [ErrForbidden] itself, or of [ErrFloodWait]. *)
Definition Error_GRPCStatus {Any} (any_new : Errors.Error -> option Any) (json_format : Errors.Error -> string)
    (e : limit_error) : Errors.GStatus Any :=
  match e with
  | forbidden_error => Errors.GRPCStatus any_new json_format ErrForbidden
  | rate_error _ => Errors.GRPCStatus any_new json_format ErrFloodWait
  end.

Definition Err (res : option Status) : option limit_error :=
  match res with
  | Some s => if OK res then None else Some (rate_error s)
  | None => None
  end.

(** ** Whole seconds *)

(** [Duration.Seconds]. *)
Definition Seconds (d : Z) : Float64.f64 :=
  Float64.fadd (Float64.of_Z (Z.quot d Rate.Second))
    (Float64.fdiv (Float64.of_Z (Z.rem d Rate.Second)) (Float64.of_Z 1000000000)).

Definition MinSeconds (d : Z) : Z :=
  if d =? 0 then 0 else i64 (Float64.fceil (Seconds d)).

Definition H2LimitQuota : string := "x-ratelimit-limit".
Definition H2LimitRemaining : string := "x-ratelimit-remaining".
Definition H2LimitResetAfter : string := "x-ratelimit-reset".
Definition H2RetryAfter : string := "retry-after".
Definition H1LimitQuota : string := "X-RateLimit-Limit".
Definition H1LimitRemaining : string := "X-RateLimit-Remaining".
Definition H1LimitResetAfter : string := "X-RateLimit-Reset".
Definition H1RetryAfter : string := "Retry-After".

Definition headQuota (key : string) (quota : Z) (head : gmap string string) : gmap string string :=
  if quota =? 0 then head else <[key := FormatInt quota]> head.

(** The header map ([None] is nil) and the error. *)
Definition Response (res : Status) : option (gmap string string) * option limit_error :=
  if Limit res =? 0 then
    if 0 <? Allowed res then (None, None) else (None, Some forbidden_error)
  else
    let head := headQuota H2LimitQuota (Limit res) ∅ in
    let head := headQuota H2LimitRemaining (Remaining res) head in
    let head := headQuota H2LimitResetAfter (MinSeconds (ResetAfter res)) head in
    let head := if OK (Some res) then head
                else headQuota H2RetryAfter (MinSeconds (RetryAfter res)) head in
    (Some head, Err (Some res)).

(** ** Lemmas *)

(** The fraction of a second as a double: positive, at most one, and not far
    below its value. *)
Lemma nanos_bounds ns :
  0 < ns < 1000000000 ->
  let f := Float64.fdiv (Float64.of_Z ns) (Float64.of_Z 1000000000) in
  0 < Float64.fden f /\ Float64.fnum f <= Float64.fden f /\
  Float64.fden f < 2 ^ 31 * Float64.fnum f.
Proof.
  intros Hn. destruct (Float64.of_Z_exact_int ns) as [Ea Ha]; [lia|].
  destruct (Float64.of_Z_exact_int 1000000000) as [Eb Hb]; [lia|].
  unfold Float64.fdiv. rewrite Ea, Eb.
  set (p := Float64.fden (Float64.of_Z ns) * Float64.fden (Float64.of_Z 1000000000)).
  assert (0 < p) by (subst p; nia).
  replace (ns * Float64.fden (Float64.of_Z ns) * Float64.fden (Float64.of_Z 1000000000))
    with (ns * p) by (subst p; ring).
  replace (Float64.fden (Float64.of_Z ns) * (1000000000 * Float64.fden (Float64.of_Z 1000000000)))
    with (1000000000 * p) by (subst p; ring).
  rewrite Float64.f64_round_pos by nia.
  pose proof (Float64.round_pos_den (ns * p) (1000000000 * p)).
  pose proof (Float64.round_pos_upper (ns * p) (1000000000 * p) 1 ltac:(nia) ltac:(nia) ltac:(lia) ltac:(nia)).
  pose proof (Float64.round_pos_half (ns * p) (1000000000 * p) ltac:(nia) ltac:(nia)) as Hh.
  set (r := Float64.round_pos (ns * p) (1000000000 * p)) in *.
  split; [done|]. split; [lia|].
  assert (Float64.fden r <= 2000000000 * Float64.fnum r); [|nia].
  assert (p * (ns * Float64.fden r) <= p * (2000000000 * Float64.fnum r)) as Hp by lia.
  apply Z.mul_le_mono_pos_l in Hp; nia.
Qed.

(** The sum of whole seconds and a fraction stays between its neighbours. *)
Lemma seconds_bounds s f :
  0 <= s < 2 ^ 52 -> 0 < Float64.fden f -> 0 < Float64.fnum f <= Float64.fden f ->
  let x := Float64.fadd (Float64.of_Z s) f in
  0 < Float64.fden x /\ s * Float64.fden x <= Float64.fnum x <= (s + 1) * Float64.fden x /\
  (s + 1 < 2 ^ 23 -> Float64.fden f < 2 ^ 31 * Float64.fnum f ->
   s * Float64.fden x < Float64.fnum x).
Proof.
  intros Hs Hd Hf. destruct (Float64.of_Z_exact_int s) as [Ea Ha]; [lia|].
  unfold Float64.fadd. rewrite Ea. set (q := Float64.fden (Float64.of_Z s)) in *.
  set (d := q * Float64.fden f). assert (0 < d) by (subst d; nia).
  replace (s * q * Float64.fden f + Float64.fnum f * q)
    with (s * d + q * Float64.fnum f) by (subst d; ring).
  assert (0 < q * Float64.fnum f <= d) by (subst d; nia).
  rewrite Float64.f64_round_pos by nia. split; [apply Float64.round_pos_den|].
  split; [split|].
  - apply Float64.round_pos_lower; nia.
  - apply Float64.round_pos_upper; nia.
  - intros Hs' Hfr. apply Float64.round_pos_above; [nia..|].
    replace (s * d + q * Float64.fnum f - s * d) with (q * Float64.fnum f) by ring.
    subst d. nia.
Qed.

Lemma headQuota_ne k k' q m : k <> k' -> headQuota k q m !! k' = m !! k'.
Proof. intros. unfold headQuota. case_match; [done|]. by rewrite lookup_insert_ne. Qed.

Lemma headQuota_eq k q m : q <> 0 -> headQuota k q m !! k = Some (FormatInt q).
Proof. intros. unfold headQuota. rewrite (proj2 (Z.eqb_neq q 0)) by done. apply lookup_insert_eq. Qed.

Lemma MinSeconds_float d :
  0 < d <= max_int64 ->
  let s := d / Rate.Second in
  let ns := d mod Rate.Second in
  (ns = 0 -> MinSeconds d = s) /\
  (0 < ns -> s <= MinSeconds d <= s + 1 /\ (s + 1 < 2 ^ 23 -> MinSeconds d = s + 1)).
Proof.
  intros Hd s ns. unfold max_int64 in Hd.
  assert (Rate.Second = 1000000000) as ES by reflexivity.
  pose proof (Z.div_mod d Rate.Second ltac:(lia)). pose proof (Z.mod_pos_bound d Rate.Second ltac:(lia)).
  assert (0 <= s < 2 ^ 52) by (subst s; split; [apply Z.div_pos; lia|apply Z.div_lt_upper_bound; lia]).
  unfold MinSeconds, Seconds. destruct (Z.eqb_spec d 0); [lia|].
  rewrite Z.quot_div_nonneg, Z.rem_mod_nonneg by lia. fold s. fold ns. split; intros Hn.
  - rewrite Hn. destruct (Float64.of_Z_exact_int s) as [Ea Ha]; [lia|].
    destruct (Float64.fadd_zero _ s Ha Ea) as [Ex Hx]; [lia|].
    rewrite (Float64.fceil_between _ s) by (done || lia).
    apply wrap_signed_small; lia.
  - pose proof (nanos_bounds ns ltac:(lia)) as (Hf & Hf1 & Hf2).
    pose proof (seconds_bounds s _ ltac:(done) Hf ltac:(lia)) as (Hx & [Hl Hu] & Ha).
    set (x := Float64.fadd _ _) in *.
    assert (Float64.fceil x = s \/ Float64.fceil x = s + 1) as Hc.
    { destruct (decide (s * Float64.fden x < Float64.fnum x)).
      - right. apply Float64.fceil_between; [done|nia|done].
      - left. apply Float64.fceil_between; [done|nia|nia]. }
    rewrite wrap_signed_small by lia. split; [lia|]. intros Hs.
    apply Float64.fceil_between; [done| |done].
    replace (s + 1 - 1) with s by lia. by apply Ha.
Qed.

(** ** Properties *)

(** Seconds written in headers never exceed the duration rounded up and
    never fall below it rounded down, for every non-negative duration, in
    spite of the [float64] detour; below 2^23 seconds (97 days, more than any
    window unit) the result is exactly the duration rounded up. *)
Theorem min_seconds_ceil d :
  0 <= d <= max_int64 ->
  d / Rate.Second <= MinSeconds d <= - (- d / Rate.Second) /\
  (d < (2 ^ 23 - 1) * Rate.Second -> MinSeconds d = - (- d / Rate.Second)).
Proof.
  intros Hd. destruct (decide (d = 0)) as [->|]; [done|].
  destruct (MinSeconds_float d ltac:(lia)) as [H0 H1].
  assert (Rate.Second = 1000000000) as ES by reflexivity.
  pose proof (Z.div_mod d Rate.Second ltac:(lia)) as Hdm.
  pose proof (Z.mod_pos_bound d Rate.Second ltac:(lia)).
  destruct (decide (d mod Rate.Second = 0)) as [E|E].
  - rewrite (H0 E). rewrite Z.div_opp_l_z by lia. lia.
  - destruct (H1 ltac:(lia)) as [? Hx]. rewrite Z.div_opp_l_nz by lia.
    split; [lia|]. intros Hs. rewrite Hx; [lia|].
    assert (d / Rate.Second < 2 ^ 23 - 1) by (apply Z.div_lt_upper_bound; lia). lia.
Qed.

Lemma min_seconds_ceil_witness :
  MinSeconds 1500000000 = 2 /\ MinSeconds (Rate.Week + 1) = 604801.
Proof.
  split.
  - apply (min_seconds_ceil 1500000000); vm_compute; intuition discriminate.
  - apply (min_seconds_ceil (Rate.Week + 1)); vm_compute; intuition discriminate.
Defined.

(** The error of a response is the verdict of the status: no error exactly
    when tokens were granted; without a quota a refusal is the permanent
    [ErrForbidden] and no headers are produced, with a quota it is the rate
    error carrying the status, the quota header is always there and the
    retry header only on refusal. *)
Theorem response_verdict s :
  status_wf s ->
  (snd (Response s) = None <-> OK (Some s) = true) /\
  (Limit s = 0 -> fst (Response s) = None /\
     (OK (Some s) = false -> snd (Response s) = Some forbidden_error)) /\
  (0 < Limit s -> exists head, fst (Response s) = Some head /\
     head !! H2LimitQuota = Some (FormatInt (Limit s)) /\
     (OK (Some s) = false -> snd (Response s) = Some (rate_error s)) /\
     (is_Some (head !! H2RetryAfter) <->
        OK (Some s) = false /\ MinSeconds (RetryAfter s) <> 0)).
Proof.
  intros (HL & HA & _). unfold Response, Err. simpl.
  destruct (Z.eqb_spec (Limit s) 0) as [E|E].
  - destruct (Z.ltb_spec 0 (Allowed s)); simpl; split_and!; try done; lia.
  - split_and!; [by destruct (Z.ltb_spec 0 (Allowed s))|lia|]. intros _.
    eexists; split; [done|]. split; [|split].
    + destruct (Z.ltb_spec 0 (Allowed s)); simpl; rewrite ?headQuota_ne by done;
        by rewrite headQuota_eq.
    + by destruct (Z.ltb_spec 0 (Allowed s)).
    + destruct (Z.ltb_spec 0 (Allowed s)); simpl.
      * rewrite !headQuota_ne, lookup_empty by done. split; [by intros []|by intros []].
      * destruct (decide (MinSeconds (RetryAfter s) = 0)) as [Ez|Ez].
        -- unfold headQuota at 1. rewrite (proj2 (Z.eqb_eq _ _) Ez).
           rewrite !headQuota_ne, lookup_empty by done. split; [by intros []|by intros []].
        -- rewrite headQuota_eq by done. split; eauto.
Qed.

(** The error of a refused request, as a gRPC status: PERMISSION_DENIED for a limit without a
    quota, RESOURCE_EXHAUSTED for one with a quota; the client that gets the status reads the
    package's error back out of it. *)
Theorem refusal_grpc_status {Any} (any_new : Errors.Error -> option Any) any_decode json_parse json_format code_name s e :
  (forall e a, any_new e = Some a -> any_decode a = Some (Some e)) -> (forall e, is_Some (any_new e)) ->
  snd (Response s) = Some e ->
  let st := Error_GRPCStatus any_new json_format e in
  Errors.st_code st = (if decide (Limit s = 0) then 7 else 8) /\
  Errors.FromStatus any_decode json_parse code_name (Some st) =
    (Some (if decide (Limit s = 0) then ErrForbidden else ErrFloodWait), true) /\
  Error_Status e = (if decide (Limit s = 0) then None else Some s).
Proof.
  intros Hdec Hnew. unfold Response, Err, OK. destruct (0 <? Allowed s) eqn:Hok.
  - destruct (Z.eqb_spec (Limit s) 0); discriminate.
  - assert (forall x, Errors.FromStatus any_decode json_parse code_name (Some (Errors.GRPCStatus any_new json_format x)) = (Some x, true) /\
      Errors.st_code (Errors.GRPCStatus any_new json_format x) = Errors.grpc_num (Errors.http2grpcCode (Errors.Code_ x))) as H.
    { intros x. destruct (Hnew x) as [a Ha]. unfold Errors.GRPCStatus, Errors.FromStatus. rewrite Ha. simpl. by rewrite (Hdec x a Ha). }
    destruct (Z.eqb_spec (Limit s) 0) as [E|E]; cbn [snd]; intros [= <-]; cbn zeta; cbn [Error_GRPCStatus Error_Status].
    + rewrite !decide_True by done. destruct (H ErrForbidden) as [-> ->]. done.
    + rewrite !decide_False by done. destruct (H ErrFloodWait) as [-> ->]. done.
Qed.

Lemma refusal_grpc_status_witness :
  Errors.st_code (Error_GRPCStatus Some (fun _ => "") (rate_error (mkStatus 0 5 0 0 7 7))) = 8.
Proof.
  exact (proj1 (refusal_grpc_status Some (fun a => Some (Some a)) Errors.no_json (fun _ => "") (fun _ => "")
    (mkStatus 0 5 0 0 7 7) (rate_error (mkStatus 0 5 0 0 7 7)) (fun e a H => match H with eq_refl => eq_refl end)
    (fun e => ex_intro _ e eq_refl) eq_refl)).
Defined.

Lemma response_verdict_witness :
  snd (Response (mkStatus 0 5 0 0 7 (3 * Rate.Second))) =
    Some (rate_error (mkStatus 0 5 0 0 7 (3 * Rate.Second))) /\
  snd (Response (mkStatus 0 5 1 4 7 0)) = None.
Proof.
  split; [reflexivity|]. apply (response_verdict (mkStatus 0 5 1 4 7 0)); [|reflexivity].
  vm_compute; intuition discriminate.
Defined.

End Status.
