(* ===== verification/FixedWindow.v ===== *)
(** * Fixed window limiter: infra/ratelimit/zone/local/fixed_window.go

    A counter per window.  Times are nanoseconds since the zero [time.Time]
    (so [0] is the zero time), kept as unbounded integers; [Sub] saturates to
    the range of a [Duration] as the library does.  The mutex makes every
    operation atomic: an operation is a function from the state before to the
    state after. *)
From stdpp Require Import prelude list.
From Stdlib Require Import ZArith Lia.
From S2P Require Import Prelude Rate Status.
Local Open Scope Z_scope.

Module FixedWindow.

(** [time.Time.Sub] *)
Definition time_sub (a b : Z) : Z := Z.max min_int64 (Z.min max_int64 (a - b)).

Record fixedWindow := mkFW {
  limit : Rate.Rate;
  reset : Z;
  taken : Z
}.

Definition newFixedWindow (limit : Rate.Rate) : fixedWindow := mkFW limit 0 0.

Definition TokensAt (e : fixedWindow) (date : Z) : Z :=
  if reset e =? 0 then Rate.Limit (limit e)
  else
    let offset := time_sub (reset e) date in
    if 0 <? offset then Rate.Limit (limit e)
    else if Rate.Window (limit e) <? offset then 0
    else i64 (Rate.Limit (limit e) - taken e).

(** Result: tokens allowed, tokens remaining, time to the reset. *)
Definition takeN (e : fixedWindow) (date cost : Z) (hard : bool) : (Z * Z * Z) * fixedWindow :=
  let e := if reset e <? date then mkFW (limit e) (date + Rate.Window (limit e)) 0 else e in
  let tokens := i64 (Rate.Limit (limit e) - taken e) in
  if tokens <? 1 then ((0, 0, time_sub (reset e) date), e)
  else if (u32 tokens <? cost) && hard then ((0, 0, time_sub (reset e) date), e)
  else
    let e := mkFW (limit e) (reset e) (u32 (taken e + cost)) in
    let allow := u32 tokens in
    let allow := if cost <? allow then cost else allow in
    ((allow, u32 (u32 tokens - cost), time_sub (reset e) date), e).

Definition requestAt (c : fixedWindow) (date cost : Z) : Status.Status * fixedWindow :=
  if Rate.Limit (limit c) <? 1 then (Status.mkStatus date 0 0 0 0 0, c)
  else
    let '((allowed, remaining, resetAfter), c) := takeN c date cost true in
    (Status.mkStatus date (u32 (Rate.Limit (limit c))) allowed remaining resetAfter
       (if allowed <? 1 then resetAfter else 0), c).

(** ** Specification *)

(** A well-formed limiter: a positive 32-bit limit, a positive window, and a
    count that never exceeds the limit. *)
Definition fw_wf (e : fixedWindow) : Prop :=
  1 <= Rate.Limit (limit e) < 2 ^ 32 /\ 0 < Rate.Window (limit e) <= max_int64 /\
  0 <= taken e <= Rate.Limit (limit e).

(** A well-formed request cost. *)
Definition cost_ok (cost : Z) : Prop := 1 <= cost < 2 ^ 32.

(** The window a request at [date] falls in: the running one, or a new one. *)
Definition window_at (e : fixedWindow) (date : Z) : Z * Z :=
  if reset e <? date then (date + Rate.Window (limit e), 0) else (reset e, taken e).

(** What the limiter promises: the request is granted in full iff its cost fits
    in what the window has left, and a refusal takes nothing. *)
Definition spec_request (e : fixedWindow) (date cost : Z) : Status.Status * fixedWindow :=
  let '(r, used) := window_at e date in
  let L := Rate.Limit (limit e) in
  if cost <=? L - used
  then (Status.mkStatus date L cost (L - used - cost) (time_sub r date) 0,
        mkFW (limit e) r (used + cost))
  else (Status.mkStatus date L 0 0 (time_sub r date) (time_sub r date),
        mkFW (limit e) r used).

(** Runs: the requests in order, each with its window and its grant. *)
Fixpoint run (e : fixedWindow) (reqs : list (Z * Z)) : list (Z * Z) * fixedWindow :=
  match reqs with
  | [] => ([], e)
  | (date, cost) :: rest =>
      let '(st, e') := requestAt e date cost in
      let '(out, e'') := run e' rest in
      ((reset e', Status.Allowed st) :: out, e'')
  end.

(** Tokens granted in the window that ends at [r]. *)
Fixpoint granted (r : Z) (out : list (Z * Z)) : Z :=
  match out with
  | [] => 0
  | (r', a) :: out => (if r' =? r then a else 0) + granted r out
  end.

(** ** Lemmas *)

Lemma requestAt_refines e date cost :
  fw_wf e -> cost_ok cost -> requestAt e date cost = spec_request e date cost.
Proof.
  intros (HL & HW & HT) Hc. unfold requestAt, spec_request, takeN, window_at, cost_ok in *.
  set (L := Rate.Limit (limit e)) in *.
  destruct (Z.ltb_spec L 1); [lia|].
  destruct (Z.ltb_spec (reset e) date); simpl; fold L;
    rewrite wrap_signed_small by lia.
  - destruct (Z.ltb_spec (L - 0) 1); [lia|]. rewrite !wrap_unsigned_small by lia.
    destruct (Z.ltb_spec (L - 0) cost), (Z.leb_spec cost (L - 0)); try lia; simpl; fold L;
      rewrite ?wrap_unsigned_small by lia; [done|].
    repeat case_match; z_bool; try lia; repeat f_equal; lia.
  - destruct (Z.ltb_spec (L - taken e) 1); simpl; fold L.
    + destruct (Z.leb_spec cost (L - taken e)); [lia|]. rewrite wrap_unsigned_small by lia.
      by destruct e.
    + rewrite !wrap_unsigned_small by lia.
      destruct (Z.ltb_spec (L - taken e) cost), (Z.leb_spec cost (L - taken e)); try lia;
        simpl; fold L; rewrite ?wrap_unsigned_small by lia; [by destruct e|].
      repeat case_match; z_bool; try lia; repeat f_equal; lia.
Qed.

Lemma window_at_bounds e date :
  fw_wf e -> 0 <= snd (window_at e date) <= Rate.Limit (limit e) /\
             reset e <= fst (window_at e date).
Proof.
  intros (HL & HW & HT). unfold window_at.
  destruct (Z.ltb_spec (reset e) date); simpl; lia.
Qed.

Lemma spec_request_wf e date cost :
  fw_wf e -> cost_ok cost ->
  let e' := snd (spec_request e date cost) in
  fw_wf e' /\ limit e' = limit e /\ reset e <= reset e' /\
  0 <= Status.Allowed (fst (spec_request e date cost)) /\
  (reset e' = reset e -> taken e' = taken e + Status.Allowed (fst (spec_request e date cost))) /\
  (reset e < reset e' -> taken e' = Status.Allowed (fst (spec_request e date cost))).
Proof.
  intros Hwf Hc. pose proof (window_at_bounds e date Hwf) as [Hb Hr].
  destruct Hwf as (HL & HW & HT). unfold spec_request, fw_wf, cost_ok in *.
  assert (reset e < fst (window_at e date) -> snd (window_at e date) = 0) as Hnew.
  { unfold window_at. destruct (Z.ltb_spec (reset e) date); simpl; lia. }
  assert (fst (window_at e date) = reset e -> snd (window_at e date) = taken e) as Hold.
  { unfold window_at. destruct (Z.ltb_spec (reset e) date); simpl; lia. }
  destruct (window_at e date) as [r used]; simpl in *.
  destruct (Z.leb_spec cost (Rate.Limit (limit e) - used)); simpl;
    split_and!; try done; try lia; intros; rewrite ?Hnew, ?Hold by lia; lia.
Qed.

(** Grants of a window never exceed what it had left; windows before the
    current one get nothing more. *)
Lemma run_granted reqs : forall e r,
  fw_wf e -> Forall (fun rq => cost_ok rq.2) reqs ->
  granted r (fst (run e reqs)) <=
    if decide (r < reset e) then 0
    else if decide (r = reset e) then Rate.Limit (limit e) - taken e
    else Rate.Limit (limit e).
Proof.
  induction reqs as [|[date cost] reqs IH]; intros e r Hwf Hc; simpl.
  - destruct Hwf as (? & ? & ?). repeat case_decide; lia.
  - apply Forall_cons in Hc as [Hcost Hc]. simpl in Hcost.
    rewrite requestAt_refines by done.
    pose proof (spec_request_wf e date cost Hwf Hcost) as (Hwf' & Hl & Hr & Ha & Ho & Hn).
    destruct (spec_request e date cost) as [st e']. simpl in *.
    specialize (IH e' r Hwf' Hc). destruct (run e' reqs) as [out e'']. simpl in *.
    destruct Hwf as (HL & HW & HT), Hwf' as (HL' & HW' & HT'). rewrite Hl in *.
    destruct (Z.eqb_spec (reset e') r) as [<-|]; repeat case_decide; lia.
Qed.

(** ** Properties *)

(** C1: the window limiter refines its specification: for every well-formed
    state and every 32-bit cost of at least one, [requestAt] grants the full cost iff it fits
    in what the window at that date has left, refuses without taking anything
    otherwise (no partial grant, no 32-bit wrap-around), starts a new window
    exactly when the date is past the old one, and keeps the state
    well-formed. *)
Theorem fixed_window_refines e date cost :
  fw_wf e -> cost_ok cost ->
  requestAt e date cost = spec_request e date cost /\ fw_wf (snd (requestAt e date cost)).
Proof.
  intros Hwf Hc. rewrite requestAt_refines by done. split; [done|].
  by apply spec_request_wf.
Qed.

Lemma fixed_window_refines_witness :
  requestAt (mkFW (Rate.mkRate 3 100) 200 2) 150 2 =
    (Status.mkStatus 150 3 0 0 50 50, mkFW (Rate.mkRate 3 100) 200 2).
Proof.
  apply (fixed_window_refines (mkFW (Rate.mkRate 3 100) 200 2) 150 2);
    vm_compute; intuition discriminate.
Defined.

(** C2: the limit holds over every run: whatever the sequence of requests (any
    dates, also out of order, any positive costs), the tokens granted within
    one window add up to at most the limit. *)
Theorem window_never_over_grants rate reqs r :
  1 <= Rate.Limit rate < 2 ^ 32 -> 0 < Rate.Window rate <= max_int64 ->
  Forall (fun rq => cost_ok rq.2) reqs ->
  granted r (fst (run (newFixedWindow rate) reqs)) <= Rate.Limit rate.
Proof.
  intros HL HW Hc.
  pose proof (run_granted reqs (newFixedWindow rate) r) as H.
  specialize (H ltac:(repeat split; simpl; lia) Hc).
  simpl in H. repeat case_decide; lia.
Qed.

Lemma window_never_over_grants_witness :
  let out := fst (run (newFixedWindow (Rate.mkRate 3 100)) [(10, 2); (20, 2); (30, 1); (111, 3)]) in
  out = [(110, 2); (110, 0); (110, 1); (211, 3)] /\ granted 110 out <= 3.
Proof.
  intros out. split; [reflexivity|].
  apply (window_never_over_grants (Rate.mkRate 3 100)); simpl; [lia|vm_compute; intuition discriminate|].
  repeat (apply Forall_cons; split; [vm_compute; intuition discriminate|]). by apply Forall_nil.
Defined.

(** [RetryAfter] is honest up to the boundary: a refused request of a cost
    the limit can hold is refused again at exactly [date + RetryAfter] and is
    granted one nanosecond later (no other request in between). *)
Theorem retry_after_boundary e date cost st e' :
  fw_wf e -> cost_ok cost -> cost <= Rate.Limit (limit e) ->
  reset e <= date + max_int64 ->
  requestAt e date cost = (st, e') -> Status.Allowed st = 0 ->
  Status.Allowed (fst (requestAt e' (date + Status.RetryAfter st) cost)) = 0 /\
  Status.Allowed (fst (requestAt e' (date + Status.RetryAfter st + 1) cost)) = cost.
Proof.
  intros Hwf Hc HL Hsat Hreq Hden. pose proof (spec_request_wf e date cost Hwf Hc) as (Hwf' & Hl & _).
  rewrite requestAt_refines in Hreq by done. rewrite Hreq in Hwf', Hl. simpl in *.
  rewrite !requestAt_refines by done.
  destruct Hwf as (HLe & HW & HT). unfold cost_ok in *. unfold spec_request in Hreq.
  unfold window_at in Hreq. destruct (Z.ltb_spec (reset e) date) as [Hd|Hd].
  { destruct (Z.leb_spec cost (Rate.Limit (limit e) - 0)); [|lia]. simplify_eq/=. lia. }
  destruct (Z.leb_spec cost (Rate.Limit (limit e) - taken e)); simplify_eq/=; [lia|].
  assert (time_sub (reset e) date = reset e - date) as ->.
  { unfold time_sub, min_int64, max_int64 in *. lia. }
  replace (date + (reset e - date)) with (reset e) by lia.
  unfold spec_request, window_at. simpl.
  destruct (Z.ltb_spec (reset e) (reset e)), (Z.ltb_spec (reset e) (reset e + 1)); try lia.
  destruct (Z.leb_spec cost (Rate.Limit (limit e) - taken e)),
    (Z.leb_spec cost (Rate.Limit (limit e) - 0)); try lia. done.
Qed.

Lemma retry_after_boundary_witness :
  let e := mkFW (Rate.mkRate 3 100) 110 3 in
  Status.Allowed (fst (requestAt e (20 + 90) 1)) = 0 /\
  Status.Allowed (fst (requestAt e (20 + 90 + 1) 1)) = 1.
Proof.
  intros e.
  apply (retry_after_boundary e 20 1 (Status.mkStatus 20 3 0 0 90 90) e);
    try reflexivity; vm_compute; intuition discriminate.
Defined.

(** [TokensAt] has its two cases exchanged: during the window it reports the
    whole limit however much was taken, and after the window has passed it
    still subtracts what the old window took. *)
Theorem tokens_at_inverted e date :
  fw_wf e -> 0 < reset e ->
  (date < reset e -> TokensAt e date = Rate.Limit (limit e)) /\
  (reset e < date -> TokensAt e date = Rate.Limit (limit e) - taken e).
Proof.
  intros (HL & HW & HT) Hr. unfold TokensAt, time_sub, min_int64, max_int64 in *.
  destruct (Z.eqb_spec (reset e) 0); [lia|]. split; intros Hd.
  - destruct (Z.ltb_spec 0 (Z.max (- 2 ^ 63) (Z.min (2 ^ 63 - 1) (reset e - date)))); lia.
  - destruct (Z.ltb_spec 0 (Z.max (- 2 ^ 63) (Z.min (2 ^ 63 - 1) (reset e - date)))); [lia|].
    destruct (Z.ltb_spec (Rate.Window (limit e))
                (Z.max (- 2 ^ 63) (Z.min (2 ^ 63 - 1) (reset e - date)))); [lia|].
    apply wrap_signed_small; lia.
Qed.

Lemma tokens_at_inverted_witness :
  TokensAt (mkFW (Rate.mkRate 3 100) 110 3) 50 = 3 /\
  TokensAt (mkFW (Rate.mkRate 3 100) 110 3) 500 = 0.
Proof.
  split; apply (tokens_at_inverted (mkFW (Rate.mkRate 3 100) 110 3));
    vm_compute; intuition discriminate.
Defined.

End FixedWindow.
