(* ===== verification/Zone.v ===== *)
(** * Zones: infra/ratelimit/zone (driver.go, options.go, request.go, forbidden.go)

    Options of a zone, the per-route limit options with their salt keys, the
    key of a request in a zone, the driver registry with the scheme syntax,
    and the forbidden zone.  [ZoneImpl] is the interface [Zone] of the source:
    what the router calls and what the local zone implements. *)
From stdpp Require Import prelude strings list gmap.
From Stdlib Require Import ZArith Lia Ascii.
From S2P Require Import Prelude Rate Keys Status.
Local Open Scope Z_scope.
Local Open Scope go_scope.

Module Zone.

(** algo.go *)
Definition AlgoTokenBucket : string := "token_bucket".
Definition AlgoLeakyBucket : string := "leaky_bucket".
Definition AlgoFixedWindow : string := "fixed_window".
Definition AlgoSlidingWindow : string := "sliding_window".

(** ** options.go *)

Record Options := mkOptions {
  oKey : option Keys.Key;
  oPath : bool;
  oName : string;
  oSize : Z;
  oRate : Rate.Rate;
  oAlgo : string;
  oBurst : Z
}.

Definition Options_setup (opts : list (Options -> Options)) (zone : Options) : Options :=
  let zone := fold_left (fun z option => option z) opts zone in
  mkOptions (oKey zone) (oPath zone) (oName zone) (oSize zone) (oRate zone)
    (if decide (oAlgo zone = "") then AlgoTokenBucket else oAlgo zone) (oBurst zone).

Definition NewOptions (opts : list (Options -> Options)) : Options :=
  Options_setup opts (mkOptions None false "" 0 Rate.rate_zero AlgoTokenBucket 0).

(** ** request.go *)

(** The salt keys; [None] entries are nil keys. *)
Record LimitOptions := mkLimit { Salt : list (option Keys.Key) }.

Definition RequestPath (req : Keys.Request) : Keys.Value :=
  match Keys.Http req with
  | Some http =>
      match Keys.http_URL http with
      | Some url => Keys.Path url
      | None => Keys.Undefined
      end
  | None => Keys.Undefined
  end.

Definition RequestURI (req : Keys.Request) : Keys.Value :=
  match Keys.Http req with
  | Some http =>
      match Keys.http_URL http with
      | Some url => Keys.RequestURI_ url
      | None => Keys.Undefined
      end
  | None => Keys.Undefined
  end.

(** [slices.ContainsFunc] with [EqualKeys]. *)
Fixpoint contains_key (salt : list (option Keys.Key)) (key : option Keys.Key) : outcome bool :=
  match salt with
  | [] => Ret false
  | has :: rest =>
      let! eq := Keys.EqualKeys has key in
      if (eq : bool) then Ret true else contains_key rest key
  end.

(** The loop of [WithLimitKeys]: it returns at the first nil key. *)
Fixpoint WithLimitKeys (salt : list (option Keys.Key)) (opts : LimitOptions)
  : outcome LimitOptions :=
  match salt with
  | [] => Ret opts
  | None :: _ => Ret opts
  | Some key :: rest =>
      let! dup := contains_key (Salt opts) (Some key) in
      if (dup : bool) then WithLimitKeys rest opts
      else WithLimitKeys rest (mkLimit (Salt opts ++ [Some key]))
  end.

(** [GetLimitOptions]: the options bound to the request context, if any. *)
Definition GetLimitOptions (ctx : option LimitOptions) : LimitOptions :=
  match ctx with Some o => o | None => mkLimit [] end.

Definition RequestKey (req : Keys.Request) (ctx : option LimitOptions)
    (key : option Keys.Key) (h : Keys.heap) : outcome (Keys.Value * Keys.heap) :=
  let opts := GetLimitOptions ctx in
  let! key := Keys.MultiKey "+" key (Salt opts) in
  match (key : option Keys.Key) with
  | Some key => Ret (Keys.Request_Get req key h)
  | None => Panic "invalid memory address or nil pointer dereference"
  end.

(** ** The interface of a zone *)

(** A status (nil: not affected) and an error, with the state after. *)
Definition limit_result (S : Type) : Type :=
  outcome ((option Status.Status * option string) * S).

Class ZoneImpl (Z S : Type) := {
  Zone_Options : Z -> Options;
  Zone_LimitRequest : Z -> Keys.Request -> option LimitOptions -> S -> limit_result S
}.

(** What a zone promises to the router: a request of a 32-bit cost keeps the
    state sound and gets a status in range that asks to wait only when it
    refuses. *)
Definition status_sane (st : Status.Status) : Prop :=
  Status.status_wf st /\ 0 <= Status.RetryAfter st /\
  (0 < Status.RetryAfter st -> Status.Allowed st = 0).

Definition req_ok (req : Keys.Request) : Prop := 0 <= Keys.Cost req < 2 ^ 32.

Class ZoneLaws (Z S : Type) `{ZoneImpl Z S} := {
  zone_ok : Z -> Prop;
  zone_inv : S -> Prop;
  zone_sane : forall z req ctx s st err s',
    zone_ok z -> req_ok req -> zone_inv s ->
    Zone_LimitRequest z req ctx s = Ret ((st, err), s') ->
    zone_inv s' /\ forall x, st = Some x -> status_sane x
}.

(** ** forbidden.go *)

Definition Forbidden_LimitRequest {S} (c : Options) (req : Keys.Request) (s : S)
  : limit_result S := Ret ((Some (Status.Deny req []), None), s).

(** ** driver.go *)

Definition scheme_letter (c : ascii) : bool := in_range "a" "z" c || in_range "A" "Z" c.
Definition scheme_other (c : ascii) : bool :=
  is_digit c || bool_decide (c = "+"%char) || bool_decide (c = "-"%char) || bool_decide (c = "."%char).

(** The loop of [GetScheme] at index [i], with the scheme read so far. *)
Fixpoint get_scheme (dataSource : string) (i : nat) (seen rest : string)
  : string * string * option string :=
  match rest with
  | EmptyString => (dataSource, "", None)
  | String c rest' =>
      if scheme_letter c then get_scheme dataSource (S i) (seen +:+ String c "") rest'
      else if scheme_other c then
        (if decide (i = 0%nat) then ("", dataSource, None)
         else get_scheme dataSource (S i) (seen +:+ String c "") rest')
      else if decide (c = ":"%char) then
        (if decide (i = 0%nat) then ("", "", Some "missing protocol scheme")
         else (seen, rest', None))
      else ("", dataSource, None)
  end.

Definition GetScheme (dataSource : string) : string * string * option string :=
  get_scheme dataSource 0 "" dataSource.

Section Drivers.
Context {Z : Type}.

(** A driver builds a zone or reports an error. *)
Definition DriverFunc := string -> Options -> res string Z.

Fixpoint check_schemes (scheme : list string) : outcome unit :=
  match scheme with
  | [] => Ret tt
  | s :: rest =>
      match GetScheme s with
      | (_, _, Some err) => Panic ("ratelimit: register scheme error ; " +:+ err)
      | (cn, _, None) =>
          if decide (cn = s) then check_schemes rest
          else Panic "ratelimit: register scheme invalid"
      end
  end.

Definition Register (drivers : gmap string DriverFunc) (driver : option DriverFunc)
    (scheme : list string) : outcome (gmap string DriverFunc) :=
  match driver with
  | None => Panic "ratelimit: register no driver"
  | Some driver =>
      match scheme with
      | [] => Panic "ratelimit: register driver no scheme"
      | _ =>
          let! _ := check_schemes scheme in
          Ret (fold_left (fun m s => <[ToLower s := driver]> m) scheme drivers)
      end
  end.

Definition GetDriver (drivers : gmap string DriverFunc) (scheme : string) : option DriverFunc :=
  drivers !! ToLower scheme.

(** A zone of a driver, or the forbidden helper zone. *)
Inductive AnyZone := forbidden_zone (opts : Options) | driver_zone (z : Z).

Definition NewZone (drivers : gmap string DriverFunc) (dataSource : string) (options : Options)
  : res string AnyZone :=
  match GetScheme dataSource with
  | (_, _, Some err) => Err err
  | (scheme, _, None) =>
      match GetDriver drivers scheme with
      | None => Err ("ratelimit: scheme driver not supported: " +:+ scheme)
      | Some newZone =>
          let options :=
            match oKey options with
            | Some _ => options
            | None => mkOptions (Some (Keys.KeyValue "!nokey!" Keys.Undefined)) (oPath options)
                        (oName options) (oSize options) (oRate options) (oAlgo options)
                        (oBurst options)
            end in
          if Rate.Rate_IsValid (Some (oRate options))
          then let? z := newZone dataSource options in Ok (driver_zone z)
          else Ok (forbidden_zone options)
      end
  end.

End Drivers.

(** ** Lemmas *)

Definition scheme_char (c : ascii) : bool := scheme_letter c || scheme_other c.

(** A scheme: empty, or a letter followed by letters, digits, [+], [-], [.]. *)
Definition valid_scheme (s : string) : bool :=
  match s with
  | EmptyString => true
  | String c t => scheme_letter c && all_bytes scheme_char t
  end.

Lemma colon_not_scheme : scheme_char ":" = false.
Proof. reflexivity. Qed.

Lemma get_scheme_run ds s rest i seen :
  i <> 0%nat -> all_bytes scheme_char s = true ->
  get_scheme ds i seen (s +:+ rest) = get_scheme ds (i + String.length s) (seen +:+ s) rest.
Proof.
  revert i seen. induction s as [|c s IH]; intros i seen Hi Hs.
  - simpl. by rewrite append_nil_r, Nat.add_0_r.
  - simpl in Hs. apply andb_prop in Hs as [Hc Hs]. rewrite append_cons. simpl get_scheme.
    assert (get_scheme ds (S i) (seen +:+ String c "") (s +:+ rest)
            = get_scheme ds (i + String.length (String c s)) (seen +:+ String c s) rest) as E.
    { rewrite IH by (done || lia). rewrite append_assoc. simpl. f_equal. lia. }
    unfold scheme_char in Hc. destruct (scheme_letter c); [done|]. simpl in Hc. rewrite Hc.
    by rewrite decide_False.
Qed.

Lemma scheme_letter_char c : scheme_letter c = true -> scheme_char c = true.
Proof. unfold scheme_char. by intros ->. Qed.

(** [scheme:opaque] splits at the first colon. *)
Lemma GetScheme_split s rest :
  valid_scheme s = true -> s <> "" -> GetScheme (s +:+ String ":" rest) = (s, rest, None).
Proof.
  intros Hv Hn. destruct s as [|c s]; [done|]. simpl in Hv. apply andb_prop in Hv as [Hc Hs].
  unfold GetScheme. rewrite append_cons. simpl get_scheme. rewrite Hc.
  rewrite get_scheme_run by done. simpl. done.
Qed.

Lemma GetScheme_bare s : valid_scheme s = true -> GetScheme s = (s, "", None).
Proof.
  intros Hv. destruct s as [|c s]; [done|]. simpl in Hv. apply andb_prop in Hv as [Hc Hs].
  unfold GetScheme. simpl. rewrite Hc.
  rewrite <- (append_nil_r s) at 2. by rewrite get_scheme_run.
Qed.

Lemma check_schemes_valid l : Forall (fun s => valid_scheme s = true) l -> check_schemes l = Ret tt.
Proof.
  induction 1 as [|s l Hs _ IH]; simpl; [done|].
  rewrite GetScheme_bare by done. by rewrite decide_True.
Qed.

Lemma fold_insert_lookup {A} (d : A) l m k :
  fold_left (fun m s => <[ToLower s := d]> m) l m !! k =
  if decide (k ∈ ToLower <$> l) then Some d else (m : gmap string A) !! k.
Proof.
  revert m. induction l as [|s l IH]; intros m; simpl; [done|]. rewrite IH.
  destruct (decide (k ∈ ToLower <$> l)) as [Hin|Hin].
  - rewrite decide_True; [done|by right].
  - destruct (decide (k = ToLower s)) as [->|Hne].
    + rewrite lookup_insert_eq, decide_True; [done|left].
    + rewrite lookup_insert_ne by done. rewrite decide_False; [done|].
      intros [?|?]%elem_of_cons; done.
Qed.

(** ** Properties *)

(** A data source is routed to the driver registered for its scheme: after
    [Register] of valid schemes, [NewZone] of [scheme:opaque] in any letter
    case calls that driver with the whole data source when the rate is valid,
    and builds the forbidden zone without calling it when the rate is not. *)
Theorem new_zone_dispatch {Z} (drivers : gmap string (@DriverFunc Z)) driver schemes s s' rest options :
  Forall (fun s => valid_scheme s = true) schemes -> s' ∈ schemes ->
  valid_scheme s = true -> s <> "" -> ToLower s = ToLower s' -> is_Some (oKey options) ->
  exists drivers', Register drivers (Some driver) schemes = Ret drivers' /\
    let ds := s +:+ String ":" rest in
    NewZone drivers' ds options =
      if Rate.Rate_IsValid (Some (oRate options))
      then res_bind (driver ds options) (fun z => Ok (driver_zone z))
      else Ok (forbidden_zone options).
Proof.
  intros Hall Hin Hv Hne Hlow [k Hk]. unfold Register.
  destruct schemes as [|s0 l] eqn:E; [by apply elem_of_nil in Hin|]. rewrite <- E in *.
  rewrite check_schemes_valid by done. eexists. split; [done|]. simpl.
  unfold NewZone. rewrite GetScheme_split by done. unfold GetDriver.
  rewrite fold_insert_lookup, decide_True; [by rewrite Hk|].
  rewrite Hlow. by apply list_elem_of_fmap_2.
Qed.

Lemma new_zone_dispatch_witness :
  let o := mkOptions (Some (Keys.KeyValue "k" "v")) false "z" 0 (Rate.mkRate 1 Rate.Second) "" 0 in
  exists drivers', Register ∅ (Some (fun ds _ => Ok ds)) ["redis"; "unix"] = Ret drivers' /\
    NewZone drivers' "Redis:localhost" o = Ok (driver_zone "Redis:localhost").
Proof.
  intros o.
  apply (new_zone_dispatch ∅ (fun ds _ => Ok ds) ["redis"; "unix"] "Redis" "redis" "localhost" o);
    try done.
  - by repeat constructor.
  - by left.
Defined.

(** The forbidden zone refuses every request for good: it never grants a
    token, sets no quota and asks for no retry, and the response built from
    its status is [ErrForbidden] without headers. *)
Theorem forbidden_zone_denies {S} (c : Options) req (s : S) :
  exists st, Forbidden_LimitRequest c req s = Ret ((Some st, None), s) /\
    Status.OK (Some st) = false /\
    Status.Response st = (None, Some Status.forbidden_error).
Proof. eexists. split; [done|]. split; reflexivity. Qed.

(** Two distinct named salts cannot be attached to a route:
    [WithLimitKeys] compares the second with the first through [EqualKeys],
    which panics on two [NamedKey] values, so the documented de-duplication
    never happens. *)
Theorem with_limit_keys_panics n1 r1 n2 r2 rest :
  WithLimitKeys (Some (Keys.NamedKey n1 r1) :: Some (Keys.NamedKey n2 r2) :: rest) (mkLimit [])
  = Panic "comparing uncomparable type ratelimit.NamedKey".
Proof. reflexivity. Qed.

End Zone.
