(* ===== verification/TokenBucket.v ===== *)
(** * Token bucket limiter: infra/ratelimit/zone/local/token_bucket.go

    The bucket itself is [golang.org/x/time/rate.Limiter], which is not part of
    the repository: it is the class [RateLimiter], with the documented laws in
    [RateLimiterLaws].  The file models what the repository adds: the emission
    interval, the reservation that is cancelled on refusal, and the status. *)
From stdpp Require Import prelude strings list.
From Stdlib Require Import ZArith Lia.
From S2P Require Import Prelude Float64 Rate Status.
Local Open Scope Z_scope.
Local Open Scope go_scope.

Module TokenBucket.

(** [L] limiters, [R] reservations. *)
Class RateLimiter (L R : Type) := {
  (** [rate.NewLimiter(rate.Every(interval), burst)] *)
  NewLimiter : Z -> Z -> L;
  ReserveN : L -> Z -> Z -> R * L;
  DelayFrom : R -> Z -> Z;
  CancelAt : L -> R -> Z -> L;
  Burst : L -> Z;
  TokensAt : L -> Z -> Float64.f64
}.

(** The burst is fixed at construction; a delay is never negative. *)
Class RateLimiterLaws (L R : Type) `{RateLimiter L R} := {
  Burst_new : forall i b, Burst (NewLimiter i b) = b;
  Burst_reserve : forall l d n, Burst (snd (ReserveN l d n)) = Burst l;
  Burst_cancel : forall l r d, Burst (CancelAt l r d) = Burst l;
  DelayFrom_nonneg : forall l d n, 0 <= DelayFrom (fst (ReserveN l d n)) d <= max_int64
}.

Section Bucket.
Context {L R : Type} `{!RateLimiter L R}.

Record tokenBucket := mkTB { limit : Rate.Rate; bucket : L }.

Definition newTokenBucket (limit : Rate.Rate) (burst : Z) : tokenBucket :=
  let burst := Z.max burst 1 in
  let emission :=
    if 0 <? Rate.Limit limit then i64 (Z.quot (Rate.Window limit) (Rate.Limit limit)) else 0 in
  mkTB limit (NewLimiter emission burst).

Definition requestAt (c : tokenBucket) (date cost : Z) : outcome (Status.Status * tokenBucket) :=
  let cost := Z.max cost 1 in
  let '(req, b) := ReserveN (bucket c) date cost in
  let retry := DelayFrom req date in
  let allow := retry =? 0 in
  let b := if allow then b else CancelAt b req date in
  let rate := limit c in
  let burst := Burst b in
  if Rate.Limit rate =? 0 then Panic "integer divide by zero"
  else
    let every := i64 (Z.quot (Rate.Window rate) (Rate.Limit rate)) in
    if negb allow then
      Ret (Status.mkStatus date (u32 burst) 0 0 (i64 (i64 (every * burst) - retry)) retry,
           mkTB rate b)
    else
      let tokens := TokensAt b date in
      let taken := Float64.fsub (Float64.of_Z burst) tokens in
      let reset := i64 (Float64.ftrunc (Float64.fmul (Float64.of_Z every) taken)) in
      Ret (Status.mkStatus date (u32 burst) cost (u32 (Float64.ftrunc tokens)) reset 0,
           mkTB rate b).

Context `{!RateLimiterLaws L R}.

(** The quota of the bucket, kept by every request. *)
Definition tb_wf (c : tokenBucket) : Prop :=
  0 < Rate.Limit (limit c) <= max_int64 /\ 1 <= Burst (bucket c) < 2 ^ 32.

Lemma newTokenBucket_wf rate burst :
  0 < Rate.Limit rate <= max_int64 -> burst < 2 ^ 32 -> tb_wf (newTokenBucket rate burst).
Proof. intros. unfold tb_wf. simpl. rewrite Burst_new. lia. Qed.

(** A token-bucket request is all or nothing and never divides by zero: on a
    bucket with a positive limit it returns a status that either grants the
    whole cost (at least one) with no retry delay, or grants nothing and asks
    to retry after exactly the delay of the reservation, which it has
    cancelled; the quota is the burst in both cases and the bucket stays
    well-formed. *)
Theorem token_bucket_request c date cost :
  tb_wf c ->
  exists st c', requestAt c date cost = Ret (st, c') /\ tb_wf c' /\
    Status.Limit st = Burst (bucket c) /\
    let delay := DelayFrom (fst (ReserveN (bucket c) date (Z.max cost 1))) date in
    (delay = 0 -> Status.Allowed st = Z.max cost 1 /\ Status.RetryAfter st = 0) /\
    (delay <> 0 -> Status.Allowed st = 0 /\ Status.RetryAfter st = delay /\ 0 < delay /\
       bucket c' = CancelAt (snd (ReserveN (bucket c) date (Z.max cost 1)))
                     (fst (ReserveN (bucket c) date (Z.max cost 1))) date).
Proof.
  intros [HL HB]. unfold requestAt.
  pose proof (Burst_reserve (bucket c) date (Z.max cost 1)) as Hb.
  pose proof (DelayFrom_nonneg (bucket c) date (Z.max cost 1)) as Hd.
  destruct (ReserveN (bucket c) date (Z.max cost 1)) as [r b]. simpl in *.
  destruct (Z.eqb_spec (Rate.Limit (limit c)) 0); [lia|].
  destruct (Z.eqb_spec (DelayFrom r date) 0) as [E|E]; simpl;
    eexists _, _; (split; [done|]); unfold tb_wf; simpl;
    rewrite ?Burst_cancel, Hb, wrap_unsigned_small by lia; split_and!; try done; try lia;
    intros ?; split_and!; done || lia.
Qed.

(** The reset time of a refusal contradicts its retry time: [ResetAfter] is
    the refill time of a full bucket minus [RetryAfter], so the longer the
    client has to wait, the sooner the limit claims to be fresh; once the wait
    is more than half of the refill time, [ResetAfter] is smaller than
    [RetryAfter], and negative once it is more than all of it. *)
Theorem denied_reset_before_retry c date cost st c' :
  tb_wf c -> 0 < Rate.Window (limit c) ->
  Rate.Window (limit c) * Burst (bucket c) <= max_int64 ->
  requestAt c date cost = Ret (st, c') -> Status.Allowed st = 0 ->
  let refill := Rate.Window (limit c) / Rate.Limit (limit c) * Burst (bucket c) in
  Status.ResetAfter st = refill - Status.RetryAfter st /\
  (refill < 2 * Status.RetryAfter st -> Status.ResetAfter st < Status.RetryAfter st) /\
  (refill < Status.RetryAfter st -> Status.ResetAfter st < 0).
Proof.
  intros [HL HB] HW HM Hreq Hden. unfold requestAt in Hreq.
  pose proof (Burst_reserve (bucket c) date (Z.max cost 1)) as Hb.
  pose proof (DelayFrom_nonneg (bucket c) date (Z.max cost 1)) as Hd.
  destruct (ReserveN (bucket c) date (Z.max cost 1)) as [r b]. simpl in *.
  destruct (Z.eqb_spec (Rate.Limit (limit c)) 0); [lia|].
  destruct (Z.eqb_spec (DelayFrom r date) 0); simplify_eq/=; [lia|].
  rewrite Burst_cancel, Hb. unfold max_int64 in *.
  rewrite Z.quot_div_nonneg by lia.
  assert (0 <= Rate.Window (limit c) / Rate.Limit (limit c)) by (apply Z.div_pos; lia).
  assert (Rate.Window (limit c) / Rate.Limit (limit c) <= Rate.Window (limit c))
    by (apply Z.div_le_upper_bound; nia).
  rewrite (wrap_signed_small 64 (Rate.Window _ / _)) by nia.
  rewrite (wrap_signed_small 64 (_ * Burst _)) by nia.
  rewrite wrap_signed_small by nia. lia.
Qed.

End Bucket.
Arguments tokenBucket : clear implicits.

(** ** A concrete limiter, for the witnesses: tokens refill by one per interval *)
Module Simple.

Record bucket_state := mkB { interval : Z; burst : Z; tokens : Z; last : Z }.

Definition refill (l : bucket_state) (date : Z) : Z :=
  if interval l <=? 0 then burst l
  else Z.min (burst l) (tokens l + (date - last l) / interval l).

(** A reservation is granted ([None]) or delayed. *)
Definition reserve (l : bucket_state) (date n : Z) : option Z * bucket_state :=
  let have := refill l date in
  if n <=? have then (None, mkB (interval l) (burst l) (have - n) date)
  else (Some (Z.max 1 (Z.min max_int64 ((n - have) * interval l))), l).

End Simple.

#[export] Instance simple_limiter : RateLimiter Simple.bucket_state (option Z) := {
  NewLimiter i b := Simple.mkB i b b 0;
  ReserveN := Simple.reserve;
  DelayFrom r _ := default 0 r;
  CancelAt l _ _ := l;
  Burst := Simple.burst;
  TokensAt l d := Float64.of_Z (Simple.refill l d)
}.

#[export] Instance simple_limiter_laws : RateLimiterLaws Simple.bucket_state (option Z).
Proof.
  split; try done.
  - intros l d n. simpl. unfold Simple.reserve. by case_match.
  - intros l d n. simpl. unfold Simple.reserve. case_match; simpl; unfold max_int64; lia.
Qed.

Lemma token_bucket_request_witness :
  let c : tokenBucket Simple.bucket_state := newTokenBucket (Rate.mkRate 10 Rate.Second) 2 in
  exists st c', requestAt c 5 2 = Ret (st, c') /\ tb_wf c' /\
    Status.Limit st = 2 /\ Status.Allowed st = 2.
Proof.
  intros c. destruct (token_bucket_request c 5 2) as (st & c' & E & Hwf & HL & Hok & _).
  - apply newTokenBucket_wf; vm_compute; intuition discriminate.
  - exists st, c'. split; [done|]. split; [done|]. split; [done|]. by apply Hok.
Defined.

Lemma denied_reset_before_retry_witness :
  let c : tokenBucket Simple.bucket_state :=
    mkTB (Rate.mkRate 10 Rate.Second) (Simple.mkB 100000000 1 0 0) in
  exists st c', requestAt c 5 1 = Ret (st, c') /\ Status.ResetAfter st < Status.RetryAfter st.
Proof.
  intros c. eexists _, _. split; [reflexivity|].
  eapply (denied_reset_before_retry c 5 1 _ _); try reflexivity;
    vm_compute; intuition discriminate.
Defined.

End TokenBucket.
