(* ===== verification/LocalZone.v ===== *)
(** * The in-memory zone: infra/ratelimit/zone/local (local_zone.go, memory_zone.go, factory.go)

    A zone keeps one limiter per key value in an LRU table.  The table is
    [hashicorp/golang-lru], outside the repository: the class [LRU] with its
    documented laws.  It holds pointers; the limiters live in a heap and are
    updated in place.  [LimitRequest] is the composition of the three accesses
    of the source (look up, create and add, take tokens); each of them is
    atomic, their sequence is not, and [thread_step] gives the interleavings. *)
From stdpp Require Import prelude strings list gmap.
From Stdlib Require Import ZArith Lia.
From S2P Require Import Prelude Float64 Rate Size Keys Status FixedWindow Zone TokenBucket.
Local Open Scope Z_scope.
Local Open Scope go_scope.

Module LocalZone.

Abbreviation ptr := positive.

(** [Get] may change recency only; [Add] may evict other entries. *)
Class LRU (T : Type) := {
  lru_new : Z -> T;
  lru_get : string -> T -> option ptr * T;
  lru_add : string -> ptr -> T -> T
}.

Class LRULaws (T : Type) `{LRU T} := {
  lru_get_add : forall k p t, fst (lru_get k (lru_add k p t)) = Some p;
  lru_get_get : forall k k' t, fst (lru_get k (snd (lru_get k' t))) = fst (lru_get k t);
  lru_get_new : forall k n, fst (lru_get k (lru_new n)) = None;
  lru_get_add_other : forall k k' p q t, k <> k' ->
    fst (lru_get k (lru_add k' p t)) = Some q -> fst (lru_get k t) = Some q
}.

Section Zone.
Context {L R T : Type} {HRL : TokenBucket.RateLimiter L R} {HLRU : LRU T}.

(** The interface [limiter] and its two implementations. *)
Inductive limiter :=
| tokenBucket_ (b : TokenBucket.tokenBucket L)
| fixedWindow_ (w : FixedWindow.fixedWindow).

Definition limiter_requestAt (l : limiter) (date cost : Z) : outcome (Status.Status * limiter) :=
  match l with
  | tokenBucket_ b =>
      let! (st, b') := TokenBucket.requestAt b date cost in Ret (st, tokenBucket_ b')
  | fixedWindow_ w =>
      let '(st, w') := FixedWindow.requestAt w date cost in Ret (st, fixedWindow_ w')
  end.

(** Sizes of the records in bytes. *)
Definition unitTokenBucket : Z := 96.
Definition unitFixedWindow : Z := 56.
Definition DefaultSize : Z := 1 * Size.Megabyte.

(** The state behind a zone: the [Env] maps, the table, the limiters. *)
Record zstate := mkZ {
  envs : Keys.heap;
  table : T;
  objs : gmap ptr limiter;
  next : ptr
}.

Definition zone_unit (algo : string) : Z :=
  if decide (algo = Zone.AlgoTokenBucket) then unitTokenBucket
  else if decide (algo = Zone.AlgoFixedWindow) then unitFixedWindow else 0.

(** The capacity [newZone] asks of the table. *)
Definition zone_capacity (opts : Zone.Options) : Z :=
  let bytes := if 0 <? Zone.oSize opts then Zone.oSize opts else DefaultSize in
  i64 (i64 (Size.Capacity (Some bytes) (zone_unit (Zone.oAlgo opts))) + 1).

Definition newZone (opts : Zone.Options) (h : Keys.heap) : zstate :=
  mkZ h (lru_new (zone_capacity opts)) ∅ 1%positive.

(** ** The three accesses of [LimitRequest] *)

Definition zone_get (vkey : string) (st : zstate) : option ptr * zstate :=
  let '(p, t) := lru_get vkey (table st) in (p, mkZ (envs st) t (objs st) (next st)).

Definition new_limiter (opts : Zone.Options) : option limiter :=
  let burst := Z.max 1 (Zone.oBurst opts) in
  if decide (Zone.oAlgo opts = Zone.AlgoTokenBucket)
  then Some (tokenBucket_ (TokenBucket.newTokenBucket (Zone.oRate opts) burst))
  else if decide (Zone.oAlgo opts = Zone.AlgoFixedWindow)
  then Some (fixedWindow_ (FixedWindow.newFixedWindow (Zone.oRate opts)))
  else None.

Definition zone_create (opts : Zone.Options) (vkey : string) (st : zstate) : option ptr * zstate :=
  match new_limiter opts with
  | Some l =>
      (Some (next st),
       mkZ (envs st) (lru_add vkey (next st) (table st)) (<[next st := l]> (objs st))
         (Pos.succ (next st)))
  | None => (None, st)
  end.

Definition zone_take (p : ptr) (date cost : Z) (st : zstate) : outcome (Status.Status * zstate) :=
  match objs st !! p with
  | Some l =>
      let! (res, l') := limiter_requestAt l date cost in
      Ret (res, mkZ (envs st) (table st) (<[p := l']> (objs st)) (next st))
  | None => Panic "dangling limiter"
  end.

Definition LimitRequest (opts : Zone.Options) (req : Keys.Request) (ctx : option Zone.LimitOptions)
    (st : zstate) : Zone.limit_result zstate :=
  let! (vkey, h) := Zone.RequestKey req ctx (Zone.oKey opts) (envs st) in
  let st := mkZ h (table st) (objs st) (next st) in
  let cost := Z.max 1 (Keys.Cost req) in
  if decide (vkey = Keys.Undefined) then Ret ((None, None), st)
  else
    let '(record, st) := zone_get vkey st in
    let '(record, st) :=
      match record with
      | Some p => (Some p, st)
      | None => zone_create opts vkey st
      end in
    match (record : option ptr) with
    | None => Ret ((None, Some ("local( algo: " +:+ Zone.oAlgo opts +:+ " ); not implemented")), st)
    | Some p =>
        let! (res, st) := zone_take p (Keys.Date req) cost st in
        Ret ((Some res, None), st)
    end.

(** ** Interleavings: one request per thread *)

Inductive pc :=
| p_get (vkey : string) (date cost : Z)
| p_create (vkey : string) (date cost : Z)
| p_take (p : ptr) (date cost : Z)
| p_done (res : option Status.Status).

Definition thread_step (opts : Zone.Options) (c : pc) (st : zstate) : outcome (pc * zstate) :=
  match c with
  | p_get vkey date cost =>
      let '(record, st) := zone_get vkey st in
      match (record : option ptr) with
      | Some p => Ret (p_take p date cost, st)
      | None => Ret (p_create vkey date cost, st)
      end
  | p_create vkey date cost =>
      let '(record, st) := zone_create opts vkey st in
      match (record : option ptr) with
      | Some p => Ret (p_take p date cost, st)
      | None => Ret (p_done None, st)
      end
  | p_take p date cost =>
      let! (res, st) := zone_take p date cost st in Ret (p_done (Some res), st)
  | p_done r => Ret (p_done r, st)
  end.

(** Two threads, scheduled by a list of thread numbers. *)
Fixpoint run2 (opts : Zone.Options) (sched : list bool) (a b : pc) (st : zstate)
  : outcome (pc * pc * zstate) :=
  match sched with
  | [] => Ret (a, b, st)
  | true :: rest => let! (a', st') := thread_step opts a st in run2 opts rest a' b st'
  | false :: rest => let! (b', st') := thread_step opts b st in run2 opts rest a b' st'
  end.

Definition allowed (c : pc) : Z :=
  match c with p_done (Some r) => Status.Allowed r | _ => 0 end.

(** ** Lemmas *)
Context {HLaws : LRULaws T}.

(** Pointers of the table are allocated. *)
Definition zone_wf (st : zstate) : Prop :=
  (forall k p, fst (lru_get k (table st)) = Some p -> is_Some (objs st !! p)) /\
  (forall p, (next st <= p)%positive -> objs st !! p = None).

Lemma newZone_wf opts h : zone_wf (newZone opts h).
Proof.
  split; simpl; [|by intros; apply lookup_empty].
  intros k p. by rewrite lru_get_new.
Qed.

Lemma zone_get_wf vkey st : zone_wf st -> zone_wf (snd (zone_get vkey st)).
Proof.
  intros [H1 H2]. unfold zone_get.
  pose proof (fun k => lru_get_get k vkey (table st)) as Hg.
  destruct (lru_get vkey (table st)) as [p t]. simpl in *.
  split; simpl; [|done]. intros k q. rewrite Hg. apply H1.
Qed.

Lemma zone_create_wf opts vkey st : zone_wf st -> zone_wf (snd (zone_create opts vkey st)).
Proof.
  intros [H1 H2]. unfold zone_create. destruct (new_limiter opts) as [l|]; [|done]. simpl.
  split; simpl.
  - intros k q Hk. destruct (decide (q = next st)) as [->|]; [by rewrite lookup_insert_eq|].
    rewrite lookup_insert_ne by done. destruct (decide (k = vkey)) as [->|Hne].
    + rewrite lru_get_add in Hk. by simplify_eq.
    + apply lru_get_add_other in Hk; [|done]. by eapply H1.
  - intros q Hq. rewrite lookup_insert_ne by lia. apply H2. lia.
Qed.

(** A taken limiter is replaced in place; the others stay. *)
Lemma zone_take_ok p l date cost st res l' :
  objs st !! p = Some l -> limiter_requestAt l date cost = Ret (res, l') ->
  zone_take p date cost st = Ret (res, mkZ (envs st) (table st) (<[p := l']> (objs st)) (next st)).
Proof. intros Hp Hl. unfold zone_take. rewrite Hp. by rewrite Hl. Qed.

Lemma replace_wf st p l :
  zone_wf st -> is_Some (objs st !! p) ->
  zone_wf (mkZ (envs st) (table st) (<[p := l]> (objs st)) (next st)).
Proof.
  intros [H1 H2] Hp. split; simpl.
  - intros k q Hk. destruct (decide (q = p)) as [->|]; [by rewrite lookup_insert_eq|].
    rewrite lookup_insert_ne by done. by eapply H1.
  - intros q Hq. rewrite lookup_insert_ne; [by apply H2|].
    intros ->. rewrite H2 in Hp by done. by destruct Hp.
Qed.

(** The limiter that serves a key: the stored one, or a new one. *)
Definition limiter_of (opts : Zone.Options) (vkey : string) (st : zstate) : option limiter :=
  match fst (lru_get vkey (table st)) with
  | Some p => objs st !! p
  | None => new_limiter opts
  end.

(** ** Properties *)

(** A request whose key value is undefined is not affected: no limiter is
    looked up or created and no token is taken, whatever the algorithm. *)
Theorem undefined_key_bypass opts req ctx st h :
  Zone.RequestKey req ctx (Zone.oKey opts) (envs st) = Ret (Keys.Undefined, h) ->
  LimitRequest opts req ctx st =
    Ret ((None, None), mkZ h (table st) (objs st) (next st)).
Proof. intros H. unfold LimitRequest. by rewrite H. Qed.

(** C5: the local zone is a map of limiters: for a defined key value, the status
    is the one that the key's limiter (the stored one, or a fresh one of the
    zone's algorithm and rate) computes for the request's date and its cost
    raised to at least one; afterwards that key is served by the updated
    limiter, and no limiter of another pointer is touched. *)
Theorem local_zone_refines opts req ctx st h vkey l res l' :
  zone_wf st -> vkey <> Keys.Undefined ->
  Zone.RequestKey req ctx (Zone.oKey opts) (envs st) = Ret (vkey, h) ->
  limiter_of opts vkey st = Some l ->
  limiter_requestAt l (Keys.Date req) (Z.max 1 (Keys.Cost req)) = Ret (res, l') ->
  exists st' p, LimitRequest opts req ctx st = Ret ((Some res, None), st') /\
    zone_wf st' /\ limiter_of opts vkey st' = Some l' /\
    (forall q, q <> p -> objs st' !! q = objs st !! q) /\
    (fst (lru_get vkey (table st)) = None \/ fst (lru_get vkey (table st)) = Some p).
Proof.
  intros Hwf Hv Hk Hl Hr. unfold LimitRequest. rewrite Hk. simpl.
  rewrite decide_False by done. unfold limiter_of in Hl.
  set (st0 := mkZ h (table st) (objs st) (next st)).
  assert (zone_wf st0) as Hwf0 by done.
  pose proof (zone_get_wf vkey st0 Hwf0) as Hwf1.
  pose proof (fun k => lru_get_get k vkey (table st)) as Hgg.
  unfold zone_get in *. simpl in *. destruct (lru_get vkey (table st)) as [[p|] t] eqn:E; simpl in *.
  - rewrite (zone_take_ok p l _ _ _ res l') by done. simpl.
    eexists _, p. split; [done|]. split_and!; simpl.
    + by apply (replace_wf (mkZ h t (objs st) (next st))); [|eexists].
    + unfold limiter_of. simpl. rewrite Hgg, E. simpl. apply lookup_insert_eq.
    + intros q Hq. by rewrite lookup_insert_ne.
    + by right.
  - unfold zone_create at 1. rewrite Hl. simpl.
    rewrite (zone_take_ok (next st) l _ _ _ res l'); [|by simpl; rewrite lookup_insert_eq|done].
    simpl. eexists _, (next st). split; [done|]. split_and!; simpl.
    + pose proof (zone_create_wf opts vkey _ Hwf1) as Hwf2. unfold zone_create in Hwf2.
      rewrite Hl in Hwf2. simpl in Hwf2.
      pose proof (replace_wf _ (next st) l' Hwf2) as Hf. simpl in Hf.
      rewrite lookup_insert_eq in Hf. eauto.
    + unfold limiter_of. simpl. rewrite lru_get_add. apply lookup_insert_eq.
    + intros q Hq. by rewrite !lookup_insert_ne.
    + by left.
Qed.

(** An algorithm the zone does not know is an application error, not a
    refusal: no status is returned and nothing is stored. *)
Theorem unknown_algo_error opts req ctx st h vkey :
  Zone.oAlgo opts <> Zone.AlgoTokenBucket -> Zone.oAlgo opts <> Zone.AlgoFixedWindow ->
  vkey <> Keys.Undefined ->
  Zone.RequestKey req ctx (Zone.oKey opts) (envs st) = Ret (vkey, h) ->
  fst (lru_get vkey (table st)) = None ->
  exists msg st', LimitRequest opts req ctx st = Ret ((None, Some msg), st') /\ objs st' = objs st.
Proof.
  intros H1 H2 Hv Hk Hn. unfold LimitRequest. rewrite Hk. simpl.
  rewrite decide_False by done. unfold zone_get. simpl.
  destruct (lru_get vkey (table st)) as [p t]. simpl in *. subst p.
  unfold zone_create, new_limiter. rewrite !decide_False by done. eauto.
Qed.

End Zone.
Arguments limiter : clear implicits.
Arguments zstate : clear implicits.

(** ** A concrete table, for the witnesses: the most recent entry first *)

Definition assoc_get (k : string) (t : Z * list (string * ptr)) : option ptr * (Z * list (string * ptr)) :=
  (assoc_lookup k (snd t), t).

Definition assoc_add (k : string) (p : ptr) (t : Z * list (string * ptr)) : Z * list (string * ptr) :=
  (fst t, take (Z.to_nat (Z.max 1 (fst t))) ((k, p) :: filter (fun e => e.1 <> k) (snd t))).

#[export] Instance assoc_lru : LRU (Z * list (string * ptr)) := {
  lru_new n := (n, []);
  lru_get := assoc_get;
  lru_add := assoc_add
}.

Lemma assoc_lookup_take {V} k (l : list (string * V)) n q :
  assoc_lookup k (take n l) = Some q -> assoc_lookup k l = Some q.
Proof.
  revert n. induction l as [|[k' v] l IH]; intros [|n]; simpl; try done. case_decide; [done|]. apply IH.
Qed.

Lemma assoc_lookup_filter {V} k k' (l : list (string * V)) :
  k <> k' -> assoc_lookup k (filter (fun e => e.1 <> k') l) = assoc_lookup k l.
Proof.
  intros Hne. induction l as [|[j v] l IH]; [done|].
  destruct (decide (j = k')) as [->|Hj].
  - rewrite filter_cons_False by (simpl; tauto). simpl. by rewrite decide_False.
  - rewrite filter_cons_True by done. simpl. case_decide; [done|]. apply IH.
Qed.

#[export] Instance assoc_lru_laws : LRULaws (Z * list (string * ptr)).
Proof.
  split; simpl; try done.
  - intros k p [n l]. simpl.
    destruct (Z.to_nat (Z.max 1 n)) eqn:E; [lia|]. simpl. by rewrite decide_True.
  - intros k k' p q [n l] Hne. simpl. intros H%assoc_lookup_take.
    simpl in H. rewrite decide_False in H by done. by rewrite assoc_lookup_filter in H.
Qed.

#[local] Existing Instance TokenBucket.simple_limiter.

Abbreviation cstate := (zstate TokenBucket.Simple.bucket_state (Z * list (string * ptr))).

Definition demo_opts : Zone.Options :=
  Zone.mkOptions (Some (Keys.KeyValue "ip" "10.0.0.1")) false "api" 0
    (Rate.mkRate 1 Rate.Second) Zone.AlgoFixedWindow 0.

Definition demo_req (date : Z) : Keys.Request := Keys.mkReq 0%nat date 1 None.

Definition demo_state : cstate := newZone demo_opts ∅.

Lemma undefined_key_bypass_witness :
  let opts := Zone.mkOptions (Some (Keys.KeyValue "ip" "")) false "api" 0
    (Rate.mkRate 1 Rate.Second) Zone.AlgoFixedWindow 0 in
  exists st', LimitRequest opts (demo_req 7) None demo_state = Ret ((None, None), st').
Proof.
  intros opts. eexists. apply (undefined_key_bypass opts (demo_req 7) None demo_state).
  reflexivity.
Defined.

Lemma local_zone_refines_witness :
  exists (st' : cstate) p,
    LimitRequest demo_opts (demo_req 7) None demo_state =
      Ret ((Some (Status.mkStatus 7 1 1 0 Rate.Second 0), None), st') /\
    zone_wf st' /\
    limiter_of demo_opts "10.0.0.1" st' =
      Some (fixedWindow_ (FixedWindow.mkFW (Rate.mkRate 1 Rate.Second) (7 + Rate.Second) 1)) /\
    (forall q, q <> p -> objs st' !! q = objs demo_state !! q) /\
    (fst (lru_get "10.0.0.1" (table demo_state)) = None \/
     fst (lru_get "10.0.0.1" (table demo_state)) = Some p).
Proof.
  eapply (local_zone_refines demo_opts (demo_req 7) None demo_state
            {[ 0%nat := {[ "ip" := "10.0.0.1" ]} ]} "10.0.0.1"
            (fixedWindow_ (FixedWindow.newFixedWindow (Rate.mkRate 1 Rate.Second))));
    [apply newZone_wf|done|reflexivity|reflexivity|reflexivity].
Defined.

Lemma unknown_algo_error_witness :
  let opts := Zone.mkOptions (Some (Keys.KeyValue "ip" "a")) false "api" 0
    (Rate.mkRate 1 Rate.Second) Zone.AlgoSlidingWindow 0 in
  exists msg (st' : cstate),
    LimitRequest opts (demo_req 7) None demo_state = Ret ((None, Some msg), st') /\
    objs st' = objs demo_state.
Proof.
  intros opts.
  eapply (unknown_algo_error opts (demo_req 7) None demo_state _ "a"); try done; reflexivity.
Defined.

(** The first requests of a key can race: the table lookup and the insertion
    are two separate critical sections, so two threads that both miss create
    a limiter each, and both are granted the single token of the window; run
    one after the other, the second is refused. *)
Theorem first_requests_race :
  let a := p_get "10.0.0.1" 7 1 in
  (exists a' b' st', run2 demo_opts [true; false; true; false; true; false] a a demo_state
      = Ret (a', b', st') /\ allowed a' + allowed b' = 2) /\
  (exists a' b' st', run2 demo_opts [true; true; true; false; false; false] a a demo_state
      = Ret (a', b', st') /\ allowed a' = 1 /\ allowed b' = 0) /\
  Rate.Limit (Zone.oRate demo_opts) = 1.
Proof.
  intros a. split_and!; [|..].
  - eexists _, _, _. split; [vm_compute; reflexivity|reflexivity].
  - eexists _, _, _. split; [vm_compute; reflexivity|split; reflexivity].
  - reflexivity.
Qed.

End LocalZone.
