(* ===== verification/Front.v ===== *)
(** * The HTTP and gRPC fronts: infra/ratelimit/http.go and grpc.go

    The middleware and the interceptor that put a limit handler in front of a
    service: header output, error output, and the decision to call the service.
    [net/http] is modelled as far as it is used: a response with headers, a
    status code that must lie between 100 and 999, and a body. *)
From stdpp Require Import prelude strings list gmap.
From Stdlib Require Import ZArith Lia Ascii.
From S2P Require Import Prelude Keys Errors Status.
Local Open Scope Z_scope.
Local Open Scope go_scope.

Module Front.

(** [http.ResponseWriter]: headers, the code once written, the body, and
    whether the protected handler has run. *)
Record writer := mkW {
  w_head : gmap string string;
  w_code : option Z;
  w_body : string;
  w_served : bool
}.

Definition w_empty : writer := mkW ∅ None "" false.

Definition head_set (k v : string) (w : writer) : writer :=
  mkW (<[k := v]> (w_head w)) (w_code w) (w_body w) (w_served w).

(** Only the first code counts; an invalid one panics. *)
Definition WriteHeader (code : Z) (w : writer) : outcome writer :=
  if (code <? 100) || (999 <? code) then Panic ("invalid WriteHeader code " +:+ FormatInt code)
  else Ret (mkW (w_head w) (match w_code w with Some c => Some c | None => Some code end)
              (w_body w) (w_served w)).

Definition Write (data : string) (w : writer) : writer :=
  mkW (w_head w) (match w_code w with Some c => Some c | None => Some 200 end)
    (w_body w +:+ data) (w_served w).

Section Fronts.
Context {Any : Type} (any_new : Errors.Error -> option Any)
  (any_decode : Any -> option (option Errors.Error))
  (json_parse : string -> res Errors.Error Errors.Error) (json_format : Errors.Error -> string)
  (code_name : Z -> string).
(** [protojson] with the options of the file: the text, or an error message. *)
Context (json_marshal : option Errors.Error -> res string string).

Abbreviation goerror := (Errors.goerror Any).

(** The handler interface: a status (nil: not affected) and an error. *)
Definition Handler (S : Type) : Type :=
  Keys.Request -> Keys.heap -> S -> outcome ((option Status.Status * option goerror) * (Keys.heap * S)).

(** The recursion restarts on a marshalling error; [fuel] bounds it. *)
Fixpoint HttpWriteError (fuel : nat) (err : option goerror) (w : writer) : outcome writer :=
  match fuel with
  | O => Panic "stack overflow"
  | S fuel =>
      let '(res, _) := Errors.FromError any_decode json_parse code_name err in
      match json_marshal res with
      | Err e => HttpWriteError fuel (Some (Errors.EPlain e)) w
      | Ok data =>
          let w := head_set "Content-Type" "application/json; charset=utf-8" w in
          match res with
          | None => Panic "invalid memory address or nil pointer dereference"
          | Some e => let! w := WriteHeader (Errors.Code_ e) w in Ret (Write data w)
          end
      end
  end.

Definition w_quota (name : string) (value : Z) (w : writer) : writer :=
  if value =? 0 then w else head_set name (FormatInt value) w.

(** [true]: go on to the service. *)
Definition HttpWriteStatus (res : option Status.Status) (w : writer) : outcome (bool * writer) :=
  match res with
  | None => Ret (true, w)
  | Some s =>
      if Status.Limit s =? 0 then
        if 0 <? Status.Allowed s then Ret (true, w)
        else let! w := HttpWriteError 2 (Some (Errors.EError Status.ErrForbidden)) w in Ret (false, w)
      else
        let w := w_quota Status.H1LimitQuota (Status.Limit s) w in
        let w := w_quota Status.H1LimitRemaining (Status.Remaining s) w in
        let w := w_quota Status.H1LimitResetAfter (Status.MinSeconds (Status.ResetAfter s)) w in
        if Status.OK res then Ret (true, w)
        else
          let w := w_quota Status.H1RetryAfter (Status.MinSeconds (Status.RetryAfter s)) w in
          let! w := HttpWriteError 2 (Some (Errors.EError Status.ErrFloodWait)) w in Ret (false, w)
  end.

(** [back] is [None] for nil: the default answers 200. *)
Definition back_serve (back : option (writer -> outcome writer)) (w : writer) : outcome writer :=
  let w := mkW (w_head w) (w_code w) (w_body w) true in
  match back with
  | None => WriteHeader 200 w
  | Some serve => serve w
  end.

Definition HttpMiddleware {S} (front : Handler S) (back : option (writer -> outcome writer))
    (now : Z) (r : Keys.HttpRequest) (h : Keys.heap) (s : S) (w : writer) : outcome (writer * S) :=
  let '(req, h) := Keys.NewRequest now
    [fun q => Keys.mkReq (Keys.Env q) (Keys.Date q) (Keys.Cost q) (Some r)] h in
  let! ((status, err), (h, s)) := front req h s in
  match (err : option goerror) with
  | Some e => let! w := HttpWriteError 2 (Some e) w in Ret (w, s)
  | None =>
      let! (ok, w) := HttpWriteStatus status w in
      if (ok : bool) then let! w := back_serve back w in Ret (w, s) else Ret (w, s)
  end.

(** ** gRPC *)

(** The outgoing metadata: keys and values in the order they are appended. *)
Definition quota_kv (key : string) (quota : Z) (head : list (string * string)) : list (string * string) :=
  if quota =? 0 then head else head ++ [(key, FormatInt quota)].

Definition GrpcResponse (ctx : list (string * string)) (res : option Status.Status)
  : list (string * string) * option Status.limit_error :=
  match res with
  | None => (ctx, None)
  | Some s =>
      if Status.Limit s =? 0 then
        if 0 <? Status.Allowed s then (ctx, None) else (ctx, Some Status.forbidden_error)
      else
        let head := quota_kv Status.H2LimitQuota (Status.Limit s) [] in
        let head := quota_kv Status.H2LimitRemaining (Status.Remaining s) head in
        let head := quota_kv Status.H2LimitResetAfter (Status.MinSeconds (Status.ResetAfter s)) head in
        let head := if Status.OK res then head
                    else quota_kv Status.H2RetryAfter (Status.MinSeconds (Status.RetryAfter s)) head in
        (ctx ++ head, Status.Err res)
  end.

(** The incoming metadata copied into the synthetic request. *)
Fixpoint copy_metadata (md : list (string * list string)) (r : Keys.HttpRequest)
  : outcome Keys.HttpRequest :=
  match md with
  | [] => Ret r
  | (h, vs) :: rest =>
      if decide (h = ":authority") then
        match vs with
        | [] => Panic "index out of range [0] with length 0"
        | v :: _ => copy_metadata rest (Keys.mkHttp (Keys.Method r) (Keys.http_URL r) v (Keys.Header r))
        end
      else copy_metadata rest
             (Keys.mkHttp (Keys.Method r) (Keys.http_URL r) (Keys.Host r)
                (Keys.Header r ++ map (fun v => (h, v)) vs))
  end.

(** [url] is what [http.NewRequestWithContext] makes of the method, [None] on
    an error; its error is overwritten, so a nil request is dereferenced.  The
    result is the error of the refusal or the answer of the service. *)
Definition GrpcUnaryServerInterceptor {S A} (front : Handler S)
    (url : string -> option Keys.HttpRequest) (FullMethod : string)
    (md : list (string * list string)) (now : Z) (h : Keys.heap) (s : S)
    (invoke : list (string * string) -> A) (ctx : list (string * string))
  : outcome ((Status.limit_error + A) * S) :=
  match url FullMethod with
  | None => Panic "invalid memory address or nil pointer dereference"
  | Some r =>
      let! r := copy_metadata md r in
      let '(req, h) := Keys.NewRequest now
        [fun q => Keys.mkReq (Keys.Env q) (Keys.Date q) (Keys.Cost q) (Some r)] h in
      let! ((status, _), (h, s)) := front req h s in
      match GrpcResponse ctx status with
      | (_, Some e) => Ret (inl e, s)
      | (ctx, None) => Ret (inr (invoke ctx), s)
      end
  end.

(** ** Lemmas *)

(** The marshaller accepts the two errors of the package. *)
Definition marshals : Prop :=
  is_Ok (json_marshal (Some Status.ErrForbidden)) /\ is_Ok (json_marshal (Some Status.ErrFloodWait)).

Lemma HttpWriteError_own e w data fuel :
  json_marshal (Some e) = Ok data -> 100 <= Errors.Code_ e <= 999 -> w_code w = None ->
  exists w', HttpWriteError (S fuel) (Some (Errors.EError e)) w = Ret w' /\
    w_code w' = Some (Errors.Code_ e) /\ w_served w' = w_served w /\
    (forall k, k <> "Content-Type" -> w_head w' !! k = w_head w !! k).
Proof.
  intros Hm Hc Hw. simpl. rewrite Hm. unfold WriteHeader. simpl.
  destruct (Z.ltb_spec (Errors.Code_ e) 100), (Z.ltb_spec 999 (Errors.Code_ e)); try lia. simpl.
  eexists. split; [done|]. simpl. rewrite Hw. split_and!; [done|done|].
  intros k Hk. by rewrite lookup_insert_ne.
Qed.

Lemma w_quota_code k v w : w_code (w_quota k v w) = w_code w /\ w_served (w_quota k v w) = w_served w.
Proof. unfold w_quota. by case_match. Qed.

(** The verdict of [HttpWriteStatus] is the status test, and a refusal has its
    code written. *)
Lemma HttpWriteStatus_verdict res w :
  marshals -> w_code w = None ->
  exists w', HttpWriteStatus res w = Ret (Status.OK res, w') /\ w_served w' = w_served w /\
    w_code w' =
      match res with
      | Some s => if Status.OK res then None
                  else Some (if Status.Limit s =? 0 then 403 else 429)
      | None => None
      end.
Proof.
  intros [[d1 H1] [d2 H2]] Hw. destruct res as [s|]; simpl; [|eauto].
  destruct (Status.Limit s =? 0).
  - destruct (0 <? Status.Allowed s); [eauto|].
    destruct (HttpWriteError_own _ w d1 1 H1) as (w' & E & Hc & Hs & _); [done..|].
    simpl in E |- *. rewrite E. simpl. eauto.
  - set (w1 := w_quota _ _ (w_quota _ _ (w_quota _ _ w))).
    assert (w_code w1 = None /\ w_served w1 = w_served w) as [Hw1 Hs1].
    { subst w1. rewrite !(proj1 (w_quota_code _ _ _)), !(proj2 (w_quota_code _ _ _)). done. }
    destruct (0 <? Status.Allowed s); [eauto|].
    set (w2 := w_quota _ _ w1).
    destruct (w_quota_code Status.H1RetryAfter (Status.MinSeconds (Status.RetryAfter s)) w1) as [Hw2 Hs2].
    fold w2 in Hw2, Hs2.
    destruct (HttpWriteError_own _ w2 d2 1 H2) as (w' & E & Hc & Hs & _); [done|congruence|].
    simpl in E |- *. rewrite E. simpl. exists w'. split_and!; [done|congruence|done].
Qed.




Lemma GrpcResponse_verdict ctx res :
  (snd (GrpcResponse ctx res) = None <-> Status.OK res = true).
Proof.
  destruct res as [s|]; simpl; [|done]. unfold Status.Err.
  destruct (Status.Limit s =? 0); simpl; by destruct (0 <? Status.Allowed s).
Qed.

(** ** Properties *)

(** C31: both fronts enforce the same verdict: for every status (nil included)
    the HTTP front lets the request through exactly when the gRPC front
    returns no error, namely when the status grants tokens or is nil; a
    refusal over HTTP is written as 403 when no quota applies and as 429
    otherwise, without running the service. *)
Theorem fronts_agree res ctx :
  marshals ->
  exists w, HttpWriteStatus res w_empty = Ret (Status.OK res, w) /\ w_served w = false /\
    (Status.OK res = true <-> snd (GrpcResponse ctx res) = None) /\
    (Status.OK res = false -> exists s, res = Some s /\
       w_code w = Some (if Status.Limit s =? 0 then 403 else 429)).
Proof.
  intros Hm. destruct (HttpWriteStatus_verdict res w_empty Hm eq_refl) as (w & E & Hs & Hc).
  exists w. split_and!; [done|done|symmetry; apply GrpcResponse_verdict|].
  intros Hk. destruct res as [s|]; [|done]. exists s. split; [done|]. by rewrite Hc, Hk.
Qed.


(** An application error of the limit handler takes the HTTP service down
    for that request, against the contract of [Handler] (an error must not
    restrict the request): an error whose text reads as no JSON at all is turned
    into one with code 0, and writing the status code 0 panics; the gRPC
    front drops the same error and serves the request. *)
Theorem app_error_panics_http {S} (front : Handler S) back now r h s req h1 text h2 s2 data :
  TrimSpace text <> "" -> json_parse (TrimSpace text) = Err (Errors.mkErr "" 0 "" "") ->
  json_marshal (Some (Errors.mkErr "" 0 "" (TrimSpace text))) = Ok data ->
  Keys.NewRequest now
    [fun q => Keys.mkReq (Keys.Env q) (Keys.Date q) (Keys.Cost q) (Some r)] h = (req, h1) ->
  front req h1 s = Ret ((None, Some (Errors.EPlain text)), (h2, s2)) ->
  HttpMiddleware front back now r h s w_empty = Panic "invalid WriteHeader code 0" /\
  forall m (invoke : list (string * string) -> nat) ctx,
    GrpcUnaryServerInterceptor front (fun _ => Some r) m [] now h s invoke ctx
    = Ret (inr (invoke ctx), s2).
Proof.
  intros Ht Hp Hm Hn Hf. split.
  - unfold HttpMiddleware. rewrite Hn. simpl. rewrite Hf. simpl.
    unfold Errors.Parse. rewrite decide_False by done. rewrite Hp. simpl. by rewrite Hm.
  - intros m invoke ctx. unfold GrpcUnaryServerInterceptor, copy_metadata.
    cbn [outcome_bind]. rewrite Hn, Hf. reflexivity.
Qed.

End Fronts.

(** ** Witnesses: a marshaller and handlers *)

Definition demo_marshal (e : option Errors.Error) : res string string :=
  Ok (Errors.Error_String e).

Lemma demo_marshals : marshals demo_marshal.
Proof. split; by eexists. Qed.

Lemma fronts_agree_witness :
  exists w,
    HttpWriteStatus (fun a : Errors.Error => Some (Some a)) Errors.no_json (fun _ => "") demo_marshal
      (Some (Status.mkStatus 0 5 0 0 7 7)) w_empty = Ret (false, w) /\
    w_code w = Some 429.
Proof.
  destruct (fronts_agree (fun a : Errors.Error => Some (Some a)) Errors.no_json (fun _ => "")
              demo_marshal (Some (Status.mkStatus 0 5 0 0 7 7)) [] demo_marshals)
    as (w & E & _ & _ & Hc).
  exists w. split; [exact E|]. destruct (Hc eq_refl) as (s & Hs & Hw). by simplify_eq.
Defined.

Definition demo_front {Any} (ans : option Status.Status * option (Errors.goerror Any)) : Handler unit :=
  fun _ h s => Ret (ans, (h, s)).



Lemma app_error_panics_http_witness :
  HttpMiddleware (fun a : Errors.Error => Some (Some a)) Errors.no_json (fun _ => "") demo_marshal
    (demo_front (None, Some (Errors.EPlain "redis: connection refused"))) None 3
    (Keys.mkHttp "GET" None "" []) ∅ tt w_empty
  = Panic "invalid WriteHeader code 0".
Proof.
  eapply (app_error_panics_http (fun a : Errors.Error => Some (Some a)) Errors.no_json (fun _ => "")
    demo_marshal (demo_front (None, Some (Errors.EPlain "redis: connection refused"))));
    try reflexivity. done.
Defined.

End Front.
