(* ===== verification/Mux.v ===== *)
(** * The rate-limit router: infra/ratelimit/mux

    A route checks a group of zones and answers with the worst status; the
    router finds the route of a request and runs its handler.  The HTTP matching
    is [gorilla/mux], outside the repository: the parameter [mux_match].  Zones
    are used through the class [Zone.ZoneImpl] only. *)
From stdpp Require Import prelude strings list gmap.
From Stdlib Require Import ZArith Lia Ascii.
From S2P Require Import Prelude Strconv Rate Keys Errors Status Zone Front.
Local Open Scope Z_scope.
Local Open Scope go_scope.

Module Mux.

(** ** Orders of route.go *)

(** [limitTopWorst.Less] on the rates of two zones. *)
Definition limitTopWorst_Less (a b : Rate.Rate) : bool :=
  let x := Rate.Every (Some a) in
  let y := Rate.Every (Some b) in
  (y =? 0) || (x <=? y).

(** [statusTopWorst.Less]: does [xi] sort before [xj]? *)
Definition statusTopWorst_Less (xi xj : Status.Status) : bool :=
  if 0 <? Status.RetryAfter xi
  then 0 <=? i64 (Status.RetryAfter xi - Status.RetryAfter xj)
  else if 0 <? Status.RetryAfter xj then false
  else if Status.Allowed xi =? 0 then true
  else if Status.Allowed xj =? 0 then false
  else if 0 <? Status.Limit xi then
    (if 0 <? Status.Limit xj then Status.Remaining xi <=? Status.Remaining xj else true)
  else if 0 <? Status.Limit xj then false
  else true.

(** [sort.Sort] on at most 12 elements is the insertion sort of the library: the
    element moves left while it is before its left neighbour.  [insert] gets the
    sorted prefix reversed. *)
Fixpoint sort_insert {A} (less : A -> A -> bool) (x : A) (rev_prefix : list A) : list A :=
  match rev_prefix with
  | [] => [x]
  | y :: l => if less x y then y :: sort_insert less x l else x :: rev_prefix
  end.

Definition Sort {A} (less : A -> A -> bool) (l : list A) : list A :=
  rev (fold_left (fun acc x => sort_insert less x acc) l []).

(** ** Routes *)

(** The [Env] maps inside a state. *)
Class HasEnvs (S : Type) := {
  envs_get : S -> Keys.heap;
  envs_set : Keys.heap -> S -> S
}.

Section Routes.
Context {Z_ S : Type} {HZ : Zone.ZoneImpl Z_ S} {HE : HasEnvs S}.

(** What the contexts of a request carry: the limit options and the stack of
    matched routes (by their position in the router). *)
Record rctx := mkCtx {
  ctx_limit : option Zone.LimitOptions;
  ctx_route : list nat
}.

Definition LimitHandler : Type := Keys.Request -> rctx -> S -> Zone.limit_result S.

Record routeZones := mkRZ {
  rz_opts : gmap string Zone.LimitOptions;
  rz_zone : list Z_
}.

Inductive handler :=
| h_zones (h : routeZones)
| h_custom (h : LimitHandler).

(** logs.go: the attributes remembered for the log. *)
Record routeOptions := mkRO { ro_name : string; ro_path : string; ro_verb : list string }.

Fixpoint add_verbs (verb have : list string) : list string :=
  match verb with
  | [] => have
  | v :: rest =>
      let v := Strconv.ToUpper v in
      if decide (v ∈ have) then add_verbs rest have else add_verbs rest (have ++ [v])
  end.

Definition addMethods (verb : list string) (e : routeOptions) : routeOptions :=
  match verb with
  | [] => e
  | _ =>
      match ro_verb e with
      | [] => mkRO (ro_name e) (ro_path e) (map Strconv.ToUpper verb)
      | have => mkRO (ro_name e) (ro_path e) (add_verbs verb have)
      end
  end.

Definition setName (name : string) (e : routeOptions) : routeOptions :=
  mkRO name (ro_path e) (ro_verb e).

Definition setPath (tmpl : string) (e : routeOptions) : routeOptions :=
  mkRO (ro_name e) tmpl (ro_verb e).

Fixpoint has_suffix_star (s : string) : bool :=
  match s with
  | EmptyString => false
  | String c EmptyString => bool_decide (c = "*"%char)
  | String _ s => has_suffix_star s
  end.

Definition setPathPrefix (tmpl : string) (e : routeOptions) : routeOptions :=
  setPath (if has_suffix_star tmpl then tmpl else tmpl +:+ "*") e.

(** [http_error] is the error of the [gorilla/mux] route. *)
Record Route := mkRoute {
  http_error : option string;
  r_opts : routeOptions;
  r_handler : option handler;
  r_err : option string
}.

Definition Route_GetError (c : Route) : option string :=
  match r_err c with
  | Some e => Some e
  | None => http_error c
  end.

Definition Route_Handler (hook : option handler) (c : Route) : Route :=
  match Route_GetError c with
  | None => mkRoute (http_error c) (r_opts c) hook (r_err c)
  | Some _ => c
  end.

(** The matcher setters; [after] is the error state of [gorilla/mux] after it
    has taken the name, the methods or the template. *)
Definition Route_Name (name : string) (after : option string) (c : Route) : Route :=
  match Route_GetError c with
  | None => mkRoute after (setName name (r_opts c)) (r_handler c) (r_err c)
  | Some _ => c
  end.

Definition Route_Methods (verb : list string) (after : option string) (c : Route) : Route :=
  match verb with
  | [] => c
  | _ =>
      match Route_GetError c with
      | None => mkRoute after (addMethods verb (r_opts c)) (r_handler c) (r_err c)
      | Some _ => c
      end
  end.

Definition Route_Path (tmpl : string) (after : option string) (c : Route) : Route :=
  if decide (tmpl = "") then c
  else mkRoute after (setPath tmpl (r_opts c)) (r_handler c) (r_err c).

Definition Route_PathPrefix (tmpl : string) (after : option string) (c : Route) : Route :=
  if decide (tmpl = "") then c
  else mkRoute after (setPathPrefix tmpl (r_opts c)) (r_handler c) (r_err c).

(** [MatcherFunc] hands the function to [gorilla/mux]; the options of the route are not told. *)
Definition Route_MatcherFunc (after : option string) (c : Route) : Route :=
  mkRoute after (r_opts c) (r_handler c) (r_err c).

(** [namedZone] is the registry, shared with the router. *)
Definition Route_Zone (namedZone : gmap string Z_) (name : string) (opts : Zone.LimitOptions)
    (c : Route) : Route :=
  match r_err c with
  | Some _ => c
  | None =>
      match namedZone !! name with
      | None => mkRoute (http_error c) (r_opts c) (r_handler c)
                  (Some ("route: zone " +:+ name +:+ " not found"))
      | Some zone =>
          match r_handler c with
          | Some (h_custom _) => c
          | None =>
              mkRoute (http_error c) (r_opts c)
                (Some (h_zones (mkRZ {[ name := opts ]} [zone]))) (r_err c)
          | Some (h_zones route) =>
              let exists_ := bool_decide (is_Some (rz_opts route !! name)) in
              mkRoute (http_error c) (r_opts c)
                (Some (h_zones (mkRZ (<[name := opts]> (rz_opts route))
                   (if exists_ then rz_zone route else rz_zone route ++ [zone])))) (r_err c)
          end
      end
  end.

Definition Route_GetZone (c : Route) : list (Z_ * Zone.LimitOptions) :=
  match r_handler c with
  | Some (h_zones group) =>
      map (fun zone => (zone, default (Zone.mkLimit [])
             (rz_opts group !! Zone.oName (Zone.Zone_Options zone)))) (rz_zone group)
  | _ => []
  end.

(** ** The group of zones of a route *)

(** The loop of [routeZones.LimitRequest]: the statuses of the zones that
    applied; the errors are only logged. *)
Fixpoint group_statuses (h : routeZones) (route : list Z_) (req : Keys.Request) (s : S)
  : outcome (list Status.Status * S) :=
  match route with
  | [] => Ret ([], s)
  | zone :: rest =>
      let opts := default (Zone.mkLimit []) (rz_opts h !! Zone.oName (Zone.Zone_Options zone)) in
      let! ((status, err), s) := Zone.Zone_LimitRequest zone req (Some opts) s in
      let! (group, s) := group_statuses h rest req s in
      match (err : option string), (status : option Status.Status) with
      | None, Some st => Ret (st :: group, s)
      | _, _ => Ret (group, s)
      end
  end.

Definition routeZones_LimitRequest (h : routeZones) (req : Keys.Request) (ctx : rctx) (s : S)
  : Zone.limit_result S :=
  match rz_zone h with
  | [] => Ret ((Some (Status.Allow req []), None), s)
  | [zone] => Zone.Zone_LimitRequest zone req (ctx_limit ctx) s
  | route =>
      let! (group, s) := group_statuses h route req s in
      match group with
      | [] => Ret ((None, None), s)
      | _ => Ret ((head (Sort statusTopWorst_Less group), None), s)
      end
  end.

(** ** Handlers of a matched route: http.go and ctx.go *)

Definition requestWithRoute (req : Keys.Request) (ctx : rctx) (route : nat) : Keys.Request * rctx :=
  match last (ctx_route ctx) with
  | Some r => if decide (r = route) then (req, ctx)
              else (Keys.Clone req, mkCtx (ctx_limit ctx) (ctx_route ctx ++ [route]))
  | None => (Keys.Clone req, mkCtx (ctx_limit ctx) (ctx_route ctx ++ [route]))
  end.

(** The status, the error and the state; the tracing is left out. *)
Definition routeHandler_LimitRequest (i : nat) (c : Route) (req : Keys.Request) (ctx : rctx) (s : S)
  : Zone.limit_result S :=
  let '(req, ctx) := requestWithRoute req ctx i in
  match r_handler c with
  | None => Ret ((Some (Status.Allow req []), None), s)
  | Some (h_zones h) => routeZones_LimitRequest h req ctx s
  | Some (h_custom h) => h req ctx s
  end.

(** ** router.go *)

Record Router := mkRouter { zones : gmap string Z_; routes : list Route }.

Definition NewRouter : Router := mkRouter ∅ [].

Definition Router_NewZone (zone : Z_) (c : Router) : Router :=
  mkRouter (<[Zone.oName (Zone.Zone_Options zone) := zone]> (zones c)) (routes c).

(** The new route and its position. *)
Definition Router_NewRoute (c : Router) : nat * Router :=
  (length (routes c),
   mkRouter (zones c) (routes c ++ [mkRoute None (mkRO "" "" []) None None])).

(** A route is shared with its builder: the builder's calls update it in place. *)
Definition Router_update (i : nat) (f : Route -> Route) (c : Router) : Router :=
  mkRouter (zones c) (alter f i (routes c)).

(** The factories: an empty route, registered and then given its first setting. *)
Definition Router_make (f : Route -> Route) (c : Router) : nat * Router :=
  let '(i, c) := Router_NewRoute c in (i, Router_update i f c).

Definition Router_Name (name : string) (after : option string) : Router -> nat * Router :=
  Router_make (Route_Name name after).
Definition Router_MatcherFunc (after : option string) : Router -> nat * Router :=
  Router_make (Route_MatcherFunc after).
Definition Router_Methods (verb : list string) (after : option string) : Router -> nat * Router :=
  Router_make (Route_Methods verb after).
Definition Router_Path (tmpl : string) (after : option string) : Router -> nat * Router :=
  Router_make (Route_Path tmpl after).
Definition Router_PathPrefix (tmpl : string) (after : option string) : Router -> nat * Router :=
  Router_make (Route_PathPrefix tmpl after).

(** [mux.Router.Match]: no match, a match of some other handler, or a route. *)
Context (mux_match : Keys.HttpRequest -> option (option nat)).

(** The route that the match selects. *)
Definition matched (c : Router) (found : option nat) : option (nat * Route) :=
  match found with
  | Some i => match routes c !! i with Some r => Some (i, r) | None => None end
  | None => None
  end.

Definition Router_Match (c : Router) (r : Keys.HttpRequest) : option Route :=
  match mux_match r with
  | Some (Some i) => routes c !! i
  | _ => None
  end.

Definition Router_LimitRequest (c : Router) (req : Keys.Request) (ctx : rctx) (s : S)
  : Zone.limit_result S :=
  match Keys.Http req with
  | None => Ret ((None, None), s)
  | Some http =>
      match mux_match http with
      | None => Ret ((None, None), s)
      | Some found =>
          match matched c found with
          | None => Ret ((Some (Status.Allow req []), None), s)
          | Some (i, route) => routeHandler_LimitRequest i route req ctx s
          end
      end
  end.

(** [Router.HttpMiddleware]: the error of the handler is dropped. *)
Definition Router_HttpMiddleware {Any} any_decode json_parse code_name json_marshal
    (c : Router) (next : option (Front.writer -> outcome Front.writer)) (now : Z)
    (r : Keys.HttpRequest) (limit : rctx) (s : S) (w : Front.writer)
  : outcome (Front.writer * S) :=
  match matched c (default None (mux_match r)) with
  | None => let! w := Front.back_serve next w in Ret (w, s)
  | Some (i, route) =>
      let '(req, h) := Keys.NewRequest now
        [fun q => Keys.mkReq (Keys.Env q) (Keys.Date q) (Keys.Cost q) (Some r)] (envs_get s) in
      let! ((status, err), s) := routeHandler_LimitRequest i route req limit (envs_set h s) in
      let! (ok, w) := @Front.HttpWriteStatus Any any_decode json_parse code_name json_marshal status w in
      if (ok : bool) then let! w := Front.back_serve next w in Ret (w, s) else Ret (w, s)
  end.

End Routes.
Arguments handler : clear implicits.
Arguments Route : clear implicits.
Arguments Router : clear implicits.
Arguments routeZones : clear implicits.

(** ** Lemmas *)

Section Sorting.
Context {A : Type} (less : A -> A -> bool) (P : A -> Prop).
Hypothesis less_total : forall x y, P x -> P y -> less x y = true \/ less y x = true.
Hypothesis less_trans : forall x y z, P x -> P y -> P z ->
  less x y = true -> less y z = true -> less x z = true.

Lemma sort_insert_perm x l : sort_insert less x l ≡ₚ x :: l.
Proof.
  induction l as [|y l IH]; simpl; [done|]. destruct (less x y); [|done].
  rewrite IH. constructor.
Qed.

(** The last element of the reversed prefix is before all the others. *)
Definition top_last (l : list A) : Prop :=
  exists m, last l = Some m /\ Forall (fun y => less m y = true) l.

Lemma sort_insert_top x l :
  P x -> Forall P l -> top_last l \/ l = [] -> top_last (sort_insert less x l).
Proof.
  intros Hx. induction l as [|y l IH]; intros Hl Ht; simpl.
  - exists x. split; [done|]. repeat constructor. by destruct (less_total x x).
  - apply Forall_cons in Hl as [Hy Hl]. destruct Ht as [(m & Hm & Hall)|]; [|done].
    assert (P m) as HPm.
    { assert (m ∈ y :: l) as Hin by (by apply last_Some_elem_of).
      apply elem_of_cons in Hin as [->|Hin]; [done|]. by eapply Forall_forall in Hin; eauto. }
    apply Forall_cons in Hall as [Hmy Hall]. destruct (less x y) eqn:Hxy.
    + destruct (IH Hl) as (m' & Hm' & Hall').
      { destruct l as [|z l]; [by right|left]. by exists m. }
      exists m'. split; [by rewrite last_cons, Hm'|]. constructor; [|done].
      assert (P m') as HPm'.
      { assert (m' ∈ sort_insert less x l) as Hin by (by apply last_Some_elem_of).
        rewrite sort_insert_perm in Hin. apply elem_of_cons in Hin as [->|Hin]; [done|].
        by eapply Forall_forall in Hin; eauto. }
      rewrite sort_insert_perm in Hall'. apply Forall_cons in Hall' as [Hm'x _].
      by apply (less_trans _ x).
    + exists m. split; [by rewrite last_cons, Hm|]. constructor; [|by constructor].
      destruct (less_total x y) as [?|Hyx]; [done|done|congruence|]. by apply (less_trans _ y).
Qed.

Lemma fold_insert_top l acc :
  Forall P l -> Forall P acc -> l ++ acc <> [] -> top_last acc \/ acc = [] ->
  top_last (fold_left (fun acc x => sort_insert less x acc) l acc) /\
  fold_left (fun acc x => sort_insert less x acc) l acc ≡ₚ l ++ acc.
Proof.
  revert acc. induction l as [|x l IH]; intros acc Hl Ha Hne Ht; simpl.
  - destruct Ht as [Ht|E]; [done|by subst acc].
  - apply Forall_cons in Hl as [Hx Hl]. destruct (IH (sort_insert less x acc)) as [H1 H2]; [done| | | |].
    + rewrite sort_insert_perm. by constructor.
    + intros E. apply app_eq_nil in E as [_ E]. pose proof (sort_insert_perm x acc) as Hp.
      rewrite E in Hp. by apply Permutation_nil_cons in Hp.
    + left. by apply sort_insert_top.
    + split; [done|]. rewrite H2, sort_insert_perm. by rewrite Permutation_middle.
Qed.

(** The first element of a sorted group is before all of them. *)
Lemma Sort_head l :
  l <> [] -> Forall P l ->
  exists m, head (Sort less l) = Some m /\ m ∈ l /\ Forall (fun y => less m y = true) l.
Proof.
  intros Hne HP. destruct (fold_insert_top l []) as [(m & Hm & Hall) Hp];
    [done|done|by rewrite app_nil_r|by right|]. rewrite app_nil_r in Hp. unfold Sort.
  set (r := fold_left _ _ _) in *. exists m. split_and!.
  - apply last_Some in Hm as [l0 Hr]. rewrite Hr, rev_app_distr. done.
  - rewrite <- Hp. by apply last_Some_elem_of.
  - by rewrite <- Hp.
Qed.

End Sorting.

(** *** Severity: the rank behind [statusTopWorst.Less] *)

(** Longest wait first, then refusals, then quotas by what they have left. *)
Definition severity (st : Status.Status) : Z :=
  if 0 <? Status.RetryAfter st then 2 ^ 33 + Status.RetryAfter st
  else if Status.Allowed st =? 0 then 2 ^ 33
  else if 0 <? Status.Limit st then 2 ^ 32 - Status.Remaining st
  else 0.

(** A status in range with a wait that is not negative. *)
Definition status_ranged (st : Status.Status) : Prop :=
  Status.status_wf st /\ 0 <= Status.RetryAfter st.

Lemma less_severity a b :
  status_ranged a -> status_ranged b ->
  statusTopWorst_Less a b = (severity b <=? severity a).
Proof.
  unfold status_ranged, Status.status_wf, max_int64, min_int64. intros Ha Hb.
  unfold statusTopWorst_Less, severity. rewrite (wrap_signed_small 64) by lia.
  repeat case_match; z_bool; lia.
Qed.

Lemma severity_total a b : status_ranged a -> status_ranged b ->
  statusTopWorst_Less a b = true \/ statusTopWorst_Less b a = true.
Proof. intros. rewrite !less_severity by done. lia. Qed.

Lemma severity_trans a b c : status_ranged a -> status_ranged b -> status_ranged c ->
  statusTopWorst_Less a b = true -> statusTopWorst_Less b c = true ->
  statusTopWorst_Less a c = true.
Proof. intros ? ? ?. rewrite !less_severity by done. lia. Qed.

Lemma worst_of_group group :
  group <> [] -> Forall status_ranged group ->
  exists m, head (Sort statusTopWorst_Less group) = Some m /\ m ∈ group /\
    forall x, x ∈ group -> severity x <= severity m.
Proof.
  intros Hne Hr.
  destruct (Sort_head statusTopWorst_Less status_ranged severity_total severity_trans group Hne Hr)
    as (m & Hm & Hin & Hall).
  exists m. split_and!; [done|done|]. intros x Hx. rewrite Forall_forall in Hall, Hr.
  specialize (Hall x Hx). rewrite less_severity in Hall by auto. lia.
Qed.

Lemma sane_ranged st : Zone.status_sane st -> status_ranged st.
Proof. by intros (? & ? & ?). Qed.

(** A refusal is what outranks every grant, when waits mean refusals. *)
Lemma sane_severity st :
  Zone.status_sane st -> (2 ^ 33 <= severity st <-> Status.OK (Some st) = false).
Proof.
  intros ((? & ? & ? & ? & ?) & Hr & Hd). unfold severity. simpl.
  repeat case_match; z_bool; try lia.
Qed.

Section RouteLemmas.
Context {Z_ S : Type} {HZ : Zone.ZoneImpl Z_ S}.

Lemma group_route (h : routeZones Z_) req ctx s :
  (2 <= length (rz_zone h))%nat ->
  routeZones_LimitRequest h req ctx s =
  outcome_bind (group_statuses h (rz_zone h) req s) (fun '(group, s) =>
    match group with
    | [] => Ret ((None, None), s)
    | _ => Ret ((head (Sort statusTopWorst_Less group), None), s)
    end).
Proof. unfold routeZones_LimitRequest. destruct (rz_zone h) as [|z1 [|z2 l]]; simpl; done || lia. Qed.

Context {HL : Zone.ZoneLaws Z_ S}.

Lemma group_sane (h : routeZones Z_) route req s group s' :
  Forall Zone.zone_ok route -> Zone.req_ok req -> Zone.zone_inv s ->
  group_statuses h route req s = Ret (group, s') ->
  Zone.zone_inv s' /\ Forall Zone.status_sane group.
Proof.
  revert s group s'. induction route as [|z route IH]; intros s group s' Hok Hr Hi; simpl.
  - intros. by simplify_eq.
  - apply Forall_cons in Hok as [Hz Hok].
    destruct (Zone.Zone_LimitRequest z req _ s) as [[[st err] s1]|] eqn:E; [|done]. simpl.
    destruct (Zone.zone_sane _ _ _ _ _ _ _ Hz Hr Hi E) as [Hi1 Hst].
    destruct (group_statuses h route req s1) as [[g s2]|] eqn:E2; [|done]. simpl.
    destruct (IH _ _ _ Hok Hr Hi1 E2) as [Hi2 Hg].
    intros. split; [|destruct err, st; simplify_eq; auto].
    by destruct err, st; simplify_eq.
Qed.

Lemma route_verdict (h : routeZones Z_) req ctx s group s' :
  (2 <= length (rz_zone h) <= 12)%nat -> Forall Zone.zone_ok (rz_zone h) ->
  Zone.req_ok req -> Zone.zone_inv s ->
  group_statuses h (rz_zone h) req s = Ret (group, s') ->
  exists res, routeZones_LimitRequest h req ctx s = Ret ((res, None), s') /\
    Status.OK res = forallb (fun st => Status.OK (Some st)) group /\ Zone.zone_inv s'.
Proof.
  intros Hn Hok Hr Hi Hg. destruct (group_sane _ _ _ _ _ _ Hok Hr Hi Hg) as [Hi' Hs].
  rewrite group_route by lia. rewrite Hg. simpl.
  destruct group as [|x group]; [by eexists|].
  destruct (worst_of_group (x :: group)) as (m & Hm & Hin & Hmax); [done| |].
  { eapply Forall_impl; [done|apply sane_ranged]. }
  eexists. split; [done|]. split; [|done]. rewrite Hm.
  rewrite Forall_forall in Hs. destruct (Status.OK (Some m)) eqn:Hk.
  - symmetry. apply forallb_forall. intros y Hy%list_elem_of_In.
    destruct (Status.OK (Some y)) eqn:Hy'; [done|].
    apply sane_severity in Hy'; [|by apply Hs]. specialize (Hmax _ Hy).
    assert (Status.OK (Some m) = false); [|congruence]. apply sane_severity; [by apply Hs|lia].
  - symmetry. apply not_true_iff_false. rewrite forallb_forall. intros Hall.
    apply list_elem_of_In, Hall in Hin. simpl in Hin, Hk. congruence.
Qed.

(** ** Properties *)

(** A route answers with its worst zone: for two to twelve zones whose
    checks give statuses in range, the answer is one of those statuses and no
    other has a higher severity (longer wait first, then a refusal, then the
    fewest tokens left); when no zone applied the answer is nil. *)
Theorem route_worst_status (h : routeZones Z_) req ctx s group s' :
  (2 <= length (rz_zone h) <= 12)%nat ->
  group_statuses h (rz_zone h) req s = Ret (group, s') -> Forall status_ranged group ->
  exists res, routeZones_LimitRequest h req ctx s = Ret ((res, None), s') /\
    (res = None <-> group = []) /\
    forall m, res = Some m -> m ∈ group /\ forall x, x ∈ group -> severity x <= severity m.
Proof.
  intros Hn Hg Hr. rewrite group_route by lia. rewrite Hg. simpl.
  destruct group as [|x group]; [by eexists|].
  destruct (worst_of_group (x :: group)) as (m & Hm & Hin & Hmax); [done|done|].
  eexists. split; [done|]. rewrite Hm. split; [done|]. intros m' ?. by simplify_eq.
Qed.

(** C4: a route lets a request through exactly when every zone that applied
    does: against zones that keep the promise of [ZoneLaws], the answer of a
    route of two to twelve zones is OK iff all the statuses of its zones are,
    and the zones stay sound. *)
Theorem route_denies_iff_any (h : routeZones Z_) req ctx s group s' :
  (2 <= length (rz_zone h) <= 12)%nat -> Forall Zone.zone_ok (rz_zone h) ->
  Zone.req_ok req -> Zone.zone_inv s ->
  group_statuses h (rz_zone h) req s = Ret (group, s') ->
  exists res, routeZones_LimitRequest h req ctx s = Ret ((res, None), s') /\
    Status.OK res = forallb (fun st => Status.OK (Some st)) group /\ Zone.zone_inv s'.
Proof. apply route_verdict. Qed.

End RouteLemmas.

(** *** Building routes *)

Section Builder.
Context {Z_ S : Type} {HZ : Zone.ZoneImpl Z_ S}.

(** The registry of a router files every zone under its own name. *)
Definition registry_wf (reg : gmap string Z_) : Prop :=
  forall name z, reg !! name = Some z -> Zone.oName (Zone.Zone_Options z) = name.

Lemma NewZone_wf z (c : Router Z_ S) :
  registry_wf (zones c) -> registry_wf (zones (Router_NewZone z c)).
Proof.
  intros Hw name z' H. simpl in H. apply lookup_insert_Some in H as [[? ?]|[_ ?]];
    [congruence|by apply Hw].
Qed.

Abbreviation zone_name z := (Zone.oName (Zone.Zone_Options z)).

(** The zones of a route: registered, once per name, with options for each. *)
Definition route_wf (reg : gmap string Z_) (h : routeZones Z_) : Prop :=
  NoDup (map (fun z => zone_name z) (rz_zone h)) /\
  Forall (fun z => reg !! zone_name z = Some z) (rz_zone h) /\
  forall name, is_Some (rz_opts h !! name) <-> name ∈ map (fun z => zone_name z) (rz_zone h).

(** The calls [route.Zone(name, opts)] in order. *)
Definition add_zones (reg : gmap string Z_) (calls : list (string * Zone.LimitOptions))
    (c : Route Z_ S) : Route Z_ S :=
  fold_left (fun c '(name, opts) => Route_Zone reg name opts c) calls c.

(** The options of the last call for a name. *)
Definition last_options (calls : list (string * Zone.LimitOptions)) (name : string)
  : option Zone.LimitOptions :=
  fold_left (fun o '(n, opts) => if decide (n = name) then Some opts else o) calls None.

Lemma last_options_snoc calls n o name :
  last_options (calls ++ [(n, o)]) name = if decide (n = name) then Some o else last_options calls name.
Proof. unfold last_options. by rewrite fold_left_app. Qed.

Lemma add_zones_snoc reg calls n o c :
  add_zones reg (calls ++ [(n, o)]) c = Route_Zone reg n o (add_zones reg calls c).
Proof. unfold add_zones. by rewrite fold_left_app. Qed.

Lemma Route_Zone_wf reg h name opts z :
  registry_wf reg -> route_wf reg h -> reg !! name = Some z ->
  route_wf reg (mkRZ (<[name := opts]> (rz_opts h))
    (if bool_decide (is_Some (rz_opts h !! name)) then rz_zone h else rz_zone h ++ [z])).
Proof.
  intros Hreg (Hnd & Hin & Hdom) Hz. pose proof (Hreg _ _ Hz) as Hname.
  unfold route_wf. simpl. case_bool_decide as Hs.
  - split_and!; [done|done|]. intros n. rewrite <- Hdom.
    destruct (decide (n = name)) as [->|]; [by rewrite lookup_insert_eq|by rewrite lookup_insert_ne].
  - rewrite !map_app. simpl. rewrite Hname. split_and!.
    + apply NoDup_app. split_and!; [done| |by apply NoDup_singleton].
      intros n Hn Hn'. apply list_elem_of_singleton in Hn' as ->. by apply Hs, Hdom.
    + apply Forall_app. split; [done|]. repeat constructor. by rewrite Hname.
    + intros n. rewrite elem_of_app, list_elem_of_singleton, <- Hdom.
      destruct (decide (n = name)) as [->|]; [rewrite lookup_insert_eq; split; [by right|by eexists]|].
      rewrite lookup_insert_ne by done. split; [by left|by intros [?|?]].
Qed.

Lemma add_zones_spec reg http opts calls :
  registry_wf reg -> Forall (fun '(name, _) => is_Some (reg !! name)) calls -> calls <> [] ->
  exists h, add_zones reg calls (mkRoute http opts None None)
      = mkRoute http opts (Some (h_zones h)) None /\
    route_wf reg h /\ forall name, rz_opts h !! name = last_options calls name.
Proof.
  intros Hreg. induction calls as [|[n o] calls IH] using rev_ind; intros Hall Hne; [done|].
  apply Forall_app in Hall as [Hall [Hn _]%Forall_cons].
  destruct Hn as [z Hz]. rewrite add_zones_snoc.
  destruct (decide (calls = [])) as [->|Hc].
  - simpl. unfold Route_Zone. simpl. rewrite Hz. eexists. split; [done|]. split.
    + pose proof (Hreg _ _ Hz) as Hname. unfold route_wf. simpl. rewrite Hname.
      split_and!; [apply NoDup_singleton|by repeat constructor; rewrite Hname|].
      intros n'. rewrite list_elem_of_singleton.
      destruct (decide (n' = n)) as [->|]; [by rewrite lookup_singleton_eq|].
      rewrite lookup_singleton_ne by done. split; [by intros []|done].
    + intros n'. simpl. unfold last_options. simpl. case_decide; subst;
        [by rewrite lookup_singleton_eq|by rewrite lookup_singleton_ne].
  - destruct IH as (h & E & Hw & Ho); [done|done|]. rewrite E. unfold Route_Zone. simpl. rewrite Hz.
    eexists. split; [done|]. split; [by apply Route_Zone_wf|].
    intros n'. rewrite last_options_snoc. simpl. case_decide; subst;
      [by rewrite lookup_insert_eq|by rewrite lookup_insert_ne].
Qed.

(** Naming a zone again replaces its options and adds no second check:
    after any sequence of [Zone] calls with registered names, [GetZone] lists
    each named zone once, every listed zone is the registered one of its name,
    and its options are those of the last call that named it. *)
Theorem route_zones_last_call reg http opts calls :
  registry_wf reg -> Forall (fun '(name, _) => is_Some (reg !! name)) calls -> calls <> [] ->
  let zs := Route_GetZone (add_zones reg calls (mkRoute http opts None None)) in
  NoDup (map (fun z => zone_name (fst z)) zs) /\
  (forall z o, (z, o) ∈ zs -> reg !! zone_name z = Some z /\
     last_options calls (zone_name z) = Some o) /\
  (forall name, is_Some (last_options calls name) -> name ∈ map (fun z => zone_name (fst z)) zs).
Proof.
  intros Hreg Hall Hne zs.
  destruct (add_zones_spec reg http opts calls) as (h & E & (Hnd & Hin & Hdom) & Ho); [done..|].
  subst zs. rewrite E. unfold Route_GetZone. simpl. rewrite map_map. simpl.
  split_and!; [done| |].
  - intros z o (z' & Heq & Hz')%list_elem_of_fmap. simplify_eq.
    rewrite Forall_forall in Hin. split; [by apply Hin|]. rewrite <- Ho.
    destruct (proj2 (Hdom (zone_name z'))) as [o' Ho']; [|by rewrite Ho'].
    apply list_elem_of_fmap. eauto.
  - intros name Hs. apply Hdom. by rewrite Ho.
Qed.

(** A route with a single zone ignores the options given for it: whatever
    options (salt keys) [Zone] was called with, the zone is checked with the
    options of the incoming context, so the salt never reaches the key. *)
Theorem single_zone_ignores_options (reg : gmap string Z_) name opts z i req ctx (s : S) :
  reg !! name = Some z ->
  routeHandler_LimitRequest i (Route_Zone reg name opts (mkRoute None (mkRO "" "" []) None None))
    req ctx s
  = Zone.Zone_LimitRequest z req (ctx_limit ctx) s.
Proof.
  intros Hz. unfold Route_Zone. simpl. rewrite Hz. unfold routeHandler_LimitRequest, requestWithRoute.
  by repeat case_match; simplify_eq/=.
Qed.

Lemma Router_make_routes (f : Route Z_ S -> Route Z_ S) (c : Router Z_ S) :
  routes (snd (Router_make f c)) = routes c ++ [f (mkRoute None (mkRO "" "" []) None None)] /\
  fst (Router_make f c) = length (routes c) /\ zones (snd (Router_make f c)) = zones c.
Proof.
  unfold Router_make, Router_NewRoute, Router_update. cbn [routes snd fst zones]. split; [|done].
  apply list_eq. intros i. destruct (decide (i = length (routes c))) as [->|Hi].
  - by rewrite list_lookup_alter_eq, !lookup_app_r, Nat.sub_diag by lia.
  - rewrite list_lookup_alter_ne by done. destruct (decide (i < length (routes c))%nat).
    + by rewrite !lookup_app_l by lia.
    + rewrite !lookup_ge_None_2; [done|rewrite length_app; simpl; lia..].
Qed.

(** The factories of the router register one route behind the others, which they leave alone, with its position as the result,
    and an empty path or an empty list of methods registers the route without a setting. *)
Theorem factories_append (c : Router Z_ S) name verb tmpl after :
  Forall (fun f => exists r, routes (snd (f c)) = routes c ++ [r] /\ fst (f c) = length (routes c) /\ zones (snd (f c)) = zones c)
    [Router_Name name after; Router_MatcherFunc after; Router_Methods verb after; Router_Path tmpl after; Router_PathPrefix tmpl after] /\
  Router_Methods [] after c = Router_NewRoute c /\ Router_Path "" after c = Router_NewRoute c /\
  Router_PathPrefix "" after c = Router_NewRoute c.
Proof.
  split; [repeat (apply Forall_cons; split; [eexists; apply Router_make_routes|]); apply Forall_nil; done|].
  assert (forall f, f (mkRoute None (mkRO "" "" []) None None) = mkRoute None (mkRO "" "" []) None None ->
    Router_make f c = Router_NewRoute c) as H.
  { intros f Hf. destruct (Router_make_routes f c) as (E1 & E2 & E3). rewrite Hf in E1.
    destruct (Router_make f c) as [i [z r]]. unfold Router_NewRoute. cbn in *. congruence. }
  split; [by apply H|]. split; by apply H.
Qed.

(** A route whose zone is unknown does not limit: the build error is kept in
    the route, later [Zone] calls are ignored, and the router lets every
    request of the route through with an [Allow] status. *)
Theorem unknown_zone_allows mux_match (c : Router Z_ S) name opts more http i req ctx s :
  zones c !! name = None -> Keys.Http req = Some http ->
  i = fst (Router_NewRoute c) -> mux_match http = Some (Some i) ->
  let c' := Router_update i (add_zones (zones c) ((name, opts) :: more)) (snd (Router_NewRoute c)) in
  (exists e, Router_Match mux_match c' http ≫= Route_GetError = Some e) /\
  Router_LimitRequest mux_match c' req ctx s = Ret ((Some (Status.Allow req []), None), s).
Proof.
  intros Hz Hh Hi Hm c'. simpl in Hi. subst i.
  assert (forall calls r e, r_err r = Some e -> add_zones (zones c) calls r = r) as Hstuck.
  { induction calls as [|[n o] calls IH]; intros r e He; [done|]. unfold add_zones in *. simpl.
    unfold Route_Zone at 2. rewrite He. by apply (IH r e). }
  set (r := mkRoute None (mkRO "" "" []) None (Some ("route: zone " +:+ name +:+ " not found"))
            : Route Z_ S).
  assert (routes c' !! length (routes c) = Some r) as Hr.
  { subst c'. unfold Router_update, Router_NewRoute. cbn [routes snd].
        rewrite list_lookup_alter_eq, lookup_app_r, Nat.sub_diag by lia. simpl. f_equal.
    unfold add_zones. simpl. unfold Route_Zone at 2. simpl. rewrite Hz. by eapply (Hstuck more r). }
  split.
  - unfold Router_Match. rewrite Hm, Hr. by eexists.
  - unfold Router_LimitRequest, matched. rewrite Hh, Hm, Hr.
    unfold routeHandler_LimitRequest, requestWithRoute, Keys.Clone. by repeat case_match; simplify_eq/=.
Qed.

End Builder.

(** ** Witnesses: zones with a constant answer *)

Definition const_zone : Type := Zone.Options * Status.Status.

#[local] Instance const_zone_impl : Zone.ZoneImpl const_zone (list (option Zone.LimitOptions)) := {
  Zone.Zone_Options := fst;
  Zone.Zone_LimitRequest := fun z _ ctx s => Ret ((Some (snd z), None), s ++ [ctx])
}.

#[local] Instance const_zone_laws : Zone.ZoneLaws const_zone (list (option Zone.LimitOptions)).
Proof.
  refine {| Zone.zone_ok := fun z => Zone.status_sane (snd z); Zone.zone_inv := fun _ => True |}.
  intros z req ctx s st err s' Hz _ _ E. simpl in E. simplify_eq. split; [done|].
  intros. by simplify_eq.
Defined.

Definition demo_zone (name : string) (st : Status.Status) : const_zone :=
  (Zone.mkOptions None false name 0 Rate.rate_zero "" 0, st).

Definition st_allow : Status.Status := Status.mkStatus 0 5 1 4 7 0.
Definition st_deny : Status.Status := Status.mkStatus 0 5 0 0 7 7.

Lemma st_allow_sane : Zone.status_sane st_allow.
Proof. unfold Zone.status_sane, Status.status_wf, min_int64, max_int64. simpl. lia. Qed.

Lemma st_deny_sane : Zone.status_sane st_deny.
Proof. unfold Zone.status_sane, Status.status_wf, min_int64, max_int64. simpl. lia. Qed.

Definition demo_group : routeZones const_zone := mkRZ ∅ [demo_zone "a" st_allow; demo_zone "b" st_deny].
Definition demo_req : Keys.Request :=
  Keys.mkReq 0%nat 0 1 (Some (Keys.mkHttp "GET" None "" [])).
Definition demo_ctx : rctx := mkCtx None [].

Lemma route_worst_status_witness :
  exists res s, routeZones_LimitRequest demo_group demo_req demo_ctx [] = Ret ((res, None), s) /\
    res = Some st_deny.
Proof.
  destruct (route_worst_status demo_group demo_req demo_ctx [] [st_allow; st_deny] _
    ltac:(simpl; lia) eq_refl) as (res & E & Hn & Hm).
  { repeat apply Forall_cons_2; [apply sane_ranged, st_allow_sane|apply sane_ranged, st_deny_sane|done]. }
  eexists res, _. split; [exact E|]. destruct res as [m|]; [|by destruct (proj1 Hn eq_refl)].
  destruct (Hm m eq_refl) as [Hin Hmax].
  apply elem_of_cons in Hin as [->|[->|Hin%elem_of_nil]%elem_of_cons]; [|done|done].
  specialize (Hmax st_deny ltac:(right; left)). by vm_compute in Hmax.
Defined.

Lemma route_denies_iff_any_witness :
  exists res s, routeZones_LimitRequest demo_group demo_req demo_ctx [] = Ret ((res, None), s) /\
    Status.OK res = false.
Proof.
  destruct (route_denies_iff_any demo_group demo_req demo_ctx [] [st_allow; st_deny]
    [Some (Zone.mkLimit []); Some (Zone.mkLimit [])]
    ltac:(simpl; lia)) as (res & E & Hk & _); [| | |reflexivity|].
  - repeat apply Forall_cons_2; [apply st_allow_sane|apply st_deny_sane|done].
  - unfold Zone.req_ok. simpl. lia.
  - done.
  - eexists res, _. split; [exact E|]. exact Hk.
Defined.

Definition demo_registry : gmap string const_zone := {[ "a" := demo_zone "a" st_allow ]}.

Lemma route_zones_last_call_witness :
  let o := Zone.mkLimit [None] in
  (demo_zone "a" st_allow, o) ∈ Route_GetZone (S := list (option Zone.LimitOptions))
    (add_zones demo_registry [("a", Zone.mkLimit []); ("a", o)] (mkRoute None (mkRO "" "" []) None None)) /\
  NoDup (map (fun z => Zone.oName (Zone.Zone_Options (fst z)))
    (Route_GetZone (S := list (option Zone.LimitOptions))
       (add_zones demo_registry [("a", Zone.mkLimit []); ("a", o)] (mkRoute None (mkRO "" "" []) None None)))).
Proof.
  intros o. split; [vm_compute; left|].
  apply (route_zones_last_call (S := list (option Zone.LimitOptions)) demo_registry None (mkRO "" "" [])
           [("a", Zone.mkLimit []); ("a", o)]); [|by repeat constructor; eexists|done].
  intros name z H. unfold demo_registry in H. by apply lookup_singleton_Some in H as [<- <-].
Defined.

Lemma single_zone_ignores_options_witness :
  routeHandler_LimitRequest 0
    (Route_Zone demo_registry "a" (Zone.mkLimit [Some (Keys.KeyValue "salt" "x")])
       (mkRoute None (mkRO "" "" []) None None)) demo_req demo_ctx []
  = Ret ((Some st_allow, None), [None]).
Proof. by rewrite (single_zone_ignores_options demo_registry "a" _ (demo_zone "a" st_allow)). Defined.

Lemma unknown_zone_allows_witness :
  Router_LimitRequest (fun _ => Some (Some 0%nat))
    (Router_update 0 (add_zones ∅ [("a", Zone.mkLimit [])])
       (snd (Router_NewRoute (NewRouter : Router const_zone (list (option Zone.LimitOptions))))))
    demo_req demo_ctx []
  = Ret ((Some (Status.Allow demo_req []), None), []).
Proof.
  by apply (unknown_zone_allows (fun _ => Some (Some 0%nat))
    (NewRouter : Router const_zone (list (option Zone.LimitOptions))) "a" (Zone.mkLimit []) []
    (Keys.mkHttp "GET" None "" []) 0 demo_req demo_ctx []).
Defined.

End Mux.
