(* ===== verification/Logging.v ===== *)
(** * Logging of the rate limiter: src/infra/ratelimit (logs.go, mux/logs.go)

    The handler that prefixes messages with the name of a module, the value a status has in a log,
    and the tree that the records of a route are drawn in.  The handler of the user is
    what is done to it and the messages it is given. *)
From stdpp Require Import prelude strings list.
From Stdlib Require Import ZArith Lia.
From S2P Require Import Prelude Status.

Local Open Scope Z_scope.

Module Logging.

(** ** Log *)

Section Log.
Context {A : Type}.

(** A logger: which levels are enabled. *)
Record Logger := mkLogger { Enabled : Z -> bool }.

(** The records that reach the handler. *)
Definition Log (out : option Logger) (level : Z) (msg : string) (args : list A) : list (Z * string * list A) :=
  match out with
  | None => []
  | Some l => if negb (Enabled l level) then [] else [(level, msg, args)]
  end.

Definition Request_Log (logger : option Logger) (level : Z) (msg : string) (args : list A) := Log logger level msg args.
End Log.

(** ** Statuses *)

Inductive lvalue := LString (s : string) | LDuration (d : Z).

Definition Millisecond : Z := 1000000.

(** time.Duration.Round: half away from zero, within the range of a duration. *)
Definition Round (d m : Z) : Z :=
  if m <=? 0 then d
  else
    let r := Z.rem d m in
    if d <? 0 then
      let r := - r in
      if r + r <? m then d + r
      else let d1 := i64 (d - m + r) in if d1 <? d then d1 else min_int64
    else if r + r <? m then d - r
    else let d1 := i64 (d + m - r) in if d <? d1 then d1 else max_int64.

(** [Status.LogValue]: a plain text or a group. *)
Definition Status_LogValue (res : option Status.Status) : string + list (string * lvalue) :=
  match res with
  | None => inl "BYPASS"
  | Some res =>
      let status :=
        if 0 <? Status.Allowed res then (if 0 <? Status.Limit res then "ALLOW" else "PASS")
        else if 0 <? Status.Limit res then "DENY" else "FORBIDDEN" in
      let params :=
        [("remain", LString (FormatInt (Status.Remaining res) +:+ "/" +:+ FormatInt (Status.Limit res)));
         ("reset", LDuration (Round (Status.ResetAfter res) Millisecond))] in
      let '(status, params) :=
        if 0 <? Status.RetryAfter res then
          ("FLOOD_WAIT_" +:+ FormatInt (Status.MinSeconds (Status.RetryAfter res)),
           params ++ [("retry", LDuration (Round (Status.RetryAfter res) Millisecond))])
        else (status, params) in
      inr (params ++ [("code", LString status)])
  end.

(** ** The prefix of a module *)

(** The user's handler with what was done to it, or a prefixed one. *)
Inductive hop (A : Type) := OAttrs (l : list A) | OGroup (name : string).
Arguments OAttrs {A} l.
Arguments OGroup {A} name.

Inductive handler (A : Type) := Base (ops : list (hop A)) | Prefixed (prefix : string) (h : handler A).
Arguments Base {A} ops.
Arguments Prefixed {A} prefix h.

Section Prefix.
Context {A : Type}.

Definition LogHandler (module : string) (h : handler A) : handler A :=
  let module := TrimSpace module in
  if decide (module = "") then h
  else
    let module := module +:+ " " in
    match h with
    | Prefixed p inner => if decide (p = module) then h else Prefixed module inner
    | Base _ => Prefixed module h
    end.

(** [ModuleLog] on the handler of a logger. *)
Definition ModuleLog (module : string) (h : handler A) : handler A := LogHandler module h.

(** [Handle]: what the user's handler is given. *)
Fixpoint Handle (h : handler A) (msg : string) : list (hop A) * string :=
  match h with
  | Base ops => (ops, msg)
  | Prefixed p inner => Handle inner (if String.prefix p msg then msg else p +:+ msg)
  end.

Fixpoint WithAttrs (attrs : list A) (h : handler A) : handler A :=
  match h with Base ops => Base (ops ++ [OAttrs attrs]) | Prefixed p inner => Prefixed p (WithAttrs attrs inner) end.

Fixpoint WithGroup (name : string) (h : handler A) : handler A :=
  match h with Base ops => Base (ops ++ [OGroup name]) | Prefixed _ inner => Prefixed name (WithGroup name inner) end.

(** ** Theorems on prefixes *)

(** At most one prefix is ever in the way of the user's handler. *)
Definition flat (h : handler A) : Prop :=
  match h with Base _ => True | Prefixed _ (Base _) => True | Prefixed _ (Prefixed _ _) => False end.

Lemma flat_ops h : flat h ->
  (forall m, flat (LogHandler m h)) /\ (forall l, flat (WithAttrs l h)) /\ (forall n, flat (WithGroup n h)).
Proof.
  destruct h as [ops|p [ops|p' h]]; simpl; try done; intros _; unfold LogHandler; repeat split; intros; repeat case_decide; done.
Qed.

Lemma LogHandler_named m (x : handler A) : TrimSpace m <> "" -> LogHandler m x =
  match x with
  | Prefixed q inner => if decide (q = TrimSpace m +:+ " ") then x else Prefixed (TrimSpace m +:+ " ") inner
  | Base _ => Prefixed (TrimSpace m +:+ " ") x
  end.
Proof. intros Hm. unfold LogHandler. by rewrite decide_False. Qed.

(** The logger of a module gives every record to the handler of the user with the name of the module in
    front exactly once, keeps its attributes, and making it again or for another module changes only
    the name. *)
Theorem module_prefix module ops msg : TrimSpace module <> "" ->
  let p := TrimSpace module +:+ " " in let h := Base ops in
  Handle (LogHandler module h) msg = (ops, if String.prefix p msg then msg else p +:+ msg) /\
  LogHandler module (LogHandler module h) = LogHandler module h /\
  (forall l, LogHandler module (WithAttrs l h) = WithAttrs l (LogHandler module h)) /\
  (forall module', TrimSpace module' <> "" -> LogHandler module' (LogHandler module h) = LogHandler module' h).
Proof.
  intros Hm p h. rewrite !(LogHandler_named module) by done. fold p. split; [done|].
  split; [unfold h; by rewrite decide_True|]. split; [intros l; by rewrite LogHandler_named|].
  intros module' Hm'. rewrite !LogHandler_named by done. unfold h. case_decide as E; [|done]. by rewrite E.
Qed.

(** Opening a group replaces the prefix of the module by the name of the group. *)
Theorem group_replaces_prefix module name ops msg : TrimSpace module <> "" ->
  Handle (WithGroup name (LogHandler module (Base ops))) msg =
    (ops ++ [OGroup name], if String.prefix name msg then msg else name +:+ msg).
Proof. intros Hm. unfold LogHandler. by rewrite decide_False. Qed.

End Prefix.

(** ** The tree of a route (mux/logs.go) *)

Definition treePath : string := "│  ".
Definition treeFile : string := "├─ ".
Definition treeExit : string := "└─ ".

Fixpoint Repeat (s : string) (n : nat) : string := match n with O => "" | S n => s +:+ Repeat s n end.

(** [treeDir.path]; the depth is a uint8. *)
Definition path (depth : Z) (exit : bool) : string :=
  if depth =? 0 then ""
  else (if 1 <? depth then Repeat treePath (Z.to_nat (depth - 1)) else "") +:+ (if exit then treeExit else treeFile).

Definition open (depth : Z) : string * Z := (path depth false, u8 (depth + 1)).
Definition exit (depth : Z) : string * Z := (path depth true, if 0 <? depth then depth - 1 else depth).

(** The state of a [routeLog]: its attributes, the depth and whether the next record ends a directory. *)
Record routeLog (V : Type) := mkRL { attrs : list (string * V); tree : Z; exiting : bool }.
Arguments mkRL {V}.
Arguments attrs {V}.
Arguments tree {V}.
Arguments exiting {V}.

Definition openDir {V} (c : routeLog V) : routeLog V := mkRL (attrs c) (open (tree c)).2 (exiting c).
Definition exitDir {V} (c : routeLog V) : routeLog V := mkRL (attrs c) (tree c) true.

(** [Handle]: the message and attributes that are passed on, and the new state. *)
Definition route_Handle {V} (c : routeLog V) (msg : string) (rec : list (string * V))
  : string * list (string * V) * routeLog V :=
  let '(cd, c) :=
    if exiting c then let '(cd, d) := exit (tree c) in (cd, mkRL (attrs c) d false)
    else (path (tree c) false, c) in
  (if String.prefix cd msg then msg else cd +:+ msg, rec ++ attrs c, c).

(** The loop of [WithAttrs]: a key that is set is replaced in place. *)
Fixpoint set_attr {V} (add : string * V) (l : list (string * V)) : list (string * V) :=
  match l with
  | [] => [add]
  | x :: l => if decide (x.1 = add.1) then add :: l else x :: set_attr add l
  end.

Definition route_WithAttrs {V} (l : list (string * V)) (c : routeLog V) : routeLog V :=
  match l with [] => c | _ => mkRL (foldl (fun acc a => set_attr a acc) (attrs c) l) (tree c) (exiting c) end.

(** The records of a request: notes and routes with their entry and status; a flag tells whether the level of
    the record is enabled. *)
Inductive item := Note (on : bool) (msg : string) | Route (on_entry on_status : bool) (entry status : string) (body : list item).

Definition emit {V} (on : bool) (msg : string) (c : routeLog V) : list string * routeLog V :=
  if on then let '(m, _, c) := route_Handle c msg [] in ([m], c) else ([], c).

Fixpoint draw {V} (i : item) (c : routeLog V) : list string * routeLog V :=
  match i with
  | Note on msg => emit on msg c
  | Route on_entry on_status entry status body =>
      let '(l1, c) := emit on_entry entry c in
      let c := openDir c in
      let '(l2, c) := (fix go (b : list item) (c : routeLog V) : list string * routeLog V :=
        match b with [] => ([], c) | x :: b => let '(l, c) := draw x c in let '(r, c) := go b c in (l ++ r, c) end) body c in
      let '(l3, c) := emit on_status status (exitDir c) in
      (l1 ++ l2 ++ l3, c)
  end.

(** The items of a directory. *)
Fixpoint draw_all {V} (b : list item) (c : routeLog V) : list string * routeLog V :=
  match b with [] => ([], c) | x :: b => let '(l, c) := draw x c in let '(r, c) := draw_all b c in (l ++ r, c) end.

Fixpoint all_on (i : item) : bool :=
  match i with Note on _ => on | Route a b _ _ body => a && b && forallb all_on body end.

(** How deep routes are nested. *)
Fixpoint height (i : item) : Z :=
  match i with Note _ _ => 0 | Route _ _ _ _ body => 1 + foldr (fun x h => Z.max (height x) h) 0 body end.

Lemma draw_route {V} on_entry on_status entry status body (c : routeLog V) :
  draw (Route on_entry on_status entry status body) c =
  let '(l1, c) := emit on_entry entry c in
  let '(l2, c) := draw_all body (openDir c) in
  let '(l3, c) := emit on_status status (exitDir c) in (l1 ++ l2 ++ l3, c).
Proof.
  cbn [draw]. destruct (emit on_entry entry c) as [l1 c1]. generalize (openDir c1). intros c2.
  match goal with |- (let '(_, _) := ?f body c2 in _) = _ => assert (forall b c, f b c = draw_all b c) as -> end; [|done].
  induction b as [|x b IH]; intros c3; simpl; [done|]. destruct (draw x c3) as [l c4]. by rewrite IH.
Qed.

(** ** Theorems on the tree *)

Lemma height_nonneg : forall i, 0 <= height i.
Proof. intros [on m|a b e s body]; simpl; [lia|]. assert (0 <= foldr (fun x h => Z.max (height x) h) 0 body) by (induction body; simpl; lia). lia. Qed.

(** When every level is enabled the tree comes back to where it was, for at most 255 levels of
    nested routes: no directory is left open and no end is pending. *)
Theorem tree_balanced {V} i : forall (c : routeLog V), all_on i = true -> exiting c = false ->
  0 <= tree c -> tree c + height i < 256 -> (draw i c).2 = c.
Proof.
  revert i. fix IH 1. intros [on msg|a b entry status body] c Hon Hex Hd Hh.
  - simpl in Hon. subst on. unfold draw, emit, route_Handle. by rewrite Hex.
  - cbn [all_on] in Hon. apply andb_prop in Hon as [Hab Hbody]. apply andb_prop in Hab as [-> ->]. cbn [height] in Hh.
    rewrite draw_route. unfold emit at 1, route_Handle. rewrite Hex. cbn iota beta.
    assert (0 <= foldr (fun x h => Z.max (height x) h) 0 body) as Hpos by (clear; induction body; simpl; lia).
    assert ((draw_all body (openDir c)).2 = openDir c) as Hbd.
    { assert (0 <= tree (openDir c)) as H0 by (simpl; apply Z.mod_pos_bound; lia).
      assert (tree (openDir c) + foldr (fun x h => Z.max (height x) h) 0 body < 256) as H1.
      { simpl. rewrite wrap_unsigned_small by (change (2 ^ 8) with 256; lia). lia. }
      assert (exiting (openDir c) = false) as H2 by exact Hex. revert H0 H1 H2 Hbody. clear -IH. generalize (openDir c) as c1.
      induction body as [|x l IHl]; intros c1 H0 H1 H2 Hb; [done|]. cbn [draw_all foldr forallb] in *.
      apply andb_prop in Hb as [Hx Hl]. assert (0 <= foldr (fun x h => Z.max (height x) h) 0 l) by (clear; induction l; simpl; lia).
      pose proof (IH x c1 Hx H2 H0 ltac:(lia)) as Ex. destruct (draw x c1) as [l1 c2]. simpl in Ex. subst c2.
      pose proof (IHl c1 H0 ltac:(lia) H2 Hl) as El. destruct (draw_all l c1) as [l2 c3]. exact El. }
    destruct (draw_all body (openDir c)) as [l2 c2]. simpl in Hbd. subst c2. unfold emit, route_Handle, exitDir, exit, openDir, open. simpl.
    rewrite wrap_unsigned_small by (change (2 ^ 8) with 256; lia). destruct (Z.ltb_spec 0 (tree c + 1)); [|lia]. simpl.
    destruct c as [at_ d ex]. simpl in *. subst ex. do 2 f_equal. lia.
Qed.

(** When the status of a route is not logged its directory stays open, and the next record of the
    request, whatever it is, is drawn as the end of that directory. *)
Theorem silent_status_drifts {V} (c : routeLog V) entry status msg : exiting c = false -> 0 <= tree c < 255 ->
  let c1 := (draw (Route false false entry status []) c).2 in
  tree c1 = tree c + 1 /\ exiting c1 = true /\
  (route_Handle c1 msg []).1.1 = (let cd := path (tree c + 1) true in if String.prefix cd msg then msg else cd +:+ msg).
Proof.
  intros Hex Hd c1. assert (tree c1 = tree c + 1) as Ht by (unfold c1; simpl; apply wrap_unsigned_small; change (2 ^ 8) with 256; lia).
  split; [done|]. split; [done|]. unfold route_Handle. change (exiting c1) with true. cbn iota. by rewrite Ht.
Qed.

(** Setting one attribute: the keys stay distinct, and the other attributes stay. *)
Lemma set_attr_spec {V} (a : string * V) acc : NoDup acc.*1 ->
  NoDup (set_attr a acc).*1 /\ a ∈ set_attr a acc /\
  (forall x, x.1 <> a.1 -> x ∈ acc -> x ∈ set_attr a acc) /\
  (forall k, k ∈ (set_attr a acc).*1 -> k = a.1 \/ k ∈ acc.*1).
Proof.
  induction acc as [|x acc IH]; intros Hn; simpl.
  - split; [apply NoDup_singleton|]. split; [set_solver|]. split; [set_solver|]. intros k ->%list_elem_of_singleton. by left.
  - apply NoDup_cons in Hn as [Hx Hn]. destruct (IH Hn) as (I1 & I2 & I3 & I4). case_decide as E.
    + split; [simpl; rewrite <- E; by apply NoDup_cons|]. split; [set_solver|]. split; [|simpl; rewrite <- E; set_solver].
      intros y Hy [->|Hin]%elem_of_cons; [by rewrite E in Hy|set_solver].
    + split; [simpl; apply NoDup_cons; split; [|done]; intros Hin%I4; destruct Hin; [by apply E|done]|].
      split; [set_solver|]. split; [set_solver|]. simpl. intros k [->|Hk]%elem_of_cons; [right; set_solver|].
      apply I4 in Hk. set_solver.
Qed.

Lemma set_attrs_nodup {V} (l : list (string * V)) : forall acc, NoDup acc.*1 ->
  NoDup (foldl (fun acc a => set_attr a acc) acc l).*1.
Proof. induction l as [|a l IH]; intros acc Hn; [done|]. simpl. apply IH. by apply set_attr_spec. Qed.

(** Attributes have one value per key, the last one that was set, and keep their places. *)
Theorem route_attrs_unique {V} l (c : routeLog V) : NoDup (attrs c).*1 ->
  NoDup (attrs (route_WithAttrs l c)).*1 /\
  (forall k v, last (filter (fun a => a.1 = k) l) = Some (k, v) -> (k, v) ∈ attrs (route_WithAttrs l c)) /\
  tree (route_WithAttrs l c) = tree c.
Proof.
  intros Hnd. assert (attrs (route_WithAttrs l c) = foldl (fun acc a => set_attr a acc) (attrs c) l) as -> by (by destruct l).
  split; [by apply set_attrs_nodup|]. split; [|by destruct l].
  intros k v. revert Hnd. generalize (attrs c). induction l as [|a l IH] using rev_ind; intros acc Hn; [done|].
  rewrite filter_app, foldl_app. cbn [foldl]. destruct (set_attr_spec a _ (set_attrs_nodup l acc Hn)) as (_ & Ha & Hkeep & _).
  destruct (decide (a.1 = k)) as [Ek|Ek].
  - rewrite filter_cons_True by done. rewrite filter_nil, last_snoc. by intros [= ->].
  - rewrite filter_cons_False by done. rewrite filter_nil, app_nil_r. intros Hl. apply Hkeep; [simpl; congruence|]. by apply IH.
Qed.


(** ** Theorems on statuses *)

(** The code that is logged: a status that asks to wait is always logged as a flood wait with its seconds, also when the
    request was allowed; otherwise the code tells the verdict. *)
Theorem status_code res : exists params, Status_LogValue (Some res) = inr (params ++ [("code", LString (
  if 0 <? Status.RetryAfter res then "FLOOD_WAIT_" +:+ FormatInt (Status.MinSeconds (Status.RetryAfter res))
  else if 0 <? Status.Allowed res then (if 0 <? Status.Limit res then "ALLOW" else "PASS")
  else if 0 <? Status.Limit res then "DENY" else "FORBIDDEN"))]).
Proof. unfold Status_LogValue. destruct (0 <? Status.RetryAfter res); by eexists. Qed.
(** ** Witnesses *)

Lemma module_prefix_witness : Handle (LogHandler " LIMIT " (Base (A := nat) [])) "ready" = ([], "LIMIT ready").
Proof.
  destruct (module_prefix (A := nat) " LIMIT " [] "ready") as [H _]; [discriminate|]. rewrite H. reflexivity.
Defined.

Lemma group_replaces_prefix_witness : Handle (WithGroup "http" (LogHandler "LIMIT" (Base (A := nat) []))) "ready" = ([OGroup "http"], "httpready").
Proof. rewrite (group_replaces_prefix (A := nat) "LIMIT" "http" [] "ready"); [reflexivity|discriminate]. Defined.

Definition demo_log : routeLog nat := mkRL [] 0 false.

Lemma tree_balanced_witness :
  (draw (Route true true "in" "ALLOW" [Note true "zone"; Route true true "in" "PASS" []]) demo_log).2 = demo_log.
Proof. apply tree_balanced; [reflexivity|reflexivity|simpl; lia|simpl; lia]. Defined.

Lemma silent_status_drifts_witness :
  tree (draw (Route false false "in" "ALLOW" []) demo_log).2 = 1.
Proof. apply (silent_status_drifts demo_log "in" "ALLOW" ""); [reflexivity|simpl; lia]. Defined.

Lemma route_attrs_unique_witness :
  NoDup (attrs (route_WithAttrs [("a", 1%nat); ("b", 2%nat); ("a", 3%nat)] demo_log)).*1.
Proof. apply (route_attrs_unique [("a", 1%nat); ("b", 2%nat); ("a", 3%nat)] demo_log). apply NoDup_nil_2. Defined.

End Logging.
