(* ===== verification/RedisZone.v ===== *)
(** * The redis zone: infra/ratelimit/zone/redis

    Limiters that run as scripts on a redis server.  The Go side (arguments,
    replies, type assertions, conversions) is modelled for the three algorithms,
    and the script [fixed_window.lua] for the fixed window.  The server is the
    class [Redis] with the documented laws of the commands the script calls;
    the other two scripts are run through the parameter [run_script], which
    RedisScripts.v instantiates with their translations.  The text
    form of numbers ([tostring] of Lua, [strconv.ParseFloat]) is a parameter. *)
From stdpp Require Import prelude strings list gmap.
From Stdlib Require Import ZArith Lia Ascii.
From S2P Require Import Prelude Float64 Rate Keys Status Zone Mux.
Local Open Scope Z_scope.
Local Open Scope go_scope.

Module RedisZone.

Abbreviation f64 := Float64.f64.

(** A server: the counter of a key (0 when there is none), [INCRBY] ([None] when the counter would leave 64 bits),
    [EXPIRE] in seconds ([None] is an error reply), [PTTL] in milliseconds
    (-1 without expiry, -2 without key), and the passing of milliseconds. *)
Class Redis (T : Type) := {
  r_val : string -> T -> Z;
  r_incrby : string -> Z -> T -> option (Z * T);
  r_expire : string -> f64 -> T -> option T;
  r_pttl : string -> T -> Z;
  r_tick : Z -> T -> T
}.

Definition integral (x : f64) : bool := Float64.fnum x mod Float64.fden x =? 0.

Class RedisLaws (T : Type) `{Redis T} := {
  missing_val : forall k t, r_pttl k t = -2 -> r_val k t = 0;
  incrby_ok : forall k c t, min_int64 <= r_val k t + c <= max_int64 ->
    exists t', r_incrby k c t = Some (r_val k t + c, t') /\ r_val k t' = r_val k t + c /\
      r_pttl k t' = if r_pttl k t =? -2 then -1 else r_pttl k t;
  incrby_overflow : forall k c t, max_int64 < r_val k t + c -> r_incrby k c t = None;
  expire_ok : forall k x s t, 0 < Float64.fden x -> Float64.fnum x = s * Float64.fden x -> 0 < s < 2 ^ 40 -> r_pttl k t <> -2 ->
    exists t', r_expire k x t = Some t' /\ r_val k t' = r_val k t /\ r_pttl k t' = 1000 * s;
  expire_integral : forall k x t, integral x = false -> r_expire k x t = None;
  tick_persistent : forall k d t, r_pttl k t = -1 ->
    r_val k (r_tick d t) = r_val k t /\ r_pttl k (r_tick d t) = -1;
  tick_missing : forall k d t, r_pttl k t = -2 -> r_pttl k (r_tick d t) = -2;
  tick_alive : forall k d t, 0 <= d < r_pttl k t ->
    r_val k (r_tick d t) = r_val k t /\ r_pttl k (r_tick d t) = r_pttl k t - d;
  tick_expired : forall k d t, 0 < r_pttl k t <= d -> r_pttl k (r_tick d t) = -2
}.

(** What a script answers: integers and strings, or an error. *)
Inductive rvalue := RInt (z : Z) | RStr (s : string).

Section Redis_.
Context {T : Type} {HR : Redis T}.
Context (tostring : f64 -> string) (ParseFloat : string -> option f64).
(** The scripts [token_bucket.lua] and [sliding_window.lua] on the server. *)
Context (run_script : string -> string -> list f64 -> T -> res string (list rvalue) * T).

(** fixed_window.lua: the answer, from the count after [INCRBY]. *)
Definition fixed_reply (limit taken cost : Z) (reset : f64) : list rvalue :=
  let remain := limit - taken in
  let allow := if remain <? 0 then cost + remain else cost in
  if allow <? 0 then [RInt 0; RInt 0; RStr (tostring reset); RStr (tostring reset)]
  else if allow <? cost then [RInt allow; RInt 0; RStr (tostring reset); RStr (tostring reset)]
  else
    let remain := if remain <? 0 then 0 else remain in
    let retry := if 0 <? remain then Float64.of_Z 0 else reset in
    [RInt allow; RInt remain; RStr (tostring retry); RStr (tostring reset)].

(** The script; [limit], [exp] and [cost] are its arguments.  A failing command
    ends it, what it did before stays. *)
Definition fixed_window_lua (key : string) (limit : Z) (exp : f64) (cost : Z) (t : T)
  : res string (list rvalue) * T :=
  match r_incrby key cost t with
  | None => (Err "ERR increment or decrement would overflow", t)
  | Some (taken, t) =>
      if taken =? cost then
        match r_expire key exp t with
        | None => (Err "ERR value is not an integer or out of range", t)
        | Some t => (Ok (fixed_reply limit taken cost exp), t)
        end
      else
        let reset := Float64.fdiv (Float64.of_Z (r_pttl key t)) (Float64.of_Z 1000) in
        (Ok (fixed_reply limit taken cost reset), t)
  end.

(** ** The Go side *)

Definition duration (f : f64) : Z :=
  if Float64.fnum f =? - Float64.fden f then -1
  else i64 (Float64.ftrunc (Float64.fmul f (Float64.of_Z Rate.Second))).

(** [params[i].(string)] and [params[i].(int64)] *)
Definition param_string (params : list rvalue) (i : nat) : outcome string :=
  match params !! i with
  | Some (RStr s) => Ret s
  | Some (RInt _) => Panic "interface conversion: interface {} is int64, not string"
  | None => Panic "index out of range"
  end.

Definition param_int64 (params : list rvalue) (i : nat) : outcome Z :=
  match params !! i with
  | Some (RInt z) => Ret z
  | Some (RStr _) => Panic "interface conversion: interface {} is string, not int64"
  | None => Panic "index out of range"
  end.

(** The tail shared by the three algorithms: the reply as a status. *)
Definition read_reply (date limit : Z) (params : list rvalue) : outcome (res string Status.Status) :=
  let! s2 := param_string params 2 in
  match ParseFloat s2 with
  | None => Ret (Err ("strconv.ParseFloat: parsing " +:+ s2))
  | Some retryAfter =>
      let! s3 := param_string params 3 in
      match ParseFloat s3 with
      | None => Ret (Err ("strconv.ParseFloat: parsing " +:+ s3))
      | Some resetAfter =>
          let! a := param_int64 params 0 in
          let! r := param_int64 params 1 in
          Ret (Ok (Status.mkStatus date limit (u32 a) (u32 r) (duration resetAfter) (duration retryAfter)))
      end
  end.

Definition fixedWindow (key : string) (date : Z) (rate : Rate.Rate) (cost : Z) (t : T)
  : outcome (res string Status.Status * T) :=
  let '(result, t) := fixed_window_lua key (Rate.Limit rate) (Status.Seconds (Rate.Window rate)) cost t in
  match result with
  | Err err => Ret (Err err, t)
  | Ok params => let! st := read_reply date (u32 (Rate.Limit rate)) params in Ret (st, t)
  end.

Definition tokenBucket (key : string) (date : Z) (rate : Rate.Rate) (burst cost : Z) (t : T)
  : outcome (res string Status.Status * T) :=
  let cost := Z.max 1 cost in
  let burst := Z.max 1 burst in
  let '(result, t) := run_script "token_bucket.lua" key
    [Float64.of_Z burst; Float64.of_Z (Rate.Limit rate); Status.Seconds (Rate.Window rate);
     Float64.of_Z cost] t in
  match result with
  | Err err => Ret (Err err, t)
  | Ok params => let! st := read_reply date burst params in Ret (st, t)
  end.

Definition slidingWindow (key : string) (date : Z) (rate : Rate.Rate) (cost : Z) (t : T)
  : outcome (res string Status.Status * T) :=
  let cost := Z.max 1 cost in
  let '(result, t) := run_script "sliding_window.lua" key
    [Float64.of_Z (Rate.Limit rate); Status.Seconds (Rate.Window rate); Float64.of_Z cost] t in
  match result with
  | Err err => Ret (Err err, t)
  | Ok params => let! st := read_reply date (u32 (Rate.Limit rate)) params in Ret (st, t)
  end.

Definition limitKey (path key : string) : string := path +:+ ":" +:+ key.

(** The state of a client: the [Env] maps and the server. *)
Record rstate := mkR { r_envs : Keys.heap; r_store : T }.

Definition LimitRequest (zone : Zone.Options) (req : Keys.Request) (ctx : option Zone.LimitOptions)
    (s : rstate) : Zone.limit_result rstate :=
  let! (vkey, h) := Zone.RequestKey req ctx (Zone.oKey zone) (r_envs s) in
  let cost := Z.max 1 (Keys.Cost req) in
  let burst := Z.max 1 (Zone.oBurst zone) in
  if decide (vkey = Keys.Undefined) then Ret ((None, None), mkR h (r_store s))
  else
    let key := limitKey (Zone.oName zone) vkey in
    let! (result, t) :=
      if decide (Zone.oAlgo zone = Zone.AlgoTokenBucket) then
        tokenBucket key (Keys.Date req) (Zone.oRate zone) burst cost (r_store s)
      else if decide (Zone.oAlgo zone = Zone.AlgoFixedWindow) then
        fixedWindow key (Keys.Date req) (Zone.oRate zone) cost (r_store s)
      else if decide (Zone.oAlgo zone = Zone.AlgoSlidingWindow) then
        slidingWindow key (Keys.Date req) (Zone.oRate zone) cost (r_store s)
      else Ret (Err ("redis( algo: " +:+ Zone.oAlgo zone +:+ " ); not implemented"), r_store s) in
    match (result : res string Status.Status) with
    | Ok st => Ret ((Some st, None), mkR h t)
    | Err e => Ret ((None, Some e), mkR h t)
    end.

(** ** Lemmas *)

Context {HL : RedisLaws T}.
(** A printed number is a number; digits may be lost. *)
Hypothesis ParseFloat_tostring : forall x, is_Some (ParseFloat (tostring x)).

Definition reparse (x : f64) : f64 := default x (ParseFloat (tostring x)).

Lemma ParseFloat_reparse x : ParseFloat (tostring x) = Some (reparse x).
Proof. unfold reparse. by destruct (ParseFloat_tostring x) as [y ->]. Qed.

(** What a fixed-window call grants of [cost] with [before] already taken. *)
Definition window_grant (limit before cost : Z) : Z := Z.max 0 (Z.min cost (limit - before)).

Lemma read_fixed_reply date limit before cost reset :
  0 <= limit < 2 ^ 32 -> 1 <= cost < 2 ^ 32 -> 0 <= before ->
  exists st, read_reply date (u32 limit) (fixed_reply limit (before + cost) cost reset) = Ret (Ok st) /\
    Status.Limit st = limit /\
    Status.Allowed st = window_grant limit before cost /\
    Status.Remaining st = Z.max 0 (limit - before - cost) /\
    Status.RetryAfter st =
      duration (reparse (if 0 <? limit - before - cost then Float64.of_Z 0 else reset)).
Proof.
  intros Hl Hc Hb. unfold fixed_reply, window_grant.
  destruct (Z.ltb_spec (limit - (before + cost)) 0);
    [destruct (Z.ltb_spec (cost + (limit - (before + cost))) 0);
      [|destruct (Z.ltb_spec (cost + (limit - (before + cost))) cost); [|lia]]
    |destruct (Z.ltb_spec cost 0); [lia|]; destruct (Z.ltb_spec cost cost); [lia|];
     destruct (Z.ltb_spec 0 (limit - (before + cost)))];
    unfold read_reply; simpl; rewrite !ParseFloat_reparse; simpl;
    eexists; (split; [reflexivity|]); simpl; rewrite !wrap_unsigned_small by lia;
    destruct (Z.ltb_spec 0 (limit - before - cost)); split_and!; try done; lia.
Qed.

(** A call that does not open a window. *)
Lemma fixedWindow_running key date rate cost t :
  0 <= Rate.Limit rate < 2 ^ 32 -> 1 <= cost < 2 ^ 32 -> 0 < r_val key t -> r_val key t + cost <= max_int64 ->
  exists st t', fixedWindow key date rate cost t = Ret (Ok st, t') /\
    Status.Allowed st = window_grant (Rate.Limit rate) (r_val key t) cost /\
    r_val key t' = r_val key t + cost /\ r_pttl key t' = if r_pttl key t =? -2 then -1 else r_pttl key t.
Proof.
  intros HL' Hc Hv Hm. unfold fixedWindow, fixed_window_lua.
  destruct (incrby_ok key cost t) as (t1 & -> & Hv1 & Hp1); [unfold min_int64; lia|].
  destruct (Z.eqb_spec (r_val key t + cost) cost); [lia|].
  destruct (read_fixed_reply date (Rate.Limit rate) (r_val key t) cost
    (Float64.fdiv (Float64.of_Z (r_pttl key t1)) (Float64.of_Z 1000)) HL' Hc (Z.lt_le_incl _ _ Hv))
    as (st & E & _ & Ha & _).
  rewrite E. by exists st, t1.
Qed.

(** The first call of a window: the counter starts at [cost] and the key gets
    its expiry, or the script fails on it. *)
Lemma fixedWindow_fresh key date rate cost t :
  0 <= Rate.Limit rate < 2 ^ 32 -> 1 <= cost < 2 ^ 32 -> r_pttl key t = -2 ->
  exists t1, r_val key t1 = cost /\ r_pttl key t1 = -1 /\
  match r_expire key (Status.Seconds (Rate.Window rate)) t1 with
  | None => exists e, fixedWindow key date rate cost t = Ret (Err e, t1)
  | Some t' => exists st, fixedWindow key date rate cost t = Ret (Ok st, t') /\
      Status.Allowed st = window_grant (Rate.Limit rate) 0 cost
  end.
Proof.
  intros HL' Hc Hp. pose proof (missing_val key t Hp) as Hv. unfold fixedWindow, fixed_window_lua.
  destruct (incrby_ok key cost t) as (t1 & -> & Hv1 & Hp1); [unfold min_int64, max_int64; lia|]. rewrite Hv in *.
  rewrite (proj2 (Z.eqb_eq (0 + cost) cost) eq_refl). exists t1. split; [done|]. split; [by rewrite Hp1, Hp|].
  destruct (r_expire key _ t1) as [t'|]; [|by eexists].
  destruct (read_fixed_reply date (Rate.Limit rate) 0 cost (Status.Seconds (Rate.Window rate)) HL' Hc
    ltac:(lia)) as (st & E & _ & Ha & _).
  rewrite E. by eexists.
Qed.

(** Calls with pauses before them, in milliseconds; [None] for an error. *)
Fixpoint paused_run (key : string) (rate : Rate.Rate) (reqs : list (Z * (Z * Z))) (t : T)
  : outcome (list (option Z)) :=
  match reqs with
  | [] => Ret []
  | (pause, (date, cost)) :: rest =>
      let! (result, t) := fixedWindow key date rate cost (r_tick pause t) in
      let! out := paused_run key rate rest t in
      Ret (match result with Ok st => Some (Status.Allowed st) | Err _ => None end :: out)
  end.

(** ** A fixed window *)

(** The specification: the tokens asked for since the window was opened and the milliseconds it has left. *)
Definition awindow := option (Z * Z).

Definition spec_tick (d : Z) (s : awindow) : awindow :=
  match s with Some (n, l) => if d <? l then Some (n, l - d) else None | None => None end.

Definition spec_call (limit win cost : Z) (s : awindow) : Z * awindow :=
  let '(n, l) := default (0, win) s in (window_grant limit n cost, Some (n + cost, l)).

Fixpoint spec_run (limit win : Z) (reqs : list (Z * (Z * Z))) (s : awindow) : list Z :=
  match reqs with
  | [] => []
  | (pause, (_, cost)) :: rest => let '(g, s) := spec_call limit win cost (spec_tick pause s) in g :: spec_run limit win rest s
  end.

Definition total_cost (reqs : list (Z * (Z * Z))) : Z := foldr (fun q n => q.2.2 + n) 0 reqs.
Definition total_pause (reqs : list (Z * (Z * Z))) : Z := foldr (fun q n => q.1 + n) 0 reqs.
Definition sum (l : list Z) : Z := foldr Z.add 0 l.

Definition reqs_ok (reqs : list (Z * (Z * Z))) : Prop := Forall (fun q => 0 <= q.1 /\ 1 <= q.2.2 < 2 ^ 32) reqs.

Lemma total_nonneg reqs : reqs_ok reqs -> 0 <= total_cost reqs /\ 0 <= total_pause reqs.
Proof. induction 1 as [|[p [d c]] l [Hp Hc] _ IH]; simpl in *; [done|]. fold (total_cost l) (total_pause l). lia. Qed.

Lemma window_grant_add L b c1 c2 :
  0 <= c1 -> 0 <= c2 -> window_grant L b c1 + window_grant L (b + c1) c2 = window_grant L b (c1 + c2).
Proof. unfold window_grant. lia. Qed.

(** What is granted while a window lasts. *)
Lemma spec_sum limit win reqs : forall n l, reqs_ok reqs -> total_pause reqs < l ->
  sum (spec_run limit win reqs (Some (n, l))) = window_grant limit n (total_cost reqs).
Proof.
  induction reqs as [|[p [d c]] reqs IH]; intros n l Hok Hl; simpl; [unfold window_grant; lia|].
  apply Forall_cons in Hok as [[Hp Hc] Hok]. simpl in *. destruct (total_nonneg reqs Hok). fold (total_pause reqs) in Hl.
  destruct (Z.ltb_spec p l); [|lia]. simpl. fold (sum (spec_run limit win reqs (Some (n + c, l - p)))). rewrite IH by (done || lia).
  fold (total_cost reqs). apply window_grant_add; lia.
Qed.

(** The server shows a window. *)
Definition shows (key : string) (s : awindow) (t : T) : Prop :=
  match s with
  | None => r_pttl key t = -2
  | Some (n, l) => r_val key t = n /\ r_pttl key t = l /\ 0 < n /\ 0 < l
  end.

Lemma shows_tick key s t d : 0 <= d -> shows key s t -> shows key (spec_tick d s) (r_tick d t).
Proof.
  intros Hd. destruct s as [[n l]|]; simpl; [|apply tick_missing]. intros (Hv & Hp & Hn & Hl).
  destruct (Z.ltb_spec d l); simpl; [destruct (tick_alive key d t) as [-> ->]; lia|apply tick_expired; lia].
Qed.

(** A window of whole seconds, in seconds. *)
Lemma Seconds_whole w : 0 < w * Rate.Second <= max_int64 ->
  0 < Float64.fden (Status.Seconds (w * Rate.Second)) /\
  Float64.fnum (Status.Seconds (w * Rate.Second)) = w * Float64.fden (Status.Seconds (w * Rate.Second)) /\ 0 < w < 2 ^ 40.
Proof.
  unfold max_int64, Status.Seconds. change Rate.Second with 1000000000. intros Hw.
  rewrite Z.quot_mul, Z.rem_mul by lia. destruct (Float64.of_Z_exact_int w) as [E Hd]; [lia|].
  destruct (Float64.fadd_zero (Float64.of_Z w) w) as [H1 H2]; [done..|lia|]. split_and!; [done|done|lia..].
Qed.

Lemma call_shows key date rate w cost s t :
  0 <= Rate.Limit rate < 2 ^ 32 -> Rate.Window rate = w * Rate.Second -> 0 < Rate.Window rate <= max_int64 ->
  1 <= cost < 2 ^ 32 -> shows key s t -> default 0 (fst <$> s) + cost <= max_int64 ->
  let '(g, s') := spec_call (Rate.Limit rate) (1000 * w) cost s in
  exists st t', fixedWindow key date rate cost t = Ret (Ok st, t') /\ Status.Allowed st = g /\ shows key s' t'.
Proof.
  intros HL' Hw Hpos Hc Hs Hm. destruct s as [[n l]|]; simpl in *.
  - destruct Hs as (Hv & Hp & Hn & Hl). destruct (fixedWindow_running key date rate cost t) as (st & t' & E & Ha & Hv' & Hp'); try done; try lia.
    exists st, t'. split; [done|]. rewrite Hv in *. split; [done|]. rewrite Hp' , Hp. destruct (Z.eqb_spec l (-2)); lia.
  - destruct (fixedWindow_fresh key date rate cost t HL' Hc Hs) as (t1 & Hv1 & Hp1 & H).
    destruct (Seconds_whole w) as (Hd & Hn & Hw40); [by rewrite <- Hw|]. rewrite Hw in H.
    destruct (expire_ok key _ w t1 Hd Hn Hw40) as (t' & E & Hv' & Hp'); [lia|]. rewrite E in H. destruct H as (st & E' & Ha).
    exists st, t'. split; [done|]. split; [done|]. lia.
Qed.

(** ** Properties *)

(** C26: a redis fixed window of whole seconds is a fixed window: over any sequence of calls with any pauses between them,
    from a key that does not exist, the grants are those of the specification, a window that opens with a call, ends
    its length later, and grants the tokens asked for, cut at the limit.  So the calls of one window are granted what they ask for
    together, cut at the limit, whatever the pauses: a window is never over-granted, and partial grants use it up
    to the last token.  Costs are at most 2^53 in total, up to which the numbers of Lua are exact. *)
Theorem redis_window_exact key rate w reqs t :
  0 <= Rate.Limit rate < 2 ^ 32 -> Rate.Window rate = w * Rate.Second -> 0 < Rate.Window rate <= max_int64 ->
  reqs_ok reqs -> total_cost reqs <= 2 ^ 53 -> r_pttl key t = -2 ->
  paused_run key rate reqs t = Ret (map Some (spec_run (Rate.Limit rate) (1000 * w) reqs None)) /\
  forall first rest, reqs = first :: rest -> total_pause rest < 1000 * w ->
    sum (spec_run (Rate.Limit rate) (1000 * w) reqs None) = Z.min (total_cost reqs) (Rate.Limit rate).
Proof.
  intros HL' Hw Hpos Hok Htot Hp. split.
  - assert (forall s t, default 0 (fst <$> s) + total_cost reqs <= 2 ^ 53 -> shows key s t ->
      paused_run key rate reqs t = Ret (map Some (spec_run (Rate.Limit rate) (1000 * w) reqs s))) as H; [|by apply H].
    clear t Hp Htot. induction reqs as [|[p [d c]] reqs IH]; intros s t Htot Hs; [done|].
    apply Forall_cons in Hok as [[Hp Hc] Hok]. simpl in Hp, Hc. cbn [paused_run spec_run].
    cbn [total_cost foldr snd fst] in Htot. fold (total_cost reqs) in Htot. destruct (total_nonneg reqs Hok) as [Htc _].
    pose proof (shows_tick key s t p Hp Hs) as Hs1.
    assert (default 0 (fst <$> spec_tick p s) <= Z.max 0 (default 0 (fst <$> s))) as Hle.
    { destruct s as [[n l]|]; simpl; [|lia]. destruct (p <? l); simpl; lia. }
    assert (0 <= default 0 (fst <$> s)) as Hnn by (destruct s as [[n l]|]; simpl in *; lia).
    pose proof (call_shows key d rate w c (spec_tick p s) (r_tick p t) HL' Hw Hpos Hc Hs1) as H. unfold max_int64 in H.
    destruct (spec_call (Rate.Limit rate) (1000 * w) c (spec_tick p s)) as [g s'] eqn:Ec.
    destruct H as (st & t' & -> & <- & Hs'); [lia|]. cbn [outcome_bind]. rewrite (IH Hok s' t'); [done| |done].
    unfold spec_call in Ec. destruct (spec_tick p s) as [[n l]|]; simpl in Ec, Hle; injection Ec as _ <-; simpl; lia.
  - intros [p [d c]] rest -> Hl. apply Forall_cons in Hok as [[Hp' Hc] Hok]. simpl in Hc, Hp'. destruct (total_nonneg rest Hok) as [Htc _].
    cbn [spec_run spec_tick spec_call default]. simpl. fold (sum (spec_run (Rate.Limit rate) (1000 * w) rest (Some (c, 1000 * w)))).
    rewrite spec_sum by done. fold (total_cost rest). pose proof (window_grant_add (Rate.Limit rate) 0 c (total_cost rest)) as H.
    unfold window_grant in *. lia.
Qed.

Lemma locked_run key rate reqs t :
  0 <= Rate.Limit rate < 2 ^ 32 -> reqs_ok reqs ->
  r_pttl key t = -1 -> 0 < r_val key t -> Rate.Limit rate <= r_val key t -> r_val key t + total_cost reqs <= max_int64 ->
  paused_run key rate reqs t = Ret (map (fun _ => Some 0) reqs).
Proof.
  intros HL'. revert t. induction reqs as [|[pause [date cost]] reqs IH]; intros t Hc Hp Hv Hl Hm; [done|].
  apply Forall_cons in Hc as [[_ Hc] Hcs]. simpl in Hc, Hm. fold (total_cost reqs) in Hm. destruct (total_nonneg reqs Hcs).
  destruct (tick_persistent key pause t Hp) as [Hv' Hp']. cbn [paused_run].
  destruct (fixedWindow_running key date rate cost (r_tick pause t) HL' Hc) as (st & t' & E & Ha & Hv1 & Hp1); [lia..|].
  rewrite E. cbn [outcome_bind]. rewrite IH; [|done|rewrite Hp1, Hp'; done|lia..].
  simpl. rewrite Ha, Hv'. unfold window_grant. do 3 f_equal. lia.
Qed.

(** A fixed window shorter than a second, or not of whole seconds, never
    resets on redis: the call that opens it fails on [EXPIRE] after the
    counter was created, so the key has no expiry; once the limit is used up,
    every later call is refused, however long the pauses. *)
Theorem fractional_window_locks key rate date cost reqs t :
  0 <= Rate.Limit rate < 2 ^ 32 -> 1 <= cost < 2 ^ 32 -> Rate.Limit rate <= cost ->
  r_pttl key t = -2 -> integral (Status.Seconds (Rate.Window rate)) = false ->
  reqs_ok reqs -> cost + total_cost reqs <= max_int64 ->
  exists e t', fixedWindow key date rate cost t = Ret (Err e, t') /\
    paused_run key rate reqs t' = Ret (map (fun _ => Some 0) reqs).
Proof.
  intros HL' Hc Hl Hp Hi Hcs Hm.
  destruct (fixedWindow_fresh key date rate cost t HL' Hc Hp) as (t1 & Hv1 & Hp1 & Hf).
  rewrite expire_integral in Hf by done. destruct Hf as [e E].
  exists e, t1. split; [done|]. apply locked_run; [done|done|done|lia..].
Qed.

(** The last token of a redis window hides the refusal of another zone: the
    call that uses the window up is granted, but its status asks to wait until
    the reset; a route ranks it above a refusal with a shorter wait (a
    forbidden zone has none), so the route lets the request through. *)
Theorem last_token_hides_refusal key date rate cost t st t' d :
  0 <= Rate.Limit rate < 2 ^ 32 -> 1 <= cost < 2 ^ 32 -> 0 < r_val key t ->
  Rate.Limit rate = r_val key t + cost ->
  fixedWindow key date rate cost t = Ret (Ok st, t') ->
  Status.OK (Some d) = false -> 0 <= Status.RetryAfter d < Status.RetryAfter st ->
  Status.RetryAfter st <= max_int64 ->
  head (Mux.Sort Mux.statusTopWorst_Less [st; d]) = Some st /\
  head (Mux.Sort Mux.statusTopWorst_Less [d; st]) = Some st /\
  Status.OK (Some st) = true.
Proof.
  intros HL' Hc Hv Hl E Hd Hr Hm. unfold max_int64 in Hm.
  destruct (fixedWindow_running key date rate cost t HL' Hc Hv) as (st' & t1 & E' & Ha & _); [unfold max_int64; lia|].
  rewrite E in E'. simplify_eq.
  assert (Mux.statusTopWorst_Less st' d = true) as H1.
  { unfold Mux.statusTopWorst_Less. rewrite wrap_signed_small by lia. repeat case_match; z_bool; lia. }
  assert (Mux.statusTopWorst_Less d st' = false) as H2.
  { unfold Mux.statusTopWorst_Less. rewrite wrap_signed_small by lia. repeat case_match; z_bool; lia. }
  unfold Mux.Sort. simpl. rewrite H1, H2. split_and!; [done|done|].
  rewrite Ha. unfold window_grant. lia.
Qed.

End Redis_.

Fixpoint no_colon (s : string) : bool :=
  match s with
  | EmptyString => true
  | String c s => negb (bool_decide (c = ":"%char)) && no_colon s
  end.

Lemma append_inj (p k1 k2 : string) : p +:+ k1 = p +:+ k2 -> k1 = k2.
Proof.
  induction p as [|c p IH]; [done|]. rewrite !append_cons. intros H. apply IH. by injection H.
Qed.

(** Two zones never share a counter: keys of the redis zone are injective in
    the zone name and the key value, for zone names without a colon. *)
Theorem limitKey_injective p1 k1 p2 k2 :
  no_colon p1 = true -> no_colon p2 = true ->
  limitKey p1 k1 = limitKey p2 k2 -> p1 = p2 /\ k1 = k2.
Proof.
  unfold limitKey. revert p2.
  induction p1 as [|c1 p1 IH]; intros [|c2 p2] H1 H2 E; rewrite ?append_cons in E.
  - split; [done|]. by apply (append_inj (":" +:+ "")) in E.
  - simpl in H2. apply andb_prop in H2 as [H2 _]. injection E as <- _. by vm_compute in H2.
  - simpl in H1. apply andb_prop in H1 as [H1 _]. injection E as -> _. by vm_compute in H1.
  - simpl in H1, H2. apply andb_prop in H1 as [_ H1], H2 as [_ H2].
    injection E as -> E. by destruct (IH p2 H1 H2 E) as [-> ->].
Qed.

Lemma limitKey_injective_witness :
  (limitKey "login" "10.0.0.1" = limitKey "login" "10.0.0.1" -> "login" = "login" /\ "10.0.0.1" = "10.0.0.1").
Proof. apply (limitKey_injective "login" "10.0.0.1" "login" "10.0.0.1"); reflexivity. Defined.

(** ** A server for the witnesses: counters with an optional expiry, and the clock *)

Record server := mkS { s_kv : gmap string (Z * option Z); s_now : Z }.

Definition live (k : string) (t : server) : option (Z * option Z) :=
  match s_kv t !! k with
  | Some (v, Some e) => if e <=? s_now t then None else Some (v, Some e)
  | o => o
  end.

#[local] Instance server_redis : Redis server := {
  r_val k t := match live k t with Some (v, _) => v | None => 0 end;
  r_incrby k c t :=
    let '(v, e) := default (0, None) (live k t) in
    if (v + c <? min_int64) || (max_int64 <? v + c) then None
    else Some (v + c, mkS (<[k := (v + c, e)]> (s_kv t)) (s_now t));
  r_expire k x t :=
    if integral x && (0 <? Float64.fnum x) then
      Some (match live k t with
            | Some (v, _) => mkS (<[k := (v, Some (s_now t + 1000 * Z.max 1 (Float64.ftrunc x)))]> (s_kv t)) (s_now t)
            | None => t
            end)
    else None;
  r_pttl k t :=
    match live k t with
    | Some (_, Some e) => e - s_now t
    | Some (_, None) => -1
    | None => -2
    end;
  r_tick d t := mkS (s_kv t) (s_now t + Z.max 0 d)
}.

Lemma live_insert k v e t :
  live k (mkS (<[k := (v, e)]> (s_kv t)) (s_now t)) =
  match e with Some e' => if e' <=? s_now t then None else Some (v, e) | None => Some (v, e) end.
Proof. unfold live. simpl. rewrite lookup_insert_eq. by destruct e. Qed.

Lemma live_expiry k t v e : live k t = Some (v, Some e) -> s_now t < e.
Proof. unfold live. repeat case_match; intros; simplify_eq; z_bool; lia. Qed.

Lemma live_tick k d t : 0 <= d -> live k (r_tick d t) =
  match live k t with Some (v, Some e) => if e <=? s_now t + d then None else Some (v, Some e) | o => o end.
Proof.
  intros Hd. unfold live, r_tick, server_redis. cbn [s_kv s_now]. rewrite Z.max_r by done.
  destruct (s_kv t !! k) as [[v [e|]]|]; [|done..]. destruct (Z.leb_spec e (s_now t)), (Z.leb_spec e (s_now t + d)); done || lia.
Qed.

#[local] Instance server_laws : RedisLaws server.
Proof.
  split.
  - intros k t. cbn -[live]. destruct (live k t) as [[v [e|]]|] eqn:E; [|done..]. apply live_expiry in E. lia.
  - intros k c t Hb. cbn -[live]. cbn -[live] in Hb. destruct (live k t) as [[v e]|] eqn:E; cbn -[live] in Hb |- *.
    + destruct (Z.ltb_spec (v + c) min_int64), (Z.ltb_spec max_int64 (v + c)); try lia. eexists. split; [reflexivity|].
      rewrite live_insert. destruct e as [e|]; [|done]. apply live_expiry in E. destruct (Z.leb_spec e (s_now t)); [lia|].
      split; [done|]. destruct (Z.eqb_spec (e - s_now t) (-2)); [lia|done].
    + destruct (Z.ltb_spec (0 + c) min_int64), (Z.ltb_spec max_int64 (0 + c)); try lia. eexists. split; [reflexivity|].
      rewrite live_insert. done.
  - intros k c t Hb. cbn -[live] in Hb |- *. destruct (live k t) as [[v e]|]; cbn in Hb |- *;
      (match goal with |- context [max_int64 <? ?x] => destruct (Z.ltb_spec max_int64 x) end; [by rewrite orb_true_r|lia]).
  - intros k x n t Hd Hn Hs Hp. cbn -[live] in Hp |- *. unfold integral. rewrite Hn, Z.mod_mul by lia.
    destruct (Z.ltb_spec 0 (n * Float64.fden x)); [|nia]. cbn -[live]. rewrite (Float64.ftrunc_exact x n Hd Hn), Z.max_r by lia.
    eexists. split; [reflexivity|]. destruct (live k t) as [[v e]|] eqn:E; [|done]. rewrite live_insert.
    destruct (Z.leb_spec (s_now t + 1000 * n) (s_now t)); [lia|]. cbn [s_now]. split; [done|lia].
  - intros k x t Hi. simpl. by rewrite Hi.
  - intros k d t. simpl. unfold live. simpl. repeat case_match; intros; simplify_eq; z_bool; try lia; done.
  - intros k d t. simpl. unfold live. simpl. repeat case_match; intros; simplify_eq; z_bool; try lia; done.
  - intros k d t Hd. cbn -[live r_tick] in Hd |- *. rewrite live_tick by lia. destruct (live k t) as [[v [e|]]|] eqn:E; [|lia..].
    destruct (Z.leb_spec e (s_now t + d)); [lia|]. split; [done|]. cbn. lia.
  - intros k d t Hd. cbn -[live r_tick] in Hd |- *. rewrite live_tick by lia. destruct (live k t) as [[v [e|]]|] eqn:E; [|lia..].
    destruct (Z.leb_spec e (s_now t + d)); [done|lia].
Qed.

(** The witnesses' number format: numerator and denominator. *)
Definition demo_tostring (x : f64) : string := FormatInt (Float64.fnum x) +:+ "/" +:+ FormatInt (Float64.fden x).
Definition demo_ParseFloat (s : string) : option f64 :=
  if decide (s = demo_tostring (Float64.of_Z 0)) then Some (Float64.of_Z 0)
  else Some (Float64.of_Z 60).

Lemma demo_parses x : is_Some (demo_ParseFloat (demo_tostring x)).
Proof. unfold demo_ParseFloat. by case_decide; eexists. Qed.

Definition per_minute (n : Z) : Rate.Rate := Rate.mkRate n Rate.Minute.
Definition empty_server : server := mkS ∅ 0.

Lemma redis_window_exact_witness :
  paused_run demo_tostring demo_ParseFloat "z:k" (per_minute 5) [(0, (1, 2)); (30000, (2, 2)); (20000, (3, 4)); (10000, (4, 1))] empty_server
    = Ret [Some 2; Some 2; Some 1; Some 1].
Proof.
  exact (proj1 (redis_window_exact demo_tostring demo_ParseFloat demo_parses "z:k" (per_minute 5) 60
    [(0, (1, 2)); (30000, (2, 2)); (20000, (3, 4)); (10000, (4, 1))] empty_server
    ltac:(vm_compute; intuition discriminate) ltac:(reflexivity) ltac:(vm_compute; intuition discriminate)
    ltac:(repeat constructor; vm_compute; intuition discriminate) ltac:(vm_compute; discriminate) ltac:(reflexivity))).
Defined.

Lemma fractional_window_locks_witness :
  exists e t', fixedWindow demo_tostring demo_ParseFloat "z:k" 0 (Rate.mkRate 1 Rate.Millisecond) 1 empty_server
    = Ret (Err e, t') /\
    paused_run demo_tostring demo_ParseFloat "z:k" (Rate.mkRate 1 Rate.Millisecond)
      [(1000, (1, 1)); (86400000, (2, 1))] t' = Ret [Some 0; Some 0].
Proof.
  apply (fractional_window_locks demo_tostring demo_ParseFloat demo_parses "z:k"
    (Rate.mkRate 1 Rate.Millisecond) 0 1 [(1000, (1, 1)); (86400000, (2, 1))] empty_server);
    [..|repeat constructor|]; vm_compute; try done; intuition discriminate.
Defined.

Definition used_server : server := mkS {[ "z:k" := (2, None) ]} 0.

Lemma last_token_hides_refusal_witness :
  exists st t', fixedWindow demo_tostring demo_ParseFloat "z:k" 0 (per_minute 3) 1
      used_server = Ret (Ok st, t') /\
    head (Mux.Sort Mux.statusTopWorst_Less [st; Status.mkStatus 0 0 0 0 0 0]) = Some st /\
    Status.OK (Some st) = true.
Proof.
  eexists _, _. split; [vm_compute; reflexivity|].
  edestruct (last_token_hides_refusal demo_tostring demo_ParseFloat demo_parses "z:k" 0 (per_minute 3) 1
    used_server) as (H1 & _ & H2);
    [..|split; [exact H1|exact H2]]; try (vm_compute; done).
Defined.

End RedisZone.
