(* ===== verification/LocalLimits.v ===== *)
(** * Routes over in-memory zones

    The local zones of a process as an implementation of the interface the
    router is verified against: [Zone.ZoneImpl] with its laws [Zone.ZoneLaws].
    Every zone has its own table; the [Env] maps of the requests are shared. *)
From stdpp Require Import prelude strings list gmap.
From Stdlib Require Import ZArith Lia.
From S2P Require Import Prelude Float64 Rate Keys Status FixedWindow Zone TokenBucket LocalZone Mux.
Local Open Scope Z_scope.
Local Open Scope go_scope.

Module LocalLimits.

Section World.
Context {L R T : Type} {HRL : TokenBucket.RateLimiter L R} {HLRU : LocalZone.LRU T}.
Context {HRLaws : TokenBucket.RateLimiterLaws L R} {HLaws : LocalZone.LRULaws T}.

(** The zones of a process by name. *)
Record world := mkWorld {
  w_envs : Keys.heap;
  w_zones : gmap string (LocalZone.zstate L T)
}.

(** [memoryZone.LimitRequest] on the zone's own table. *)
Definition world_LimitRequest (opts : Zone.Options) (req : Keys.Request)
    (ctx : option Zone.LimitOptions) (w : world) : Zone.limit_result world :=
  match w_zones w !! Zone.oName opts with
  | None => Panic "invalid memory address or nil pointer dereference"
  | Some z =>
      let! (r, z') := LocalZone.LimitRequest opts req ctx
        (LocalZone.mkZ (w_envs w) (LocalZone.table z) (LocalZone.objs z) (LocalZone.next z)) in
      Ret (r, mkWorld (LocalZone.envs z') (<[Zone.oName opts := z']> (w_zones w)))
  end.

#[export] Instance world_zones : Zone.ZoneImpl Zone.Options world := {
  Zone.Zone_Options := fun opts => opts;
  Zone.Zone_LimitRequest := world_LimitRequest
}.

(** Zones that [zone.NewZone] does not turn into forbidden ones, in range. *)
Definition opts_ok (opts : Zone.Options) : Prop :=
  1 <= Rate.Limit (Zone.oRate opts) < 2 ^ 32 /\
  0 < Rate.Window (Zone.oRate opts) <= max_int64 /\ Zone.oBurst opts < 2 ^ 32.

Definition limiter_ok (l : LocalZone.limiter L) : Prop :=
  match l with
  | LocalZone.tokenBucket_ b => TokenBucket.tb_wf b
  | LocalZone.fixedWindow_ w => FixedWindow.fw_wf w
  end.

Definition zone_sound (z : LocalZone.zstate L T) : Prop :=
  LocalZone.zone_wf z /\ map_Forall (fun _ => limiter_ok) (LocalZone.objs z).

Definition world_inv (w : world) : Prop := map_Forall (fun _ => zone_sound) (w_zones w).

(** ** Lemmas *)

Lemma new_limiter_ok opts l :
  opts_ok opts -> LocalZone.new_limiter opts = Some l -> limiter_ok l.
Proof.
  intros (HL & HW & HB). unfold LocalZone.new_limiter, max_int64 in *. intros.
  repeat case_decide; simplify_eq; simpl.
  - apply TokenBucket.newTokenBucket_wf; unfold max_int64; lia.
  - unfold FixedWindow.fw_wf. simpl. unfold max_int64. lia.
Qed.

Lemma fixed_sane w date cost :
  FixedWindow.fw_wf w -> FixedWindow.cost_ok cost ->
  Zone.status_sane (fst (FixedWindow.requestAt w date cost)).
Proof.
  intros Hw Hc. rewrite FixedWindow.requestAt_refines by done.
  pose proof (FixedWindow.window_at_bounds w date Hw) as [Hb _].
  assert (date <= fst (FixedWindow.window_at w date)) as Hd.
  { destruct Hw as (_ & HW & _). unfold FixedWindow.window_at.
    destruct (Z.ltb_spec (FixedWindow.reset w) date); simpl; lia. }
  destruct Hw as (HL & HW & HT).
  unfold FixedWindow.spec_request, FixedWindow.cost_ok, Zone.status_sane, Status.status_wf,
    FixedWindow.time_sub, max_int64, min_int64 in *.
  destruct (FixedWindow.window_at w date) as [r used]. simpl in *.
  destruct (Z.leb_spec cost (Rate.Limit (FixedWindow.limit w) - used)); simpl; lia.
Qed.

Lemma bucket_step c date cost :
  TokenBucket.tb_wf c -> 1 <= cost < 2 ^ 32 ->
  exists st c', TokenBucket.requestAt c date cost = Ret (st, c') /\
    TokenBucket.tb_wf c' /\ Zone.status_sane st.
Proof.
  intros [HL HB] Hc. unfold TokenBucket.requestAt.
  pose proof (TokenBucket.Burst_reserve (TokenBucket.bucket c) date (Z.max cost 1)) as Hb.
  pose proof (TokenBucket.DelayFrom_nonneg (TokenBucket.bucket c) date (Z.max cost 1)) as Hd.
  destruct (TokenBucket.ReserveN (TokenBucket.bucket c) date (Z.max cost 1)) as [r b]. simpl in *.
  destruct (Z.eqb_spec (Rate.Limit (TokenBucket.limit c)) 0); [lia|].
  destruct (Z.eqb_spec (TokenBucket.DelayFrom r date) 0) as [E|E]; simpl;
    eexists _, _; (split; [done|]); unfold TokenBucket.tb_wf, Zone.status_sane, Status.status_wf; simpl;
    rewrite ?TokenBucket.Burst_cancel, Hb, (wrap_unsigned_small 32 (TokenBucket.Burst _)) by lia;
    unfold max_int64, min_int64 in *;
    repeat match goal with
    | |- context [wrap_signed 64 ?x] =>
        let H := fresh in pose proof (wrap_signed_range 64 x ltac:(lia)) as H;
        generalize dependent (wrap_signed 64 x); intros
    | |- context [wrap_unsigned 32 ?x] =>
        let H := fresh in pose proof (wrap_unsigned_range 32 x ltac:(lia)) as H;
        generalize dependent (wrap_unsigned 32 x); intros
    end; lia.
Qed.

Lemma limiter_step l date cost :
  limiter_ok l -> FixedWindow.cost_ok cost ->
  exists st l', LocalZone.limiter_requestAt l date cost = Ret (st, l') /\
    limiter_ok l' /\ Zone.status_sane st.
Proof.
  intros Hl Hc. destruct l as [b|w]; simpl in *.
  - destruct (bucket_step b date cost Hl Hc) as (st & b' & E & Hb & Hs).
    rewrite E. simpl. eauto.
  - pose proof (fixed_sane w date cost Hl Hc) as Hs.
    pose proof (FixedWindow.spec_request_wf w date cost Hl Hc) as (Hw & _).
    rewrite <- FixedWindow.requestAt_refines in Hw by done.
    destruct (FixedWindow.requestAt w date cost) as [st w']. simpl in *. eauto.
Qed.

Lemma get_sound vkey z : zone_sound z -> zone_sound (snd (LocalZone.zone_get vkey z)).
Proof.
  intros [Hw Ho]. split; [by apply LocalZone.zone_get_wf|].
  unfold LocalZone.zone_get. by destruct (LocalZone.lru_get vkey (LocalZone.table z)).
Qed.

Lemma create_sound opts vkey z :
  opts_ok opts -> zone_sound z -> zone_sound (snd (LocalZone.zone_create opts vkey z)).
Proof.
  intros Hopts [Hw Ho]. split; [by apply LocalZone.zone_create_wf|].
  unfold LocalZone.zone_create. destruct (LocalZone.new_limiter opts) as [l|] eqn:E; [|done]. simpl.
  apply map_Forall_insert_2; [by eapply new_limiter_ok|done].
Qed.

Lemma take_sound p date cost z st z' :
  zone_sound z -> FixedWindow.cost_ok cost -> LocalZone.zone_take p date cost z = Ret (st, z') ->
  zone_sound z' /\ Zone.status_sane st.
Proof.
  intros [Hw Ho] Hc. unfold LocalZone.zone_take.
  destruct (LocalZone.objs z !! p) as [l|] eqn:E; [|done].
  destruct (limiter_step l date cost) as (st' & l' & El & Hl' & Hs); [by eapply Ho|done|].
  rewrite El. simpl. intros. simplify_eq. split; [|done]. split.
  - apply LocalZone.replace_wf; [done|by eexists].
  - simpl. by apply map_Forall_insert_2.
Qed.

(** Local zones keep the promise made to the router. *)
Lemma local_zone_step opts req ctx z st err z' :
  opts_ok opts -> Zone.req_ok req -> zone_sound z ->
  LocalZone.LimitRequest opts req ctx z = Ret ((st, err), z') ->
  zone_sound z' /\ forall x, st = Some x -> Zone.status_sane x.
Proof.
  intros Hopts Hreq Hz. unfold LocalZone.LimitRequest.
  destruct (Zone.RequestKey req ctx _ _) as [[vkey h]|]; [|done]. cbn [outcome_bind].
  set (z1 := LocalZone.mkZ h _ _ _). assert (zone_sound z1) as Hz1 by done.
  case_decide; [by intros; simplify_eq|].
  pose proof (get_sound vkey z1 Hz1) as Hz2.
  destruct (LocalZone.zone_get vkey z1) as [record z2]. simpl in Hz2.
  assert (forall p z3, zone_sound z3 ->
    outcome_bind (LocalZone.zone_take p (Keys.Date req) (Z.max 1 (Keys.Cost req)) z3)
      (fun '(res, s) => Ret ((Some res, None), s)) = Ret ((st, err), z') ->
    zone_sound z' /\ forall x, st = Some x -> Zone.status_sane x) as Htake.
  { intros p z3 Hz3. destruct (LocalZone.zone_take p _ _ z3) as [[res z4]|] eqn:E; [|done].
    apply take_sound in E as [Hz4 Hs]; [|done|unfold FixedWindow.cost_ok, Zone.req_ok in *; lia].
    simpl. intros. simplify_eq. split; [done|]. intros. by simplify_eq. }
  destruct record as [p|]; [by apply Htake|].
  pose proof (create_sound opts vkey z2 Hopts Hz2) as Hz3.
  destruct (LocalZone.zone_create opts vkey z2) as [[p|] z3]; simpl in Hz3; [by apply Htake|].
  intros. by simplify_eq.
Qed.

#[export] Instance world_laws : Zone.ZoneLaws Zone.Options world.
Proof.
  refine {| Zone.zone_ok := opts_ok; Zone.zone_inv := world_inv |}.
  intros opts req ctx w st err w' Hopts Hreq Hw. simpl. unfold world_LimitRequest.
  destruct (w_zones w !! Zone.oName opts) as [z|] eqn:Hz; [|done].
  destruct (LocalZone.LimitRequest _ _ _ _) as [[[st' err'] z']|] eqn:E; [|done]. simpl.
  apply local_zone_step in E as [Hs Hst]; [|done|done|by apply (Hw _ _ Hz)].
  intros. simplify_eq. split; [|done]. by apply map_Forall_insert_2.
Defined.

(** ** Properties *)

(** C3: a route over in-memory zones refuses a request exactly when one of its
    zones does: for two to twelve zones of valid rates, with fixed-window or
    token-bucket limiters in any sound state, the answer is OK iff every zone
    that applied granted the request, and all tables stay sound. *)
Theorem local_route_verdict (h : Mux.routeZones Zone.Options) req ctx w group w' :
  (2 <= length (Mux.rz_zone h) <= 12)%nat -> Forall opts_ok (Mux.rz_zone h) ->
  Zone.req_ok req -> world_inv w ->
  Mux.group_statuses h (Mux.rz_zone h) req w = Ret (group, w') ->
  exists res, Mux.routeZones_LimitRequest h req ctx w = Ret ((res, None), w') /\
    Status.OK res = forallb (fun st => Status.OK (Some st)) group /\ world_inv w'.
Proof. exact (Mux.route_verdict (HL := world_laws) h req ctx w group w'). Qed.

End World.

(** ** Witness: two fixed windows on one key, the second with a single token *)

#[local] Existing Instance TokenBucket.simple_limiter.
#[local] Existing Instance TokenBucket.simple_limiter_laws.
#[local] Existing Instance LocalZone.assoc_lru.
#[local] Existing Instance LocalZone.assoc_lru_laws.

Abbreviation demo_world := (@world TokenBucket.Simple.bucket_state (Z * list (string * positive))).

Definition demo_opts (name : string) (limit : Z) : Zone.Options :=
  Zone.mkOptions (Some (Keys.KeyValue "ip" "10.0.0.1")) false name 0
    (Rate.mkRate limit Rate.Second) Zone.AlgoFixedWindow 0.

Definition demo_route : Mux.routeZones Zone.Options :=
  Mux.mkRZ ∅ [demo_opts "wide" 5; demo_opts "narrow" 1].

Definition demo_zones : demo_world :=
  mkWorld ∅ {[ "wide" := LocalZone.newZone (demo_opts "wide" 5) ∅;
               "narrow" := LocalZone.newZone (demo_opts "narrow" 1) ∅ ]}.

Lemma newZone_sound opts h :
  zone_sound (LocalZone.newZone (L := TokenBucket.Simple.bucket_state)
                (T := Z * list (string * positive)) opts h).
Proof. split; [apply LocalZone.newZone_wf|apply map_Forall_empty]. Qed.

Lemma demo_zones_inv : world_inv demo_zones.
Proof.
  unfold world_inv. simpl. repeat apply map_Forall_insert_2; try apply newZone_sound.
  apply map_Forall_empty.
Qed.

(** A request of cost 2 fits the wide zone and not the narrow one. *)
Lemma local_route_verdict_witness :
  exists res w', Mux.routeZones_LimitRequest demo_route (Keys.mkReq 0%nat 7 2 None) (Mux.mkCtx None [])
      demo_zones = Ret ((res, None), w') /\ Status.OK res = false.
Proof.
  destruct (Mux.group_statuses demo_route (Mux.rz_zone demo_route) (Keys.mkReq 0%nat 7 2 None) demo_zones)
    as [[group w']|] eqn:E; [|by vm_compute in E].
  destruct (local_route_verdict demo_route (Keys.mkReq 0%nat 7 2 None) (Mux.mkCtx None []) demo_zones group w')
    as (res & Hr & Hk & _).
  - simpl. lia.
  - repeat apply Forall_cons_2; [unfold opts_ok, max_int64; simpl; unfold Rate.Second, Rate.Millisecond; lia..|done].
  - unfold Zone.req_ok. simpl. lia.
  - apply demo_zones_inv.
  - exact E.
  - exists res, w'. split; [exact Hr|]. rewrite Hk. vm_compute in E. injection E as <- _. reflexivity.
Defined.

End LocalLimits.
