(* ===== verification/ZoneDrivers.v ===== *)
(** * The zone drivers of the repository: infra/ratelimit/zone/local/factory.go,
    infra/ratelimit/zone/redis/factory.go

    The two factories, the schemes their packages register, and what [NewZone] of driver.go
    builds once both are loaded; the limit options of a request (request.go) and the size of a
    type (memory_zone.go).  The redis client is a parameter: parsing its URL and pinging its
    server. *)
From stdpp Require Import prelude strings list gmap.
From Stdlib Require Import ZArith Lia.
From S2P Require Import Prelude Rate Size Keys Status Zone LocalZone.
Local Open Scope Z_scope.
Local Open Scope go_scope.

Module ZoneDrivers.

(** ** The factories *)

(** [redis.Options], as far as the factory looks. *)
Record redisOptions := mkRedis { ClientName : string; Addr : string }.

(** A zone in memory, with the capacity of its table; a zone on a redis server, with the
    client it uses. *)
Inductive zone :=
| memoryZone (opts : Zone.Options) (capacity : Z)
| redisZone (opts : Zone.Options) (client : redisOptions).

Definition Options (z : zone) : Zone.Options :=
  match z with memoryZone o _ => o | redisZone o _ => o end.

(** [Options] of a zone of [NewZone]; the forbidden zone gives its own. *)
Definition any_Options (z : Zone.AnyZone) : Zone.Options :=
  match z with Zone.forbidden_zone o => o | Zone.driver_zone z => Options z end.

(** local/factory.go *)
Definition local_New (dataSource : string) (options : Zone.Options) : res string zone :=
  Ok (memoryZone options (LocalZone.zone_capacity options)).

Section Redis.
(** [redis.ParseURL], and the answer of the server to the first ping. *)
Context (ParseURL : string -> res string redisOptions) (Ping : redisOptions -> option string).

Definition newZone (client : redisOptions) (options : Zone.Options) : zone := redisZone options client.

(** redis/factory.go: the zone, the error of the ping, and the clients opened. *)
Definition redis_New (dataSource : string) (options : Zone.Options)
  : option zone * option string * list redisOptions :=
  match ParseURL dataSource with
  | Err e => (None, Some e, [])
  | Ok dsn =>
      let dsn := mkRedis (if decide (ClientName dsn = "") then "rate-limit" else ClientName dsn) (Addr dsn) in
      (Some (newZone dsn options), Ping dsn, [dsn])
  end.

(** What [NewZone] takes of it: the error first. *)
Definition redis_driver (dataSource : string) (options : Zone.Options) : res string zone :=
  match redis_New dataSource options with
  | (_, Some e, _) => Err e
  | (Some z, None, _) => Ok z
  | (None, None, _) => Err "invalid memory address or nil pointer dereference"
  end.

Definition local_schemes : list string := ["local"; "memory"; ""].
Definition redis_schemes : list string := ["redis"; "rediss"; "unix"].

(** The two [init] functions, on the registry of the process. *)
Definition local_init (drivers : gmap string (@Zone.DriverFunc zone)) := Zone.Register drivers (Some local_New) local_schemes.
Definition redis_init (drivers : gmap string (@Zone.DriverFunc zone)) := Zone.Register drivers (Some redis_driver) redis_schemes.

(** The options [NewZone] passes on: a zone without a key gets one that is never defined. *)
Definition with_key (options : Zone.Options) : Zone.Options :=
  match Zone.oKey options with
  | Some _ => options
  | None => Zone.mkOptions (Some (Keys.KeyValue "!nokey!" Keys.Undefined)) (Zone.oPath options) (Zone.oName options)
              (Zone.oSize options) (Zone.oRate options) (Zone.oAlgo options) (Zone.oBurst options)
  end.

(** ** Lemmas *)

Lemma schemes_valid : Forall (fun s => Zone.valid_scheme s = true) local_schemes /\
  Forall (fun s => Zone.valid_scheme s = true) redis_schemes.
Proof. split; repeat constructor. Qed.

Lemma inits_lookup : exists drivers,
  outcome_bind (local_init ∅) redis_init = Ret drivers /\ outcome_bind (redis_init ∅) local_init = Ret drivers /\
  forall k, drivers !! k = if decide (k ∈ local_schemes) then Some local_New
                           else if decide (k ∈ redis_schemes) then Some redis_driver else None.
Proof.
  destruct schemes_valid as [Hl Hr]. unfold local_init, redis_init, Zone.Register.
  change local_schemes with ("local" :: ["memory"; ""]) in *. change redis_schemes with ("redis" :: ["rediss"; "unix"]) in *.
  rewrite !Zone.check_schemes_valid by done. cbn [outcome_bind]. eexists. split; [done|].
  assert (forall l : list string, l = ["local"; "memory"; ""] \/ l = ["redis"; "rediss"; "unix"] -> ToLower <$> l = l) as Hlow
    by (by intros l [-> | ->]).
  match goal with |- Ret ?a = Ret ?b /\ _ => assert (forall k, a !! k = b !! k) as Heq end.
  { intros k. rewrite !Zone.fold_insert_lookup, !Hlow by auto. repeat case_decide; try done. set_solver. }
  split; [f_equal; apply map_eq; exact Heq|].
  intros k. rewrite <- Heq, !Zone.fold_insert_lookup, !Hlow by auto. rewrite lookup_empty. done.
Qed.

(** ** Properties *)

(** What a data source gives once both drivers are loaded, in either order.  The scheme
    decides, in any letter case: "local", "memory" and no scheme keep the limits in memory;
    "redis", "rediss" and "unix" keep them on a server, and fail unless its URL parses and it
    answers the first ping; any other scheme is an error.  A rate that is not valid makes the
    forbidden zone, without a client.  The zone has the options given, with a key that is
    never defined when they have none. *)
Theorem builtin_zones dataSource options scheme rest : Zone.GetScheme dataSource = (scheme, rest, None) ->
  exists drivers, outcome_bind (local_init ∅) redis_init = Ret drivers /\ outcome_bind (redis_init ∅) local_init = Ret drivers /\
    let result := Zone.NewZone drivers dataSource options in
    let o := with_key options in
    result =
      (if decide (ToLower scheme ∈ local_schemes ++ redis_schemes) then
         if Rate.Rate_IsValid (Some (Zone.oRate options)) then
           if decide (ToLower scheme ∈ local_schemes) then Ok (Zone.driver_zone (memoryZone o (LocalZone.zone_capacity o)))
           else match ParseURL dataSource with
                | Err e => Err e
                | Ok dsn =>
                    let client := mkRedis (if decide (ClientName dsn = "") then "rate-limit" else ClientName dsn) (Addr dsn) in
                    match Ping client with Some e => Err e | None => Ok (Zone.driver_zone (redisZone o client)) end
                end
         else Ok (Zone.forbidden_zone o)
       else Err ("ratelimit: scheme driver not supported: " +:+ scheme)) /\
    forall z, result = Ok z -> any_Options z = o.
Proof.
  intros Hs. destruct inits_lookup as (drivers & H1 & H2 & Hk). exists drivers. do 2 (split; [done|]).
  cbn zeta. match goal with |- ?r = ?e /\ _ => assert (r = e) as Hr end.
  { unfold Zone.NewZone, Zone.GetDriver. rewrite Hs, Hk. unfold with_key.
    destruct (decide (ToLower scheme ∈ local_schemes)) as [Hl|Hl].
    - rewrite decide_True by (apply elem_of_app; by left). by destruct (Zone.oKey options); destruct (Rate.Rate_IsValid _).
    - destruct (decide (ToLower scheme ∈ redis_schemes)) as [Hr|Hr].
      + rewrite decide_True by (apply elem_of_app; by right). unfold redis_driver, redis_New.
        destruct (Zone.oKey options); simpl; destruct (Rate.Rate_IsValid _); try done;
          destruct (ParseURL dataSource) as [dsn|e]; try done; by destruct (Ping _).
      + rewrite decide_False by (intros [?|?]%elem_of_app; done). done. }
  split; [exact Hr|]. rewrite Hr. intros z.
  repeat (match goal with |- context [if ?b then _ else _] => destruct b | |- context [match ?b with _ => _ end] => destruct b end; try discriminate);
    by intros [= <-].
Qed.

(** A server that does not answer costs a client: the factory has opened it when the ping
    fails, it returns the zone with the error, and [NewZone] drops the zone, so that nothing
    is left that could close the client. *)
Theorem failed_ping_leaks_client dataSource options rest dsn e :
  Zone.GetScheme dataSource = ("redis", rest, None) -> ParseURL dataSource = Ok dsn ->
  Rate.Rate_IsValid (Some (Zone.oRate options)) = true -> (forall c, Ping c = Some e) ->
  exists drivers z client, outcome_bind (local_init ∅) redis_init = Ret drivers /\
    Zone.NewZone drivers dataSource options = Err e /\
    redis_New dataSource (with_key options) = (Some z, Some e, [client]).
Proof.
  intros Hs Hp Hv He. destruct inits_lookup as (drivers & H1 & _ & Hk). eexists drivers, _, _. split; [done|]. split.
  - unfold Zone.NewZone, Zone.GetDriver. rewrite Hs, Hk. unfold redis_driver, redis_New. simpl.
    destruct (Zone.oKey options); simpl; rewrite Hv, Hp, He; done.
  - unfold redis_New. by rewrite Hp, He.
Qed.
End Redis.

(** ** Limit options (request.go) *)

(** The options of a route may panic, as [WithLimitKeys] does on some keys. *)
Definition LimitOption := Zone.LimitOptions -> outcome Zone.LimitOptions.

Fixpoint Setup (opts : list LimitOption) (e : Zone.LimitOptions) : outcome Zone.LimitOptions :=
  match opts with
  | [] => Ret e
  | option :: opts => let! e := option e in Setup opts e
  end.

Definition NewLimitOptions (opts : list LimitOption) : outcome Zone.LimitOptions := Setup opts (Zone.mkLimit []).

(** The context of a request carries the address of a copy of the options. *)
Definition WithLimitOptions (ctx : option Zone.LimitOptions) (opts : Zone.LimitOptions) : option Zone.LimitOptions := Some opts.

(** A pointer key, with its own address. *)
Definition ptr_key (x : positive * string) : option Keys.Key := Some (Keys.PtrKey x.1 x.2 (fun _ h => (Keys.Undefined, h))).

Lemma contains_ptr (salt : list (positive * string)) (x : positive * string) :
  Zone.contains_key (ptr_key <$> salt) (ptr_key x) = Ret (bool_decide (Exists (fun y => y.1 = x.1 \/ y.2 = x.2) salt)).
Proof.
  induction salt as [|y salt IH]; [done|]. rewrite fmap_cons. cbn [Zone.contains_key]. simpl.
  destruct (decide (y.1 = x.1 \/ y.2 = x.2)) as [H|H].
  - rewrite (bool_decide_true (Exists _ (y :: salt))) by (by left).
    destruct H as [H|H]; [by rewrite (bool_decide_true (y.1 = x.1))|]. rewrite (bool_decide_true (y.2 = x.2)) by done. by rewrite orb_true_r.
  - rewrite (bool_decide_false (y.1 = x.1)), (bool_decide_false (y.2 = x.2)) by tauto. simpl. rewrite IH. f_equal.
    apply bool_decide_ext. rewrite Exists_cons. tauto.
Qed.

Lemma with_keys_nodup l : forall salt, NoDup (salt.*2) -> exists salt', Zone.WithLimitKeys (ptr_key <$> l) (Zone.mkLimit (ptr_key <$> salt)) =
  Ret (Zone.mkLimit (ptr_key <$> salt')) /\ NoDup (salt'.*2) /\ salt `prefix_of` salt'.
Proof.
  induction l as [|x l IH]; intros salt Hn; [by exists salt|].
  rewrite fmap_cons. cbn [Zone.WithLimitKeys]. change (Zone.Salt (Zone.mkLimit (ptr_key <$> salt))) with (ptr_key <$> salt).
  unfold ptr_key at 1. fold (ptr_key x). rewrite contains_ptr. cbn [outcome_bind].
  destruct (bool_decide _) eqn:E; [by apply IH|].
  apply bool_decide_eq_false in E. replace ((ptr_key <$> salt) ++ [_]) with (ptr_key <$> salt ++ [x]) by (by rewrite fmap_app).
  destruct (IH (salt ++ [x])) as (salt' & H & Hd & Hp).
  - rewrite fmap_app. apply NoDup_app. split; [done|]. split; [|apply NoDup_singleton].
    intros n Hin Hx. apply list_elem_of_singleton in Hx as ->. apply E, Exists_exists.
    apply list_elem_of_fmap in Hin as (y & Hy & Hin). exists y. split; [done|]. by right.
  - exists salt'. split; [exact H|]. split; [done|]. transitivity (salt ++ [x]); [by apply prefix_app_r|done].
Qed.

(** Options with keys of pointer types always get through: the salt of the request has no two
    keys of the same name, and it is what the key of a request in a zone is salted with. *)
Theorem limit_options_salted l1 l2 : exists salt,
  NewLimitOptions [Zone.WithLimitKeys (ptr_key <$> l1); Zone.WithLimitKeys (ptr_key <$> l2)] = Ret (Zone.mkLimit (ptr_key <$> salt)) /\
  NoDup (salt.*2) /\
  forall ctx, Zone.Salt (Zone.GetLimitOptions (WithLimitOptions ctx (Zone.mkLimit (ptr_key <$> salt)))) = ptr_key <$> salt.
Proof.
  unfold NewLimitOptions. change (Zone.mkLimit []) with (Zone.mkLimit (ptr_key <$> [])). cbn [Setup].
  destruct (with_keys_nodup l1 []) as (s1 & H1 & Hn1 & _); [by apply NoDup_nil_2|]. rewrite H1. cbn [outcome_bind].
  destruct (with_keys_nodup l2 s1 Hn1) as (s2 & H2 & Hn2 & _). rewrite H2. by exists s2.
Qed.

(** ** The size of a type (memory_zone.go) *)

(** A type as reflection shows it: a pointer, a struct with its fields, or another of a given
    size and alignment. *)
Inductive rtype := RPointer (elem : rtype) | RStruct (fields : list rtype) | ROther (size align : Z).

Fixpoint sizeof (t : rtype) : Z :=
  match t with
  | RPointer elem => sizeof elem
  | RStruct fields => u64 (fold_right (fun f n => sizeof f + n) 0 fields)
  | ROther size _ => size
  end.

(** [Type.Size] and [Type.Align] on a 64-bit machine: the fields in order, each at the next
    multiple of its alignment, the whole rounded up to the largest. *)
Definition align_up (n a : Z) : Z := (n + a - 1) / a * a.

Fixpoint ralign (t : rtype) : Z :=
  match t with
  | RPointer _ => 8
  | RStruct fields => fold_right (fun f n => Z.max (ralign f) n) 1 fields
  | ROther _ align => Z.max 1 align
  end.

Fixpoint rsize (t : rtype) : Z :=
  match t with
  | RPointer _ => 8
  | RStruct fields =>
      align_up (fold_left (fun off f => align_up off (ralign f) + rsize f) fields 0)
        (fold_right (fun f n => Z.max (ralign f) n) 1 fields)
  | ROther size _ => size
  end.

Fixpoint flat (t : rtype) : Prop :=
  match t with
  | RPointer _ => False
  | RStruct fields => fold_right (fun f P => flat f /\ P) True fields
  | ROther size _ => 0 <= size
  end.

Lemma align_up_ge n a : 1 <= a -> n <= align_up n a.
Proof.
  intros Ha. unfold align_up. pose proof (Z.div_mod (n + a - 1) a ltac:(lia)).
  pose proof (Z.mod_pos_bound (n + a - 1) a ltac:(lia)). nia.
Qed.

Lemma ralign_pos : forall t, 1 <= ralign t.
Proof.
  fix IH 1. intros [elem|fields|size align]; simpl; [lia| |lia].
  induction fields as [|f fields IHf]; simpl; [lia|]. pose proof (IH f). lia.
Qed.

(** What the offsets of the fields add up to. *)
Lemma fields_offset fields : (forall f, f ∈ fields -> flat f -> 0 <= sizeof f <= rsize f) ->
  fold_right (fun f P => flat f /\ P) True fields -> forall off, 0 <= off ->
  0 <= fold_right (fun f n => sizeof f + n) 0 fields /\
  off + fold_right (fun f n => sizeof f + n) 0 fields <= fold_left (fun off f => align_up off (ralign f) + rsize f) fields off.
Proof.
  induction fields as [|f fields IH]; intros Hf Hflat off Hoff; simpl; [lia|]. destruct Hflat as [Hff Hrest].
  pose proof (Hf f ltac:(by left) Hff) as Hs. pose proof (align_up_ge off (ralign f) (ralign_pos f)).
  destruct (IH (fun g Hg => Hf g ltac:(by right)) Hrest (align_up off (ralign f) + rsize f) ltac:(lia)). lia.
Qed.

Lemma sizeof_flat : forall t, flat t -> 0 <= sizeof t <= rsize t.
Proof.
  fix IH 1. intros [elem|fields|size align] Hflat; simpl in *; [done| |lia].
  assert (forall f, f ∈ fields -> flat f -> 0 <= sizeof f <= rsize f) as Hf.
  { clear Hflat. induction fields as [|f fields IHf]; [by intros f ?%elem_of_nil|].
    intros g [->|Hg]%elem_of_cons; [apply IH|by apply IHf]. }
  destruct (fields_offset fields Hf Hflat 0 ltac:(lia)) as [H0 H1].
  set (s := fold_right (fun f n => sizeof f + n) 0 fields) in *.
  pose proof (align_up_ge (fold_left (fun off f => align_up off (ralign f) + rsize f) fields 0)
    (fold_right (fun f n => Z.max (ralign f) n) 1 fields) (ralign_pos (RStruct fields))).
  unfold u64, wrap_unsigned. pose proof (Z.mod_le s (2 ^ 64)). pose proof (Z.mod_pos_bound s (2 ^ 64)). lia.
Qed.

(** The size of a type without pointers, as the sum of its fields, is at most the size the
    compiler gives it: the sum leaves out the padding. *)
Theorem sizeof_at_most t : flat t -> 0 <= sizeof t <= rsize t.
Proof. apply sizeof_flat. Qed.

(** The structs of the two limiters; a time has a pointer to its location. *)
Definition mutex_type : rtype := RStruct [ROther 4 4; ROther 4 4].
Definition rate_type : rtype := RStruct [ROther 8 8; ROther 8 8].
Definition time_type : rtype := RStruct [ROther 8 8; ROther 8 8; RPointer (RStruct [])].
Definition fixedWindow_type : rtype := RStruct [mutex_type; rate_type; time_type; ROther 4 4].
Definition Limiter_type : rtype :=
  RStruct [mutex_type; ROther 8 8; ROther 8 8; ROther 8 8; time_type; time_type].
Definition tokenBucket_type : rtype := RStruct [rate_type; RPointer Limiter_type].

(** The units the local zone divides its memory by are the sizes of the two limiters. *)
Theorem limiter_units :
  LocalZone.unitFixedWindow = rsize fixedWindow_type /\
  LocalZone.unitTokenBucket = rsize tokenBucket_type + rsize Limiter_type - rsize (RPointer Limiter_type).
Proof. split; reflexivity. Qed.

(** ** Witnesses *)

Definition demo_url (s : string) : res string redisOptions := Ok (mkRedis "" s).
Definition demo_options : Zone.Options := Zone.mkOptions None false "api" 0 (Rate.mkRate 5 Rate.Second) Zone.AlgoFixedWindow 0.

Lemma builtin_zones_witness : exists drivers,
  outcome_bind (local_init ∅) (redis_init demo_url (fun _ => None)) = Ret drivers /\
  Zone.NewZone drivers "REDIS:localhost" demo_options =
    Ok (Zone.driver_zone (redisZone (with_key demo_options) (mkRedis "rate-limit" "REDIS:localhost"))).
Proof.
  destruct (builtin_zones demo_url (fun _ => None) "REDIS:localhost" demo_options "REDIS" "localhost" eq_refl)
    as (drivers & H1 & _ & H & _).
  exists drivers. split; [exact H1|]. rewrite H. reflexivity.
Defined.

Lemma failed_ping_leaks_client_witness : exists drivers z client,
  outcome_bind (local_init ∅) (redis_init demo_url (fun _ => Some "refused")) = Ret drivers /\
  Zone.NewZone drivers "redis:x" demo_options = Err "refused" /\
  redis_New demo_url (fun _ => Some "refused") "redis:x" (with_key demo_options) = (Some z, Some "refused", [client]).
Proof.
  apply (failed_ping_leaks_client demo_url (fun _ => Some "refused") "redis:x" demo_options "x" (mkRedis "" "redis:x")); done.
Defined.

Lemma sizeof_at_most_witness : sizeof (RStruct [ROther 4 4; rate_type; ROther 4 4]) <= rsize (RStruct [ROther 4 4; rate_type; ROther 4 4]).
Proof. apply (sizeof_at_most (RStruct [ROther 4 4; rate_type; ROther 4 4])). vm_compute. intuition discriminate. Defined.

End ZoneDrivers.
