(* ===== verification/RedisScripts.v ===== *)
(** * The scripts of the redis zone: infra/ratelimit/zone/redis (sliding_window.lua, token_bucket.lua)

    The two scripts that RedisZone.v runs through a parameter, on a server that is the class
    [ZRedis] with the documented laws of the commands they call.  Numbers of Lua are doubles
    ([Float64]); a number that goes to the server and comes back is the same number, since
    redis writes it with 17 digits.  [run] puts the scripts under the Go functions of
    redis_zone.go. *)
From stdpp Require Import prelude strings list gmap.
From Stdlib Require Import ZArith Lia.
From S2P Require Import Prelude Float64 Rate Keys Status Zone RedisZone.
Local Open Scope Z_scope.
Local Open Scope go_scope.

Module RedisScripts.
Import RedisZone.

(** ** Doubles as numbers of Lua *)

Definition fle (x y : f64) : bool := Float64.fnum x * Float64.fden y <=? Float64.fnum y * Float64.fden x.
Definition flt (x y : f64) : bool := Float64.fnum x * Float64.fden y <? Float64.fnum y * Float64.fden x.
Definition feq (x y : f64) : bool := Float64.fnum x * Float64.fden y =? Float64.fnum y * Float64.fden x.

(** [math.floor] *)
Definition floor (x : f64) : Z := Float64.fnum x / Float64.fden x.

Definition zero : f64 := Float64.of_Z 0.

(** ** The server *)

(** [TIME] in seconds and microseconds; a sorted set as the list of its scores in order, each of
    which is also its member; [ZREMRANGEBYSCORE], [ZADD] and [EXPIRE]; [GET] and [SET] with [EX]. *)
Class ZRedis (T : Type) := {
  z_time : T -> Z * Z;
  z_members : string -> T -> list f64;
  z_remrange : string -> f64 -> f64 -> T -> T;
  z_add : string -> f64 -> T -> T;
  z_expire : string -> Z -> T -> T;
  g_get : string -> T -> option f64;
  g_set_ex : string -> f64 -> Z -> T -> T
}.

(** A range with both ends removed; a member added unless it is there; a key kept by an expiry in
    the future and removed by another; the time that of the start of the script. *)
Class ZRedisLaws (T : Type) `{ZRedis T} := {
  remrange_members : forall k lo hi t,
    z_members k (z_remrange k lo hi t) = filter (fun x => fle lo x && fle x hi = false) (z_members k t);
  add_members : forall k x t,
    z_members k (z_add k x t) ≡ₚ (if existsb (feq x) (z_members k t) then z_members k t else x :: z_members k t);
  expire_members : forall k s t, z_members k (z_expire k s t) = if 0 <? s then z_members k t else [];
  commands_time : forall k lo hi x s t,
    z_time (z_remrange k lo hi t) = z_time t /\ z_time (z_add k x t) = z_time t /\ z_time (z_expire k s t) = z_time t
}.

Section Scripts.
Context {T : Type} {HZ : ZRedis T} (tostring : f64 -> string).

Definition epoch : Z := 1767225600.

(** The time of the server relative to 2026, in seconds. *)
Definition lua_date (t : T) : f64 :=
  let '(s, us) := z_time t in
  Float64.fadd (Float64.fsub (Float64.of_Z s) (Float64.of_Z epoch)) (Float64.fdiv (Float64.of_Z us) (Float64.of_Z 1000000)).

(** ** sliding_window.lua *)

(** The start of the window of [per] whole seconds. *)
Definition window_start (per : Z) (t : T) : f64 := Float64.fsub (lua_date t) (Float64.of_Z per).

(** [limit] and [window] are the first two arguments; the third is not read.  The loop adds the date [cost + 1]
    times. *)
Definition sliding_window_lua (key : string) (limit : Z) (window : f64) (t : T) : list rvalue * T :=
  let date := lua_date t in
  let per := floor window in
  let cost := 1 in
  let start := window_start per t in
  let t := z_remrange key zero start t in
  let members := z_members key t in
  let taken := Z.of_nat (length members) in
  let first := match members with [] => date | x :: _ => x end in
  let remaining := limit - taken - cost in
  let reset_after := Float64.fsub first start in
  if remaining <? 0 then ([RInt 0; RInt 0; RStr (tostring reset_after); RStr (tostring reset_after)], t)
  else
    let t := z_expire key per (z_add key date (z_add key date t)) in
    let retry_after := if remaining <? 1 then reset_after else zero in
    ([RInt cost; RInt remaining; RStr (tostring retry_after); RStr (tostring reset_after)], t).

(** ** token_bucket.lua *)

Definition lua_max (x y : f64) : f64 := if flt x y then y else x.

Definition token_bucket_lua (key : string) (burst rate period cost : f64) (t : T) : list rvalue * T :=
  let emission_interval := Float64.fdiv period rate in
  let increment := Float64.fmul emission_interval cost in
  let burst_offset := Float64.fmul emission_interval burst in
  let date := lua_date t in
  let tat := match g_get key t with None => date | Some tat => tat end in
  let tat := lua_max tat date in
  let new_tat := Float64.fadd tat increment in
  let allow_at := Float64.fsub new_tat burst_offset in
  let diff := Float64.fsub date allow_at in
  let remaining := Float64.fdiv diff emission_interval in
  if Float64.fnum remaining <? 0 then
    let reset_after := Float64.fsub tat date in
    let retry_after := Float64.fneg diff in
    ([RInt 0; RInt 0; RStr (tostring retry_after); RStr (tostring reset_after)], t)
  else
    let reset_after := Float64.fsub new_tat date in
    let t := if 0 <? Float64.fnum reset_after then g_set_ex key new_tat (Float64.fceil reset_after) t else t in
    ([RInt (Float64.ftrunc cost); RInt (Float64.ftrunc remaining); RStr (tostring zero); RStr (tostring reset_after)], t).

(** The scripts by their names, with the arguments of the Go side. *)
Definition run (name key : string) (args : list f64) (t : T) : res string (list rvalue) * T :=
  if decide (name = "sliding_window.lua") then
    match args with
    | [limit; window; _] => let '(r, t) := sliding_window_lua key (Float64.ftrunc limit) window t in (Ok r, t)
    | _ => (Err "attempt to perform arithmetic on a nil value", t)
    end
  else if decide (name = "token_bucket.lua") then
    match args with
    | [burst; rate; period; cost] => let '(r, t) := token_bucket_lua key burst rate period cost t in (Ok r, t)
    | _ => (Err "attempt to perform arithmetic on a nil value", t)
    end
  else (Err "NOSCRIPT No matching script. Please use EVAL.", t).

(** ** The Go side on the scripts *)

Context (ParseFloat : string -> option f64).
Hypothesis ParseFloat_tostring : forall x, is_Some (ParseFloat (tostring x)).

Lemma read_parses date limit a r x y : exists st,
  read_reply ParseFloat date limit [RInt a; RInt r; RStr (tostring x); RStr (tostring y)] = Ret (Ok st) /\
  Status.Allowed st = u32 a /\ Status.Limit st = limit.
Proof.
  unfold read_reply. simpl. destruct (ParseFloat_tostring x) as [u ->]. simpl. destruct (ParseFloat_tostring y) as [v ->]. simpl.
  by eexists.
Qed.

(** The sliding window of redis does not look at the cost of a request: the answer and the state of the
    server are those of a request of cost one, and a request that gets through is granted one
    token, whatever it asked for. *)
Theorem sliding_ignores_cost key date rate cost t :
  slidingWindow ParseFloat run key date rate cost t = slidingWindow ParseFloat run key date rate 1 t /\
  exists st t', slidingWindow ParseFloat run key date rate cost t = Ret (Ok st, t') /\ (Status.Allowed st = 0 \/ Status.Allowed st = 1).
Proof.
  split; [done|]. unfold slidingWindow, run. rewrite decide_True by done.
  unfold sliding_window_lua. destruct (_ <? 0).
  - edestruct read_parses as (st & -> & Ha & _). simpl. eexists _, _. split; [done|]. rewrite Ha. by left.
  - edestruct read_parses as (st & -> & Ha & _). simpl. eexists _, _. split; [done|]. rewrite Ha. by right.
Qed.

Context {HL : ZRedisLaws T}.

(** Calls of a sliding window, with what happens to the server between them. *)
Fixpoint sliding_run (key : string) (rate : Rate.Rate) (calls : list ((T -> T) * (Z * Z))) (t : T) : outcome (list (option Z)) :=
  match calls with
  | [] => Ret []
  | (pause, (date, cost)) :: rest =>
      let! (result, t) := slidingWindow ParseFloat run key date rate cost (pause t) in
      let! out := sliding_run key rate rest t in
      Ret (match result with Ok st => Some (Status.Allowed st) | Err _ => None end :: out)
  end.

Lemma sliding_empty key date rate cost t : 1 <= Rate.Limit rate < 2 ^ 53 -> floor (Status.Seconds (Rate.Window rate)) = 0 ->
  z_members key t = [] ->
  exists st t', slidingWindow ParseFloat run key date rate cost t = Ret (Ok st, t') /\ Status.Allowed st = 1 /\ z_members key t' = [].
Proof.
  intros Hl Hw Hm. unfold slidingWindow, run. rewrite decide_True by done.
  destruct (Float64.of_Z_exact_int (Rate.Limit rate)) as [El Hd]; [lia|].
  rewrite (Float64.ftrunc_exact _ _ Hd El). unfold sliding_window_lua. rewrite Hw, remrange_members, Hm, filter_nil. cbn [length].
  destruct (Z.ltb_spec (Rate.Limit rate - Z.of_nat 0 - 1) 0); [lia|]. cbn beta iota zeta.
  edestruct read_parses as (st & -> & Ha & _). simpl. eexists _, _. split; [done|]. split; [by rewrite Ha|].
  by rewrite expire_members.
Qed.

(** A sliding window shorter than a second limits nothing on redis: its length is cut down to whole
    seconds, that is to none, so each call finds an empty window and removes the key after it has added itself; any
    number of calls is granted, whatever the pauses between them, as long as nothing else writes the key. *)
Theorem subsecond_window_unlimited key rate calls t : 1 <= Rate.Limit rate < 2 ^ 53 ->
  floor (Status.Seconds (Rate.Window rate)) = 0 -> z_members key t = [] ->
  Forall (fun c => forall t, z_members key t = [] -> z_members key (c.1 t) = []) calls ->
  sliding_run key rate calls t = Ret (map (fun _ => Some 1) calls).
Proof.
  intros Hl Hw Hm Hc. revert t Hm. induction Hc as [|[pause [date cost]] calls Hp Hc IH]; intros t Hm; [done|].
  cbn [sliding_run map]. destruct (sliding_empty key date rate cost (pause t) Hl Hw (Hp t Hm)) as (st & t' & -> & Ha & Hm').
  cbn [outcome_bind]. rewrite (IH t' Hm'). cbn [outcome_bind]. by rewrite Ha.
Qed.

(** ** The quota of a sliding window *)

(** A call of the script at the time of the server; the second part are the dates granted so far. *)
Definition sliding_call (key : string) (limit : Z) (window : f64) (x : T * list f64) : T * list f64 :=
  let '(t, granted) := x in
  match sliding_window_lua key limit window t with
  | (RInt 1 :: _, t') => (t', granted ++ [lua_date t])
  | (_, t') => (t', granted)
  end.

(** The steps of a window in use: a call, time passing, or the key expiring once its members have left the window;
    the start of the window does not go back. *)
Inductive sstep (key : string) (limit : Z) (window : f64) : T * list f64 -> T * list f64 -> Prop :=
| s_call x : sstep key limit window x (sliding_call key limit window x)
| s_pass t t' granted : z_members key t' = z_members key t ->
    fle (window_start (floor window) t) (window_start (floor window) t') = true ->
    sstep key limit window (t, granted) (t', granted)
| s_expire t t' granted : z_members key t' = [] ->
    Forall (fun m => fle m (window_start (floor window) t') = true) (z_members key t) ->
    fle (window_start (floor window) t) (window_start (floor window) t') = true ->
    sstep key limit window (t, granted) (t', granted).

(** Doubles with a positive denominator. *)
Definition proper (x : f64) : Prop := 0 < Float64.fden x.

Lemma fadd_proper x y : proper x -> proper y -> proper (Float64.fadd x y).
Proof.
  unfold proper, Float64.fadd, Float64.f64_round. intros Hx Hy.
  destruct (Z.eqb_spec (Float64.fnum x * Float64.fden y + Float64.fnum y * Float64.fden x) 0); [done|].
  destruct (Z.ltb_spec (Float64.fnum x * Float64.fden y + Float64.fnum y * Float64.fden x) 0); apply Float64.round_pos_den.
Qed.

Lemma of_Z_proper z : proper (Float64.of_Z z).
Proof.
  unfold proper, Float64.of_Z, Float64.f64_round. destruct (z =? 0); [done|]. destruct (z <? 0); apply Float64.round_pos_den.
Qed.

Lemma fsub_proper x y : proper x -> proper y -> proper (Float64.fsub x y).
Proof. intros Hx Hy. unfold Float64.fsub. by apply fadd_proper. Qed.

Lemma fdiv_proper x y : proper (Float64.fdiv x y).
Proof.
  unfold proper, Float64.fdiv, Float64.f64_round. destruct (_ =? 0); [done|]. destruct (_ <? 0); apply Float64.round_pos_den.
Qed.

Lemma lua_date_proper t : proper (lua_date t).
Proof.
  unfold lua_date. destruct (z_time t). apply fadd_proper; [apply fsub_proper; apply of_Z_proper|apply fdiv_proper].
Qed.

Lemma window_start_proper per t : proper (window_start per t).
Proof. apply fsub_proper; [apply lua_date_proper|apply of_Z_proper]. Qed.

Lemma fle_trans x y z : proper x -> proper y -> proper z -> fle x y = true -> fle y z = true -> fle x z = true.
Proof. unfold proper, fle. intros Hx Hy Hz [=H1%Z.leb_le] [=H2%Z.leb_le]. apply Z.leb_le. nia. Qed.

Lemma feq_fle x y z : proper x -> proper y -> proper z -> feq x y = true -> fle y z = fle x z.
Proof. unfold proper, feq, fle. intros Hx Hy Hz [=H%Z.eqb_eq]. apply eq_true_iff_eq. rewrite !Z.leb_le. nia. Qed.

(** What holds of a window in use: at most [limit] members, and every date granted is a member or
    before the window. *)
Definition window_inv (key : string) (limit : Z) (window : f64) (x : T * list f64) : Prop :=
  Forall proper (z_members key x.1) /\ Forall proper x.2 /\ Z.of_nat (length (z_members key x.1)) <= Z.max 0 limit /\
  forall d, d ∈ x.2 -> fle d (window_start (floor window) x.1) = true \/ exists m, m ∈ z_members key x.1 /\ feq d m = true.

(** The window after a call: the start is that of the call, and its members are those it found in the window,
    with the date of the call when it was granted. *)
Lemma call_members key limit window t : 0 < floor window ->
  let start := window_start (floor window) t in
  let kept := filter (fun x => fle zero x && fle x start = false) (z_members key t) in
  let '(r, t') := sliding_window_lua key limit window t in
  window_start (floor window) t' = start /\
  ((exists rest, r = RInt 0 :: rest) /\ z_members key t' = kept /\ limit <= Z.of_nat (length kept) \/
   (exists rest, r = RInt 1 :: rest) /\ Z.of_nat (length kept) < limit /\
   z_members key t' ≡ₚ (if existsb (feq (lua_date t)) kept then kept else lua_date t :: kept)).
Proof.
  intros Hw start kept. unfold sliding_window_lua. fold start.
  assert (z_members key (z_remrange key zero start t) = kept) as Hk by apply remrange_members. rewrite Hk.
  set (t1 := z_remrange key zero start t) in *. set (date := lua_date t).
  assert (forall u, z_time u = z_time t -> window_start (floor window) u = start) as Htime.
  { intros u Hu. unfold start, window_start, lua_date. by rewrite Hu. }
  destruct (Z.ltb_spec (limit - Z.of_nat (length kept) - 1) 0).
  - split; [apply Htime, (commands_time key zero start zero 0 t)|]. left. split; [by eexists|]. split; [done|lia].
  - destruct (commands_time key zero start date (floor window) t) as (E1 & _ & _). fold t1 in E1.
    destruct (commands_time key zero start date (floor window) t1) as (_ & E2 & _).
    destruct (commands_time key zero start date (floor window) (z_add key date t1)) as (_ & E3 & _).
    destruct (commands_time key zero start date (floor window) (z_add key date (z_add key date t1))) as (_ & _ & E4).
    split; [apply Htime; by rewrite E4, E3, E2, E1|]. right. split; [by eexists|]. split; [lia|].
    rewrite expire_members. destruct (Z.ltb_spec 0 (floor window)); [|lia].
    pose proof (add_members key date t1) as A1. rewrite Hk in A1.
    pose proof (add_members key date (z_add key date t1)) as A2.
    assert (existsb (feq date) (z_members key (z_add key date t1)) = true) as Hex.
    { apply existsb_exists. destruct (existsb (feq date) kept) eqn:E.
      - apply existsb_exists in E as (y & Hy & Hf). exists y. split; [|done]. by rewrite A1.
      - exists date. split; [rewrite A1; by left|]. unfold feq. apply Z.eqb_refl. }
    rewrite Hex in A2. by rewrite A2, A1.
Qed.

Lemma call_inv key limit window x : 0 < floor window -> window_inv key limit window x ->
  window_inv key limit window (sliding_call key limit window x).
Proof.
  destruct x as [t granted]. intros Hw (Hp & Hg & Hlen & Hd). pose proof (call_members key limit window t Hw) as H. cbn zeta in H.
  set (start := window_start (floor window) t) in *.
  set (kept := filter (fun x => fle zero x && fle x start = false) (z_members key t)) in *.
  assert (Forall proper kept) as Hpk by (apply Forall_forall; intros y [_ Hy]%list_elem_of_filter; by eapply Forall_forall in Hp).
  assert (Z.of_nat (length kept) <= Z.max 0 limit) as Hlk.
  { assert (length kept <= length (z_members key t))%nat; [|simpl in Hlen; lia]. apply sublist_length, sublist_filter. }
  assert (forall d, d ∈ granted -> fle d start = true \/ exists m, m ∈ kept /\ feq d m = true) as Hdk.
  { intros d Hdg. destruct (Hd d Hdg) as [?|(m & Hm & Hf)]; [by left|]. simpl in Hm.
    destruct (decide (fle zero m && fle m start = false)) as [Hkeep|Hdrop].
    - right. exists m. split; [by apply list_elem_of_filter|done].
    - left. apply not_false_iff_true, andb_prop in Hdrop as [_ Hs].
      rewrite <- (feq_fle d m start); [done| | |apply window_start_proper|done].
      + by eapply Forall_forall in Hg.
      + by eapply Forall_forall in Hp. }
  unfold sliding_call. destruct (sliding_window_lua key limit window t) as [r t'].
  destruct H as [Hst [([rest ->] & Hm & _)|([rest ->] & Hlt & Hm)]]; unfold window_inv; cbn [fst snd]; rewrite Hst.
  - rewrite Hm. done.
  - split; [|split; [|split]].
    + rewrite Hm. destruct (existsb _ _); [done|]. constructor; [apply lua_date_proper|done].
    + apply Forall_app. split; [done|]. repeat constructor. apply lua_date_proper.
    + rewrite Hm. destruct (existsb _ _); simpl; lia.
    + intros d [Hdg|Hd'%list_elem_of_singleton]%elem_of_app.
      * destruct (Hdk d Hdg) as [?|(m & Hmk & Hf)]; [by left|]. right. exists m. split; [|done].
        rewrite Hm. destruct (existsb _ _); [done|by right].
      * subst d. right. destruct (existsb (feq (lua_date t)) kept) eqn:E.
        -- apply existsb_exists in E as (y & Hy & Hf). exists y. split; [|done]. rewrite Hm. by apply list_elem_of_In.
        -- exists (lua_date t). split; [rewrite Hm; by left|]. unfold feq. apply Z.eqb_refl.
Qed.

Lemma sstep_inv key limit window x y : 0 < floor window -> window_inv key limit window x -> sstep key limit window x y ->
  window_inv key limit window y.
Proof.
  intros Hw Hi Hs. destruct Hs as [x|t t' granted Hm Hst|t t' granted Hm Hout Hst]; [by apply call_inv| |];
    destruct Hi as (Hp & Hg & Hlen & Hd); unfold window_inv; cbn [fst snd] in *; rewrite Hm.
  - do 3 (split; [done|]). intros d Hdg. destruct (Hd d Hdg) as [H|H]; [left|by right].
    eapply fle_trans; [by eapply Forall_forall in Hg|apply window_start_proper|apply window_start_proper|done|done].
  - split; [done|]. split; [done|]. split; [simpl; lia|]. intros d Hdg. left. destruct (Hd d Hdg) as [H|(m & Hin & Hf)].
    + eapply fle_trans; [by eapply Forall_forall in Hg|apply window_start_proper|apply window_start_proper|done|done].
    + rewrite <- (feq_fle d m); [by eapply Forall_forall in Hout|by eapply Forall_forall in Hg|by eapply Forall_forall in Hp|apply window_start_proper|done].
Qed.

(** Distinct numbers that each equal one of a list are not more than the list has. *)
Lemma distinct_covered l m : (forall x, x ∈ l -> exists y, y ∈ m /\ feq x y = true) -> Forall proper l -> Forall proper m ->
  (forall i j x y, l !! i = Some x -> l !! j = Some y -> feq x y = true -> i = j) -> (length l <= length m)%nat.
Proof.
  revert m. induction l as [|x l IH]; intros m Hcov Hpl Hpm Hinj; [simpl; lia|].
  destruct (Hcov x ltac:(by left)) as (y & Hy & Hxy). apply list_elem_of_split in Hy as (m1 & m2 & ->).
  apply Forall_cons in Hpl as [Hx Hpl]. apply Forall_app in Hpm as [Hm1 [Hpy Hm2]%Forall_cons].
  assert (length l <= length (m1 ++ m2))%nat as Hle.
  { apply IH.
    - intros z Hz. destruct (Hcov z ltac:(by right)) as (w & Hw & Hzw).
      apply elem_of_app in Hw as [Hw|[->|Hw]%elem_of_cons]; [exists w; split; [apply elem_of_app; by left|done]| |exists w; split; [apply elem_of_app; by right|done]].
      exfalso. apply list_elem_of_lookup in Hz as [i Hi]. assert (proper z) as Hpz by (eapply Forall_lookup in Hpl; done).
      assert (feq x z = true) as E by (unfold feq, proper in *; apply Z.eqb_eq in Hxy, Hzw; apply Z.eqb_eq; nia).
      by specialize (Hinj 0%nat (S i) x z eq_refl Hi E).
    - done.
    - by apply Forall_app.
    - intros i j a b Hi Hj E. assert (S i = S j) by (by eapply (Hinj (S i) (S j) a b)). lia. }
  rewrite length_app in Hle |- *. simpl. lia.
Qed.

(** C6: a sliding window of redis never grants more than its limit: over any sequence of calls and pauses, in which
    the key may expire once its members have left the window and time does not move the window back, the moments at which a request was granted and that are still
    in the window are at most as many as the limit.  (Requests granted in the same microsecond count as one moment.) *)
Theorem sliding_window_bounded key limit window t x l : 0 < floor window -> 0 <= limit ->
  z_members key t = [] -> runs (sstep key limit window) (t, []) x ->
  (forall d, d ∈ l -> d ∈ x.2 /\ fle d (window_start (floor window) x.1) = false) ->
  (forall i j a b, l !! i = Some a -> l !! j = Some b -> feq a b = true -> i = j) ->
  Z.of_nat (length l) <= limit.
Proof.
  intros Hw Hl Hm Hr Hin Hdist.
  assert (window_inv key limit window x) as (Hp & Hg & Hlen & Hd).
  { apply (runs_inv (sstep key limit window) (window_inv key limit window) (t, []) x); [|unfold window_inv; cbn [fst snd]; rewrite Hm|done].
    - intros y z Hy. by apply sstep_inv.
    - split_and!; [constructor|constructor|simpl; lia|by intros ? ?%elem_of_nil]. }
  assert (length l <= length (z_members key x.1))%nat; [|lia].
  apply distinct_covered; [| |done|done].
  - intros d Hdl. destruct (Hin d Hdl) as [Hdg Hnot]. destruct (Hd d Hdg) as [?|?]; [congruence|done].
  - apply Forall_forall. intros d Hdl. destruct (Hin d Hdl) as [Hdg _]. by eapply Forall_forall in Hg.
Qed.

(** A token bucket of redis grants a request whole or not at all: a refusal leaves the server as it was, and a grant
    gives the cost that was asked for and moves the theoretical arrival time of the key by the time the tokens take. *)
Theorem token_bucket_all_or_nothing key date rate burst cost t : 1 <= cost < 2 ^ 32 ->
  exists st t', tokenBucket ParseFloat run key date rate burst cost t = Ret (Ok st, t') /\
    Status.Limit st = Z.max 1 burst /\
    (Status.Allowed st = 0 /\ t' = t \/
     Status.Allowed st = cost /\
     let interval := Float64.fdiv (Status.Seconds (Rate.Window rate)) (Float64.of_Z (Rate.Limit rate)) in
     let tat := lua_max (default (lua_date t) (g_get key t)) (lua_date t) in
     let new_tat := Float64.fadd tat (Float64.fmul interval (Float64.of_Z cost)) in
     (t' = t \/ t' = g_set_ex key new_tat (Float64.fceil (Float64.fsub new_tat (lua_date t))) t)).
Proof.
  intros Hc. unfold tokenBucket, run. rewrite decide_False, decide_True by done.
  rewrite (Z.max_r 1 cost) by lia. unfold token_bucket_lua.
  destruct (Float64.of_Z_exact_int cost) as [Ec Hd]; [lia|].
  set (interval := Float64.fdiv _ (Float64.of_Z (Rate.Limit rate))). set (tat := lua_max _ (lua_date t)).
  set (new_tat := Float64.fadd tat _). destruct (_ <? 0).
  - edestruct read_parses as (st & -> & Ha & Hlim). eexists st, t. split; [done|]. split; [done|]. left. by rewrite Ha.
  - edestruct read_parses as (st & -> & Ha & Hlim). eexists st, _. split; [done|]. split; [done|]. right.
    rewrite Ha, (Float64.ftrunc_exact _ _ Hd Ec). split; [by rewrite wrap_unsigned_small by lia|].
    destruct (0 <? _); [by right|by left].
Qed.

End Scripts.

(** ** A server *)

(** The time in microseconds, the sorted sets and the values; nothing expires by itself. *)
Record zserver := mkZS { zs_now : Z; zs_sets : gmap string (list f64); zs_vals : gmap string f64 }.

Fixpoint insert_sorted (x : f64) (l : list f64) : list f64 :=
  match l with
  | [] => [x]
  | y :: l => if fle x y then x :: y :: l else y :: insert_sorted x l
  end.

Lemma insert_sorted_perm x l : insert_sorted x l ≡ₚ x :: l.
Proof.
  induction l as [|y l IH]; simpl; [done|]. destruct (fle x y); [done|]. rewrite IH. apply Permutation_swap.
Qed.

Definition set_of (k : string) (t : zserver) : list f64 := default [] (zs_sets t !! k).

#[local] Instance zserver_redis : ZRedis zserver := {
  z_time t := (zs_now t / 1000000, zs_now t mod 1000000);
  z_members := set_of;
  z_remrange k lo hi t := mkZS (zs_now t) (<[k := filter (fun x => fle lo x && fle x hi = false) (set_of k t)]> (zs_sets t)) (zs_vals t);
  z_add k x t := mkZS (zs_now t) (<[k := if existsb (feq x) (set_of k t) then set_of k t else insert_sorted x (set_of k t)]> (zs_sets t)) (zs_vals t);
  z_expire k s t := if 0 <? s then t else mkZS (zs_now t) (delete k (zs_sets t)) (zs_vals t);
  g_get k t := zs_vals t !! k;
  g_set_ex k x s t := mkZS (zs_now t) (zs_sets t) (<[k := x]> (zs_vals t))
}.

#[local] Instance zserver_laws : ZRedisLaws zserver.
Proof.
  split; unfold z_members, z_remrange, z_add, z_expire, z_time, zserver_redis, set_of; simpl.
  - intros k lo hi t. by rewrite lookup_insert_eq.
  - intros k x t. rewrite lookup_insert_eq. simpl. destruct (existsb _ _); [done|]. apply insert_sorted_perm.
  - intros k s t. destruct (0 <? s); [done|]. simpl. by rewrite lookup_delete_eq.
  - intros k lo hi x s t. destruct (0 <? s); done.
Qed.

(** A server without keys, some seconds and microseconds after the start of 2026. *)
Definition server_at (sec us : Z) : zserver := mkZS ((epoch + sec) * 1000000 + us) ∅ ∅.

(** ** Rounding *)

(** A request may be refused by a token bucket that nobody has used: the time of arrival is computed as the time
    plus the interval minus the interval, which a double does not always give back; just before the seconds since 2026 reach a
    power of two, the first request of a key with a burst of one is refused, here on 14 July 2026 for one request a second. *)
Theorem fresh_bucket_refused : exists st,
  tokenBucket demo_ParseFloat (run demo_tostring) "z:k" 0 (Rate.mkRate 1 Rate.Second) 1 1 (server_at 16777215 392782) =
    Ret (Ok st, server_at 16777215 392782) /\ Status.OK (Some st) = false.
Proof. eexists. split; [vm_compute; reflexivity|reflexivity]. Qed.

(** ** Witnesses *)

Lemma sliding_ignores_cost_witness :
  slidingWindow demo_ParseFloat (run demo_tostring) "z:k" 0 (per_minute 3) 1000 (server_at 100 0) =
    slidingWindow demo_ParseFloat (run demo_tostring) "z:k" 0 (per_minute 3) 1 (server_at 100 0).
Proof. exact (proj1 (sliding_ignores_cost demo_tostring demo_ParseFloat demo_parses "z:k" 0 (per_minute 3) 1000 (server_at 100 0))). Defined.

Lemma subsecond_window_unlimited_witness :
  sliding_run demo_tostring demo_ParseFloat "z:k" (Rate.mkRate 1 Rate.Millisecond) [(fun t => t, (1, 1)); (fun t => t, (1, 1)); (fun t => t, (2, 5))]
    (server_at 100 0) = Ret [Some 1; Some 1; Some 1].
Proof.
  apply (subsecond_window_unlimited demo_tostring demo_ParseFloat demo_parses "z:k" (Rate.mkRate 1 Rate.Millisecond)
    [(fun t => t, (1, 1)); (fun t => t, (1, 1)); (fun t => t, (2, 5))] (server_at 100 0)); [vm_compute; intuition discriminate|vm_compute; reflexivity|reflexivity|].
  repeat constructor; by intros t H.
Defined.

Definition used_window : zserver * list f64 := sliding_call demo_tostring "z:k" 1 (Float64.of_Z 60) (server_at 100 0, []).

Lemma sliding_window_bounded_witness : (length used_window.2 <= 1)%nat.
Proof.
  apply Nat2Z.inj_le.
  apply (sliding_window_bounded demo_tostring "z:k" 1 (Float64.of_Z 60) (server_at 100 0) used_window used_window.2);
    [vm_compute; reflexivity|lia|reflexivity| | |].
  - eapply runs_step; [apply runs_refl|apply s_call].
  - intros d Hd. split; [exact Hd|]. vm_compute in Hd. apply list_elem_of_singleton in Hd as ->. vm_compute. reflexivity.
  - intros i j a b Hi Hj _. apply lookup_lt_Some in Hi, Hj. vm_compute in Hi, Hj. lia.
Defined.

Lemma token_bucket_all_or_nothing_witness : exists st t',
  tokenBucket demo_ParseFloat (run demo_tostring) "z:k" 0 (per_minute 60) 5 3 (server_at 100 0) = Ret (Ok st, t') /\ Status.Limit st = 5.
Proof.
  destruct (token_bucket_all_or_nothing demo_tostring demo_ParseFloat demo_parses "z:k" 0 (per_minute 60) 5 3 (server_at 100 0) ltac:(lia))
    as (st & t' & H & Hl & _). exists st, t'. split; [exact H|exact Hl].
Defined.

End RedisScripts.
