(* ===== verification/Consistent.v ===== *)
(** * Consistent hashing: infra/transport/internal/consistent/consistent.go

    The hash circle that picks the subset of endpoints of a client.  Hashes are
    32-bit numbers, computed by FNV-1a or CRC-32 of the standard library; the
    circle and the members are maps.  Loops over the circle take fuel, because
    they do not always end: [None] is a loop that has not ended. *)
From stdpp Require Import prelude strings list sorting gmap.
From Stdlib Require Import ZArith Lia Ascii.
From S2P Require Import Prelude.
Local Open Scope Z_scope.
Local Open Scope go_scope.

Module Consistent.

(** ** Hash functions *)

(** [fnv.New32a] *)
Fixpoint fnv32a (h : Z) (s : string) : Z :=
  match s with
  | EmptyString => h
  | String c s => fnv32a (u32 (Z.lxor h (byte_val c) * 16777619)) s
  end.

Definition hashKeyFnv (key : string) : Z := fnv32a 2166136261 key.

(** [crc32.ChecksumIEEE], bit by bit with the reversed polynomial. *)
Fixpoint crc_bits (n : nat) (crc : Z) : Z :=
  match n with
  | O => crc
  | S n => crc_bits n (if Z.odd crc then Z.lxor (Z.shiftr crc 1) 3988292384 else Z.shiftr crc 1)
  end.

Fixpoint crc_bytes (crc : Z) (s : string) : Z :=
  match s with
  | EmptyString => crc
  | String c s => crc_bytes (crc_bits 8 (Z.lxor crc (byte_val c))) s
  end.

Definition hashKeyCRC32 (key : string) : Z := Z.lxor (crc_bytes 4294967295 key) 4294967295.

Definition hashKey (UseFnv : bool) (key : string) : Z :=
  if UseFnv then hashKeyFnv key else hashKeyCRC32 key.

Definition eltKey (elt : string) (idx : Z) : string := FormatInt idx +:+ elt.

(** ** The circle *)

(** A [Member]: anything with a name; [zero] is the zero value of the type. *)
Class Member (M : Type) := { mstring : M -> string; zero : M }.

Record Consistent (M : Type) := mkC {
  circle : gmap Z M;
  members : gset string;
  sortedHashes : list Z;
  NumberOfReplicas : Z;
  count : Z;
  UseFnv : bool
}.
Global Arguments mkC {M}.
Global Arguments circle {M}.
Global Arguments members {M}.
Global Arguments sortedHashes {M}.
Global Arguments NumberOfReplicas {M}.
Global Arguments count {M}.
Global Arguments UseFnv {M}.

Section Circle.
Context {M : Type} {HM : Member M}.

Definition New : Consistent M := mkC ∅ ∅ [] 20 0 false.

(** The points of an element: the hashes of its replicas. *)
Definition points (c : Consistent M) (elt : string) : list Z :=
  map (fun i => hashKey (UseFnv c) (eltKey elt (Z.of_nat i))) (seq 0 (Z.to_nat (NumberOfReplicas c))).

(** The keys of the circle in order; dividing by the replicas panics on 0. *)
Definition updateSortedHashes (c : Consistent M) : outcome (Consistent M) :=
  if NumberOfReplicas c =? 0 then Panic "integer divide by zero"
  else Ret (mkC (circle c) (members c) (merge_sort Z.le (elements (dom (circle c))))
              (NumberOfReplicas c) (count c) (UseFnv c)).

Definition add (elt : M) (c : Consistent M) : outcome (Consistent M) :=
  let c1 := mkC (fold_left (fun m h => <[h := elt]> m) (points c (mstring elt)) (circle c))
              ({[ mstring elt ]} ∪ members c) (sortedHashes c) (NumberOfReplicas c) (count c) (UseFnv c) in
  let! c2 := updateSortedHashes c1 in
  Ret (mkC (circle c2) (members c2) (sortedHashes c2) (NumberOfReplicas c2) (count c2 + 1) (UseFnv c2)).

Definition remove (elt : string) (c : Consistent M) : outcome (Consistent M) :=
  let c1 := mkC (fold_left (fun m h => delete h m) (points c elt) (circle c))
              (members c ∖ {[ elt ]}) (sortedHashes c) (NumberOfReplicas c) (count c) (UseFnv c) in
  let! c2 := updateSortedHashes c1 in
  Ret (mkC (circle c2) (members c2) (sortedHashes c2) (NumberOfReplicas c2) (count c2 - 1) (UseFnv c2)).

(** The two loops of [Set]. *)
Fixpoint set_remove (elts : list M) (ks : list string) (c : Consistent M) : outcome (Consistent M) :=
  match ks with
  | [] => Ret c
  | k :: ks =>
      if decide (k ∈ map mstring elts) then set_remove elts ks c
      else let! c := remove k c in set_remove elts ks c
  end.

Fixpoint set_add (elts : list M) (c : Consistent M) : outcome (Consistent M) :=
  match elts with
  | [] => Ret c
  | v :: elts =>
      if decide (mstring v ∈ members c) then set_add elts c
      else let! c := add v c in set_add elts c
  end.

Definition Set_ (elts : list M) (c : Consistent M) : outcome (Consistent M) :=
  let! c := set_remove elts (elements (members c)) c in set_add elts c.

Definition Members (c : Consistent M) : list string := elements (members c).

(** [sort.Search]: the least index of [[i, j)] with [f], by bisection. *)
Fixpoint bisect (fuel : nat) (f : nat -> bool) (i j : nat) : nat :=
  match fuel with
  | O => i
  | S fuel =>
      if decide (i < j)%nat then
        let h := ((i + j) / 2)%nat in
        if f h then bisect fuel f i h else bisect fuel f (S h) j
      else i
  end.

Definition Search_ (n : nat) (f : nat -> bool) : nat := bisect n f 0 n.

Definition search (c : Consistent M) (key : Z) : nat :=
  let hs := sortedHashes c in
  let i := Search_ (length hs) (fun x => key <? nth x hs 0) in
  if decide (length hs <= i)%nat then 0%nat else i.

(** [c.circle[c.sortedHashes[i]]]: an index out of range panics. *)
Definition elem_at (c : Consistent M) (i : nat) : outcome M :=
  match sortedHashes c !! i with
  | Some h => Ret (default zero (circle c !! h))
  | None => Panic "index out of range"
  end.

Definition ErrEmptyCircle : string := "empty circle".

Definition Get (c : Consistent M) (name : string) : outcome (res string M) :=
  if decide (circle c = ∅) then Ret (Err ErrEmptyCircle)
  else
    let key := hashKey (UseFnv c) name in
    let! m := elem_at c (search c key) in Ret (Ok m).

(** ** Several elements *)

Definition next_index (c : Consistent M) (i : nat) : nat :=
  if decide (length (sortedHashes c) <= i)%nat then 0%nat else i.

Fixpoint getTwo_loop (fuel : nat) (c : Consistent M) (start i : nat) (a b : M) : option (outcome M) :=
  match fuel with
  | O => None
  | S fuel =>
      if decide (i = start) then Some (Ret b)
      else
        let i := next_index c i in
        match elem_at c i with
        | Panic p => Some (Panic p)
        | Ret b =>
            if decide (mstring b = mstring a) then getTwo_loop fuel c start (S i) a b
            else Some (Ret b)
        end
  end.

Definition GetTwo (fuel : nat) (c : Consistent M) (name : string)
  : option (outcome (res string (M * M))) :=
  if decide (circle c = ∅) then Some (Ret (Err ErrEmptyCircle))
  else
    let i := search c (hashKey (UseFnv c) name) in
    match elem_at c i with
    | Panic p => Some (Panic p)
    | Ret a =>
        if count c =? 1 then Some (Ret (Ok (a, zero)))
        else match getTwo_loop fuel c i (S i) a zero with
             | Some (Ret b) => Some (Ret (Ok (a, b)))
             | Some (Panic p) => Some (Panic p)
             | None => None
             end
    end.

Definition sliceContainsMember (set : list M) (member : M) : bool :=
  existsb (fun m => bool_decide (mstring m = mstring member)) set.

Definition push (res : list M) (elem : M) : list M :=
  if sliceContainsMember res elem then res else res ++ [elem].

Fixpoint getN_loop (fuel : nat) (c : Consistent M) (start i : nat) (n : Z) (res : list M)
  : option (outcome (list M)) :=
  match fuel with
  | O => None
  | S fuel =>
      if decide (i = start) then Some (Ret res)
      else
        let i := next_index c i in
        match elem_at c i with
        | Panic p => Some (Panic p)
        | Ret elem =>
            let res := push res elem in
            if Z.of_nat (length res) =? n then Some (Ret res)
            else getN_loop fuel c start (S i) n res
        end
  end.

Definition GetN (fuel : nat) (c : Consistent M) (name : string) (n : Z)
  : option (outcome (res string (list M))) :=
  if decide (circle c = ∅) then Some (Ret (Err ErrEmptyCircle))
  else
    let n := if count c <? n then count c else n in
    let i := search c (hashKey (UseFnv c) name) in
    match elem_at c i with
    | Panic p => Some (Panic p)
    | Ret elem =>
        if n <? 0 then Some (Panic "makeslice: cap out of range")
        else if 1 =? n then Some (Ret (Ok [elem]))
        else match getN_loop fuel c i (S i) n [elem] with
             | Some (Ret res) => Some (Ret (Ok res))
             | Some (Panic p) => Some (Panic p)
             | None => None
             end
    end.

(** ** subset.go *)

Definition Subset (fuel : nat) (selectKey : string) (inss : list M) (num : Z)
  : option (outcome (list M)) :=
  if Z.of_nat (length inss) <=? num then Some (Ret inss)
  else
    match Set_ inss (mkC ∅ ∅ [] 160 0 true) with
    | Panic p => Some (Panic p)
    | Ret c =>
        match GetN fuel c selectKey num with
        | Some (Ret (Ok backends)) => Some (Ret backends)
        | Some (Ret (Err _)) => Some (Ret inss)
        | Some (Panic p) => Some (Panic p)
        | None => None
        end
    end.

(** ** Lemmas *)

(** *** Bisection *)

Lemma bisect_spec fuel f i j :
  (j - i <= fuel)%nat -> (i <= j)%nat ->
  (forall x y, (x <= y < j)%nat -> f x = true -> f y = true) ->
  let r := bisect fuel f i j in
  (i <= r <= j)%nat /\ (forall x, (i <= x < r)%nat -> f x = false) /\ ((r < j)%nat -> f r = true).
Proof.
  revert i j. induction fuel as [|fuel IH]; intros i j Hf Hij Hmono; cbn [bisect]; cbv zeta.
  - split_and!; intros; lia.
  - case_decide as Hlt; [|split_and!; intros; lia].
    assert (i <= (i + j) / 2 < j)%nat as Hh.
    { split; [apply Nat.div_le_lower_bound; lia|apply Nat.Div0.div_lt_upper_bound; lia]. }
    destruct (f ((i + j) / 2)%nat) eqn:Ef.
    + destruct (IH i ((i + j) / 2)%nat) as (H1 & H2 & H3); [lia|lia| |].
      { intros x y Hxy. apply Hmono. lia. }
      split_and!; [lia|lia|done|]. intros _.
      destruct (decide (bisect fuel f i ((i + j) / 2) = (i + j) / 2)%nat) as [->|]; [done|].
      apply H3. lia.
    + destruct (IH (S ((i + j) / 2)) j) as (H1 & H2 & H3); [lia|lia|done|].
      split_and!; [lia|lia| |done]. intros x Hx.
      destruct (decide (x <= (i + j) / 2)%nat); [|apply H2; lia].
      destruct (f x) eqn:Ex; [|done]. rewrite (Hmono x ((i + j) / 2)%nat) in Ef; [done|lia|done].
Qed.

(** [sort.Search] finds the first index at which a monotone test holds. *)
Lemma Search_spec n f :
  (forall x y, (x <= y < n)%nat -> f x = true -> f y = true) ->
  (Search_ n f <= n)%nat /\ (forall x, (x < Search_ n f)%nat -> f x = false) /\
  ((Search_ n f < n)%nat -> f (Search_ n f) = true).
Proof.
  intros Hm. destruct (bisect_spec n f 0 n) as (H1 & H2 & H3); [lia|lia|done|].
  split_and!; [unfold Search_; lia| |done]. intros x Hx. apply H2. unfold Search_ in Hx. lia.
Qed.

(** *** The successor of a key on the circle *)

(** [h] follows [key]: the least hash above it, or the least of all. *)
Definition successor (hs : gset Z) (key h : Z) : Prop :=
  h ∈ hs /\
  ((key < h /\ forall h', h' ∈ hs -> key < h' -> h <= h') \/
   ((forall h', h' ∈ hs -> h' <= key) /\ forall h', h' ∈ hs -> h <= h')).

Lemma successor_unique hs key h1 h2 : successor hs key h1 -> successor hs key h2 -> h1 = h2.
Proof.
  intros [Hin1 H1] [Hin2 H2].
  destruct H1 as [[H1 H1']|[H1 H1']], H2 as [[H2 H2']|[H2 H2']].
  - specialize (H1' _ Hin2 H2). specialize (H2' _ Hin1 H1). lia.
  - specialize (H2 _ Hin1). lia.
  - specialize (H1 _ Hin2). lia.
  - specialize (H1' _ Hin2). specialize (H2' _ Hin1). lia.
Qed.

(** The successor stays one when other hashes go away. *)
Lemma successor_subset (hs hs' : gset Z) key h :
  hs ⊆ hs' -> h ∈ hs -> successor hs' key h -> successor hs key h.
Proof.
  intros Hsub Hin [_ H]. split; [done|].
  destruct H as [[H1 H2]|[H1 H2]]; [left|right]; split; auto.
Qed.

Definition sorted_of (m : gmap Z M) : list Z := merge_sort Z.le (elements (dom m)).

(** A sound circle: replicas, sorted hashes, and the count of the members. *)
Definition ring_wf (c : Consistent M) : Prop :=
  0 < NumberOfReplicas c /\ sortedHashes c = sorted_of (circle c) /\
  count c = Z.of_nat (size (members c)).

(** The same whatever the count is. *)
Definition ring_sorted (c : Consistent M) : Prop :=
  0 < NumberOfReplicas c /\ sortedHashes c = sorted_of (circle c).

Lemma ring_wf_sorted c : ring_wf c -> ring_sorted c.
Proof. by intros (? & ? & _). Qed.

Lemma sorted_of_elem m h : h ∈ sorted_of m <-> is_Some (m !! h).
Proof. unfold sorted_of. rewrite merge_sort_Permutation, elem_of_elements. apply elem_of_dom. Qed.

Lemma sorted_of_mono m i j x y :
  (i <= j)%nat -> sorted_of m !! i = Some x -> sorted_of m !! j = Some y -> x <= y.
Proof.
  assert (StronglySorted Z.le (sorted_of m)) as Hs by apply (StronglySorted_merge_sort Z.le).
  revert i j. induction Hs as [|z l _ IH Hz]; intros i j Hij Hx Hy; [done|].
  destruct i as [|i]; simpl in Hx; simplify_eq.
  - destruct j as [|j]; simpl in Hy; simplify_eq; [done|].
    rewrite Forall_forall in Hz. apply Hz. by eapply list_elem_of_lookup_2.
  - destruct j as [|j]; [lia|]. simpl in Hy. apply (IH i j); [lia|done..].
Qed.

Lemma nth_sorted (hs : list Z) i h : hs !! i = Some h -> nth i hs 0 = h.
Proof. intros H. by apply nth_lookup_Some. Qed.

(** [search] finds the successor, in range. *)
Lemma search_successor c key :
  ring_sorted c -> circle c <> ∅ ->
  exists h, sortedHashes c !! search c key = Some h /\ successor (dom (circle c)) key h.
Proof.
  intros [_ Hs] Hne. set (hs := sortedHashes c) in *.
  assert (forall i h, hs !! i = Some h -> h ∈ dom (circle c)) as Hdom.
  { intros i h Hi. apply elem_of_dom, sorted_of_elem. rewrite <- Hs. by eapply list_elem_of_lookup_2. }
  assert (forall h, h ∈ dom (circle c) -> exists i, hs !! i = Some h) as Hidx.
  { intros h Hh. apply elem_of_dom, sorted_of_elem in Hh. rewrite <- Hs in Hh.
    by apply list_elem_of_lookup_1. }
  assert (0 < length hs)%nat as Hlen.
  { destruct hs eqn:E; simpl; [|lia]. exfalso. apply Hne, map_empty. intros i.
    destruct (circle c !! i) eqn:Ei; [|done]. destruct (Hidx i) as [j Hj]; [by apply elem_of_dom|done]. }
  destruct (Search_spec (length hs) (fun x => key <? nth x hs 0)) as (H1 & H2 & H3).
  { intros x y Hxy. destruct (lookup_lt_is_Some_2 hs x) as [a Ha]; [lia|].
    destruct (lookup_lt_is_Some_2 hs y) as [b Hb]; [lia|].
    rewrite (nth_sorted _ _ _ Ha), (nth_sorted _ _ _ Hb). rewrite Hs in Ha, Hb.
    pose proof (sorted_of_mono _ _ _ _ _ (proj1 Hxy) Ha Hb). lia. }
  unfold search. fold hs. set (r := Search_ _ _) in *.
  assert (forall i h, hs !! i = Some h -> (i < r)%nat -> h <= key) as Hlow.
  { intros i h Hi Hr. specialize (H2 i Hr). simpl in H2. rewrite (nth_sorted _ _ _ Hi) in H2. lia. }
  case_decide as Hr.
  - destruct (lookup_lt_is_Some_2 hs 0%nat Hlen) as [h Hh]. exists h. split; [done|].
    split; [by eapply Hdom|]. right. split.
    + intros h' [i Hi]%Hidx. apply (Hlow i); [done|]. apply lookup_lt_Some in Hi. lia.
    + intros h' [i Hi]%Hidx. rewrite Hs in Hh, Hi. by eapply (sorted_of_mono _ 0 i); [lia|..].
  - destruct (lookup_lt_is_Some_2 hs r) as [h Hh]; [lia|]. exists h. split; [done|].
    split; [by eapply Hdom|]. left. specialize (H3 ltac:(lia)). simpl in H3.
    rewrite (nth_sorted _ _ _ Hh) in H3. split; [lia|]. intros h' [i Hi]%Hidx Hk.
    destruct (decide (i < r)%nat); [specialize (Hlow i h' Hi); lia|].
    rewrite Hs in Hh, Hi. by eapply (sorted_of_mono _ r i); [lia|..].
Qed.

(** What [Get] returns is the member at the successor. *)
Lemma Get_successor c name :
  ring_sorted c -> circle c <> ∅ ->
  exists h m, successor (dom (circle c)) (hashKey (UseFnv c) name) h /\ circle c !! h = Some m /\
    Get c name = Ret (Ok m).
Proof.
  intros Hwf Hne.
  destruct (search_successor c (hashKey (UseFnv c) name) Hwf Hne) as (h & Hh & Hs).
  destruct (circle c !! h) as [m|] eqn:E.
  - exists h, m. split_and!; [done|done|]. unfold Get, elem_at. rewrite decide_False by done.
    rewrite Hh, E. done.
  - destruct Hs as [Hin _]. apply elem_of_dom in Hin. rewrite E in Hin. by destruct Hin.
Qed.

(** *** Adding and removing points *)

Lemma insert_points_lookup (m : gmap Z M) e hs h :
  fold_left (fun m h => <[h := e]> m) hs m !! h = if decide (h ∈ hs) then Some e else m !! h.
Proof.
  revert m. induction hs as [|x hs IH]; intros m; simpl; [done|]. rewrite IH.
  destruct (decide (h ∈ hs)); [rewrite decide_True; [done|by right]|].
  destruct (decide (h = x)) as [->|]; [rewrite lookup_insert_eq, decide_True; [done|left]|].
  rewrite lookup_insert_ne by done. rewrite decide_False; [done|]. by intros [?|?]%elem_of_cons.
Qed.

Lemma delete_points_lookup (m : gmap Z M) hs h :
  fold_left (fun m h => delete h m) hs m !! h = if decide (h ∈ hs) then None else m !! h.
Proof.
  revert m. induction hs as [|x hs IH]; intros m; simpl; [done|]. rewrite IH.
  destruct (decide (h ∈ hs)); [rewrite decide_True; [done|by right]|].
  destruct (decide (h = x)) as [->|]; [rewrite lookup_delete_eq, decide_True; [done|left]|].
  rewrite lookup_delete_ne by done. rewrite decide_False; [done|]. by intros [?|?]%elem_of_cons.
Qed.

Lemma add_ok elt c :
  0 < NumberOfReplicas c ->
  exists c', add elt c = Ret c' /\ ring_sorted c' /\
    (forall h, circle c' !! h = if decide (h ∈ points c (mstring elt)) then Some elt else circle c !! h) /\
    members c' = {[ mstring elt ]} ∪ members c /\ count c' = count c + 1 /\
    NumberOfReplicas c' = NumberOfReplicas c /\ UseFnv c' = UseFnv c.
Proof.
  intros Hr. unfold add, updateSortedHashes. simpl.
  destruct (Z.eqb_spec (NumberOfReplicas c) 0); [lia|]. simpl. eexists. split; [done|].
  split_and!; try done. intros h. apply insert_points_lookup.
Qed.

Lemma remove_ok elt c :
  0 < NumberOfReplicas c ->
  exists c', remove elt c = Ret c' /\ ring_sorted c' /\
    (forall h, circle c' !! h = if decide (h ∈ points c elt) then None else circle c !! h) /\
    members c' = members c ∖ {[ elt ]} /\ count c' = count c - 1 /\
    NumberOfReplicas c' = NumberOfReplicas c /\ UseFnv c' = UseFnv c.
Proof.
  intros Hr. unfold remove, updateSortedHashes. simpl.
  destruct (Z.eqb_spec (NumberOfReplicas c) 0); [lia|]. simpl. eexists. split; [done|].
  split_and!; try done. intros h. apply delete_points_lookup.
Qed.

Lemma add_wf elt c c' :
  ring_wf c -> mstring elt ∉ members c -> add elt c = Ret c' -> ring_wf c'.
Proof.
  intros (Hr & Hs & Hc) Hn E. destruct (add_ok elt c Hr) as (c1 & E1 & [? ?] & _ & Hm & Hcnt & _).
  rewrite E in E1. simplify_eq. split_and!; [done|done|].
  rewrite Hcnt, Hm, Hc, size_union, size_singleton; [lia|set_solver].
Qed.

Lemma remove_wf elt c c' :
  ring_wf c -> elt ∈ members c -> remove elt c = Ret c' -> ring_wf c'.
Proof.
  intros (Hr & Hs & Hc) Hin E. destruct (remove_ok elt c Hr) as (c1 & E1 & [? ?] & _ & Hm & Hcnt & _).
  rewrite E in E1. simplify_eq. split_and!; [done|done|].
  rewrite Hcnt, Hm, Hc, size_difference, size_singleton by set_solver.
  assert (size (members c) <> 0)%nat; [|lia].
  intros Hz%size_empty_inv. set_solver.
Qed.

Lemma set_remove_ok elts ks c :
  ring_wf c -> NoDup ks -> (forall k, k ∈ ks -> k ∈ members c) ->
  exists c', set_remove elts ks c = Ret c' /\ ring_wf c' /\
    (forall k, k ∈ members c' <-> k ∈ members c /\ (k ∈ ks -> k ∈ map mstring elts)).
Proof.
  revert c. induction ks as [|k ks IH]; intros c Hwf Hnd Hin; simpl.
  - exists c. split_and!; [done|done|]. set_solver.
  - apply NoDup_cons in Hnd as [Hk Hnd]. case_decide as Hd.
    + destruct (IH c) as (c' & E & Hwf' & Hm); [done|done|set_solver|].
      exists c'. split_and!; [done|done|]. intros k'. rewrite Hm, elem_of_cons. naive_solver.
    + destruct (remove_ok k c) as (c1 & E1 & _ & _ & Hm1 & _); [apply Hwf|].
      rewrite E1. simpl.
      assert (ring_wf c1) as Hwf1 by (eapply remove_wf; [done| |done]; set_solver).
      destruct (IH c1) as (c' & E & Hwf' & Hm); [done|done|set_solver|].
      exists c'. split_and!; [done|done|]. intros k'. rewrite Hm, Hm1, elem_of_cons. set_solver.
Qed.

Lemma set_add_ok elts c :
  ring_wf c ->
  exists c', set_add elts c = Ret c' /\ ring_wf c' /\
    members c' = list_to_set (map mstring elts) ∪ members c.
Proof.
  revert c. induction elts as [|v elts IH]; intros c Hwf; simpl.
  - exists c. split_and!; [done|done|set_solver].
  - case_decide as Hd.
    + destruct (IH c Hwf) as (c' & E & Hwf' & Hm). exists c'. split_and!; [done|done|]. set_solver.
    + destruct (add_ok v c) as (c1 & E1 & _ & _ & Hm1 & _); [apply Hwf|]. rewrite E1. simpl.
      destruct (IH c1) as (c' & E & Hwf' & Hm); [by eapply add_wf|].
      exists c'. split_and!; [done|done|]. set_solver.
Qed.

(** ** Properties *)

(** [Set] leaves exactly the given elements: from a sound circle it ends
    without a panic in a sound circle (hashes sorted, count equal to the
    number of members) whose members are the names of the elements. *)
Theorem set_members elts c :
  ring_wf c ->
  exists c', Set_ elts c = Ret c' /\ ring_wf c' /\ members c' = list_to_set (map mstring elts).
Proof.
  intros Hwf. unfold Set_.
  destruct (set_remove_ok elts (elements (members c)) c) as (c1 & E1 & Hwf1 & Hm1);
    [done|apply NoDup_elements|by intros k ?%elem_of_elements|].
  rewrite E1. simpl. destruct (set_add_ok elts c1 Hwf1) as (c' & E & Hwf' & Hm).
  exists c'. split_and!; [done|done|]. rewrite Hm. apply set_eq. intros k.
  rewrite elem_of_union, Hm1, elem_of_elements, elem_of_list_to_set. naive_solver.
Qed.

(** [Get] is the successor on the circle: on a sound, non-empty circle it
    returns, without a panic, the member filed under the least hash above the
    hash of the name, or under the least hash of all when there is none. *)
Theorem get_is_successor c name m :
  ring_wf c -> circle c <> ∅ ->
  Get c name = Ret (Ok m) <->
  exists h, successor (dom (circle c)) (hashKey (UseFnv c) name) h /\ circle c !! h = Some m.
Proof.
  intros Hwf%ring_wf_sorted Hne. destruct (Get_successor c name Hwf Hne) as (h & m' & Hs & Hm & E).
  rewrite E. split.
  - intros. simplify_eq. eauto.
  - intros (h' & Hs' & Hm'). rewrite (successor_unique _ _ _ _ Hs' Hs) in Hm'. by simplify_eq.
Qed.

(** C36: adding a member moves keys to it only: after [add], every name maps to
    the member it had before or to the new one. *)
Theorem add_minimal_disruption elt c c' name m :
  ring_wf c -> add elt c = Ret c' -> Get c name = Ret (Ok m) ->
  Get c' name = Ret (Ok m) \/ Get c' name = Ret (Ok elt).
Proof.
  intros Hwf E Hg.
  assert (circle c <> ∅) as Hne by (intros H0; unfold Get in Hg; by rewrite decide_True in Hg).
  destruct (Get_successor c name (ring_wf_sorted c Hwf) Hne) as (h & m' & Hs & Hm & Eg). rewrite Hg in Eg. simplify_eq.
  destruct (add_ok elt c) as (c1 & E1 & Hs1 & Hl & _ & _ & _ & Hf); [apply Hwf|].
  rewrite E in E1. simplify_eq.
  assert (dom (circle c) ⊆ dom (circle c1)) as Hsub.
  { intros k Hk. apply elem_of_dom. rewrite Hl. case_decide; [done|]. by apply elem_of_dom. }
  assert (circle c1 <> ∅) as Hne1.
  { intros H0. apply Hne, map_empty. intros k. specialize (Hl k). rewrite H0, lookup_empty in Hl.
    case_decide; [done|congruence]. }
  destruct (Get_successor c1 name Hs1 Hne1) as (h1 & m1 & Hsucc & Hm1 & Eg1).
  rewrite Hl in Hm1. case_decide; [right; by simplify_eq|left].
  rewrite Eg1. rewrite Hf in Hsucc.
  assert (h = h1) as ->; [|by simplify_eq].
  eapply successor_unique; [done|]. eapply successor_subset; [exact Hsub| |done].
  by apply elem_of_dom.
Qed.

(** Removing a member moves only its keys: a name whose point on the circle
    is not one of the removed ones keeps its member after [remove]. *)
Theorem remove_minimal_disruption elt c c' name h m :
  ring_wf c -> remove elt c = Ret c' ->
  successor (dom (circle c)) (hashKey (UseFnv c) name) h -> h ∉ points c elt ->
  circle c !! h = Some m -> Get c' name = Ret (Ok m).
Proof.
  intros Hwf E Hs Hh Hm.
  destruct (remove_ok elt c) as (c1 & E1 & Hs1 & Hl & _ & _ & _ & Hf); [apply Hwf|].
  rewrite E in E1. simplify_eq.
  assert (circle c1 !! h = Some m) as Hm1 by (by rewrite Hl, decide_False).
  assert (circle c1 <> ∅) as Hne1 by (intros H0; by rewrite H0, lookup_empty in Hm1).
  destruct (Get_successor c1 name Hs1 Hne1) as (h1 & m1 & Hsucc & Hm1' & Eg1). rewrite Eg1.
  assert (h1 = h) as ->; [|by simplify_eq].
  eapply successor_unique; [done|]. rewrite Hf. eapply successor_subset; [| |exact Hs].
  - intros k Hk. apply elem_of_dom in Hk as [x Hx]. rewrite Hl in Hx. case_decide; [done|].
    apply elem_of_dom. eauto.
  - apply elem_of_dom. eauto.
Qed.

(** *** Walking the circle *)

(** The members met from a point on, once around. *)
Definition ring (c : Consistent M) (start : nat) : list M :=
  map (fun h => default zero (circle c !! h)) (drop start (sortedHashes c) ++ take start (sortedHashes c)).

(** The first member of every name. *)
Definition distinct (l : list M) : list M := fold_left push l [].

Lemma push_prefix res e : res `prefix_of` push res e.
Proof. unfold push. case_match; [done|by apply prefix_app_r]. Qed.

Lemma fold_push_prefix l res : res `prefix_of` fold_left push l res.
Proof.
  revert res. induction l as [|e l IH]; intros res; simpl; [done|].
  etrans; [apply (push_prefix res e)|apply IH].
Qed.

Lemma distinct_app l1 l2 : distinct (l1 ++ l2) = fold_left push l2 (distinct l1).
Proof. unfold distinct. by rewrite fold_left_app. Qed.

Lemma sliceContains_spec res e :
  sliceContainsMember res e = true <-> mstring e ∈ map mstring res.
Proof.
  unfold sliceContainsMember. rewrite existsb_exists. split.
  - intros (m & Hin%list_elem_of_In & Heq%bool_decide_eq_true). rewrite <- Heq.
    by apply list_elem_of_fmap_2.
  - intros (m & Heq & Hin)%list_elem_of_fmap. exists m. split; [by apply list_elem_of_In|].
    by apply bool_decide_eq_true.
Qed.

Lemma push_spec res e :
  NoDup (map mstring res) ->
  NoDup (map mstring (push res e)) /\ (length (push res e) <= S (length res))%nat /\
  (forall x, x ∈ map mstring (push res e) <-> x ∈ map mstring res \/ x = mstring e).
Proof.
  intros Hnd. unfold push. destruct (sliceContainsMember res e) eqn:E.
  - apply sliceContains_spec in E. split_and!; [done|lia|]. intros x. split; [by left|].
    by intros [?| ->].
  - assert (mstring e ∉ map mstring res) as Hn by (rewrite <- sliceContains_spec; congruence).
    rewrite length_app, map_app. simpl. split_and!; [|lia|].
    + apply NoDup_app. split_and!; [done| |apply NoDup_singleton].
      intros x Hx Hx'. by apply list_elem_of_singleton in Hx' as ->.
    + intros x. by rewrite elem_of_app, list_elem_of_singleton.
Qed.

Lemma fold_push_spec l res :
  NoDup (map mstring res) ->
  NoDup (map mstring (fold_left push l res)) /\
  (forall x, x ∈ map mstring (fold_left push l res) <-> x ∈ map mstring res \/ x ∈ map mstring l).
Proof.
  revert res. induction l as [|e l IH]; intros res Hnd; simpl.
  - split; [done|]. intros x. split; [by left|]. by intros [?|?%elem_of_nil].
  - destruct (push_spec res e Hnd) as (Hnd' & _ & Hin). destruct (IH _ Hnd') as [H1 H2].
    split; [done|]. intros x. rewrite H2, Hin, elem_of_cons. tauto.
Qed.

Lemma distinct_names l :
  NoDup (map mstring (distinct l)) /\ forall x, x ∈ map mstring (distinct l) <-> x ∈ map mstring l.
Proof.
  destruct (fold_push_spec l []) as [H1 H2]; [constructor|]. split; [done|].
  intros x. unfold distinct. rewrite H2. split; [by intros [?%elem_of_nil|?]|by right].
Qed.

Lemma ring_length c start : length (ring c start) = length (sortedHashes c).
Proof. unfold ring. rewrite length_map, length_app, length_drop, length_take. lia. Qed.

(** The [j]-th member of the walk. *)
Lemma ring_at c start j :
  (start < length (sortedHashes c))%nat -> (j < length (sortedHashes c))%nat ->
  exists m, ring c start !! j = Some m /\
    elem_at c (if decide (start + j < length (sortedHashes c))%nat then start + j
               else start + j - length (sortedHashes c))%nat = Ret m.
Proof.
  intros Hs Hj. unfold ring, elem_at. rewrite list_lookup_fmap. case_decide as Hd.
  - rewrite lookup_app_l by (rewrite length_drop; lia). rewrite lookup_drop.
    destruct (lookup_lt_is_Some_2 (sortedHashes c) (start + j)) as [h Hh]; [lia|].
    rewrite Hh. simpl. eauto.
  - rewrite lookup_app_r by (rewrite length_drop; lia). rewrite length_drop, lookup_take by lia.
    replace (j - (length (sortedHashes c) - start))%nat with (start + j - length (sortedHashes c))%nat by lia.
    rewrite decide_True by lia.
    destruct (lookup_lt_is_Some_2 (sortedHashes c) (start + j - length (sortedHashes c))) as [h Hh]; [lia|].
    rewrite Hh. simpl. eauto.
Qed.

Lemma getN_loop_spec c start n k : forall fuel j i,
  let len := length (sortedHashes c) in
  (k < fuel)%nat -> (j + k = len)%nat -> (1 <= j)%nat -> (start < len)%nat ->
  (i = start + j /\ start + j <= len \/ i + len = start + j)%nat ->
  (length (distinct (take j (ring c start))) < n <= length (distinct (ring c start)))%nat ->
  getN_loop fuel c start i (Z.of_nat n) (distinct (take j (ring c start)))
  = Some (Ret (take n (distinct (ring c start)))).
Proof.
  induction k as [|k IH]; intros fuel j i len Hf Hjk Hj Hs Hi Hn.
  - rewrite take_ge in Hn by (rewrite ring_length; subst len; lia). lia.
  - destruct fuel as [|fuel]; [lia|]. simpl. rewrite decide_False by lia.
    destruct (ring_at c start j) as (m & Hm & He); [subst len; lia..|]. fold len in He.
    assert (next_index c i = if decide (start + j < len)%nat then (start + j)%nat
                             else (start + j - len)%nat) as Hnext.
    { unfold next_index. fold len. repeat case_decide; lia. }
    rewrite Hnext, He.
    assert (push (distinct (take j (ring c start))) m = distinct (take (S j) (ring c start))) as Hpush.
    { rewrite (take_S_r _ _ _ Hm), distinct_app. done. }
    rewrite Hpush.
    assert (distinct (take (S j) (ring c start)) `prefix_of` distinct (ring c start)) as [tl Htl].
    { rewrite <- (take_drop (S j) (ring c start)) at 2. rewrite distinct_app. apply fold_push_prefix. }
    destruct (push_spec (distinct (take j (ring c start))) m) as (_ & Hlen & _);
      [apply distinct_names|]. rewrite Hpush in Hlen.
    destruct (Z.eqb_spec (Z.of_nat (length (distinct (take (S j) (ring c start))))) (Z.of_nat n)) as [E|E].
    + apply Nat2Z.inj in E. by rewrite Htl, (take_app_length' _ _ n (eq_sym E)).
    + apply IH; try lia. fold len. case_decide; lia.
Qed.

Lemma GetN_run c name n fuel :
  let start := search c (hashKey (UseFnv c) name) in
  let n' := Z.to_nat (Z.min n (count c)) in
  ring_wf c -> circle c <> ∅ -> 1 <= n ->
  (1 <= n' <= length (distinct (ring c start)))%nat ->
  (length (sortedHashes c) <= fuel)%nat ->
  exists ms, GetN fuel c name n = Some (Ret (Ok ms)) /\
    ms = take n' (distinct (ring c start)) /\ length ms = n' /\ NoDup (map mstring ms).
Proof.
  intros start n' Hwf Hne Hn Hn' Hf.
  destruct (search_successor c (hashKey (UseFnv c) name) (ring_wf_sorted c Hwf) Hne) as (h & Hh & _).
  fold start in Hh. pose proof (lookup_lt_Some _ _ _ Hh) as Hs.
  assert (exists m, ring c start !! 0%nat = Some m /\ elem_at c start = Ret m) as (m & Hm & He).
  { destruct (ring_at c start 0) as (m & Hm & He); [lia..|]. rewrite decide_True in He by lia.
    rewrite Nat.add_0_r in He. eauto. }
  exists (take n' (distinct (ring c start))). split; [|split_and!; [done|rewrite length_take; lia|]].
  - unfold GetN. rewrite decide_False by done. fold start. rewrite He.
    replace (if count c <? n then count c else n) with (Z.of_nat n')
      by (subst n'; destruct (Z.ltb_spec (count c) n); lia).
    destruct (Z.ltb_spec (Z.of_nat n') 0); [lia|].
    destruct (ring c start) as [|m1 l] eqn:Er; [done|]. simpl in Hm. injection Hm as ->.
    assert (distinct [m] = [m]) as Hd1 by done.
    assert ([m] `prefix_of` distinct (m :: l)) as [tl Htl] by apply (fold_push_prefix l [m]).
    destruct (Z.eqb_spec 1 (Z.of_nat n')) as [E|E].
    + replace n' with 1%nat by lia. by rewrite Htl.
    + rewrite <- Hd1, <- Er. change [m] with (take 1 (m :: l)). rewrite <- Er.
      rewrite (getN_loop_spec c start n' (length (sortedHashes c) - 1)); [done|lia..| |].
      * left. lia.
      * rewrite Er. change (take 1 (m :: l)) with [m]. rewrite Hd1. simpl length in *. lia.
  - pose proof (proj1 (distinct_names (ring c start))) as Hnd.
    rewrite <- (take_drop n' (distinct (ring c start))), map_app in Hnd.
    by apply NoDup_app in Hnd as (? & _).
Qed.

(** C7: [GetN] returns the first [n] distinct members met on the circle, and ends:
    on a sound, non-empty circle, for an [n] (cut at the count) between one and
    the number of distinct names on the circle, one round of fuel is enough and
    the result is the first [n] members of different names from the point of
    the name on; their names are all different. *)
Theorem getN_first_distinct c name n fuel :
  let start := search c (hashKey (UseFnv c) name) in
  let n' := Z.to_nat (Z.min n (count c)) in
  ring_wf c -> circle c <> ∅ -> 1 <= n ->
  (1 <= n' <= length (distinct (ring c start)))%nat ->
  (length (sortedHashes c) <= fuel)%nat ->
  exists ms, GetN fuel c name n = Some (Ret (Ok ms)) /\
    ms = take n' (distinct (ring c start)) /\ length ms = n' /\ NoDup (map mstring ms).
Proof. apply GetN_run. Qed.

(** *** The loop that does not end *)

Lemma names_bound (res l : list M) :
  NoDup (map mstring res) -> (forall x, x ∈ map mstring res -> x ∈ map mstring l) ->
  (length res <= length (distinct l))%nat.
Proof.
  intros Hnd Hsub. rewrite <- (length_map mstring res), <- (length_map mstring (distinct l)).
  apply submseteq_length, NoDup_submseteq; [done|]. intros x Hx. apply distinct_names. auto.
Qed.

Lemma getN_loop_diverges c n fuel : forall i res,
  (0 < length (sortedHashes c))%nat -> (1 <= i)%nat ->
  NoDup (map mstring res) -> (1 <= length res)%nat ->
  (forall x, x ∈ map mstring res -> x ∈ map mstring (ring c 0)) ->
  ~ (1 <= n <= Z.of_nat (length (distinct (ring c 0)))) ->
  getN_loop fuel c 0 i n res = None.
Proof.
  induction fuel as [|fuel IH]; intros i res Hlen Hi Hnd Hr Hsub Hn; simpl; [done|].
  rewrite decide_False by lia.
  assert (next_index c i < length (sortedHashes c))%nat as Hni
    by (unfold next_index; case_decide; lia).
  destruct (ring_at c 0 (next_index c i)) as (m & Hm & He); [lia..|].
  rewrite decide_True in He by lia. simpl in He. rewrite He.
  destruct (push_spec res m Hnd) as (Hnd' & _ & Hin).
  assert (forall x, x ∈ map mstring (push res m) -> x ∈ map mstring (ring c 0)) as Hsub'.
  { intros x Hx. apply Hin in Hx as [?| ->]; [auto|]. apply list_elem_of_fmap_2.
    by eapply list_elem_of_lookup_2. }
  pose proof (names_bound _ _ Hnd' Hsub'). pose proof (prefix_length _ _ (push_prefix res m)).
  destruct (Z.eqb_spec (Z.of_nat (length (push res m))) n); [lia|].
  apply IH; [done|lia|done|lia|done|done].
Qed.

(** [GetN] can loop forever: when the name falls on the first point of the
    circle, the exit test [i != start] is never false (the index is reset to 0
    inside the body and incremented before the test), so for an [n] that the
    circle cannot fill (zero, or a count above the distinct members) no amount
    of steps ends the loop, with the read lock held. *)
Theorem getN_diverges c name n :
  let n' := if count c <? n then count c else n in
  ring_sorted c -> circle c <> ∅ -> search c (hashKey (UseFnv c) name) = 0%nat ->
  0 <= n' -> ~ (1 <= n' <= Z.of_nat (length (distinct (ring c 0)))) ->
  forall fuel, GetN fuel c name n = None.
Proof.
  intros n' Hwf Hne Hz Hn0 Hn fuel.
  destruct (search_successor c (hashKey (UseFnv c) name) Hwf Hne) as (h & Hh & _).
  rewrite Hz in Hh. pose proof (lookup_lt_Some _ _ _ Hh) as Hs.
  destruct (ring_at c 0 0) as (m & Hm & He); [lia..|]. rewrite decide_True in He by lia. simpl in He.
  unfold GetN. rewrite decide_False by done. rewrite Hz, He. fold n'.
  destruct (Z.ltb_spec n' 0); [lia|].
  assert (map mstring [m] ⊆ map mstring (ring c 0)) as Hsub.
  { intros x Hx. simpl in Hx. apply list_elem_of_singleton in Hx as ->. apply list_elem_of_fmap_2.
    by eapply list_elem_of_lookup_2. }
  pose proof (names_bound [m] (ring c 0) (NoDup_singleton _) Hsub) as Hb. cbn [length] in Hb.
  destruct (Z.eqb_spec 1 n'); [lia|].
  rewrite getN_loop_diverges; [done|lia..|apply NoDup_singleton|simpl; lia|exact Hsub|done].
Qed.

(** *** Where the results come from *)

Lemma set_add_values elts c c' :
  ring_wf c -> set_add elts c = Ret c' ->
  forall h m, circle c' !! h = Some m -> m ∈ elts \/ circle c !! h = Some m.
Proof.
  revert c. induction elts as [|v elts IH]; intros c Hwf; simpl.
  - intros E h m Hm. simplify_eq. by right.
  - case_decide as Hd.
    + intros E h m Hm. destruct (IH c Hwf E h m Hm); [left; by right|by right].
    + destruct (add_ok v c) as (c1 & E1 & _ & Hl & _); [apply Hwf|]. rewrite E1. simpl.
      intros E h m Hm. destruct (IH c1 (add_wf _ _ _ Hwf Hd E1) E h m Hm) as [?|H1];
        [left; by right|].
      rewrite Hl in H1. case_decide; [left; simplify_eq; by left|by right].
Qed.

Lemma add_nonempty v c c' : 0 < NumberOfReplicas c -> add v c = Ret c' -> circle c' <> ∅.
Proof.
  intros Hr E H0. destruct (add_ok v c Hr) as (c1 & E1 & _ & Hl & _). rewrite E in E1. simplify_eq.
  specialize (Hl (hashKey (UseFnv c) (eltKey (mstring v) (Z.of_nat 0)))).
  rewrite H0, lookup_empty, decide_True in Hl; [done|].
  unfold points. apply list_elem_of_fmap. exists 0%nat. split; [done|]. apply elem_of_seq. lia.
Qed.

Lemma set_add_nonempty elts c c' :
  ring_wf c -> circle c <> ∅ -> set_add elts c = Ret c' -> circle c' <> ∅.
Proof.
  revert c. induction elts as [|v elts IH]; intros c Hwf Hne; simpl; [by intros; simplify_eq|].
  case_decide as Hd; [by apply IH|].
  destruct (add_ok v c) as (c1 & E1 & _); [apply Hwf|]. rewrite E1. simpl. apply IH.
  - by eapply add_wf.
  - eapply add_nonempty; [apply Hwf|done].
Qed.

Lemma elem_at_value c i m :
  ring_sorted c -> elem_at c i = Ret m -> exists h, circle c !! h = Some m.
Proof.
  intros [_ Hs]. unfold elem_at. destruct (sortedHashes c !! i) as [h|] eqn:E; [|done].
  intros Hm. simplify_eq. exists h.
  apply list_elem_of_lookup_2 in E. rewrite Hs in E. apply sorted_of_elem in E as [m E]. by rewrite E.
Qed.

Lemma getN_loop_result c fuel : forall start i n acc ms,
  ring_sorted c -> NoDup (map mstring acc) -> (1 <= length acc)%nat -> Z.of_nat (length acc) < n ->
  (forall m, m ∈ acc -> exists h, circle c !! h = Some m) ->
  getN_loop fuel c start i n acc = Some (Ret ms) ->
  NoDup (map mstring ms) /\ Z.of_nat (length ms) <= n /\
  (forall m, m ∈ ms -> exists h, circle c !! h = Some m).
Proof.
  induction fuel as [|fuel IH]; intros start i n acc ms Hs Hnd Hl Hn Hin; simpl; [done|].
  case_decide; [intros; simplify_eq; split_and!; [done|lia|done]|].
  destruct (elem_at c (next_index c i)) as [m|] eqn:E; [|done].
  destruct (push_spec acc m Hnd) as (Hnd' & Hlen & _).
  pose proof (prefix_length _ _ (push_prefix acc m)).
  assert (forall m', m' ∈ push acc m -> exists h, circle c !! h = Some m') as Hin'.
  { intros m'. unfold push. case_match; [auto|]. intros [?| ->%list_elem_of_singleton]%elem_of_app; [auto|].
    by eapply elem_at_value. }
  destruct (Z.eqb_spec (Z.of_nat (length (push acc m))) n).
  - intros. simplify_eq. split_and!; [done|lia|done].
  - intros Hr. eapply IH; [done|done| | |done|done]; lia.
Qed.

Lemma GetN_result c fuel name n ms :
  ring_sorted c -> 1 <= n -> 1 <= count c -> GetN fuel c name n = Some (Ret (Ok ms)) ->
  NoDup (map mstring ms) /\ Z.of_nat (length ms) <= n /\
  (forall m, m ∈ ms -> exists h, circle c !! h = Some m).
Proof.
  intros Hs Hn Hc. unfold GetN. case_decide; [done|].
  set (n' := if count c <? n then count c else n).
  assert (1 <= n' <= n) as Hn' by (subst n'; destruct (Z.ltb_spec (count c) n); lia).
  destruct (elem_at c _) as [m|] eqn:E; [|done].
  destruct (Z.ltb_spec n' 0); [done|]. destruct (Z.eqb_spec 1 n') as [E1|E1].
  - intros. simplify_eq. split_and!; [apply NoDup_singleton|simpl; lia|].
    intros m' ->%list_elem_of_singleton. by eapply elem_at_value.
  - destruct (getN_loop _ _ _ _ _ _) as [[ms'|]|] eqn:El; [|done..]. intros. simplify_eq.
    destruct (getN_loop_result c fuel (search c (hashKey (UseFnv c) name))
      (S (search c (hashKey (UseFnv c) name))) n' [m] ms Hs
      (NoDup_singleton _) ltac:(simpl; lia) ltac:(simpl; lia)) as (H1 & H2 & H3); [|exact El|].
    { intros m' ->%list_elem_of_singleton. by eapply elem_at_value. }
    split_and!; [done|lia|done].
Qed.

(** The circle of [Subset]. *)
Lemma fresh_wf : ring_wf (mkC ∅ ∅ [] 160 0 true).
Proof. by vm_compute. Qed.

Lemma Set_fresh inss c :
  Set_ inss (mkC ∅ ∅ [] 160 0 true) = Ret c ->
  ring_wf c /\ members c = list_to_set (map mstring inss) /\ (inss <> [] -> circle c <> ∅) /\
  forall h m, circle c !! h = Some m -> m ∈ inss.
Proof.
  unfold Set_. assert (elements (members (M := M) (mkC ∅ ∅ [] 160 0 true)) = []) as -> by done.
  cbn [set_remove outcome_bind]. intros E.
  destruct (set_add_ok inss _ fresh_wf) as (c' & E' & Hwf & Hm). rewrite E in E'. simplify_eq.
  split_and!; [done|rewrite Hm; apply (right_id_L ∅ (∪))| |].
  { intros Hne. destruct inss as [|v inss]; [done|]. cbn [set_add] in E.
    rewrite decide_False in E by apply not_elem_of_empty.
    destruct (add_ok v (mkC ∅ ∅ [] 160 0 true)) as (c1 & E1 & _); [done|]. rewrite E1 in E. cbn [outcome_bind] in E.
    eapply set_add_nonempty; [|eapply add_nonempty; [|exact E1]; done|exact E].
    eapply add_wf; [apply fresh_wf|apply not_elem_of_empty|exact E1]. }
  intros h m Hh. destruct (set_add_values inss _ _ fresh_wf E h m Hh) as [?|H0]; [done|].
  cbn [circle] in H0. by rewrite lookup_empty in H0.
Qed.

Lemma Subset_run key inss num :
  1 <= num -> NoDup (map mstring inss) ->
  (forall c, Set_ inss (mkC ∅ ∅ [] 160 0 true) = Ret c ->
    forall i, i ∈ inss -> exists h m, circle c !! h = Some m /\ mstring m = mstring i) ->
  exists fuel0, forall fuel, (fuel0 <= fuel)%nat ->
    exists ms, Subset fuel key inss num = Some (Ret ms) /\
      Z.of_nat (length ms) = Z.min num (Z.of_nat (length inss)) /\
      NoDup (map mstring ms) /\ (forall m, m ∈ ms -> m ∈ inss).
Proof.
  intros Hn Hnd Hpts. destruct (Z.leb_spec (Z.of_nat (length inss)) num) as [Hle|Hgt].
  { exists 0%nat. intros fuel _. exists inss. unfold Subset.
    destruct (Z.leb_spec (Z.of_nat (length inss)) num); [|lia]. split_and!; [done|lia|done|done]. }
  unfold Subset. destruct (Z.leb_spec (Z.of_nat (length inss)) num); [lia|].
  destruct (set_add_ok inss _ fresh_wf) as (c & E & _).
  assert (Set_ inss (mkC ∅ ∅ [] 160 0 true) = Ret c) as Ec.
  { unfold Set_. assert (elements (members (M := M) (mkC ∅ ∅ [] 160 0 true)) = []) as -> by done. exact E. }
  specialize (Hpts c Ec). rewrite Ec. apply Set_fresh in Ec as (Hwf & Hm & Hne & Hv).
  assert (inss <> []) as Hin by (intros ->; simpl in *; lia). specialize (Hne Hin).
  assert (count c = Z.of_nat (length inss)) as Hcount.
  { destruct Hwf as (_ & _ & ->). rewrite Hm, size_list_to_set by done. by rewrite length_map. }
  assert (length inss <= length (distinct (ring c (search c (hashKey (UseFnv c) key)))))%nat as Hd.
  { rewrite <- (length_map mstring inss), <- (length_map mstring (distinct _)).
    apply submseteq_length, NoDup_submseteq; [done|].
    intros x (i & -> & Hi)%list_elem_of_fmap. apply distinct_names.
    destruct (Hpts i Hi) as (h & m & Hh & <-). apply list_elem_of_fmap_2. unfold ring.
    apply list_elem_of_fmap. exists h. split; [by rewrite Hh|].
    assert (h ∈ sortedHashes c) as Hs.
    { destruct Hwf as (_ & -> & _). apply sorted_of_elem. eauto. }
    rewrite <- (take_drop (search c (hashKey (UseFnv c) key)) (sortedHashes c)) in Hs.
    rewrite elem_of_app in Hs |- *. tauto. }
  exists (length (sortedHashes c)). intros fuel Hf.
  destruct (GetN_run c key num fuel Hwf Hne Hn) as (ms & Eg & _ & Hlen & Hnd'); [lia|done|].
  rewrite Eg. exists ms. split_and!; [done|lia|done|].
  destruct (GetN_result c fuel key num ms (ring_wf_sorted c Hwf) Hn ltac:(lia) Eg) as (_ & _ & H3).
  intros m (h & Hh)%H3. by eapply Hv.
Qed.

(** [Subset] picks exactly the size asked for, and ends: for instances of
    different names, each with a point left on the circle, and a size of at
    least one, enough steps end in a list of that size (or of all the
    instances, if they are fewer) of instances with different names. *)
Theorem subset_selects key inss num :
  1 <= num -> NoDup (map mstring inss) ->
  (forall c, Set_ inss (mkC ∅ ∅ [] 160 0 true) = Ret c ->
    forall i, i ∈ inss -> exists h m, circle c !! h = Some m /\ mstring m = mstring i) ->
  exists fuel0, forall fuel, (fuel0 <= fuel)%nat ->
    exists ms, Subset fuel key inss num = Some (Ret ms) /\
      Z.of_nat (length ms) = Z.min num (Z.of_nat (length inss)) /\
      NoDup (map mstring ms) /\ (forall m, m ∈ ms -> m ∈ inss).
Proof. apply Subset_run. Qed.

End Circle.

(** The check values of the two hash functions. *)
Example fnv_check : hashKeyFnv "foobar" = 3214735720.
Proof. reflexivity. Qed.

Example crc_check : hashKeyCRC32 "123456789" = 3421780262.
Proof. vm_compute. reflexivity. Qed.

(** ** Witnesses: members that are their own names *)

#[export] Instance string_member : Member string := {| mstring := fun s => s; zero := EmptyString |}.

Definition build (l : list string) : Consistent string :=
  match Set_ l (mkC ∅ ∅ [] 3 0 true) with Ret c => c | Panic _ => New end.

Lemma build_wf l : ring_wf (build l).
Proof.
  unfold build. destruct (set_add_ok l (mkC ∅ ∅ [] 3 0 true)) as (c & E & Hwf & _); [by vm_compute|].
  unfold Set_. assert (elements (members (M := string) (mkC ∅ ∅ [] 3 0 true)) = []) as -> by done.
  cbn [set_remove outcome_bind]. by rewrite E.
Qed.

Lemma set_members_witness :
  exists c', Set_ ["a"; "b"; "a"] New = Ret c' /\ ring_wf c' /\ members c' = {[ "a"; "b"; "a" ]}.
Proof.
  destruct (set_members ["a"; "b"; "a"] New) as (c' & E & Hwf & Hm); [by vm_compute|].
  exists c'. split_and!; [exact E|exact Hwf|]. rewrite Hm. set_solver.
Defined.

Lemma get_is_successor_witness :
  exists h, successor (dom (circle (build ["a"; "b"; "c"]))) (hashKey true "user-17") h.
Proof.
  destruct (proj1 (get_is_successor (build ["a"; "b"; "c"]) "user-17" "c" (build_wf _) ltac:(by vm_compute)))
    as (h & Hs & _); [vm_compute; reflexivity|]. exists h. exact Hs.
Defined.

Lemma add_minimal_disruption_witness :
  exists c', add "d" (build ["a"; "b"; "c"]) = Ret c' /\
    (Get c' "user-17" = Ret (Ok "c") \/ Get c' "user-17" = Ret (Ok "d")).
Proof.
  destruct (add "d" (build ["a"; "b"; "c"])) as [c'|] eqn:E; [|by vm_compute in E].
  exists c'. split; [reflexivity|].
  apply (add_minimal_disruption "d" (build ["a"; "b"; "c"]) c' "user-17" "c" (build_wf _) E).
  vm_compute. reflexivity.
Defined.

Lemma getN_first_distinct_witness :
  exists ms, GetN 9 (build ["a"; "b"; "c"]) "user-17" 2 = Some (Ret (Ok ms)) /\ NoDup ms.
Proof.
  destruct (getN_first_distinct (build ["a"; "b"; "c"]) "user-17" 2 9) as (ms & E & _ & _ & Hnd);
    [apply build_wf|by vm_compute|lia|vm_compute; lia|vm_compute; lia|].
  exists ms. split; [exact E|]. by rewrite map_id in Hnd.
Defined.

(** Every name has a point on the circle. *)
Definition all_on_circle (inss : list string) : bool :=
  match Set_ inss (mkC ∅ ∅ [] 160 0 true) with
  | Ret c => forallb (fun i => existsb (fun '(_, m) => bool_decide (m = i)) (map_to_list (circle c))) inss
  | Panic _ => false
  end.

Lemma subset_selects_witness :
  exists fuel0, forall fuel, (fuel0 <= fuel)%nat ->
    exists ms, Subset fuel "client-1" ["srv-1"; "srv-2"; "srv-3"] 2 = Some (Ret ms) /\ length ms = 2%nat.
Proof.
  destruct (subset_selects "client-1" ["srv-1"; "srv-2"; "srv-3"] 2) as [fuel0 Hf].
  - lia.
  - by apply (bool_decide_eq_true _).
  - assert (all_on_circle ["srv-1"; "srv-2"; "srv-3"] = true) as Hall by (vm_compute; reflexivity).
    intros c Ec i Hi. unfold all_on_circle in Hall. rewrite Ec in Hall.
    rewrite forallb_forall in Hall. apply list_elem_of_In, Hall, existsb_exists in Hi as ([h m] & Hin & Heq).
    apply bool_decide_eq_true in Heq as ->. exists h, i. split; [|reflexivity].
    by apply elem_of_map_to_list, list_elem_of_In.
  - exists fuel0. intros fuel Hle. destruct (Hf fuel Hle) as (ms & E & Hlen & _).
    exists ms. split; [exact E|]. simpl in Hlen. lia.
Defined.

(** A member added twice: the count is 2, the circle has one name. *)
Definition twice : Consistent string :=
  match outcome_bind (add "a" (mkC ∅ ∅ [] 1 0 true)) (add "a") with Ret c => c | Panic _ => New end.

Lemma getN_diverges_witness : ring_sorted twice /\ GetN 1000 twice "user-17" 2 = None.
Proof.
  split; [by vm_compute|].
  apply (getN_diverges twice "user-17" 2); [by vm_compute..|vm_compute; intros [_ H]; by apply H].
Defined.

Lemma remove_minimal_disruption_witness :
  exists c', remove "a" (build ["a"; "b"; "c"]) = Ret c' /\ Get c' "user-17" = Ret (Ok "c").
Proof.
  destruct (remove "a" (build ["a"; "b"; "c"])) as [c'|] eqn:E; [|by vm_compute in E].
  destruct (Get_successor (build ["a"; "b"; "c"]) "user-17") as (h & m & Hs & Hm & Eg);
    [apply ring_wf_sorted, build_wf|by vm_compute|].
  assert (m = "c") as -> by (vm_compute in Eg; congruence).
  exists c'. split; [reflexivity|].
  apply (remove_minimal_disruption "a" (build ["a"; "b"; "c"]) c' "user-17" h "c" (build_wf _) E Hs);
    [|exact Hm].
  intros Hin. assert (Forall (fun h => circle (build ["a"; "b"; "c"]) !! h = Some "a")
    (points (build ["a"; "b"; "c"]) "a")) as Hall by (vm_compute; repeat constructor).
  rewrite Forall_forall in Hall. apply Hall in Hin. congruence.
Defined.

End Consistent.
