(* ===== verification/Resolver.v ===== *)
(** * Endpoint resolution: infra/transport/gRPC/resolver/discovery and endpoint

    From the instances of a service to the addresses of a client connection:
    the endpoint of the right scheme, duplicates dropped, a subset chosen by
    consistent hashing.  [url.Parse] is the parameter [url_parse]. *)
From stdpp Require Import prelude strings list gmap.
From Stdlib Require Import ZArith Lia.
From S2P Require Import Prelude Consistent.
Local Open Scope Z_scope.
Local Open Scope go_scope.

Module Resolver.

(** infra/discovery/abstraction.go *)
Record ServiceInstance := mkInst {
  Id : string;
  Name : string;
  Version : string;
  Metadata : gmap string string;
  Endpoints : list string
}.

Definition ServiceInstance_String (s : ServiceInstance) : string := Name s +:+ "-" +:+ Id s.

#[export] Instance instance_member : Consistent.Member ServiceInstance := {|
  Consistent.mstring := ServiceInstance_String;
  Consistent.zero := mkInst "" "" "" ∅ []
|}.

Definition Scheme (scheme : string) (isSecure : bool) : string :=
  if isSecure then scheme +:+ "s" else scheme.

Section Resolve.
(** The scheme and the host of a URL. *)
Context (url_parse : string -> res string (string * string)).

Fixpoint ParseEndpoint (endpoints : list string) (scheme : string) : res string string :=
  match endpoints with
  | [] => Ok ""
  | e :: rest =>
      match url_parse e with
      | Err err => Err err
      | Ok (sch, host) => if decide (sch = scheme) then Ok host else ParseEndpoint rest scheme
      end
  end.

(** builder.go and resolver.go: the settings of a resolver. *)
Record discoveryResolver := mkRes {
  insecure : bool;
  subsetSize : Z;
  selectorKey : string
}.

Definition NewBuilder (options : list (discoveryResolver -> discoveryResolver)) : discoveryResolver :=
  fold_left (fun b o => o b) options (mkRes false 25 "").

Definition WithInsecure (v : bool) (b : discoveryResolver) : discoveryResolver :=
  mkRes v (subsetSize b) (selectorKey b).

Definition WithSubset (size : Z) (b : discoveryResolver) : discoveryResolver :=
  mkRes (insecure b) size (selectorKey b).

Definition endpoint_of (r : discoveryResolver) (i : ServiceInstance) : res string string :=
  ParseEndpoint (Endpoints i) (Scheme "grpc" (negb (insecure r))).

(** The loop of [filterEndpoints]; the errors are logged. *)
Fixpoint filter_loop (r : discoveryResolver) (ins : list ServiceInstance)
    (endpoints : gset string) (filtered : list ServiceInstance) : gset string * list ServiceInstance :=
  match ins with
  | [] => (endpoints, filtered)
  | i :: rest =>
      match endpoint_of r i with
      | Err _ => filter_loop r rest endpoints filtered
      | Ok ept =>
          if decide (ept = "") then filter_loop r rest endpoints filtered
          else if decide (ept ∈ endpoints) then filter_loop r rest endpoints filtered
          else filter_loop r rest ({[ ept ]} ∪ endpoints) (filtered ++ [i])
      end
  end.

Definition filterEndpoints (r : discoveryResolver) (ins : list ServiceInstance)
  : gset string * list ServiceInstance := filter_loop r ins ∅ [].

(** [resolver.Address]; the attributes are the metadata and the instance. *)
Record Address := mkAddr { ServerName : string; Addr : string; Attributes : ServiceInstance }.

Definition mapToAddresses (r : discoveryResolver) (ins : list ServiceInstance) : list Address :=
  map (fun i =>
    mkAddr (Name i) (match endpoint_of r i with Ok ept => ept | Err _ => "" end) i) ins.

(** The addresses [update] hands to the connection. *)
Definition update (fuel : nat) (r : discoveryResolver) (ins : list ServiceInstance)
  : option (outcome (list Address)) :=
  let '(_, filtered) := filterEndpoints r ins in
  if subsetSize r =? 0 then Some (Ret (mapToAddresses r filtered))
  else match Consistent.Subset fuel (selectorKey r) filtered (subsetSize r) with
       | Some (Ret filtered) => Some (Ret (mapToAddresses r filtered))
       | Some (Panic p) => Some (Panic p)
       | None => None
       end.

(** ** Lemmas *)

Abbreviation ept_of r i := (match endpoint_of r i with Ok e => e | Err _ => EmptyString end).

(** A filtered list: every instance has an endpoint, no endpoint twice. *)
Definition filtered_ok (r : discoveryResolver) (l : list ServiceInstance) : Prop :=
  NoDup (map (fun i => ept_of r i) l) /\ Forall (fun i => ept_of r i <> "") l.

Lemma filter_loop_spec r ins : forall eps acc,
  filtered_ok r acc -> (forall e, e ∈ eps <-> e ∈ map (fun i => ept_of r i) acc) ->
  filtered_ok r (snd (filter_loop r ins eps acc)) /\
  (forall i, i ∈ snd (filter_loop r ins eps acc) -> i ∈ acc \/ i ∈ ins) /\
  (forall i e, i ∈ ins -> endpoint_of r i = Ok e -> e <> "" ->
     e ∈ map (fun i => ept_of r i) (snd (filter_loop r ins eps acc))) /\
  (forall e, e ∈ map (fun i => ept_of r i) acc ->
     e ∈ map (fun i => ept_of r i) (snd (filter_loop r ins eps acc))).
Proof.
  induction ins as [|i ins IH]; intros eps acc Hok Heps; cbn [filter_loop].
  - cbn [snd]. split_and!; [done|by left| |done]. by intros ? ? ?%elem_of_nil.
  - assert (filtered_ok r (snd (filter_loop r ins eps acc)) /\
      (forall j, j ∈ snd (filter_loop r ins eps acc) -> j ∈ acc \/ j ∈ i :: ins) /\
      (forall j e, j ∈ ins -> endpoint_of r j = Ok e -> e <> "" ->
         e ∈ map (fun i => ept_of r i) (snd (filter_loop r ins eps acc))) /\
      (forall e, e ∈ map (fun i => ept_of r i) acc ->
         e ∈ map (fun i => ept_of r i) (snd (filter_loop r ins eps acc)))) as (H1 & H2 & H3 & H4).
    { destruct (IH eps acc Hok Heps) as (H1 & H2 & H3 & H4). split_and!; [done| |done|done].
      intros j Hj. destruct (H2 j Hj); [by left|right; by right]. }
    destruct (endpoint_of r i) as [ept|err] eqn:E.
    + case_decide as Hemp; [|case_decide as Hin].
      * split_and!; [done|done| |done]. intros j e [->|Hj]%elem_of_cons; [|by apply H3].
        intros. congruence.
      * split_and!; [done|done| |done]. intros j e [->|Hj]%elem_of_cons; [|by apply H3].
        intros He _. rewrite E in He. simplify_eq. by apply H4, Heps.
      * destruct Hok as [Hnd Hne].
        destruct (IH ({[ept]} ∪ eps) (acc ++ [i])) as (K1 & K2 & K3 & K4).
        { split.
          - rewrite map_app. simpl. rewrite E. apply NoDup_app. split_and!; [done| |apply NoDup_singleton].
            intros e He ->%list_elem_of_singleton. by apply Hin, Heps.
          - apply Forall_app. split; [done|]. repeat constructor. by rewrite E. }
        { intros e. rewrite elem_of_union, elem_of_singleton, map_app, elem_of_app, Heps. simpl.
          rewrite E, list_elem_of_singleton. tauto. }
        split_and!; [done| | |].
        { intros j Hj. destruct (K2 j Hj) as [[?| ->%list_elem_of_singleton]%elem_of_app|?];
            [by left|right; by left|right; by right]. }
        { intros j e [->|Hj]%elem_of_cons He Hn; [|by eapply K3]. apply K4.
          rewrite map_app, elem_of_app. right. simpl. rewrite E in *. simplify_eq. left. }
        { intros e He. apply K4. rewrite map_app, elem_of_app. by left. }
    + split_and!; [done|done| |done]. intros j e [->|Hj]%elem_of_cons; [|by apply H3].
      intros. congruence.
Qed.

Lemma filterEndpoints_spec r ins :
  filtered_ok r (snd (filterEndpoints r ins)) /\
  (forall i, i ∈ snd (filterEndpoints r ins) -> i ∈ ins) /\
  (forall i e, i ∈ ins -> endpoint_of r i = Ok e -> e <> "" ->
     e ∈ map (fun i => ept_of r i) (snd (filterEndpoints r ins))).
Proof.
  destruct (filter_loop_spec r ins ∅ []) as (H1 & H2 & H3 & _).
  - split; constructor.
  - intros e. split; [by intros ?%elem_of_empty|by intros ?%elem_of_nil].
  - split_and!; [done| |done]. intros i Hi. destruct (H2 i Hi) as [?%elem_of_nil|?]; done.
Qed.

Lemma endpoints_nodup r l ms :
  filtered_ok r l -> NoDup (map Consistent.mstring ms) -> (forall m, m ∈ ms -> m ∈ l) ->
  filtered_ok r ms.
Proof.
  intros [Hnd Hne] Hms Hin. split.
  - apply NoDup_fmap_2_strong; [|by apply NoDup_fmap_1 in Hms].
    intros i j Hi Hj E. apply Hin in Hi, Hj.
    apply list_elem_of_lookup_1 in Hi as [x Hx], Hj as [y Hy].
    assert (x = y) as ->; [|by simplify_eq].
    eapply NoDup_lookup; [exact Hnd| |]; rewrite list_lookup_fmap;
      [by rewrite Hx|rewrite Hy; simpl; f_equal; by rewrite E].
  - rewrite Forall_forall in Hne |- *. auto.
Qed.

Definition with_points (l : list ServiceInstance) : Prop :=
  forall c, Consistent.Set_ l (Consistent.mkC ∅ ∅ [] 160 0 true) = Ret c ->
  forall i, i ∈ l -> exists h m,
    Consistent.circle c !! h = Some m /\ Consistent.mstring m = Consistent.mstring i.

(** ** Properties *)

(** The endpoints that instances offer in the resolver's scheme. *)
Definition offered (r : discoveryResolver) (ins : list ServiceInstance) : gset string :=
  list_to_set (omap (fun i => match endpoint_of r i with Ok e => if decide (e = "") then None else Some e | Err _ => None end) ins).

Lemma elem_of_offered r ins e : e ∈ offered r ins <-> exists i, i ∈ ins /\ endpoint_of r i = Ok e /\ e <> "".
Proof.
  unfold offered. rewrite elem_of_list_to_set, list_elem_of_omap. split; intros (i & Hi & H); exists i; (split; [done|]).
  - destruct (endpoint_of r i); [|done]. case_decide; by simplify_eq.
  - destruct H as [-> Hne]. by rewrite decide_False.
Qed.

(** Filtering loses none of them and keeps one instance for each. *)
Lemma filtered_offered r ins :
  (forall e, e ∈ map (fun i => ept_of r i) (snd (filterEndpoints r ins)) <-> e ∈ offered r ins) /\
  length (snd (filterEndpoints r ins)) = size (offered r ins).
Proof.
  destruct (filterEndpoints_spec r ins) as ([Hnd Hne] & Hin & Hall).
  assert (forall e, e ∈ map (fun i => ept_of r i) (snd (filterEndpoints r ins)) <-> e ∈ offered r ins) as Hiff.
  { intros e. rewrite elem_of_offered. split.
    - intros (i & -> & Hi)%list_elem_of_fmap. rewrite Forall_forall in Hne. specialize (Hne i Hi).
      exists i. split; [by apply Hin|]. by destruct (endpoint_of r i).
    - intros (i & Hi & He & Hn). by eapply Hall. }
  split; [done|]. rewrite <- (length_map (fun i => ept_of r i)), <- (size_list_to_set (C := gset string)) by done.
  f_equal. apply set_eq. intros e. rewrite elem_of_list_to_set. apply Hiff.
Qed.

Lemma mapToAddresses_spec r (ins ms : list ServiceInstance) : filtered_ok r ms -> (forall m, m ∈ ms -> m ∈ ins) ->
  map Addr (mapToAddresses r ms) = map (fun i => ept_of r i) ms /\
  NoDup (map Addr (mapToAddresses r ms)) /\
  forall a, a ∈ mapToAddresses r ms -> Addr a <> "" /\ Attributes a ∈ ins /\ ServerName a = Name (Attributes a) /\
    endpoint_of r (Attributes a) = Ok (Addr a).
Proof.
  intros [Hms Hne] Hsub. unfold mapToAddresses. rewrite map_map. cbn [Addr]. split; [done|]. split; [done|].
  intros a (i & -> & Hi)%list_elem_of_fmap. cbn [Addr Attributes ServerName].
  rewrite Forall_forall in Hne. specialize (Hne i Hi). split_and!; [done|by apply Hsub|done|].
  by destruct (endpoint_of r i).
Qed.

(** C30: a resolver update gives usable, distinct addresses and forgets none: when the first instances of the endpoints
    have different names, each with a point on the circle, it ends, and every address is the non-empty endpoint of the
    resolver's scheme of one of the instances, under the name of that instance, no address twice.  Without a subset size
    the addresses are exactly the different endpoints that the instances offer in that scheme; with one there are
    that many of them, or all when the instances do not offer more. *)
Theorem update_addresses r ins :
  0 <= subsetSize r ->
  NoDup (map Consistent.mstring (snd (filterEndpoints r ins))) ->
  with_points (snd (filterEndpoints r ins)) ->
  exists fuel0, forall fuel, (fuel0 <= fuel)%nat ->
    exists addrs, update fuel r ins = Some (Ret addrs) /\
      NoDup (map Addr addrs) /\
      (forall a, a ∈ addrs -> Addr a <> "" /\ Attributes a ∈ ins /\ ServerName a = Name (Attributes a) /\
         endpoint_of r (Attributes a) = Ok (Addr a)) /\
      (subsetSize r = 0 -> forall e, e ∈ map Addr addrs <-> exists i, i ∈ ins /\ endpoint_of r i = Ok e /\ e <> "") /\
      Z.of_nat (length addrs) =
        (let n := Z.of_nat (size (offered r ins)) in
         if subsetSize r =? 0 then n else Z.min (subsetSize r) n).
Proof.
  intros Hsz Hnd Hpts. destruct (filterEndpoints_spec r ins) as (Hok & Hin & _).
  destruct (filtered_offered r ins) as [Hoff Hlen0]. rewrite <- Hlen0.
  unfold update. destruct (filterEndpoints r ins) as [eps filtered]. cbn [snd] in *.
  destruct (Z.eqb_spec (subsetSize r) 0) as [E|E].
  - exists 0%nat. intros fuel _. eexists. split; [done|].
    destruct (mapToAddresses_spec r ins filtered Hok Hin) as (H0 & H1 & H2). split_and!; [done|done| |].
    + intros _ e. by rewrite H0, Hoff, elem_of_offered.
    + unfold mapToAddresses. by rewrite length_map.
  - destruct (Consistent.Subset_run (selectorKey r) filtered (subsetSize r)) as [fuel0 Hf];
      [lia|done|done|].
    exists fuel0. intros fuel Hle. destruct (Hf fuel Hle) as (ms & -> & Hlen & Hms & Hsub).
    eexists. split; [done|]. destruct (mapToAddresses_spec r ins ms) as (_ & H1 & H2); [by eapply endpoints_nodup|auto|].
    split_and!; [done|done|done|]. unfold mapToAddresses. by rewrite length_map.
Qed.

End Resolve.

(** ** Witness: three instances, two of them on one endpoint *)

Definition demo_url (s : string) : res string (string * string) :=
  Ok ("grpc", s).

Definition demo_instances : list ServiceInstance :=
  [mkInst "1" "im" "v1" ∅ ["10.0.0.1:80"]; mkInst "2" "im" "v1" ∅ ["10.0.0.2:80"];
   mkInst "3" "im" "v1" ∅ ["10.0.0.1:80"]].

Lemma update_addresses_witness :
  exists fuel0, forall fuel, (fuel0 <= fuel)%nat ->
    exists addrs, update demo_url fuel (mkRes true 1 "client") demo_instances = Some (Ret addrs) /\
      length addrs = 1%nat.
Proof.
  destruct (update_addresses demo_url (mkRes true 1 "client") demo_instances) as [fuel0 Hf].
  - simpl. lia.
  - by apply (bool_decide_eq_true _).
  - intros c Ec i Hi.
    assert (match Consistent.Set_ (snd (filterEndpoints demo_url (mkRes true 1 "client") demo_instances))
                (Consistent.mkC ∅ ∅ [] 160 0 true) with
            | Ret c => forallb (fun i => existsb (fun '(_, m) =>
                bool_decide (ServiceInstance_String m = ServiceInstance_String i))
                (map_to_list (Consistent.circle c)))
                (snd (filterEndpoints demo_url (mkRes true 1 "client") demo_instances))
            | Panic _ => false end = true) as Hall by (vm_compute; reflexivity).
    rewrite Ec in Hall. rewrite forallb_forall in Hall.
    apply list_elem_of_In, Hall, existsb_exists in Hi as ([h m] & Hin & Heq).
    apply bool_decide_eq_true in Heq. exists h, m. split; [|exact Heq].
    by apply elem_of_map_to_list, list_elem_of_In.
  - exists fuel0. intros fuel Hle. destruct (Hf fuel Hle) as (addrs & E & _ & _ & _ & Hlen).
    exists addrs. split; [exact E|]. change (Z.of_nat (length addrs) = 1) in Hlen. lia.
Defined.

End Resolver.
