(* ===== verification/Cache.v ===== *)
(** * Layered cache: pkg/cache

    The interface [Cache], the in-memory map behind [Noop], the two-level cache,
    the circuit breaker around the second level, the loading cache with negative
    entries and background refresh, and the helpers that collect the results of
    concurrent calls.  A cache is a state with operations that take the clock
    (nanoseconds) and may fail.  The ristretto and redis layers are libraries:
    any instance of the class. *)
From stdpp Require Import prelude strings list gmap.
From Stdlib Require Import ZArith Lia.
From S2P Require Import Prelude.
Local Open Scope Z_scope.

Module Cache.

Inductive cerror := ErrNotFound | EOther (msg : string).

#[global] Instance cerror_eq_dec : EqDecision cerror.
Proof. solve_decision. Defined.

(** The interface [Cache[K, V]]: a miss is [Ok None]. *)
Class Cache (S K V : Type) := {
  c_Get : Z -> K -> S -> res cerror (option V) * S;
  c_Set : Z -> K -> V -> S -> option cerror * S;
  c_SetTTL : Z -> K -> V -> Z -> S -> option cerror * S;
  c_Delete : Z -> K -> S -> option cerror * S
}.

(** ** noop.go *)

Section Noop.
Context {K V : Type} `{Countable K}.

Definition noop_Get (_ : Z) (key : K) (m : gmap K V) : res cerror (option V) * gmap K V :=
  (Ok (m !! key), m).

Definition noop_Set (_ : Z) (key : K) (value : V) (m : gmap K V) : option cerror * gmap K V :=
  (None, <[key := value]> m).

Definition noop_SetTTL (now : Z) (key : K) (value : V) (_ : Z) (m : gmap K V)
  : option cerror * gmap K V := noop_Set now key value m.

Definition noop_Delete (_ : Z) (key : K) (m : gmap K V) : option cerror * gmap K V :=
  (None, delete key m).

#[export] Instance noop_cache : Cache (gmap K V) K V := {
  c_Get := noop_Get; c_Set := noop_Set; c_SetTTL := noop_SetTTL; c_Delete := noop_Delete
}.
End Noop.

(** ** multilevel.go *)

(** The accesses of a call follow each other without a lock; CacheCalls.v takes them apart. *)

Section MultiLevel.
Context {S1 S2 K V : Type} {H1 : Cache S1 K V} {H2 : Cache S2 K V}.

Record multiLevel := mkML { l1 : S1; l2 : S2 }.

Definition ml_Get (now : Z) (key : K) (c : multiLevel) : res cerror (option V) * multiLevel :=
  match c_Get now key (l1 c) with
  | (Ok (Some v), s1) => (Ok (Some v), mkML s1 (l2 c))
  | (_, s1) =>
      match c_Get now key (l2 c) with
      | (Ok (Some v), s2) =>
          let '(_, s1) := c_Set now key v s1 in (Ok (Some v), mkML s1 s2)
      | (r, s2) => (r, mkML s1 s2)
      end
  end.

Definition ml_Set (now : Z) (key : K) (value : V) (c : multiLevel) : option cerror * multiLevel :=
  match c_Set now key value (l1 c) with
  | (Some err, s1) => (Some err, mkML s1 (l2 c))
  | (None, s1) => let '(err, s2) := c_Set now key value (l2 c) in (err, mkML s1 s2)
  end.

Definition ml_SetTTL (now : Z) (key : K) (value : V) (ttl : Z) (c : multiLevel)
  : option cerror * multiLevel :=
  match c_SetTTL now key value ttl (l1 c) with
  | (Some err, s1) => (Some err, mkML s1 (l2 c))
  | (None, s1) => let '(err, s2) := c_SetTTL now key value ttl (l2 c) in (err, mkML s1 s2)
  end.

Definition ml_Delete (now : Z) (key : K) (c : multiLevel) : option cerror * multiLevel :=
  match c_Delete now key (l1 c) with
  | (Some err, s1) => (Some err, mkML s1 (l2 c))
  | (None, s1) => let '(err, s2) := c_Delete now key (l2 c) in (err, mkML s1 s2)
  end.

#[export] Instance ml_cache : Cache multiLevel K V := {
  c_Get := ml_Get; c_Set := ml_Set; c_SetTTL := ml_SetTTL; c_Delete := ml_Delete
}.
End MultiLevel.
Arguments multiLevel : clear implicits.

(** ** circuitbreaker.go *)

Inductive cbState := cbClosed | cbOpen | cbHalfOpen.

#[global] Instance cbState_eq_dec : EqDecision cbState.
Proof. solve_decision. Defined.

(** The atomics of the breaker. *)
Record breaker := mkB {
  threshold : Z;
  timeout : Z;
  state : cbState;
  failures : Z;
  openedAt : Z
}.

Definition allow (now : Z) (b : breaker) : bool * breaker :=
  match state b with
  | cbClosed => (true, b)
  | cbOpen =>
      if timeout b <=? now - openedAt b
      then (true, mkB (threshold b) (timeout b) cbHalfOpen (failures b) (openedAt b))
      else (false, b)
  | cbHalfOpen => (true, b)
  end.

Definition recordSuccess (b : breaker) : breaker :=
  mkB (threshold b) (timeout b) cbClosed 0 (openedAt b).

Definition recordFailure (now : Z) (b : breaker) : breaker :=
  let f := i64 (failures b + 1) in
  if threshold b <=? f then
    match state b with
    | cbOpen => mkB (threshold b) (timeout b) cbOpen f (openedAt b)
    | _ => mkB (threshold b) (timeout b) cbOpen f now
    end
  else mkB (threshold b) (timeout b) (state b) f (openedAt b).

(** Seen as a [Cache], a call of the breaker has one time; [call] below has that of the question and that of the answer. *)

Section CircuitBreaker.
Context {S K V : Type} {HS : Cache S K V}.

Record circuitBreaker := mkCB { inner : S; cb : breaker }.

Definition newCircuitBreaker (s : S) (threshold timeout : Z) : circuitBreaker :=
  mkCB s (mkB threshold timeout cbClosed 0 0).

Definition cb_Get (now : Z) (key : K) (c : circuitBreaker)
  : res cerror (option V) * circuitBreaker :=
  let '(ok, b) := allow now (cb c) in
  if negb ok then (Ok None, mkCB (inner c) b)
  else match c_Get now key (inner c) with
       | (Err err, s) => (Err err, mkCB s (recordFailure now b))
       | (Ok v, s) => (Ok v, mkCB s (recordSuccess b))
       end.

(** [Set], [SetTTL] and [Delete] share their frame. *)
Definition cb_write (now : Z) (op : S -> option cerror * S) (c : circuitBreaker)
  : option cerror * circuitBreaker :=
  let '(ok, b) := allow now (cb c) in
  if negb ok then (None, mkCB (inner c) b)
  else match op (inner c) with
       | (Some err, s) => (Some err, mkCB s (recordFailure now b))
       | (None, s) => (None, mkCB s (recordSuccess b))
       end.

Definition cb_Set (now : Z) (key : K) (value : V) (c : circuitBreaker) :=
  cb_write now (c_Set now key value) c.

Definition cb_SetTTL (now : Z) (key : K) (value : V) (ttl : Z) (c : circuitBreaker) :=
  cb_write now (c_SetTTL now key value ttl) c.

Definition cb_Delete (now : Z) (key : K) (c : circuitBreaker) :=
  cb_write now (c_Delete (V := V) now key) c.

#[export] Instance cb_cache : Cache circuitBreaker K V := {
  c_Get := cb_Get; c_Set := cb_Set; c_SetTTL := cb_SetTTL; c_Delete := cb_Delete
}.
End CircuitBreaker.
Arguments circuitBreaker : clear implicits.

(** ** loading.go *)

Section Loading.
Context {S N K V : Type} {HS : Cache S K V} {HN : Cache N K unit}.
(** The source of truth, read at a moment, and the key as a string. *)
Context (loader : Z -> K -> res cerror V) (keyFn : K -> string).

Record loadingCache := mkLC {
  lc_cache : S;
  softTTL : Z;
  softExpiry : gmap string Z;
  refreshing : gset string;
  negative : option N
}.

Definition set_soft (now : Z) (key : K) (c : loadingCache) : gmap string Z :=
  if 0 <? softTTL c then <[keyFn key := now + softTTL c]> (softExpiry c) else softExpiry c.

(** The function run by singleflight, and its result for the caller. *)
Definition doLoad (now : Z) (key : K) (c : loadingCache) : res cerror V * loadingCache :=
  match loader now key with
  | Err ErrNotFound =>
      (Err ErrNotFound,
       mkLC (lc_cache c) (softTTL c) (softExpiry c) (refreshing c)
         (match negative c with
          | Some n => Some (snd (c_Set now key tt n))
          | None => None
          end))
  | Err err => (Err err, c)
  | Ok v =>
      (Ok v, mkLC (snd (c_Set now key v (lc_cache c))) (softTTL c) (set_soft now key c)
               (refreshing c) (negative c))
  end.

(** The mark of [triggerBackgroundRefresh]; [true] when a goroutine is started. *)
Definition triggerBackgroundRefresh (keyStr : string) (c : loadingCache) : bool * loadingCache :=
  if decide (keyStr ∈ refreshing c) then (false, c)
  else (true, mkLC (lc_cache c) (softTTL c) (softExpiry c) ({[ keyStr ]} ∪ refreshing c) (negative c)).

(** The body of that goroutine, run later. *)
Definition refresh_run (now : Z) (key : K) (c : loadingCache) : loadingCache :=
  let c := match loader now key with
           | Err _ => c
           | Ok v => mkLC (snd (c_Set now key v (lc_cache c))) (softTTL c)
                       (<[keyFn key := now + softTTL c]> (softExpiry c)) (refreshing c) (negative c)
           end in
  mkLC (lc_cache c) (softTTL c) (softExpiry c) (refreshing c ∖ {[ keyFn key ]}) (negative c).

(** [Get]; the third component says whether a refresh was started. *)
Definition lc_Get (now : Z) (key : K) (c : loadingCache)
  : (res cerror (option V) * bool) * loadingCache :=
  let '(absent, neg) :=
    match negative c with
    | Some n => let '(r, n) := c_Get now key n in
                (match r with Ok (Some _) => true | _ => false end, Some n)
    | None => (false, None)
    end in
  let c := mkLC (lc_cache c) (softTTL c) (softExpiry c) (refreshing c) neg in
  if (absent : bool) then ((Err ErrNotFound, false), c)
  else
    let '(r, s) := c_Get now key (lc_cache c) in
    let c := mkLC s (softTTL c) (softExpiry c) (refreshing c) (negative c) in
    match r with
    | Ok (Some v) =>
        match (if 0 <? softTTL c then softExpiry c !! keyFn key else None) with
        | Some exp =>
            if exp <? now
            then let '(started, c) := triggerBackgroundRefresh (keyFn key) c in ((Ok (Some v), started), c)
            else ((Ok (Some v), false), c)
        | None => ((Ok (Some v), false), c)
        end
    | _ =>
        match doLoad now key c with
        | (Ok v, c) => ((Ok (Some v), false), c)
        | (Err err, c) => ((Err err, false), c)
        end
    end.

Definition lc_Set (now : Z) (key : K) (value : V) (c : loadingCache) : option cerror * loadingCache :=
  let '(err, s) := c_Set now key value (lc_cache c) in
  (err, mkLC s (softTTL c) (set_soft now key c) (refreshing c)
          (match negative c with Some n => Some (snd (c_Delete (V := unit) now key n)) | None => None end)).

Definition lc_SetTTL (now : Z) (key : K) (value : V) (ttl : Z) (c : loadingCache)
  : option cerror * loadingCache :=
  let '(err, s) := c_SetTTL now key value ttl (lc_cache c) in
  (err, mkLC s (softTTL c) (softExpiry c) (refreshing c) (negative c)).

Definition lc_Delete (now : Z) (key : K) (c : loadingCache) : option cerror * loadingCache :=
  let neg := match negative c with Some n => Some (snd (c_Delete (V := unit) now key n)) | None => None end in
  let '(err, s) := c_Delete (V := V) now key (lc_cache c) in
  (err, mkLC s (softTTL c) (delete (keyFn key) (softExpiry c)) (refreshing c ∖ {[ keyFn key ]}) neg).

End Loading.
Arguments loadingCache : clear implicits.

(** ** helpers.go: the collecting loops, over the results as they arrive *)

Section Helpers.
Context {K V : Type} `{Countable K}.

Fixpoint collect (results : list (K * res cerror (option V))) (found : gmap K V) (missed : list K)
    (err : option cerror) : gmap K V * list K * option cerror :=
  match results with
  | [] => (found, missed, err)
  | (_, Err e) :: rest => collect rest found missed (Some e)
  | (k, Ok (Some v)) :: rest => collect rest (<[k := v]> found) missed err
  | (k, Ok None) :: rest => collect rest found (missed ++ [k]) err
  end.

Definition GetMany (results : list (K * res cerror (option V))) : gmap K V * list K * option cerror :=
  collect results ∅ [] None.

(** [SetMany] and [DeleteMany]: the first error to arrive. *)
Fixpoint first_error (errs : list (option cerror)) (first : option cerror) : option cerror :=
  match errs with
  | [] => first
  | e :: rest =>
      first_error rest (match e, first with Some _, None => e | _, _ => first end)
  end.

Definition SetMany (errs : list (option cerror)) : option cerror := first_error errs None.
Definition DeleteMany (errs : list (option cerror)) : option cerror := first_error errs None.

End Helpers.

(** ** The breaker as a state machine *)

(** One call at a time: is the inner cache asked, and the breaker afterwards.  The clock is read when the call is [asked] and
    again when the inner cache has [answered]; [ok] is how it answers. *)
Definition call (asked answered : Z) (ok : bool) (b : breaker) : bool * breaker :=
  let '(made, b) := allow asked b in
  if made then (true, if ok then recordSuccess b else recordFailure answered b) else (false, b).

(** The documented machine: closed with a number of consecutive errors, or open
    since a moment; the probe of the half-open state is one call. *)
Inductive cb_spec := SClosed (errors : Z) | SOpen (since : Z).

Definition spec_fail (threshold now errors : Z) : cb_spec :=
  if threshold <=? errors + 1 then SOpen now else SClosed (errors + 1).

Definition spec_call (threshold timeout asked answered : Z) (ok : bool) (a : cb_spec) : bool * cb_spec :=
  match a with
  | SClosed errors => (true, if ok then SClosed 0 else spec_fail threshold answered errors)
  | SOpen since =>
      if timeout <=? asked - since then (true, if ok then SClosed 0 else SOpen answered)
      else (false, SOpen since)
  end.

Fixpoint call_run (calls : list (Z * Z * bool)) (b : breaker) : list bool * breaker :=
  match calls with
  | [] => ([], b)
  | (asked, answered, ok) :: rest =>
      let '(made, b) := call asked answered ok b in
      let '(out, b) := call_run rest b in (made :: out, b)
  end.

Fixpoint spec_run (threshold timeout : Z) (calls : list (Z * Z * bool)) (a : cb_spec) : list bool * cb_spec :=
  match calls with
  | [] => ([], a)
  | (asked, answered, ok) :: rest =>
      let '(made, a) := spec_call threshold timeout asked answered ok a in
      let '(out, a) := spec_run threshold timeout rest a in (made :: out, a)
  end.

(** The simulation: the closed state counts below the threshold; an open
    breaker keeps a count at or above it, with room for [room] more calls. *)
Definition simulates (room : Z) (b : breaker) (a : cb_spec) : Prop :=
  1 <= threshold b /\ failures b + room <= max_int64 /\ threshold b + room <= max_int64 /\
  match a with
  | SClosed errors => state b = cbClosed /\ failures b = errors /\ 0 <= errors < threshold b
  | SOpen since => state b = cbOpen /\ openedAt b = since /\ threshold b <= failures b
  end.

(** Closes the obligations of one step of the simulation. *)
Ltac sim_done := cbn; repeat split; cbn; try done; lia.

Lemma call_simulates room asked answered ok b a :
  1 <= room -> simulates room b a ->
  fst (call asked answered ok b) = fst (spec_call (threshold b) (timeout b) asked answered ok a) /\
  simulates (room - 1) (snd (call asked answered ok b)) (snd (spec_call (threshold b) (timeout b) asked answered ok a)) /\
  threshold (snd (call asked answered ok b)) = threshold b /\ timeout (snd (call asked answered ok b)) = timeout b.
Proof.
  intros Hr (Ht & Hroom & Hth & Ha). unfold max_int64 in *.
  assert (0 <= failures b + 1 <= max_int64) as Hf.
  { unfold max_int64. destruct a; lia. }
  unfold max_int64 in Hf. unfold call, allow, recordFailure, recordSuccess, simulates, max_int64.
  destruct a as [errors|since]; destruct Ha as (Hs & Ho & Hc); rewrite Hs; cbn [spec_call].
  - unfold spec_fail. rewrite (wrap_signed_small 64) by lia. rewrite Hs, Ho.
    destruct ok; [sim_done|].
    destruct (Z.leb_spec (threshold b) (errors + 1)); sim_done.
  - rewrite Ho. destruct (Z.leb_spec (timeout b) (asked - since)); cbn [fst snd negb]; [|sim_done].
    destruct ok; [sim_done|]. cbn [failures threshold state].
    rewrite (wrap_signed_small 64) by lia.
    destruct (Z.leb_spec (threshold b) (failures b + 1)); [|lia]. sim_done.
Qed.

Lemma run_simulates calls : forall b a,
  simulates (Z.of_nat (length calls)) b a ->
  fst (call_run calls b) = fst (spec_run (threshold b) (timeout b) calls a) /\
  simulates 0 (snd (call_run calls b)) (snd (spec_run (threshold b) (timeout b) calls a)).
Proof.
  induction calls as [|[[asked answered] ok] calls IH]; intros b a Hs; cbn [call_run spec_run length] in *; [done|].
  destruct (call_simulates (Z.of_nat (S (length calls))) asked answered ok b a ltac:(lia) Hs) as (H1 & H2 & H3 & H4).
  destruct (call asked answered ok b) as [made b'], (spec_call _ _ asked answered ok a) as [made' a']. cbn [fst snd] in *.
  replace (Z.of_nat (S (length calls)) - 1) with (Z.of_nat (length calls)) in H2 by lia.
  destruct (IH b' a' H2) as [K1 K2]. rewrite H3, H4 in K1, K2.
  destruct (call_run calls b') as [out b''], (spec_run _ _ calls a') as [out' a'']. cbn [fst snd] in *.
  split; [congruence|done].
Qed.

(** ** Properties *)

(** C32: the circuit breaker is the documented machine for calls that do not
    overlap: over any sequence of calls and inner answers, each with the time it is asked at and the time it is answered at, from a new breaker
    with a threshold of at least one, exactly the calls of the machine reach
    the inner cache (all while closed, none while open within the timeout, one
    probe after it), and it ends closed or open as the machine does. *)
Theorem breaker_refines threshold timeout calls :
  1 <= threshold -> threshold + Z.of_nat (length calls) <= max_int64 ->
  let b := mkB threshold timeout cbClosed 0 0 in
  fst (call_run calls b) = fst (spec_run threshold timeout calls (SClosed 0)) /\
  (state (snd (call_run calls b)) = cbOpen <->
   exists since, snd (spec_run threshold timeout calls (SClosed 0)) = SOpen since) /\
  state (snd (call_run calls b)) <> cbHalfOpen.
Proof.
  intros Ht Hm b. destruct (run_simulates calls b (SClosed 0)) as [H1 (_ & _ & _ & H2)].
  { subst b. unfold simulates. cbn. split_and!; try done; lia. }
  split; [done|]. cbv beta iota delta [b Cache.threshold Cache.timeout] in H2. subst b.
  destruct (snd (spec_run threshold timeout calls (SClosed 0))) as [e|since]; destruct H2 as (-> & _).
  - split; [|done]. split; [done|]. by intros [? ?].
  - split; [|done]. split; [eauto|done].
Qed.

Lemma breaker_refines_witness :
  fst (call_run [(1, 1, false); (2, 4, false); (5, 5, true); (20, 22, false); (30, 30, true); (40, 41, true); (41, 41, true)]
         (mkB 2 10 cbClosed 0 0)) = [true; true; false; true; false; true; true].
Proof.
  destruct (breaker_refines 2 10
    [(1, 1, false); (2, 4, false); (5, 5, true); (20, 22, false); (30, 30, true); (40, 41, true); (41, 41, true)]) as [E _];
    [lia|unfold max_int64; simpl; lia|]. rewrite E. reflexivity.
Defined.

(** The half-open state does not limit the probes: once the timeout has
    passed, every caller that asks before the first probe has answered is let
    through, however many they are. *)
Theorem half_open_admits_all n now b :
  state b <> cbClosed -> timeout b <= now - openedAt b ->
  fst (fold_left (fun '(all, b) _ => let '(ok, b) := allow now b in (all && ok, b))
         (seq 0 n) (true, b)) = true.
Proof.
  intros Hs Ht. revert b Hs Ht. generalize 0%nat. induction n as [|n IH]; intros k b Hs Ht; [done|].
  cbn [seq fold_left]. unfold allow. destruct (state b) eqn:E; [done| |].
  - destruct (Z.leb_spec (timeout b) (now - openedAt b)); [|lia]. by apply IH.
  - apply IH; [by rewrite E|done].
Qed.

Lemma half_open_admits_all_witness :
  fst (fold_left (fun '(all, b) _ => let '(ok, b) := allow 100 b in (all && ok, b))
         (seq 0 50) (true, mkB 3 10 cbOpen 3 5)) = true.
Proof. apply (half_open_admits_all 50 100 (mkB 3 10 cbOpen 3 5)); simpl; [done|lia]. Defined.

(** ** No stale reads *)

(** What a cache may forget and may not invent: [peek] is what a read would see.
    Entries may vanish at any time (eviction, expiry, dropped writes). *)
Class Faithful (S K V : Type) `{Cache S K V} := {
  peek : Z -> K -> S -> option V;
  get_peek : forall now k s v s', c_Get now k s = (Ok (Some v), s') -> peek now k s = Some v;
  get_keeps : forall now k s r s' t k' v, c_Get now k s = (r, s') ->
    peek t k' s' = Some v -> peek t k' s = Some v;
  set_sees : forall now k v s r s' t v', c_Set now k v s = (r, s') ->
    peek t k s' = Some v' -> v' = v \/ (r <> None /\ peek t k s = Some v');
  set_keeps : forall now k v s r s' t k' v', c_Set now k v s = (r, s') -> k' <> k ->
    peek t k' s' = Some v' -> peek t k' s = Some v';
  set_ttl_sees : forall now k v ttl s s' t v', c_SetTTL now k v ttl s = (None, s') ->
    peek t k s' = Some v' -> v' = v;
  set_ttl_keeps : forall now k v ttl s r s' t k' v', c_SetTTL now k v ttl s = (r, s') -> k' <> k ->
    peek t k' s' = Some v' -> peek t k' s = Some v';
  delete_sees : forall now k s s' t, c_Delete (V := V) now k s = (None, s') -> peek t k s' = None;
  delete_keeps : forall now k s r s' t k' v, c_Delete (V := V) now k s = (r, s') -> k' <> k ->
    peek t k' s' = Some v -> peek t k' s = Some v
}.

#[export] Instance noop_faithful {K V} `{Countable K} : Faithful (gmap K V) K V.
Proof.
  refine {| peek := fun _ k m => m !! k |}; cbn; unfold noop_Get, noop_Set, noop_SetTTL, noop_Set, noop_Delete;
    intros; simplify_eq; try done.
  - rewrite lookup_insert_eq in *. simplify_eq. by left.
  - by rewrite lookup_insert_ne in * by done.
  - rewrite lookup_insert_eq in *. by simplify_eq.
  - by rewrite lookup_insert_ne in * by done.
  - apply lookup_delete_eq.
  - by rewrite lookup_delete_ne in * by done.
Defined.

(** A write through an open breaker is reported as done and lost: a [Delete]
    on a two-level cache whose second level is behind an open breaker returns
    no error and leaves the entry in the second level, so once the breaker
    has closed, a read brings the deleted value back. *)
Theorem open_breaker_resurrects {K V} `{Countable K} (k : K) (v : V) (m1 m2 : gmap K V) b now later :
  state b = cbOpen -> now - openedAt b < timeout b -> timeout b <= later - openedAt b ->
  m2 !! k = Some v ->
  let c := mkML m1 (mkCB m2 b) in
  fst (ml_Delete (V := V) now k c) = None /\
  fst (ml_Get later k (snd (ml_Delete (V := V) now k c))) = Ok (Some v).
Proof.
  intros Hs Hn Hl Hm c. unfold ml_Delete, ml_Get. cbn -[cb_Get cb_Delete].
  unfold cb_Delete, cb_write, allow. cbn. rewrite Hs.
  destruct (Z.leb_spec (timeout b) (now - openedAt b)); [lia|]. cbn.
  split; [done|]. rewrite lookup_delete_eq. unfold cb_Get, allow. cbn. rewrite Hs.
  destruct (Z.leb_spec (timeout b) (later - openedAt b)); [|lia]. cbn. by rewrite Hm.
Qed.

Lemma open_breaker_resurrects_witness :
  let c := mkML (∅ : gmap string Z) (mkCB (<["a" := 5]> (∅ : gmap string Z)) (mkB 1 10 cbOpen 1 0)) in
  fst (ml_Delete (V := Z) 3 "a" c) = None /\
  fst (ml_Get 20 "a" (snd (ml_Delete (V := Z) 3 "a" c))) = Ok (Some 5).
Proof.
  apply (open_breaker_resurrects "a" 5 ∅ (<["a" := 5]> ∅) (mkB 1 10 cbOpen 1 0) 3 20);
    simpl; try lia; reflexivity.
Defined.

(** A value stored with [SetTTL] stays hidden behind a negative entry: while
    the negative cache knows a key as absent, [SetTTL] does not clear it, so a
    following [Get] still answers [ErrNotFound]; [Set] clears it. *)
Theorem set_ttl_hidden {S N K V} `{Cache S K V} `{Cache N K unit} loader keyFn now key
    (c : loadingCache S N) n n' value ttl :
  negative c = Some n -> c_Get now key n = (Ok (Some tt), n') ->
  fst (fst (lc_Get (V := V) loader keyFn now key (snd (lc_SetTTL now key value ttl c)))) = Err ErrNotFound.
Proof.
  intros Hn Hg. unfold lc_SetTTL. destruct (c_SetTTL now key value ttl (lc_cache c)) as [err s].
  unfold lc_Get. cbn. rewrite Hn, Hg. done.
Qed.

Lemma set_ttl_hidden_witness :
  let c := mkLC (∅ : gmap string Z) 0 ∅ ∅ (Some (<["a" := tt]> (∅ : gmap string unit))) in
  fst (fst (lc_Get (fun _ _ => Ok 7) (fun k => k) 1 "a" (snd (lc_SetTTL 1 "a" 5 60 c)))) = Err ErrNotFound.
Proof.
  intros c. apply (set_ttl_hidden (fun _ _ => Ok 7) (fun k => k) 1 "a" c
    (<["a" := tt]> (∅ : gmap string unit)) (<["a" := tt]> (∅ : gmap string unit))); reflexivity.
Defined.

End Cache.
