(* ===== verification/CacheCalls.v ===== *)
(** * Overlapping calls of the two-level cache: src/pkg/cache/multilevel.go

    The two-level cache has no lock: a call is its accesses to the levels, one after the other, and the calls of any number of
    goroutines interleave between them, each access at a time of its own.  Run without interruption the accesses are the
    functions of Cache.v ([ml_Get_accesses] and the lemmas after it). *)
From stdpp Require Import prelude strings list gmap.
From Stdlib Require Import ZArith Lia.
From S2P Require Import Prelude Cache.

Local Open Scope Z_scope.

Module CacheCalls.
Import Cache.

(** ** The calls and their accesses *)

Section Calls.
Context {S1 S2 K V : Type} {C1 : Cache S1 K V} {C2 : Cache S2 K V}.

Inductive op :=
| OGet (k : K)
| OSet (k : K) (v : V)
| OSetTTL (k : K) (v : V) (ttl : Z)
| ODelete (k : K).

(** Before the access to the first level, before that to the second, before the refill of the first. *)
Inductive mcall :=
| AtL1 (o : op)
| AtL2 (o : op)
| Refill (k : K) (v : V).

Definition reply (e : option cerror) : res cerror (option V) := match e with None => Ok None | Some e => Err e end.

(** One access to a level; a write answers [Ok None] or its error. *)
Definition access {S} {C : Cache S K V} (now : Z) (o : op) (s : S) : res cerror (option V) * S :=
  match o with
  | OGet k => c_Get now k s
  | OSet k v => let '(e, s) := c_Set now k v s in (reply e, s)
  | OSetTTL k v ttl => let '(e, s) := c_SetTTL now k v ttl s in (reply e, s)
  | ODelete k => let '(e, s) := c_Delete (V := V) now k s in (reply e, s)
  end.

(** What is left of a call after an access. *)
Inductive progress := Goes (c : mcall) | Returns (r : res cerror (option V)).

Definition ml_access (now : Z) (c : mcall) (s : multiLevel S1 S2) : progress * multiLevel S1 S2 :=
  match c with
  | AtL1 o =>
      let '(r, s1) := access now o (l1 s) in
      (match o, r with
       | OGet _, Ok (Some v) => Returns (Ok (Some v))
       | OGet _, _ => Goes (AtL2 o)
       | _, Err e => Returns (Err e)
       | _, Ok _ => Goes (AtL2 o)
       end, mkML s1 (l2 s))
  | AtL2 o =>
      let '(r, s2) := access now o (l2 s) in
      (match o, r with
       | OGet k, Ok (Some v) => Goes (Refill k v)
       | _, _ => Returns r
       end, mkML (l1 s) s2)
  | Refill k v => let '(_, s1) := c_Set now k v (l1 s) in (Returns (Ok (Some v)), mkML s1 (l2 s))
  end.

(** The accesses of one call, alone and at one time. *)
Fixpoint alone (fuel : nat) (now : Z) (c : mcall) (s : multiLevel S1 S2) : option (res cerror (option V) * multiLevel S1 S2) :=
  match fuel with
  | O => None
  | S fuel =>
      match ml_access now c s with
      | (Goes c, s) => alone fuel now c s
      | (Returns r, s) => Some (r, s)
      end
  end.

Lemma ml_Get_accesses now k s : alone 3 now (AtL1 (OGet k)) s = Some (ml_Get now k s).
Proof.
  unfold ml_Get. cbn [alone ml_access access]. destruct (c_Get now k (l1 s)) as [[[v|]|e] s1]; [done|..]; cbn [alone ml_access access l1 l2];
    (destruct (c_Get now k (l2 s)) as [[[v2|]|e2] s2]; [|done..]); cbn [alone ml_access access l1 l2]; by destruct (c_Set now k v2 s1).
Qed.

Lemma ml_Set_accesses now k v s : alone 2 now (AtL1 (OSet k v)) s = Some (let '(e, s) := ml_Set now k v s in (reply e, s)).
Proof.
  unfold ml_Set. cbn [alone ml_access access]. destruct (c_Set now k v (l1 s)) as [[e|] s1]; cbn [alone ml_access access reply l1 l2]; [done|].
  by destruct (c_Set now k v (l2 s)) as [[e|] s2].
Qed.

Lemma ml_SetTTL_accesses now k v ttl s :
  alone 2 now (AtL1 (OSetTTL k v ttl)) s = Some (let '(e, s) := ml_SetTTL now k v ttl s in (reply e, s)).
Proof.
  unfold ml_SetTTL. cbn [alone ml_access access]. destruct (c_SetTTL now k v ttl (l1 s)) as [[e|] s1]; cbn [alone ml_access access reply l1 l2]; [done|].
  by destruct (c_SetTTL now k v ttl (l2 s)) as [[e|] s2].
Qed.

Lemma ml_Delete_accesses now k s :
  alone 2 now (AtL1 (ODelete k)) s = Some (let '(e, s) := ml_Delete (V := V) now k s in (reply e, s)).
Proof.
  unfold ml_Delete. cbn [alone ml_access access]. destruct (c_Delete now k (l1 s)) as [[e|] s1]; cbn [alone ml_access access reply l1 l2]; [done|].
  by destruct (c_Delete now k (l2 s)) as [[e|] s2].
Qed.

(** ** Steps *)

Definition op_key (o : op) : K := match o with OGet k | OSet k _ | OSetTTL k _ _ | ODelete k => k end.
Definition call_key (c : mcall) : K := match c with AtL1 o | AtL2 o => op_key o | Refill k _ => k end.

Definition writes (o : op) : bool := match o with OGet _ => false | _ => true end.
Definition call_writes (c : mcall) : bool := match c with AtL1 o | AtL2 o => writes o | Refill _ _ => false end.

(** What a write leaves for its key. *)
Definition value_of (o : op) : option V := match o with OSet _ v | OSetTTL _ v _ => Some v | OGet _ | ODelete _ => None end.
End Calls.
Arguments op : clear implicits.
Arguments mcall : clear implicits.
Arguments progress : clear implicits.

Section Steps.
Context {S1 S2 K V : Type} `{EqDecision K}.
Context {C1 : Cache S1 K V} {C2 : Cache S2 K V} {F1 : Faithful S1 K V} {F2 : Faithful S2 K V}.
(** The key that is followed. *)
Context (key : K).

(** [latest] is what the write of [key] that began last leaves. *)
Record node := mkNode { levels : multiLevel S1 S2; under : list (mcall K V); latest : option V }.

(** The calls of [key] under way. *)
Definition mine (l : list (mcall K V)) : list (mcall K V) := filter (fun c => call_key c = key) l.

(** A call of [key] may begin beside those under way: a read if none of them writes, a write if there is none.  Calls of
    other keys begin at any time. *)
Definition may_begin (o : op K V) (l : list (mcall K V)) : Prop :=
  op_key o = key -> if writes o then mine l = [] else Forall (fun c => call_writes c = false) (mine l).

Definition fails (p : progress K V) : bool := match p with Returns (Err _) => true | _ => false end.

Definition after (i : nat) (p : progress K V) (l : list (mcall K V)) : list (mcall K V) :=
  match p with Goes c => <[i := c]> l | Returns _ => delete i l end.

(** A call begins, makes its next access, or entries vanish from the levels.  No write of [key] is answered with an error. *)
Inductive mstep : node -> node -> Prop :=
| m_begin o n : may_begin o (under n) ->
    mstep n (mkNode (levels n) (under n ++ [AtL1 o])
               (if decide (op_key o = key) then if writes o then value_of o else latest n else latest n))
| m_access i c now p s n : under n !! i = Some c -> ml_access now c (levels n) = (p, s) ->
    (call_key c = key -> call_writes c = true -> fails p = false) ->
    mstep n (mkNode s (after i p (under n)) (latest n))
| m_vanish s n : (forall t k v, peek t k (l1 s) = Some v -> peek t k (l1 (levels n)) = Some v) ->
    (forall t k v, peek t k (l2 s) = Some v -> peek t k (l2 (levels n)) = Some v) ->
    mstep n (mkNode s (under n) (latest n)).

(** ** The invariant *)

(** A level holds nothing for [key] but [x]. *)
Definition only {S} {C : Cache S K V} {F : Faithful S K V} (x : option V) (s : S) : Prop :=
  forall t v, peek t key s = Some v -> x = Some v.

(** No write of [key] under way; one before its first access; one between its accesses. *)
Inductive sound (s : multiLevel S1 S2) (l : list (mcall K V)) (x : option V) : Prop :=
| s_quiet : Forall (fun c => call_writes c = false) l -> (forall v, Refill key v ∈ l -> x = Some v) ->
    only x (l1 s) -> only x (l2 s) -> sound s l x
| s_first o : l = [AtL1 o] -> writes o = true -> x = value_of o -> sound s l x
| s_second o : l = [AtL2 o] -> writes o = true -> x = value_of o -> only x (l1 s) -> sound s l x.

Definition ninv (n : node) : Prop := sound (levels n) (mine (under n)) (latest n).

Lemma sound_perm s l l' x : l ≡ₚ l' -> sound s l x -> sound s l' x.
Proof.
  intros H [Hr Hf H1 H2|o -> Hw Hx|o -> Hw Hx H1].
  - apply s_quiet; try done; [by rewrite <- H|]. intros v. rewrite <- H. apply Hf.
  - apply (s_first _ _ _ o); try done. by apply Permutation_singleton_l in H.
  - apply (s_second _ _ _ o); try done. by apply Permutation_singleton_l in H.
Qed.

(** Levels that hold no more for [key]. *)
Lemma sound_less s s' l x : (forall t v, peek t key (l1 s') = Some v -> peek t key (l1 s) = Some v) ->
  (forall t v, peek t key (l2 s') = Some v -> peek t key (l2 s) = Some v) -> sound s l x -> sound s' l x.
Proof.
  intros Hl1 Hl2 [Hr Hf H1 H2|o Hl Hw Hx|o Hl Hw Hx H1].
  - apply s_quiet; try done; intros t v Hp; [by eapply H1, Hl1|by eapply H2, Hl2].
  - by apply (s_first _ _ _ o).
  - apply (s_second _ _ _ o); try done. intros t v Hp. by eapply H1, Hl1.
Qed.

Lemma access_other {S} {C : Cache S K V} {F : Faithful S K V} now o (s s' : S) r t v : access now o s = (r, s') -> op_key o <> key ->
  peek t key s' = Some v -> peek t key s = Some v.
Proof.
  destruct o as [k|k w|k w ttl|k]; cbn [access op_key]; intros E Hk.
  - by apply (get_keeps _ _ _ _ _ _ _ _ E).
  - destruct (c_Set now k w s) as [e s0] eqn:E0. simplify_eq. by eapply set_keeps.
  - destruct (c_SetTTL now k w ttl s) as [e s0] eqn:E0. simplify_eq. by eapply set_ttl_keeps.
  - destruct (c_Delete now k s) as [e s0] eqn:E0. simplify_eq. by eapply delete_keeps.
Qed.

(** A write that is done leaves its value. *)
Lemma access_write {S} {C : Cache S K V} {F : Faithful S K V} now o (s s' : S) r : access now o s = (Ok r, s') -> op_key o = key ->
  writes o = true -> only (value_of o) s'.
Proof.
  intros E Hk Hw t v Hp. destruct o as [k|k w|k w ttl|k]; cbn [access op_key value_of] in *; [done|..]; subst k.
  - destruct (c_Set now key w s) as [[e|] s0] eqn:E0; simplify_eq/=. destruct (set_sees _ _ _ _ _ _ _ _ E0 Hp) as [->|[? _]]; done.
  - destruct (c_SetTTL now key w ttl s) as [[e|] s0] eqn:E0; simplify_eq/=. by rewrite (set_ttl_sees _ _ _ _ _ _ _ _ E0 Hp).
  - destruct (c_Delete now key s) as [[e|] s0] eqn:E0; simplify_eq/=. by rewrite (delete_sees _ _ _ _ t E0) in Hp.
Qed.

Lemma write_reply {S} {C : Cache S K V} now o (s s' : S) v : writes o = true -> access now o s <> (Ok (Some v), s').
Proof.
  destruct o as [k|k w|k w ttl|k]; cbn [access]; [done|..]; intros _;
    [destruct (c_Set _ _ _ _) as [[]]|destruct (c_SetTTL _ _ _ _ _) as [[]]|destruct (c_Delete _ _ _) as [[]]]; done.
Qed.

(** An access of a call of another key. *)
Lemma other_sound now c s p s' l x : ml_access now c s = (p, s') -> call_key c <> key -> sound s l x -> sound s' l x.
Proof.
  intros E Hk. apply sound_less; intros t v.
  - destruct c as [o|o|k w]; cbn in E, Hk.
    + destruct (access now o (l1 s)) as [r s1] eqn:E1. simplify_eq. cbn. by eapply access_other.
    + destruct (access now o (l2 s)) as [r s2] eqn:E2. by simplify_eq.
    + destruct (c_Set now k w (l1 s)) as [e s1] eqn:E1. simplify_eq. cbn. by eapply set_keeps.
  - destruct c as [o|o|k w]; cbn in E, Hk.
    + destruct (access now o (l1 s)) as [r s1] eqn:E1. by simplify_eq.
    + destruct (access now o (l2 s)) as [r s2] eqn:E2. simplify_eq. cbn. by eapply access_other.
    + destruct (c_Set now k w (l1 s)) as [e s1] eqn:E1. by simplify_eq.
Qed.

Definition left_of (p : progress K V) : list (mcall K V) := match p with Goes c => [c] | Returns _ => [] end.

Lemma access_key now c (s : multiLevel S1 S2) p s' : ml_access now c s = (p, s') -> Forall (fun c' => call_key c' = call_key c) (left_of p).
Proof.
  destruct c as [o|o|k w]; cbn; repeat case_match; intros; simplify_eq/=; repeat constructor.
Qed.

(** A read of [key] that hits finds the latest value, and leaves the levels as sound as they were. *)
Lemma read_sound now c s p s' l x : ml_access now c s = (p, s') -> call_key c = key -> call_writes c = false ->
  (forall v, c = Refill key v -> x = Some v) -> only x (l1 s) -> only x (l2 s) ->
  Forall (fun c => call_writes c = false) l -> (forall v, Refill key v ∈ l -> x = Some v) ->
  sound s' (left_of p ++ l) x /\ forall v, p = Returns (Ok (Some v)) -> x = Some v.
Proof.
  intros E Hk Hw Hc H1 H2 Hr Hf. destruct c as [o|o|k w]; cbn in E, Hk, Hw.
  - destruct o as [k|?|?|?]; try done. simpl in Hk. subst k. cbn in E. destruct (c_Get now key (l1 s)) as [r s1] eqn:E1.
    assert (only x s1) as H1' by (intros t v Hp; by eapply H1, get_keeps).
    destruct r as [[v|]|e]; simplify_eq; cbn [left_of app l1 l2].
    + split; [by apply s_quiet|]. intros v' [= <-]. by eapply H1, get_peek.
    + split; [|done]. apply s_quiet; try done; [by constructor|]. by intros v [?|?]%elem_of_cons; [|apply Hf].
    + split; [|done]. apply s_quiet; try done; [by constructor|]. by intros v [?|?]%elem_of_cons; [|apply Hf].
  - destruct o as [k|?|?|?]; try done. simpl in Hk. subst k. cbn in E. destruct (c_Get now key (l2 s)) as [r s2] eqn:E2.
    assert (only x s2) as H2' by (intros t v Hp; by eapply H2, get_keeps).
    destruct r as [[v|]|e]; simplify_eq; cbn [left_of app l1 l2]; (split; [|done]); apply s_quiet; try done; [by constructor|].
    intros v' [[= <-]|?]%elem_of_cons; [by eapply H2, get_peek|by apply Hf].
  - subst k. destruct (c_Set now key w (l1 s)) as [e s1] eqn:E1. simplify_eq. cbn [left_of app l1 l2].
    split; [|intros v [= <-]; by apply Hc]. apply s_quiet; try done. intros t v Hp.
    destruct (set_sees _ _ _ _ _ _ _ _ E1 Hp) as [->|[_ Hp']]; [by apply Hc|by eapply H1].
Qed.

(** A write of [key] that is answered without an error. *)
Lemma write_sound now o s s' p x : writes o = true -> op_key o = key -> x = value_of o -> fails p = false ->
  (ml_access now (AtL1 o) s = (p, s') -> sound s' (left_of p) x) /\
  (ml_access now (AtL2 o) s = (p, s') -> only x (l1 s) -> sound s' (left_of p) x).
Proof.
  intros Hw Hk -> Hp. split; cbn [ml_access].
  - destruct (access now o (l1 s)) as [r s1] eqn:E1. intros E. simplify_eq.
    destruct r as [[v|]|e]; [by destruct (write_reply now o (l1 s) s1 v)|..]; [|by destruct o].
    apply (s_second _ _ _ o); [by destruct o|done|done|]. cbn. by eapply access_write.
  - destruct (access now o (l2 s)) as [r s2] eqn:E2. intros E H1. simplify_eq.
    destruct r as [[v|]|e]; [by destruct (write_reply now o (l2 s) s2 v)|..]; [|by destruct o].
    pose proof (access_write _ _ _ _ _ E2 Hk Hw) as H2.
    destruct o; try done; apply s_quiet; try done; by intros ? ?%elem_of_nil.
Qed.

(** One access of a call of [key], beside the other calls [l] of [key]. *)
Lemma own_sound now c s p s' l x : ml_access now c s = (p, s') -> call_key c = key -> (call_writes c = true -> fails p = false) ->
  sound s (c :: l) x ->
  sound s' (left_of p ++ l) x /\ forall v, call_writes c = false -> p = Returns (Ok (Some v)) -> x = Some v.
Proof.
  intros E Hk Hp [Hr Hf H1 H2|o Hl Hw Hx|o Hl Hw Hx H1].
  - apply Forall_cons in Hr as [Hc Hr]. destruct (read_sound now c s p s' l x) as [Hs Hv]; try done.
    + intros v ->. apply Hf. by left.
    + intros v Hin. apply Hf. by right.
    + by split; [|intros v _; apply Hv].
  - injection Hl as -> ->. rewrite app_nil_r. split; [|intros v Hf; simpl in Hf; congruence].
    destruct (write_sound now o s s' p x Hw Hk Hx (Hp Hw)) as [Ha Hb]. exact (Ha E).
  - injection Hl as -> ->. rewrite app_nil_r. split; [|intros v Hf; simpl in Hf; congruence].
    destruct (write_sound now o s s' p x Hw Hk Hx (Hp Hw)) as [Ha Hb]. exact (Hb E H1).
Qed.

Lemma after_perm i c p (l : list (mcall K V)) : l !! i = Some c -> after i p l ≡ₚ left_of p ++ delete i l.
Proof.
  intros H. destruct p as [c'|r]; [|done]. simpl.
  rewrite (delete_Permutation (<[i := c']> l) i c') by (apply list_lookup_insert_eq; by eapply lookup_lt_Some).
  constructor. by rewrite !delete_take_drop, take_insert_ge, drop_insert_lt by lia.
Qed.

Lemma mine_perm l l' : l ≡ₚ l' -> mine l ≡ₚ mine l'.
Proof. intros H. unfold mine. by rewrite H. Qed.

Lemma mine_all l : Forall (fun c => call_key c = key) l -> mine l = l.
Proof. unfold mine. induction 1 as [|c l Hc _ IH]; [done|]. by rewrite filter_cons_True, IH. Qed.
Lemma mine_none l : Forall (fun c => call_key c <> key) l -> mine l = [].
Proof. unfold mine. induction 1 as [|c l Hc _ IH]; [done|]. by rewrite filter_cons_False, IH. Qed.

(** An access keeps the invariant, and a read of [key] that hits returns the latest value. *)
Lemma access_ninv i c now p s n : ninv n -> under n !! i = Some c -> ml_access now c (levels n) = (p, s) ->
  (call_key c = key -> call_writes c = true -> fails p = false) ->
  ninv (mkNode s (after i p (under n)) (latest n)) /\
  forall v, call_key c = key -> call_writes c = false -> p = Returns (Ok (Some v)) -> latest n = Some v.
Proof.
  intros Hn Hi E Hp. unfold ninv in *. cbn [levels under latest]. pose proof (access_key _ _ _ _ _ E) as Hleft.
  assert (mine (under n) ≡ₚ mine (c :: delete i (under n))) as Hmine.
  { apply mine_perm. by rewrite <- (delete_Permutation _ _ _ Hi). }
  assert (mine (after i p (under n)) ≡ₚ mine (left_of p) ++ mine (delete i (under n))) as Hafter.
  { rewrite (mine_perm _ _ (after_perm _ _ _ _ Hi)). unfold mine. by rewrite filter_app. }
  apply (sound_perm _ _ _ _ Hmine) in Hn. unfold mine at 1 in Hn. rewrite filter_cons in Hn.
  destruct (decide (call_key c = key)) as [Hk|Hk].
  - destruct (own_sound _ _ _ _ _ _ _ E Hk (Hp Hk) Hn) as [Hs Hv]. split; [|by intros v _; apply Hv].
    apply (sound_perm _ _ _ _ (symmetry Hafter)). rewrite mine_all; [done|]. by rewrite <- Hk.
  - split; [|done]. apply (sound_perm _ _ _ _ (symmetry Hafter)). rewrite mine_none; [by eapply other_sound|].
    eapply Forall_impl; [done|]. cbn. by intros ? ->.
Qed.

Lemma begin_ninv o n : ninv n -> may_begin o (under n) ->
  ninv (mkNode (levels n) (under n ++ [AtL1 o])
          (if decide (op_key o = key) then if writes o then value_of o else latest n else latest n)).
Proof.
  intros Hn Hb. unfold ninv in *. cbn [levels under latest]. unfold mine at 1. rewrite filter_app. fold (mine (under n)).
  destruct (decide (op_key o = key)) as [Hk|Hk].
  - specialize (Hb Hk). rewrite filter_cons_True by done. rewrite filter_nil. destruct (writes o) eqn:Hw.
    + rewrite Hb. by apply (s_first _ _ _ o).
    + destruct Hn as [Hr Hf H1 H2|o' Hl Hw' _|o' Hl Hw' _ _]; [|rewrite Hl in Hb; apply Forall_cons in Hb as [? _]; simpl in *; congruence..].
      apply s_quiet; try done; [apply Forall_app; split; [done|by constructor]|].
      intros v [?|?%list_elem_of_singleton]%elem_of_app; [by apply Hf|done].
  - rewrite filter_cons_False, filter_nil, app_nil_r by done. done.
Qed.

Lemma mstep_ninv n n' : ninv n -> mstep n n' -> ninv n'.
Proof.
  intros Hn Hs. revert Hn. destruct Hs as [o m Hb|i c now p s m Hi E Hp|s m Hv1 Hv2]; intros Hn.
  - exact (begin_ninv _ _ Hn Hb).
  - exact (proj1 (access_ninv _ _ _ _ _ _ Hn Hi E Hp)).
  - revert Hn. apply sound_less; intros; [by apply Hv1|by apply Hv2].
Qed.

(** In every run, reads of [key] that hit return what the last write of [key] left. *)
Lemma runs_fresh s x n i c now v s' : only x (l1 s) -> only x (l2 s) -> runs mstep (mkNode s [] x) n ->
  under n !! i = Some c -> call_key c = key -> call_writes c = false ->
  ml_access now c (levels n) = (Returns (Ok (Some v)), s') -> latest n = Some v.
Proof.
  intros H1 H2 Hr Hi Hk Hw E. assert (ninv n) as Hn.
  { revert Hr. apply runs_inv; [apply mstep_ninv|]. apply s_quiet; try done. by intros ? ?%elem_of_nil. }
  refine (proj2 (access_ninv _ _ _ _ _ _ Hn Hi E _) v Hk Hw eq_refl). congruence.
Qed.

(** C8: The two-level cache over two levels that forget but do not invent (a level behind a circuit breaker is not one of these)
    serves no stale value for a key whose writes overlap no other call of the key and report no error: whatever reads of the key
    overlap each other, and whatever calls of other keys, with or without errors, run in between their accesses, and whatever the levels
    evict or expire meanwhile, a read of the key that hits returns what the last write of the key left, and no read hits after a delete. *)
Theorem multilevel_no_stale_read s x n i c now v s' : only x (l1 s) -> only x (l2 s) -> runs mstep (mkNode s [] x) n ->
  under n !! i = Some c -> call_key c = key -> call_writes c = false ->
  ml_access now c (levels n) = (Returns (Ok (Some v)), s') -> latest n = Some v.
Proof. apply runs_fresh. Qed.

End Steps.

(** A read that overlaps a delete of its key brings the deleted value back: when the delete runs between the read's access to the
    second level and its refill of the first, the delete reports no error, and later reads return the value that was deleted. *)
Theorem refill_undoes_delete {K V} `{Countable K} (k : K) (v : V) (m1 m2 : gmap K V) : m1 !! k = None -> m2 !! k = Some v ->
  exists s1 s2 s3 s4,
    ml_access 0 (AtL1 (OGet k)) (mkML m1 m2) = (Goes (AtL2 (OGet k)), s1) /\
    ml_access 1 (AtL2 (OGet k)) s1 = (Goes (Refill k v), s2) /\
    ml_Delete (V := V) 2 k s2 = (None, s3) /\
    ml_access 3 (Refill k v) s3 = (Returns (Ok (Some v)), s4) /\
    l2 s4 !! k = None /\ fst (ml_Get 4 k s4) = Ok (Some v).
Proof.
  intros H1 H2. cbn. unfold noop_Get. rewrite H1. do 4 eexists. split; [done|]. cbn. unfold noop_Get. rewrite H2.
  split; [done|]. split; [done|]. split; [done|]. cbn. split; [apply lookup_delete_eq|].
  unfold ml_Get. cbn. unfold noop_Get. by rewrite lookup_insert_eq.
Qed.

(** ** Witnesses *)

(** A read of "a" that misses the first level, with a write of "b" between its accesses. *)
Abbreviation text_map := (gmap string Z).
Definition demo_levels : multiLevel text_map text_map := mkML ∅ {[ "a" := 5 ]}.
Definition demo_late : node (S1 := text_map) (S2 := text_map) := mkNode (mkML {[ "b" := 7 ]} {[ "a" := 5 ]}) [Refill "a" 5; AtL2 (OSet "b" 7)] (Some 5).

Lemma calls_demo_runs : runs (mstep "a") (mkNode demo_levels [] (Some 5)) demo_late.
Proof.
  eapply runs_step; [eapply runs_step; [eapply runs_step; [eapply runs_step; [eapply runs_step; [apply runs_refl|]|]|]|]|].
  - apply (m_begin "a" (OGet "a")). intros _. constructor.
  - apply (m_begin "a" (OSet "b" 7)). done.
  - apply (m_access "a" 0 (AtL1 (OGet "a")) 1 (Goes (AtL2 (OGet "a"))) demo_levels); done.
  - apply (m_access "a" 1 (AtL1 (OSet "b" 7)) 2 (Goes (AtL2 (OSet "b" 7))) (mkML {[ "b" := 7 ]} {[ "a" := 5 ]})); done.
  - apply (m_access "a" 0 (AtL2 (OGet "a")) 3 (Goes (Refill "a" 5)) (mkML {[ "b" := 7 ]} {[ "a" := 5 ]})); done.
Qed.

Lemma multilevel_no_stale_read_witness : latest demo_late = Some 5.
Proof.
  refine (multilevel_no_stale_read "a" demo_levels (Some 5) demo_late 0 (Refill "a" 5) 4 5 _ _ _ calls_demo_runs eq_refl eq_refl eq_refl eq_refl).
  - intros t v. cbn. by rewrite lookup_empty.
  - intros t v. cbn. by rewrite lookup_singleton_eq.
Defined.

Lemma refill_undoes_delete_witness : exists s, l2 s !! "a" = None /\ fst (ml_Get 4 "a" s) = Ok (Some 5).
Proof.
  destruct (refill_undoes_delete "a" 5 (∅ : text_map) {[ "a" := 5 ]}) as (s1 & s2 & s3 & s4 & _ & _ & _ & _ & ?); [done|done|].
  by exists s4.
Defined.

End CacheCalls.
