(* ===== verification/CacheLayers.v ===== *)
(** * Layers of the cache: the rest of pkg/cache

    The codecs (codec.go, codec_compress.go), the redis layer (redis.go), the ristretto layer
    (ristretto.go), the recording of statistics (metrics.go), and the builder that puts them
    together (builder.go).  go-redis, ristretto and gzip are classes with the laws the layers
    rely on; each has an instance. *)
From stdpp Require Import prelude strings list gmap.
From Stdlib Require Import ZArith Lia Ascii.
From S2P Require Import Prelude Cache CacheCalls.

Local Open Scope Z_scope.

Module CacheLayers.
Import Cache CacheCalls.

(** Bytes are strings. *)
Abbreviation bytes := string.

(** ** codec.go, codec_compress.go *)

Record Codec (V : Type) := mkCodec {
  Marshal : V -> res cerror bytes;
  Unmarshal : bytes -> res cerror V
}.
Arguments mkCodec {V}.
Arguments Marshal {V}.
Arguments Unmarshal {V}.

Definition RawString : Codec string := mkCodec (fun v => Ok v) (fun data => Ok data).

(** [JSON] and [Proto]: the functions of the packages they wrap. *)
Definition JSON {V} (json_Marshal : V -> res cerror bytes) (json_Unmarshal : bytes -> res cerror V) : Codec V :=
  mkCodec json_Marshal json_Unmarshal.

(** [Proto] decodes into a message made by the factory. *)
Definition Proto {V} (proto_Marshal : V -> res cerror bytes) (proto_Unmarshal : bytes -> V -> res cerror V)
    (factory : unit -> V) : Codec V :=
  mkCodec proto_Marshal (fun data => proto_Unmarshal data (factory tt)).

(** gzip: the writer over a buffer, and reading to the end. *)
Class Gzip := {
  gzip_write : bytes -> res cerror bytes;
  gzip_NewReader : bytes -> res cerror bytes;
  ReadAll : bytes -> res cerror bytes
}.

Definition compressed_Marshal `{Gzip} {V} (inner : Codec V) (v : V) : res cerror bytes :=
  res_bind (Marshal inner v) gzip_write.

Definition compressed_Unmarshal `{Gzip} {V} (inner : Codec V) (data : bytes) : res cerror V :=
  res_bind (gzip_NewReader data) (fun r => res_bind (ReadAll r) (Unmarshal inner)).

Definition Compressed `{Gzip} {V} (inner : Codec V) : Codec V :=
  mkCodec (compressed_Marshal inner) (compressed_Unmarshal inner).

(** What is encoded is decoded to the same value. *)
Definition lossless {V} (c : Codec V) : Prop := forall v data, Marshal c v = Ok data -> Unmarshal c data = Ok v.

Class GzipLaws `{Gzip} := {
  gunzip_gzip : forall raw data, gzip_write raw = Ok data ->
    exists r, gzip_NewReader data = Ok r /\ ReadAll r = Ok raw
}.

(** ** redis.go *)

(** The client: strings under keys, with a time to live. *)
Class Redis (R : Type) := {
  client_Get : Z -> string -> R -> res cerror (option bytes) * R;
  client_Set : Z -> string -> bytes -> Z -> R -> option cerror * R;
  client_Del : Z -> string -> R -> option cerror * R
}.

(** [RedisConfig] with the key function; the client is the state. *)
Record RedisConfig {K V : Type} := mkRedisConfig {
  Prefix : string;
  TTL : Z;
  codec : Codec V;
  keyFn : K -> string
}.
Arguments RedisConfig : clear implicits.
Arguments mkRedisConfig {K V}.

Record redisCache {R K V : Type} (cfg : RedisConfig K V) := mkRedis { client : R }.
Arguments redisCache R {K V} cfg.
Arguments mkRedis {R K V} cfg client.
Arguments client {R K V cfg}.

Section RedisCache.
Context {R K V : Type} `{Redis R} (cfg : RedisConfig K V).

Definition redis_key (k : K) : string := Prefix cfg +:+ ":" +:+ keyFn cfg k.

Definition redis_Get (now : Z) (key : K) (c : redisCache R cfg) : res cerror (option V) * redisCache R cfg :=
  let '(r, s) := client_Get now (redis_key key) (client c) in
  (match r with
   | Err err => Err err
   | Ok None => Ok None
   | Ok (Some data) => match Unmarshal (codec cfg) data with Ok v => Ok (Some v) | Err err => Err err end
   end, mkRedis cfg s).

Definition redis_SetTTL (now : Z) (key : K) (value : V) (ttl : Z) (c : redisCache R cfg)
  : option cerror * redisCache R cfg :=
  match Marshal (codec cfg) value with
  | Err err => (Some err, c)
  | Ok data => let '(err, s) := client_Set now (redis_key key) data ttl (client c) in (err, mkRedis cfg s)
  end.

Definition redis_Set (now : Z) (key : K) (value : V) (c : redisCache R cfg) : option cerror * redisCache R cfg :=
  redis_SetTTL now key value (TTL cfg) c.

Definition redis_Delete (now : Z) (key : K) (c : redisCache R cfg) : option cerror * redisCache R cfg :=
  let '(err, s) := client_Del now (redis_key key) (client c) in (err, mkRedis cfg s).

#[export] Instance redis_cache : Cache (redisCache R cfg) K V := {
  c_Get := redis_Get; c_Set := redis_Set; c_SetTTL := redis_SetTTL; c_Delete := redis_Delete
}.
End RedisCache.

(** What the server may forget and may not invent; after a failed write it holds the old or
    the new value. *)
Class RedisLaws (R : Type) `{Redis R} := {
  r_peek : Z -> string -> R -> option bytes;
  r_get_peek : forall now k s v s', client_Get now k s = (Ok (Some v), s') -> r_peek now k s = Some v;
  r_get_keeps : forall now k s r s' t k' v, client_Get now k s = (r, s') ->
    r_peek t k' s' = Some v -> r_peek t k' s = Some v;
  r_set_sees : forall now k v ttl s r s' t v', client_Set now k v ttl s = (r, s') ->
    r_peek t k s' = Some v' -> v' = v \/ (r <> None /\ r_peek t k s = Some v');
  r_set_keeps : forall now k v ttl s r s' t k' v', client_Set now k v ttl s = (r, s') -> k' <> k ->
    r_peek t k' s' = Some v' -> r_peek t k' s = Some v';
  r_del_sees : forall now k s s' t, client_Del now k s = (None, s') -> r_peek t k s' = None;
  r_del_keeps : forall now k s r s' t k' v, client_Del now k s = (r, s') -> k' <> k ->
    r_peek t k' s' = Some v -> r_peek t k' s = Some v
}.

(** A server: values with the moment they expire at. *)
Abbreviation server := (gmap string (bytes * option Z)).

Definition server_at (now : Z) (k : string) (s : server) : option bytes :=
  match s !! k with
  | None => None
  | Some (v, None) => Some v
  | Some (v, Some t) => if now <? t then Some v else None
  end.

#[export] Instance server_redis : Redis server := {
  client_Get := fun now k s => (Ok (server_at now k s), s);
  client_Set := fun now k v ttl s => (None, <[k := (v, if 0 <? ttl then Some (now + ttl) else None)]> s);
  client_Del := fun _ k s => (None, delete k s)
}.

#[export] Instance server_laws : RedisLaws server.
Proof.
  refine {| r_peek := server_at |}; cbn; unfold server_at; intros; simplify_eq; try done.
  - left. rewrite lookup_insert_eq in *. by go_split.
  - by rewrite lookup_insert_ne in * by done.
  - by rewrite lookup_delete_eq.
  - by rewrite lookup_delete_ne in * by done.
Defined.

(** ** ristretto.go *)

(** The library: writes may be dropped, entries evicted. *)
Class Ristretto (R V : Type) := {
  rt_Get : Z -> string -> R -> option V * R;
  rt_SetWithTTL : Z -> string -> V -> Z -> Z -> R -> R;
  rt_Del : Z -> string -> R -> R
}.

Record RistrettoConfig := mkRC { MaxCost : Z; NumCounters : Z; BufferItems : Z; rc_TTL : Z; DefaultCost : Z }.

(** The defaults that [newRistretto] fills in; the product is that of [int64]. *)
Definition ristretto_config (cfg : RistrettoConfig) : RistrettoConfig :=
  mkRC (MaxCost cfg)
    (if NumCounters cfg =? 0 then i64 (MaxCost cfg * 10) else NumCounters cfg)
    (if BufferItems cfg =? 0 then 64 else BufferItems cfg)
    (rc_TTL cfg)
    (if DefaultCost cfg =? 0 then 1 else DefaultCost cfg).

Record ristrettoCache {R K : Type} := mkRistretto {
  rt_inner : R;
  rt_keyFn : K -> string;
  defaultCost : Z;
  rt_ttl : Z
}.
Arguments ristrettoCache : clear implicits.

(** [NewCache] is [ristretto.NewCache]. *)
Definition newRistretto {R K} (NewCache : Z -> Z -> Z -> res cerror R) (cfg : RistrettoConfig) (keyFn : K -> string)
  : res cerror (ristrettoCache R K) :=
  let cfg := ristretto_config cfg in
  res_bind (NewCache (NumCounters cfg) (MaxCost cfg) (BufferItems cfg)) (fun inner =>
    Ok (mkRistretto _ _ inner keyFn (DefaultCost cfg) (rc_TTL cfg))).

Section RistrettoCache.
Context {R K V : Type} `{Ristretto R V}.

Definition with_inner (c : ristrettoCache R K) (r : R) : ristrettoCache R K :=
  mkRistretto _ _ r (rt_keyFn c) (defaultCost c) (rt_ttl c).

Definition ristretto_Get (now : Z) (key : K) (c : ristrettoCache R K) : res cerror (option V) * ristrettoCache R K :=
  let '(v, r) := rt_Get now (rt_keyFn c key) (rt_inner c) in (Ok v, with_inner c r).

(** [Set] of the library is [SetWithTTL] with no time to live. *)
Definition ristretto_Set (now : Z) (key : K) (value : V) (c : ristrettoCache R K) : option cerror * ristrettoCache R K :=
  (None, with_inner c
     (rt_SetWithTTL now (rt_keyFn c key) value (defaultCost c) (if 0 <? rt_ttl c then rt_ttl c else 0) (rt_inner c))).

Definition ristretto_SetTTL (now : Z) (key : K) (value : V) (ttl : Z) (c : ristrettoCache R K)
  : option cerror * ristrettoCache R K :=
  (None, with_inner c (rt_SetWithTTL now (rt_keyFn c key) value (defaultCost c) ttl (rt_inner c))).

Definition ristretto_Delete (now : Z) (key : K) (c : ristrettoCache R K) : option cerror * ristrettoCache R K :=
  (None, with_inner c (rt_Del (V := V) now (rt_keyFn c key) (rt_inner c))).

#[export] Instance ristretto_cache : Cache (ristrettoCache R K) K V := {
  c_Get := ristretto_Get; c_Set := ristretto_Set; c_SetTTL := ristretto_SetTTL; c_Delete := ristretto_Delete
}.
End RistrettoCache.

(** What is used of the library: a write with a negative time to live does nothing, and an
    entry that is there is found. *)
Class RistrettoLaws (R V : Type) `{Ristretto R V} := {
  rt_has : Z -> string -> R -> option V;
  rt_get_has : forall now k r v, rt_has now k r = Some v -> (rt_Get now k r).1 = Some v;
  rt_negative : forall now k v cost ttl r, ttl < 0 -> rt_SetWithTTL now k v cost ttl r = r
}.

#[export] Instance map_ristretto {V} : Ristretto (gmap string V) V := {
  rt_Get := fun _ k m => (m !! k, m);
  rt_SetWithTTL := fun _ k v _ ttl m => if ttl <? 0 then m else <[k := v]> m;
  rt_Del := fun _ k m => delete k m
}.

#[export] Instance map_ristretto_laws {V} : RistrettoLaws (gmap string V) V.
Proof.
  refine {| rt_has := fun _ k m => m !! k |}; cbn; intros; [done|].
  by destruct (Z.ltb_spec ttl 0); [|lia].
Defined.

(** ** metrics.go *)

Inductive event := Hit (name layer : string) | Miss (name layer : string) | Error (name layer op : string).

Record instrumentedCache {S : Type} := mkInstr { i_inner : S; stats : list event; i_name : string; i_layer : string }.
Arguments instrumentedCache : clear implicits.

Definition newInstrumentedCache {S} (inner : S) (name layer : string) : instrumentedCache S := mkInstr _ inner [] name layer.

Section Instrumented.
Context {S K V : Type} `{Cache S K V}.

Definition record_event (c : instrumentedCache S) (s : S) (e : list event) : instrumentedCache S :=
  mkInstr _ s (stats c ++ e) (i_name c) (i_layer c).

Definition i_Get (now : Z) (key : K) (c : instrumentedCache S) : res cerror (option V) * instrumentedCache S :=
  let '(r, s) := c_Get now key (i_inner c) in
  (r, record_event c s
        [match r with
         | Err _ => Error (i_name c) (i_layer c) "get"
         | Ok (Some _) => Hit (i_name c) (i_layer c)
         | Ok None => Miss (i_name c) (i_layer c)
         end]).

Definition i_write (op : string) (r : option cerror * S) (c : instrumentedCache S) : option cerror * instrumentedCache S :=
  (r.1, record_event c r.2 (match r.1 with Some _ => [Error (i_name c) (i_layer c) op] | None => [] end)).

Definition i_Set (now : Z) (key : K) (value : V) (c : instrumentedCache S) :=
  i_write "set" (c_Set now key value (i_inner c)) c.
Definition i_SetTTL (now : Z) (key : K) (value : V) (ttl : Z) (c : instrumentedCache S) :=
  i_write "set" (c_SetTTL now key value ttl (i_inner c)) c.
Definition i_Delete (now : Z) (key : K) (c : instrumentedCache S) :=
  i_write "delete" (c_Delete (V := V) now key (i_inner c)) c.

#[export] Instance instrumented_cache : Cache (instrumentedCache S) K V := {
  c_Get := i_Get; c_Set := i_Set; c_SetTTL := i_SetTTL; c_Delete := i_Delete
}.
End Instrumented.

(** ** builder.go *)

(** The caches a builder can make, as the objects that hold each other. *)
Inductive chain :=
| CRistretto (cfg : RistrettoConfig)
| CRedis (prefix : string)
| CBreaker (threshold timeout : Z) (c : chain)
| CInstr (name layer : string) (c : chain)
| CMulti (l1 l2 : chain)
| CLoading (c : chain).

Record Builder := mkBuilder {
  bname : string;
  l1Cfg : option RistrettoConfig;
  l2Cfg : option string;
  cbCfg : option (Z * Z);
  bstats : bool;
  loader : bool
}.

Definition New : Builder := mkBuilder EmptyString None None None false false.
Definition Name (name : string) (b : Builder) : Builder := mkBuilder name (l1Cfg b) (l2Cfg b) (cbCfg b) (bstats b) (loader b).
Definition L1 (cfg : RistrettoConfig) (b : Builder) : Builder := mkBuilder (bname b) (Some cfg) (l2Cfg b) (cbCfg b) (bstats b) (loader b).
Definition L2 (prefix : string) (b : Builder) : Builder := mkBuilder (bname b) (l1Cfg b) (Some prefix) (cbCfg b) (bstats b) (loader b).
Definition WithCircuitBreaker (cfg : Z * Z) (b : Builder) : Builder := mkBuilder (bname b) (l1Cfg b) (l2Cfg b) (Some cfg) (bstats b) (loader b).
Definition WithStats (b : Builder) : Builder := mkBuilder (bname b) (l1Cfg b) (l2Cfg b) (cbCfg b) true (loader b).
Definition WithLoader (b : Builder) : Builder := mkBuilder (bname b) (l1Cfg b) (l2Cfg b) (cbCfg b) (bstats b) true.

Definition instrument (b : Builder) (layer : string) (c : chain) : chain :=
  if bstats b then CInstr (bname b) layer c else c.

(** [l1_error] is the error of [newRistretto], if it fails. *)
Definition Build (l1_error : RistrettoConfig -> option string) (b : Builder) : res string chain :=
  match l1Cfg b, l2Cfg b with
  | None, None => Err "cache: at least one layer (L1 or L2) must be configured"%string
  | _, _ =>
      let l1 :=
        match l1Cfg b with
        | None => Ok None
        | Some cfg =>
            match l1_error cfg with
            | Some err => Err ("cache: init L1: " +:+ err)
            | None => Ok (Some (instrument b "l1" (CRistretto (ristretto_config cfg))))
            end
        end in
      res_bind l1 (fun l1 =>
        let l2 :=
          prefix ← l2Cfg b;
          let c := CRedis prefix in
          let c := match cbCfg b with None => c | Some (th, t) => CBreaker th t c end in
          Some (instrument b "l2" c) in
        let result :=
          match l1, l2 with
          | Some l1, Some l2 => Some (CMulti l1 l2)
          | Some l1, None => Some l1
          | None, l2 => l2
          end in
        match result with
        | Some c => Ok (if loader b then CLoading c else c)
        | None => Err "nil cache"%string
        end)
  end.

Definition MustBuild (l1_error : RistrettoConfig -> option string) (b : Builder) : outcome chain :=
  match Build l1_error b with Ok c => Ret c | Err e => Panic e end.

(** ** Lemmas *)

Section RedisFaithful.
Context {R K V : Type} `{RedisLaws R} (cfg : RedisConfig K V).
Context (Hlossless : lossless (codec cfg)) {Hinj : Inj (=) (=) (keyFn cfg)}.

Lemma redis_key_inj k k' : redis_key cfg k = redis_key cfg k' -> k = k'.
Proof.
  unfold redis_key. intros E. apply (inj (keyFn cfg)).
  assert (forall a b c : string, a +:+ b = a +:+ c -> b = c) as Hc.
  { induction a as [|x a IH]; intros b c; [done|]. rewrite !append_cons. intros [= ?]. by apply IH. }
  by apply Hc in E; apply Hc in E.
Qed.

Definition redis_peek (t : Z) (k : K) (c : redisCache R cfg) : option V :=
  match r_peek t (redis_key cfg k) (client c) with
  | Some data => match Unmarshal (codec cfg) data with Ok v => Some v | Err _ => None end
  | None => None
  end.

Lemma redis_set_ttl_sees now k v ttl c r c' t v' :
  redis_SetTTL cfg now k v ttl c = (r, c') -> redis_peek t k c' = Some v' ->
  v' = v \/ (r <> None /\ redis_peek t k c = Some v').
Proof.
  unfold redis_SetTTL, redis_peek. destruct (Marshal (codec cfg) v) as [data|] eqn:Em; [|by intros [= <- <-]; auto].
  destruct (client_Set _ _ _ _ _) as [err s] eqn:Es. intros [= <- <-]. cbn.
  destruct (r_peek t (redis_key cfg k) s) as [d|] eqn:Ep; [|done]. intros Hd.
  destruct (r_set_sees _ _ _ _ _ _ _ _ _ Es Ep) as [->|[Hr ->]]; [|auto].
  left. rewrite (Hlossless _ _ Em) in Hd. congruence.
Qed.

Lemma redis_set_ttl_keeps now k v ttl c r c' t k' v' :
  redis_SetTTL cfg now k v ttl c = (r, c') -> k' <> k -> redis_peek t k' c' = Some v' -> redis_peek t k' c = Some v'.
Proof.
  unfold redis_SetTTL, redis_peek. destruct (Marshal (codec cfg) v) as [data|] eqn:Em; [|by intros [= <- <-]; auto].
  destruct (client_Set _ _ _ _ _) as [err s] eqn:Es. intros [= <- <-] Hk. cbn.
  destruct (r_peek t (redis_key cfg k') s) as [d|] eqn:Ep; [|done].
  eapply r_set_keeps in Ep as ->; [done|done|]. intros E%redis_key_inj. done.
Qed.

(** The redis layer forgets and does not invent, if its server does, its codec is lossless
    and its keys are distinct. *)
Instance redis_faithful : Faithful (redisCache R cfg) K V.
Proof.
  refine {| peek := redis_peek |}; cbn; unfold redis_Set.
  - intros now k c v c' E. unfold redis_Get, redis_peek in *. destruct (client_Get _ _ _) as [[[d|]|] s] eqn:Eg; simplify_eq.
    rewrite (r_get_peek _ _ _ _ _ Eg). destruct (Unmarshal (codec cfg) d); by simplify_eq.
  - intros now k c r c' t k' v E. unfold redis_Get, redis_peek in *. destruct (client_Get _ _ _) as [x s] eqn:Eg. simplify_eq. cbn.
    destruct (r_peek t (redis_key cfg k') s) as [d|] eqn:Ep; [|done]. by rewrite (r_get_keeps _ _ _ _ _ _ _ _ Eg Ep).
  - intros. by eapply redis_set_ttl_sees.
  - intros. by eapply redis_set_ttl_keeps.
  - intros now k v ttl c c' t v' E Hp. by destruct (redis_set_ttl_sees _ _ _ _ _ _ _ _ _ E Hp) as [?|[? _]].
  - intros. by eapply redis_set_ttl_keeps.
  - intros now k c c' t E. unfold redis_Delete, redis_peek in *. destruct (client_Del _ _ _) as [x s] eqn:Ed. simplify_eq. cbn.
    by rewrite (r_del_sees _ _ _ _ _ Ed).
  - intros now k c r c' t k' v E Hk. unfold redis_Delete, redis_peek in *. destruct (client_Del _ _ _) as [x s] eqn:Ed. simplify_eq. cbn.
    destruct (r_peek t (redis_key cfg k') s) as [d|] eqn:Ep; [|done].
    eapply r_del_keeps in Ep as ->; [done|done|]. intros E%redis_key_inj. done.
Defined.

(** ** Theorems *)

(** A first level that forgets and does not invent over a redis level with a lossless codec and distinct keys: through encoding,
    expiry and refills, in every interleaving of the calls, a read of a key that hits returns what the last write of the key left, if
    the writes of the key overlap no other call of the key and report no error. *)
Theorem redis_two_levels_no_stale {S1} `{EqDecision K} `{Faithful S1 K V} key (s : multiLevel S1 (redisCache R cfg)) x n i c now v s' :
  only key x (l1 s) -> only key x (l2 s) -> runs (mstep key) (mkNode s [] x) n ->
  under n !! i = Some c -> call_key c = key -> call_writes c = false ->
  ml_access now c (levels n) = (Returns (Ok (Some v)), s') -> latest n = Some v.
Proof. apply runs_fresh. Qed.

End RedisFaithful.

(** Strings in redis, under one prefix. *)
Definition raw_config (prefix : string) (ttl : Z) : RedisConfig string string :=
  mkRedisConfig prefix ttl RawString (fun k => k).

Lemma raw_lossless : lossless RawString.
Proof. intros v data E. cbn in *. congruence. Qed.

(** A read of the entry of redis, between its access to redis and its refill. *)
Abbreviation demo_redis := (redisCache server (raw_config "p" 60)).
Definition demo_redis_levels : multiLevel (gmap string string) demo_redis :=
  mkML ∅ (mkRedis (raw_config "p" 60) ({["p:a"%string := ("5"%string, Some 100)]} : server)).
Definition demo_redis_late : node (S1 := gmap string string) (S2 := demo_redis) :=
  mkNode demo_redis_levels [Refill "a"%string "5"%string] (Some "5"%string).

Lemma redis_two_levels_no_stale_witness : latest demo_redis_late = Some "5"%string.
Proof.
  assert (Inj eq eq (keyFn (raw_config "p" 60))) as Hinj by (intros ? ? E; exact E).
  refine (redis_two_levels_no_stale (raw_config "p" 60) raw_lossless (Hinj := Hinj) "a"%string demo_redis_levels
    (Some "5"%string) demo_redis_late 0 (Refill "a"%string "5"%string) 7 "5"%string _ _ _ _ eq_refl eq_refl eq_refl eq_refl).
  - intros t v. cbn. by rewrite lookup_empty.
  - intros t v. unfold peek, redis_faithful, redis_peek. cbn. unfold server_at. rewrite lookup_singleton_eq.
    destruct (t <? 100); intros [= <-]; done.
  - eapply runs_step; [eapply runs_step; [eapply runs_step; [apply runs_refl|]|]|].
    + apply (m_begin "a"%string (OGet "a"%string)). intros _. constructor.
    + apply (m_access "a"%string 0 (AtL1 (OGet "a"%string)) 1 (Goes (AtL2 (OGet "a"%string))) demo_redis_levels); done.
    + apply (m_access "a"%string 0 (AtL2 (OGet "a"%string)) 2 (Goes (Refill "a"%string "5"%string)) demo_redis_levels); done.
Defined.

(** Compression keeps a codec lossless; strings are stored as they are. *)
Theorem compressed_lossless `{GzipLaws} {V} (inner : Codec V) : lossless inner -> lossless (Compressed inner).
Proof.
  intros Hi v data. cbn. unfold compressed_Marshal, compressed_Unmarshal.
  destruct (Marshal inner v) as [raw|] eqn:Em; [|done]. cbn. intros Hg.
  destruct (gunzip_gzip _ _ Hg) as (r & -> & Hr). cbn. rewrite Hr. cbn. by apply Hi.
Qed.

(** A compression that marks its output. *)
#[export] Instance mark_gzip : Gzip := {
  gzip_write := fun raw => Ok (String "z"%char raw);
  gzip_NewReader := fun data => match data with String "z"%char raw => Ok raw | _ => Err (EOther "gzip: invalid header") end;
  ReadAll := fun r => Ok r
}.

#[export] Instance mark_gzip_laws : GzipLaws.
Proof. split. cbn. intros raw data [= <-]. by exists raw. Defined.

Lemma compressed_lossless_witness : lossless (Compressed RawString) /\ Unmarshal (Compressed RawString) "zab" = Ok "ab"%string.
Proof. split; [apply (compressed_lossless RawString), raw_lossless|done]. Defined.

(** A unique prefix does not keep two caches apart: the key is the prefix, a colon and the key,
    and a colon may be in either of them. *)
Theorem prefix_collision now later k v (s : server) ttl :
  ttl <= 0 ->
  let a := raw_config "a" ttl in let b := raw_config "a:b" ttl in
  exists s', redis_Set b now k v (mkRedis b s) = (None, mkRedis b s')
  /\ (redis_Get a later ("b:" +:+ k) (mkRedis a s')).1 = Ok (Some v).
Proof.
  intros Ht a b. eexists. split; [reflexivity|]. unfold redis_Get. cbn [client_Get server_redis client].
  unfold server_at. cbn [raw_config TTL].
  assert (redis_key a ("b:" +:+ k) = redis_key b k) as -> by done.
  rewrite lookup_insert_eq. destruct (Z.ltb_spec 0 (TTL b)) as [H|]; [cbn in H; lia|done].
Qed.

Lemma prefix_collision_witness :
  let a := raw_config "a" 0 in let b := raw_config "a:b" 0 in
  exists s', redis_Set b 1 "c" "v" (mkRedis b (∅ : server)) = (None, mkRedis b s')
  /\ (redis_Get a 2 "b:c" (mkRedis a s')).1 = Ok (Some "v"%string).
Proof. apply (prefix_collision 1 2 "c" "v" ∅ 0). done. Defined.

(** Recording statistics changes nothing else: every operation answers what the cache
    behind it answers and leaves it as it would; a read is recorded once, as an
    error, a hit or a miss, and a write only when it fails. *)
Theorem instrumented_transparent {S K V} `{Cache S K V} now k (v : V) ttl (c : instrumentedCache S) :
  (let '(r, s) := c_Get now k (i_inner c) in
   let '(r', c') := i_Get now k c in
   r' = r /\ i_inner c' = s /\ exists e, stats c' = stats c ++ [e] /\
     (e = Hit (i_name c) (i_layer c) <-> exists x, r = Ok (Some x)) /\
     (e = Miss (i_name c) (i_layer c) <-> r = Ok None)) /\
  (let '(r, s) := c_SetTTL now k v ttl (i_inner c) in
   let '(r', c') := i_SetTTL now k v ttl c in
   r' = r /\ i_inner c' = s /\ (stats c' = stats c <-> r = None)).
Proof.
  split.
  - unfold i_Get. destruct (c_Get now k (i_inner c)) as [r s]. split; [done|]. split; [done|].
    eexists. split; [reflexivity|]. destruct r as [[x|]|e]; split; split; try done; try (by eexists); by intros [? ?].
  - unfold i_SetTTL, i_write. destruct (c_SetTTL now k v ttl (i_inner c)) as [[e|] s]; cbn;
      (split; [done|]); (split; [done|]); [|by rewrite app_nil_r].
    split; [|done]. intros E. apply (f_equal length) in E. rewrite length_app in E. cbn in E. lia.
Qed.

(** A builder fails iff it has no layer or its first level cannot be made; what it makes is the
    documented order, with the breaker around redis only and inside the statistics. *)
Theorem build_wiring l1_error b :
  match Build l1_error b with
  | Err _ => (l1Cfg b = None /\ l2Cfg b = None) \/ exists cfg err, l1Cfg b = Some cfg /\ l1_error cfg = Some err
  | Ok c =>
      let l1 cfg := instrument b "l1" (CRistretto (ristretto_config cfg)) in
      let l2 p := instrument b "l2" (match cbCfg b with None => CRedis p | Some (th, t) => CBreaker th t (CRedis p) end) in
      let wrap c := if loader b then CLoading c else c in
      (exists cfg p, l1Cfg b = Some cfg /\ l2Cfg b = Some p /\ c = wrap (CMulti (l1 cfg) (l2 p))) \/
      (exists cfg, l1Cfg b = Some cfg /\ l2Cfg b = None /\ c = wrap (l1 cfg)) \/
      (exists p, l1Cfg b = None /\ l2Cfg b = Some p /\ c = wrap (l2 p))
  end.
Proof.
  unfold Build. destruct (l1Cfg b) as [cfg|], (l2Cfg b) as [p|]; cbn; try destruct (l1_error cfg) as [err|] eqn:E; cbn; eauto 10.
Qed.

(** With a negative time to live the two levels come apart: the first keeps the old value
    and the second stores the new one for ever, so reads return the old one. *)
Theorem negative_ttl_stale {R K V} `{Countable K} `{RistrettoLaws R V} now later k (old new : V) ttl (c : ristrettoCache R K) m2 :
  ttl < 0 -> rt_has later (rt_keyFn c k) (rt_inner c) = Some old ->
  let '(err, c') := ml_SetTTL now k new ttl (mkML c (m2 : gmap K V)) in
  err = None /\ (ml_Get later k c').1 = Ok (Some old) /\ l2 c' !! k = Some new.
Proof.
  intros Ht Hh. unfold ml_SetTTL. cbn [c_SetTTL ristretto_cache ristretto_SetTTL noop_cache l1 l2].
  rewrite rt_negative by done. unfold noop_SetTTL, noop_Set. cbn [l2].
  split; [done|]. split; [|by rewrite lookup_insert_eq].
  unfold ml_Get. cbn [c_Get ristretto_cache l1]. unfold ristretto_Get. cbn [with_inner rt_inner rt_keyFn].
  pose proof (rt_get_has _ _ _ _ Hh) as E. destruct (rt_Get later (rt_keyFn c k) (rt_inner c)) as [x r]. cbn in E. by subst.
Qed.

Lemma negative_ttl_stale_witness :
  let c : ristrettoCache (gmap string Z) string := mkRistretto _ _ {["a"%string := 1]} (fun k => k) 1 0 in
  let '(err, c') := ml_SetTTL 0 "a"%string 2 (-5) (mkML c (∅ : gmap string Z)) in
  err = None /\ (ml_Get 1 "a"%string c').1 = Ok (Some 1) /\ l2 c' !! "a"%string = Some 2.
Proof.
  intros c. apply (negative_ttl_stale 0 1 "a"%string 1 2 (-5) c ∅); done.
Defined.

End CacheLayers.
