(* ===== verification/CacheLifecycle.v ===== *)
(** * Opening and closing caches, jitter: src/pkg/cache (loading.go, helpers.go and the [Close] methods)

    The loading cache that a builder puts around the others, with its negative cache; what
    closing a cache releases; and the random spread of a time to live, in float64. *)
From stdpp Require Import prelude strings list gmap.
From Stdlib Require Import ZArith Lia.
From S2P Require Import Prelude Float64 Cache CacheLayers.
Local Open Scope Z_scope.

Module CacheLifecycle.
Import Float64.

(** ** The loading cache (loading.go) *)

Record LoadingConfig := mkLoading { SoftTTL : Z; NegativeTTL : Z }.

(** [new] makes the ristretto cache of the keys known to be absent. *)
Definition newLoadingCache {S N} (new : CacheLayers.RistrettoConfig -> res string N) (c : S) (cfg : LoadingConfig)
  : Cache.loadingCache S N :=
  Cache.mkLC c (SoftTTL cfg) ∅ ∅
    (if 0 <? NegativeTTL cfg then
       match new (CacheLayers.ristretto_config (CacheLayers.mkRC 10000 100000 0 (NegativeTTL cfg) 0)) with
       | Ok neg => Some neg
       | Err _ => None
       end
     else None).

(** ** Closing *)

(** The caches of the package as objects that hold each other; a ristretto cache has an
    identity and goroutines of its own. *)
Inductive cache :=
| Noop
| Ristretto (id : nat)
| Redis
| Breaker (inner : cache)
| Instrumented (inner : cache)
| MultiLevel (l1 l2 : cache)
| Loading (negative : option cache) (inner : cache).

(** [Close]: the ristretto caches closed, in order, and the error. *)
Fixpoint Close (c : cache) : list nat * option string :=
  match c with
  | Noop | Redis => ([], None)
  | Ristretto id => ([id], None)
  | Breaker inner | Instrumented inner => Close inner
  | MultiLevel l1 l2 => ((Close l1).1 ++ (Close l2).1, (Close l2).2)
  | Loading negative inner =>
      ((match negative with Some n => (Close n).1 | None => [] end) ++ (Close inner).1, (Close inner).2)
  end.

(** The objects a chain of the builder is made of, its ristretto caches numbered from [n];
    [neg] tells whether a loading cache has a negative cache. *)
Fixpoint objects (neg : bool) (c : CacheLayers.chain) (n : nat) : cache * nat :=
  match c with
  | CacheLayers.CRistretto _ => (Ristretto n, S n)
  | CacheLayers.CRedis _ => (Redis, n)
  | CacheLayers.CBreaker _ _ c => let '(o, n) := objects neg c n in (Breaker o, n)
  | CacheLayers.CInstr _ _ c => let '(o, n) := objects neg c n in (Instrumented o, n)
  | CacheLayers.CMulti l1 l2 =>
      let '(o1, n) := objects neg l1 n in let '(o2, n) := objects neg l2 n in (MultiLevel o1 o2, n)
  | CacheLayers.CLoading c =>
      let '(o, n) := objects neg c n in
      if neg then (Loading (Some (Ristretto n)) o, S n) else (Loading None o, n)
  end.

(** ** Jitter (helpers.go) *)

(** [r] is the number of [rand.Float64]. *)
Definition Jitter (ttl : Z) (fraction r : f64) : Z :=
  if fnum fraction <=? 0 then ttl
  else
    let delta := fmul (fmul (of_Z ttl) fraction) (fsub (fmul (of_Z 2) r) (of_Z 1)) in
    i64 (ttl + ftrunc delta).

(** ** Lemmas *)

(** Rounding does not leave an interval whose ends are integers. *)
Lemma f64_round_abs n d k : 0 < d -> 0 <= k < 2 ^ 53 -> Z.abs n <= k * d ->
  0 < fden (f64_round n d) /\ Z.abs (fnum (f64_round n d)) <= k * fden (f64_round n d) /\
  (0 <= n -> 0 <= fnum (f64_round n d)).
Proof.
  intros Hd Hk Hn. unfold f64_round. destruct (Z.eqb_spec n 0) as [->|]; [simpl; lia|].
  destruct (Z.ltb_spec n 0); simpl.
  - pose proof (round_pos_den (- n) d). pose proof (round_pos_upper (- n) d k ltac:(lia) Hd Hk ltac:(lia)).
    pose proof (round_pos_lower (- n) d 0 ltac:(lia) Hd ltac:(lia) ltac:(lia)). lia.
  - pose proof (round_pos_den n d). pose proof (round_pos_upper n d k ltac:(lia) Hd Hk ltac:(lia)).
    pose proof (round_pos_lower n d 0 ltac:(lia) Hd ltac:(lia) ltac:(lia)). lia.
Qed.

Lemma ftrunc_abs x k : 0 < fden x -> Z.abs (fnum x) <= k * fden x -> Z.abs (ftrunc x) <= k.
Proof.
  intros Hd Hx. unfold ftrunc. rewrite <- Z.quot_abs by lia. rewrite (Z.abs_eq (fden x)) by lia.
  apply Z.quot_le_upper_bound; lia.
Qed.

(** The random factor is between minus one and one. *)
Lemma factor_bounded r : 0 <= fnum r <= fden r -> 0 < fden r ->
  let x := fsub (fmul (of_Z 2) r) (of_Z 1) in 0 < fden x /\ Z.abs (fnum x) <= fden x.
Proof.
  intros Hr Hd x. destruct (of_Z_exact_int 2) as [E2 H2]; [lia|]. destruct (of_Z_exact_int 1) as [E1 H1]; [lia|].
  assert (0 < fden (fmul (of_Z 2) r) /\ Z.abs (fnum (fmul (of_Z 2) r)) <= 2 * fden (fmul (of_Z 2) r) /\ 0 <= fnum (fmul (of_Z 2) r)) as (Hm & Hm2 & Hm3).
  { unfold fmul. destruct (f64_round_abs (fnum (of_Z 2) * fnum r) (fden (of_Z 2) * fden r) 2) as (A & B & C); nia. }
  set (y := fmul (of_Z 2) r) in *. subst x. unfold fsub, fadd, fneg. cbn [fnum fden].
  destruct (f64_round_abs (fnum y * fden (of_Z 1) + - fnum (of_Z 1) * fden y) (fden y * fden (of_Z 1)) 1) as (A & B & _); [nia|lia|nia|].
  split; [done|lia].
Qed.

Lemma objects_close neg c : forall n, exists closed, (Close (objects neg c n).1) = (closed, None) /\
  (forall id, id ∈ closed <-> (n <= id < (objects neg c n).2)%nat) /\ NoDup closed /\ (n <= (objects neg c n).2)%nat.
Proof.
  induction c as [cfg|p|th t c IH|na la c IH|l1 IH1 l2 IH2|c IH]; intros n; cbn [objects].
  - exists [n]. split; [done|]. split; [|split; [apply NoDup_singleton|simpl; lia]].
    intros id. rewrite list_elem_of_singleton. simpl. lia.
  - exists []. split; [done|]. split; [|split; [by apply NoDup_nil_2|simpl; lia]]. intros id. rewrite elem_of_nil. simpl. lia.
  - specialize (IH n). by destruct (objects neg c n).
  - specialize (IH n). by destruct (objects neg c n).
  - destruct (IH1 n) as (c1 & E1 & H1 & N1 & L1). destruct (objects neg l1 n) as [o1 n1]. simpl in *.
    destruct (IH2 n1) as (c2 & E2 & H2 & N2 & L2). destruct (objects neg l2 n1) as [o2 n2]. simpl in *.
    exists (c1 ++ c2). rewrite E1, E2. split; [done|]. split; [|split; [|lia]].
    + intros id. rewrite elem_of_app, H1, H2. lia.
    + apply NoDup_app. split; [done|]. split; [|done]. intros id Hid. rewrite H1 in Hid. rewrite H2. lia.
  - destruct (IH n) as (cl & E & H & N & L). destruct (objects neg c n) as [o n']. simpl in *.
    destruct neg; simpl; rewrite E; eexists; (split; [reflexivity|]); [|done]. simpl. split; [|split; [|lia]].
    + intros id. rewrite elem_of_cons, H. lia.
    + apply NoDup_cons. split; [rewrite H; lia|done].
Qed.

(** ** Properties *)

(** Closing a cache that a builder can make closes each of its ristretto caches exactly once, the negative
    cache of a loading cache among them, and is never an error. *)
Theorem close_closes_all c neg : exists closed, Close (objects neg c 0).1 = (closed, None) /\ NoDup closed /\
    forall id, id ∈ closed <-> (id < (objects neg c 0).2)%nat.
Proof.
  destruct (objects_close neg c 0) as (closed & E & H & N & _). exists closed. split; [done|]. split; [done|].
  intros id. rewrite H. lia.
Qed.

(** A loading cache starts without stale keys and without refreshes; it has a negative cache iff its
    configuration asks for one and it can be made, and then one whose entries live as long as
    asked. *)
Theorem loading_starts {S N} (new : CacheLayers.RistrettoConfig -> res string N) (c : S) cfg :
  let lc := newLoadingCache new c cfg in
  Cache.lc_cache lc = c /\ Cache.softExpiry lc = ∅ /\ Cache.refreshing lc = ∅ /\
  (forall n, Cache.negative lc = Some n <-> 0 < NegativeTTL cfg /\
     new (CacheLayers.mkRC 10000 100000 64 (NegativeTTL cfg) 1) = Ok n).
Proof.
  cbn zeta. do 3 (split; [done|]). intros n. unfold newLoadingCache. cbn [Cache.negative].
  destruct (Z.ltb_spec 0 (NegativeTTL cfg)); [|split; [done|lia]].
  change (CacheLayers.ristretto_config _) with (CacheLayers.mkRC 10000 100000 64 (NegativeTTL cfg) 1).
  destruct (new _) as [m|e]; [|split; [done|by intros [_ ?]]]. split; [intros [= ->]; done|by intros [_ [= ->]]].
Qed.

(** C34: a time to live with jitter is off by at most the fraction asked for: for a time to live below
    2^53 nanoseconds, no further from it than any whole number of nanoseconds that the fraction of it
    does not exceed, whatever the random number; with a fraction of at most one it is never negative. *)
Theorem jitter_bounded ttl fraction r k : 0 <= ttl < 2 ^ 53 -> 0 <= k < 2 ^ 53 ->
  0 < fden fraction -> ttl * fnum fraction <= k * fden fraction -> 0 <= fnum r <= fden r -> 0 < fden r ->
  Z.abs (Jitter ttl fraction r - ttl) <= k /\ (fnum fraction <= fden fraction -> 0 <= Jitter ttl fraction r).
Proof.
  intros Ht Hk Hfd Hf Hr Hrd. destruct (of_Z_exact_int ttl) as [Et Htd]; [lia|].
  assert (forall j, 0 <= j < 2 ^ 53 -> ttl * fnum fraction <= j * fden fraction -> Z.abs (Jitter ttl fraction r - ttl) <= j) as Hmain.
  { intros j Hj Hfj. unfold Jitter. destruct (Z.leb_spec (fnum fraction) 0); [rewrite Z.sub_diag; simpl; lia|]. cbn zeta.
    destruct (f64_round_abs (fnum (of_Z ttl) * fnum fraction) (fden (of_Z ttl) * fden fraction) j) as (Hm & Hma & _); [nia|done|nia|].
    fold (fmul (of_Z ttl) fraction) in Hm, Hma. set (a := fmul (of_Z ttl) fraction) in *.
    destruct (factor_bounded r Hr Hrd) as [Hx Hxa]. set (x := fsub (fmul (of_Z 2) r) (of_Z 1)) in *.
    destruct (f64_round_abs (fnum a * fnum x) (fden a * fden x) j) as (Hd & Hda & _); [nia|done|rewrite Z.abs_mul; nia|].
    fold (fmul a x) in Hd, Hda. pose proof (ftrunc_abs _ _ Hd Hda).
    rewrite wrap_signed_small by lia. lia. }
  split; [by apply Hmain|]. intros Hle. specialize (Hmain ttl Ht ltac:(nia)). lia.
Qed.

(** ** Witnesses *)

(** A day with a tenth of jitter. *)
Definition tenth : f64 := fdiv (of_Z 1) (of_Z 10).

Lemma jitter_bounded_witness :
  Z.abs (Jitter 86400000000000 tenth (mkF 1 4) - 86400000000000) <= 8640000000001.
Proof. apply (jitter_bounded 86400000000000 tenth (mkF 1 4) 8640000000001); vm_compute; intuition discriminate. Defined.

End CacheLifecycle.
