(* ===== verification/Etag.v ===== *)
(** * Etags: pkg/etag

    An etag is the text of a type, an object id and a version: three varints in
    base32 over an alphabet without digits, so that a plain decimal id is never an
    etag.  The varints are [protowire], outside the repository: the class
    [Varint] with its laws.  [encoding/base32] is modelled as far as it is used
    (no padding, groups of five bytes). *)
From stdpp Require Import prelude strings list.
From Stdlib Require Import ZArith Lia Ascii.
From S2P Require Import Prelude Strconv.
Local Open Scope Z_scope.
Local Open Scope go_scope.

Module Etag.

(** ** base32 without padding *)

Definition encodeEtag : string := "QRSTVWXYZabcdefghjklmnpqrstvwxyz".

(** The letter of a 5-bit value, and its value. *)
Definition letter (v : Z) : ascii := default "Q"%char (String.get (Z.to_nat v) encodeEtag).

Fixpoint index_of (c : ascii) (s : string) (i : Z) : option Z :=
  match s with
  | EmptyString => None
  | String c' s => if decide (c = c') then Some i else index_of c s (i + 1)
  end.

Definition letter_value (c : ascii) : option Z := index_of c encodeEtag 0.

(** The eight 5-bit digits of five bytes. *)
Definition digits5 (b0 b1 b2 b3 b4 : Z) : list Z :=
  [b0 / 8; b0 mod 8 * 4 + b1 / 64; b1 / 2 mod 32; b1 mod 2 * 16 + b2 / 16;
   b2 mod 16 * 2 + b3 / 128; b3 / 4 mod 32; b3 mod 4 * 8 + b4 / 32; b4 mod 32].

Fixpoint base32_digits (src : list Z) : list Z :=
  match src with
  | [] => []
  | [b0] => take 2 (digits5 b0 0 0 0 0)
  | [b0; b1] => take 4 (digits5 b0 b1 0 0 0)
  | [b0; b1; b2] => take 5 (digits5 b0 b1 b2 0 0)
  | [b0; b1; b2; b3] => take 7 (digits5 b0 b1 b2 b3 0)
  | b0 :: b1 :: b2 :: b3 :: b4 :: rest => digits5 b0 b1 b2 b3 b4 ++ base32_digits rest
  end.

Definition str_of (l : list ascii) : string := fold_right String EmptyString l.

Definition EncodeToString (src : list Z) : string := str_of (map letter (base32_digits src)).

Definition bytes5 (d0 d1 d2 d3 d4 d5 d6 d7 : Z) : list Z :=
  [d0 * 8 + d1 / 4; d1 mod 4 * 64 + d2 * 2 + d3 / 16; d3 mod 16 * 16 + d4 / 2;
   d4 mod 2 * 128 + d5 * 4 + d6 / 8; d6 mod 8 * 32 + d7].

(** A last group of one, three or six digits gives no byte. *)
Fixpoint base32_bytes (src : list Z) : list Z :=
  match src with
  | d0 :: d1 :: d2 :: d3 :: d4 :: d5 :: d6 :: d7 :: rest => bytes5 d0 d1 d2 d3 d4 d5 d6 d7 ++ base32_bytes rest
  | [d0; d1] => take 1 (bytes5 d0 d1 0 0 0 0 0 0)
  | [d0; d1; d2; d3] => take 2 (bytes5 d0 d1 d2 d3 0 0 0 0)
  | [d0; d1; d2; d3; d4] => take 3 (bytes5 d0 d1 d2 d3 d4 0 0 0)
  | [d0; d1; d2; d3; d4; d5; d6] => take 4 (bytes5 d0 d1 d2 d3 d4 d5 d6 0)
  | _ => []
  end.

(** New lines are dropped; any other byte outside the alphabet is an error. *)
Definition newline (c : ascii) : bool := bool_decide (byte_val c = 10) || bool_decide (byte_val c = 13).

Fixpoint letters (s : string) : option (list Z) :=
  match s with
  | EmptyString => Some []
  | String c s =>
      if newline c then letters s
      else match letter_value c, letters s with
           | Some v, Some l => Some (v :: l)
           | _, _ => None
           end
  end.

Definition DecodeString (s : string) : option (list Z) := base32_bytes <$> letters s.

(** ** Varints: [protowire] *)

Class Varint := {
  AppendVarint : Z -> list Z;
  (** the value and the bytes read, [None] on malformed input *)
  ConsumeVarint : list Z -> option (Z * nat)
}.

Definition is_byte (b : Z) : Prop := 0 <= b < 256.

Class VarintLaws `{Varint} := {
  append_bytes : forall v, Forall is_byte (AppendVarint v);
  consume_append : forall v rest, 0 <= v < 2 ^ 64 ->
    ConsumeVarint (AppendVarint v ++ rest) = Some (v, length (AppendVarint v));
  append_nonempty : forall v, (1 <= length (AppendVarint v))%nat
}.

(** ** type.go, oid.go *)

Definition NoType : Z := 0.
Definition EtagCase : Z := 1.

Definition validType (typ : Z) : bool := NoType <? typ.

Definition GetOid (id : string) : res string Z :=
  match ParseInt 64 id with
  | Some oid => if oid <? 1 then Err ("node( id:" +:+ id +:+ " ); expected: positive int64") else Ok oid
  | None => Err ("node( id:" +:+ id +:+ " ); expected: positive int64")
  end.

Definition GetId (oid : Z) : res string string :=
  if oid <? 1 then Err ("node( id:" +:+ FormatInt oid +:+ " ); expected: positive int64")
  else Ok (FormatInt oid).

(** ** etag.go *)

(** A version and an object id; [None] is no version. *)
Record Tid := mkTid { Ver : option Z; Oid : Z }.

Definition Tid_GetOid (e : option Tid) : Z :=
  match e with Some t => if 0 <? Oid t then Oid t else 0 | None => 0 end.

Definition Tid_HasOid (e : option Tid) : bool := 0 <? Tid_GetOid e.
Definition Tid_HasVer (e : option Tid) : bool :=
  match e with Some t => bool_decide (is_Some (Ver t)) | None => false end.
Definition Tid_GetVer (e : option Tid) : Z :=
  match e with Some t => default 0 (Ver t) | None => 0 end.
Definition Tid_IsVer (e : option Tid) (num : Z) : bool :=
  match e with
  | Some t => match Ver t with Some v => v =? num | None => false end
  | None => false
  end.
Definition Tid_IsNone (e : option Tid) : bool := negb (Tid_HasOid e).

Definition Tid_Valid (e : option Tid) : option string :=
  match e with
  | None => Some "missing tid"
  | Some t => if Oid t <? 1 then Some "missing oid" else None
  end.

Definition Tids_IsNone (e : list Tid) : bool := (0 <? length e)%nat.
Definition Tids_Oids (e : list Tid) : list Z := map (fun t => Tid_GetOid (Some t)) e.

Section Etags.
Context {HV : Varint}.

Definition AppendTag (dst : list Z) (typ oid ver : Z) : list Z :=
  dst ++ AppendVarint (u64 ver) ++ AppendVarint (u64 typ) ++ AppendVarint (u64 oid).

(** The loop over the three values: the values and the bytes read. *)
Fixpoint consume (k : nat) (src : list Z) : option (list Z * nat) :=
  match k with
  | O => Some ([], 0%nat)
  | S k =>
      match ConsumeVarint src with
      | Some (v, r) =>
          match consume k (drop r src) with
          | Some (vs, n) => Some (v :: vs, (r + n)%nat)
          | None => None
          end
      | None => None
      end
  end.

(** The type, the id, the version and the bytes read (0: malformed). *)
Definition ConsumeTag (src : list Z) : (Z * Z * Z) * Z :=
  match consume 3 src with
  | Some ([v0; v1; v2], n) => ((u32 v1, i64 v2, i32 v0), Z.of_nat n)
  | _ => ((0, 0, 0), 0)
  end.

Definition EncodeEtag (typ oid ver : Z) : res string string :=
  if typ <=? NoType then Err "etag: encode tag{typ}; expect: positive, non-zero integer identifier"
  else if oid <? 1 then Err "etag: encode tag{oid}; expect: positive, non-zero integer identifier"
  else if ver <? 0 then Err "etag: encode tag{ver}; expect: zero-based, positive integer number"
  else Ok (EncodeToString (AppendTag [] typ oid ver)).

Definition DecodeEtag (s : string) : res string (Z * Z * Z) :=
  match DecodeString s with
  | None => Err ("( etag:" +:+ s +:+ " ); invalid encoding")
  | Some src =>
      let '(v, n) := ConsumeTag src in
      if (n <=? 0) || (n <? Z.of_nat (length src)) then Err ("( etag:" +:+ s +:+ " ); malformed input")
      else Ok v
  end.

Definition DecodeTag (s : string) : res string (Z * Tid) :=
  let? (typ, oid, rev) := DecodeEtag s in Ok (typ, mkTid (Some rev) oid).

Definition EncodeTag (typ : Z) (tag : Tid) : res string string :=
  if negb (validType typ) then Err "etag( typ ); accept: positive, non-zero integer"
  else if Tid_IsNone (Some tag) then Err "etag( oid ); expect: positive, non-zero integer"
  else if negb (Tid_HasVer (Some tag)) || (Tid_GetVer (Some tag) <? 0)
  then Err "etag( ver: ); expect: zero-based, positive integer"
  else EncodeEtag typ (Oid tag) (Tid_GetVer (Some tag)).

Definition ExpectEtag (of_ : Z) (s : string) : res string Tid :=
  if negb (validType of_) then Err "etag: expect tag{typ}; must be positive, non-zero integer identifier"
  else
    let? (typ, tag) := DecodeTag s in
    if of_ =? typ then Ok tag else Err ("invalid ETag identifier for type " +:+ FormatInt of_).

Definition EtagOrId (of_ : Z) (s : string) : res string Tid :=
  match DecodeTag s with
  | Ok (typ, tag) => if of_ =? typ then Ok tag else Err ("( etag:" +:+ s +:+ " ); illegal type")
  | Err _ =>
      match GetOid s with
      | Err _ => Err ("( etag:" +:+ s +:+ " ); invalid format")
      | Ok oid => if oid <? 1 then Err ("( id:" +:+ s +:+ " ); negative value") else Ok (mkTid None oid)
      end
  end.

(** ** fields.go and syntax.go *)

Definition split_field (c : ascii) : bool := bool_decide (c = ","%char) || is_space c.

Fixpoint MergeFields (dst src : list string) : list string :=
  match src with
  | [] => dst
  | attr :: src =>
      if decide (attr = "") then MergeFields dst src
      else if existsb (fun d => Strconv.EqualFold d attr) dst then MergeFields dst src
      else MergeFields (dst ++ [attr]) src
  end.

(** The loop of [FieldsFunc]: [done] is what stays of the input so far, [dst] the
    output once one is built. *)
Fixpoint fields_loop (fn : string -> list string) (src done : list string)
    (dst : option (list string)) : list string :=
  match src with
  | [] => match dst with None => done | Some d => d end
  | s :: src =>
      match fn s with
      | [] => fields_loop fn src done dst
      | [x] =>
          if decide (x = "") then fields_loop fn src done dst
          else match dst with
               | None => fields_loop fn src (done ++ [x]) None
               | Some d => fields_loop fn src done (Some (MergeFields d [x]))
               end
      | set => fields_loop fn src done (Some (MergeFields (default done dst) set))
      end
  end.

Definition FieldsFunc (src : list string) (fn : string -> list string) : list string :=
  match src with
  | [] => fn ""
  | _ => fields_loop fn src [] None
  end.

Definition Name (s : string) : string := ToLower (TrimSpace s).

Definition HasScope (scope : list string) (name : string) : bool :=
  match scope with
  | [] => false
  | _ => let name := Name name in if decide (name = "") then true else bool_decide (name ∈ scope)
  end.

Fixpoint AddScope (scope : list string) (names : list string) : list string :=
  match names with
  | [] => scope
  | class :: names =>
      let name := Name class in
      if decide (name = "") then AddScope scope names
      else if HasScope scope name then AddScope scope names
      else AddScope (scope ++ [name]) names
  end.

Definition FieldsCopy (fields : list string) : list string := AddScope [] fields.

Definition InlineFields (selector : string) : list string := FieldsFunc_str split_field (ToLower selector).

(** The loop of [InputIdOrEtag]. *)
Fixpoint input_loop (typeOf : Z) (input : list string) (data : list Tid) : res string (list Tid) :=
  match input with
  | [] => Ok data
  | s :: input =>
      let? tag := EtagOrId typeOf s in
      if existsb (fun e => Oid tag =? Oid e) data
      then Err ("input( etag: " +:+ s +:+ ", id: " +:+ FormatInt (Oid tag) +:+ " ); duplicate")
      else input_loop typeOf input (data ++ [tag])
  end.

Definition InputIdOrEtag (typeOf : Z) (input : list string) : res string (list Tid) :=
  let input := FieldsFunc input (FieldsFunc_str split_field) in
  match input with
  | [] => Ok []
  | _ => if decide (input = [""]) then Ok [] else input_loop typeOf input []
  end.

(** ** Lemmas *)

(** The 32 letters are a bijection with the digits, and none is a new line. *)
Lemma letter_inv v :
  0 <= v < 32 -> letter_value (letter v) = Some v /\ newline (letter v) = false.
Proof.
  intros Hv. assert (forallb (fun n => bool_decide (letter_value (letter (Z.of_nat n)) = Some (Z.of_nat n))
    && negb (newline (letter (Z.of_nat n)))) (seq 0 32) = true) as H by (vm_compute; reflexivity).
  rewrite forallb_forall in H. specialize (H (Z.to_nat v)). rewrite Z2Nat.id in H by lia.
  apply andb_prop in H as [H1 H2]; [|apply in_seq; lia].
  split; [by apply bool_decide_eq_true in H1|by apply negb_true_iff].
Qed.

Definition is_digit5 (d : Z) : Prop := 0 <= d < 32.

Lemma letters_str ds : Forall is_digit5 ds -> letters (str_of (map letter ds)) = Some ds.
Proof.
  induction 1 as [|d ds Hd _ IH]; [done|]. destruct (letter_inv d Hd) as [H1 H2].
  cbn [map str_of fold_right letters]. rewrite H2, H1. unfold str_of in IH. by rewrite IH.
Qed.

Lemma digits5_range b0 b1 b2 b3 b4 :
  Forall is_byte [b0; b1; b2; b3; b4] -> Forall is_digit5 (digits5 b0 b1 b2 b3 b4).
Proof.
  rewrite !Forall_cons, Forall_nil. unfold is_byte, is_digit5, digits5. intros (? & ? & ? & ? & ? & _).
  repeat apply Forall_cons_2; [..|constructor]; Z.to_euclidean_division_equations; lia.
Qed.

Lemma group_roundtrip b0 b1 b2 b3 b4 :
  Forall is_byte [b0; b1; b2; b3; b4] ->
  match digits5 b0 b1 b2 b3 b4 with
  | [d0; d1; d2; d3; d4; d5; d6; d7] => bytes5 d0 d1 d2 d3 d4 d5 d6 d7 = [b0; b1; b2; b3; b4]
  | _ => False
  end.
Proof.
  rewrite !Forall_cons, Forall_nil. unfold is_byte, digits5, bytes5. intros (? & ? & ? & ? & ? & _).
  repeat f_equal; Z.to_euclidean_division_equations; lia.
Qed.

Lemma zero_byte : is_byte 0.
Proof. unfold is_byte. lia. Qed.

(** A last group: its bytes are the first ones of the padded group. *)
Ltac group_tail Hf :=
  let E := fresh in pose proof (group_roundtrip _ _ _ _ _ Hf) as E;
  unfold digits5 in E |- *; cbn [take base32_bytes]; unfold bytes5 in E |- *; cbn [take];
  injection E; intros; repeat f_equal; assumption.

(** base32 reads back what it wrote, in digits. *)
Lemma base32_roundtrip n : forall src,
  (length src <= n)%nat -> Forall is_byte src ->
  Forall is_digit5 (base32_digits src) /\ base32_bytes (base32_digits src) = src.
Proof.
  pose proof zero_byte as Z0.
  assert (forall k a b c d e, Forall is_byte [a; b; c; d; e] ->
    Forall is_digit5 (take k (digits5 a b c d e))) as Htake.
  { intros. by apply Forall_take, digits5_range. }
  induction n as [|n IH]; intros src Hn Hb; [by destruct src; [split|simpl in Hn; lia]|].
  destruct src as [|b0 [|b1 [|b2 [|b3 [|b4 rest]]]]]; rewrite ?Forall_cons in Hb; cbn [base32_digits].
  - by split.
  - assert (Forall is_byte [b0; 0; 0; 0; 0]) as Hf by (rewrite !Forall_cons, Forall_nil; tauto).
    split; [by apply Htake|]. group_tail Hf.
  - assert (Forall is_byte [b0; b1; 0; 0; 0]) as Hf by (rewrite !Forall_cons, Forall_nil; tauto).
    split; [by apply Htake|]. group_tail Hf.
  - assert (Forall is_byte [b0; b1; b2; 0; 0]) as Hf by (rewrite !Forall_cons, Forall_nil; tauto).
    split; [by apply Htake|]. group_tail Hf.
  - assert (Forall is_byte [b0; b1; b2; b3; 0]) as Hf by (rewrite !Forall_cons, Forall_nil; tauto).
    split; [by apply Htake|]. group_tail Hf.
  - destruct Hb as (? & ? & ? & ? & ? & Hrest).
    assert (Forall is_byte [b0; b1; b2; b3; b4]) as Hf by (rewrite !Forall_cons, Forall_nil; tauto).
    destruct (IH rest) as [K1 K2]; [simpl in Hn; lia|done|].
    split; [apply Forall_app; split; [by apply digits5_range|done]|].
    pose proof (group_roundtrip _ _ _ _ _ Hf) as E. unfold digits5 in *. cbn [app base32_bytes].
    by rewrite E, K2.
Qed.

Lemma DecodeString_Encode src : Forall is_byte src -> DecodeString (EncodeToString src) = Some src.
Proof.
  intros Hb. destruct (base32_roundtrip (length src) src) as [H1 H2]; [done|done|].
  unfold DecodeString, EncodeToString. rewrite letters_str by done. simpl. by rewrite H2.
Qed.

(** Decimal digits are outside the alphabet. *)
Lemma digit_no_letter c : is_digit c = true -> letter_value c = None /\ newline c = false.
Proof. by destruct c as [[] [] [] [] [] [] [] []]. Qed.

Lemma digits_no_etag s :
  s <> "" -> all_bytes is_digit s = true -> exists e, DecodeTag s = Err e.
Proof.
  intros Hne Hs. destruct s as [|c s]; [done|]. simpl in Hs. apply andb_prop in Hs as [Hc _].
  unfold DecodeTag, DecodeEtag, DecodeString. cbn [letters].
  destruct (digit_no_letter c Hc) as [H1 H2]. rewrite H2, H1. by eexists.
Qed.

Context {HL : VarintLaws}.

Lemma consume_three v0 v1 v2 :
  0 <= v0 < 2 ^ 64 -> 0 <= v1 < 2 ^ 64 -> 0 <= v2 < 2 ^ 64 ->
  consume 3 (AppendVarint v0 ++ AppendVarint v1 ++ AppendVarint v2)
  = Some ([v0; v1; v2], length (AppendVarint v0 ++ AppendVarint v1 ++ AppendVarint v2)).
Proof.
  intros H0 H1 H2. cbn [consume]. rewrite consume_append by done. rewrite drop_app_length.
  rewrite consume_append by done. rewrite drop_app_length.
  rewrite <- (app_nil_r (AppendVarint v2)) at 1. rewrite consume_append by done.
  rewrite !length_app, Nat.add_0_r. done.
Qed.

(** ** Properties *)

(** C37: an etag reads back as what it was made from: for every type, object id
    and version that [EncodeEtag] accepts at the width of the source (uint32,
    int64, int32), [DecodeEtag] returns the same three values. *)
Theorem etag_roundtrip typ oid ver :
  0 < typ < 2 ^ 32 -> 1 <= oid <= max_int64 -> 0 <= ver < 2 ^ 31 ->
  exists s, EncodeEtag typ oid ver = Ok s /\ DecodeEtag s = Ok (typ, oid, ver).
Proof.
  unfold max_int64. intros Ht Ho Hv. unfold EncodeEtag, NoType.
  destruct (Z.leb_spec typ 0); [lia|]. destruct (Z.ltb_spec oid 1); [lia|].
  destruct (Z.ltb_spec ver 0); [lia|]. eexists. split; [done|].
  unfold DecodeEtag, AppendTag. rewrite !wrap_unsigned_small by lia. rewrite app_nil_l.
  rewrite DecodeString_Encode by (rewrite !Forall_app; split_and!; apply append_bytes).
  unfold ConsumeTag. rewrite consume_three by lia.
  pose proof (append_nonempty ver). rewrite !length_app.
  destruct (Z.leb_spec (Z.of_nat (length (AppendVarint ver) + (length (AppendVarint typ) + length (AppendVarint oid)))) 0); [lia|].
  rewrite Z.ltb_irrefl. simpl. rewrite wrap_unsigned_small, !wrap_signed_small by lia. done.
Qed.

(** A decimal id is never taken for an etag: for every positive object id its
    decimal text is not a letter of the etag alphabet, so [EtagOrId] of any
    type reads it as that id without a version. *)
Theorem id_is_not_etag of_ oid :
  1 <= oid <= max_int64 -> EtagOrId of_ (FormatInt oid) = Ok (mkTid None oid).
Proof.
  unfold max_int64. intros Ho. unfold EtagOrId.
  assert (FormatInt oid = format_nat oid) as E.
  { unfold FormatInt. destruct (Z.ltb_spec oid 0); [lia|done]. }
  destruct (digits_no_etag (FormatInt oid)) as [e He].
  - rewrite E. destruct (format_nat_head oid) as (c & t & Ec & _); [lia|]. by rewrite Ec.
  - rewrite E. apply all_bytes_format_nat. lia.
  - rewrite He. unfold GetOid. rewrite ParseInt_FormatInt by lia.
    destruct (Z.ltb_spec oid 1); [lia|]. destruct (Z.ltb_spec oid 1); [lia|done].
Qed.

(** An etag of object zero is accepted: [DecodeEtag] does not check what
    [EncodeEtag] requires, so the text of a tag with object id 0 passes
    [EtagOrId] as a valid reference of its type, though object ids are
    documented as positive. *)
Theorem zero_oid_accepted typ ver :
  0 < typ < 2 ^ 32 -> 0 <= ver < 2 ^ 31 ->
  EtagOrId typ (EncodeToString (AppendTag [] typ 0 ver)) = Ok (mkTid (Some ver) 0).
Proof.
  intros Ht Hv. unfold EtagOrId, DecodeTag, DecodeEtag, AppendTag.
  rewrite !wrap_unsigned_small by lia. rewrite app_nil_l.
  rewrite DecodeString_Encode by (rewrite !Forall_app; split_and!; apply append_bytes).
  unfold ConsumeTag. rewrite consume_three by lia. pose proof (append_nonempty ver).
  destruct (Z.leb_spec (Z.of_nat (length (AppendVarint ver ++ AppendVarint typ ++ AppendVarint 0))) 0)
    as [Hl|_]; [rewrite length_app in Hl; lia|].
  rewrite Z.ltb_irrefl. cbn [orb]. cbn [res_bind].
  rewrite wrap_unsigned_small, !wrap_signed_small by lia. by rewrite Z.eqb_refl.
Qed.

Lemma input_loop_unique typeOf input : forall data out,
  NoDup (map Oid data) -> input_loop typeOf input data = Ok out ->
  NoDup (map Oid out) /\ length out = (length data + length input)%nat.
Proof.
  induction input as [|s input IH]; intros data out Hnd; cbn [input_loop].
  - intros. simplify_eq. simpl. split; [done|lia].
  - destruct (EtagOrId typeOf s) as [tag|]; [|done]. cbn [res_bind].
    destruct (existsb _ data) eqn:E; [done|]. intros Hr.
    destruct (IH (data ++ [tag]) out) as [H1 H2]; [|done|].
    + rewrite map_app. apply NoDup_app. split_and!; [done| |apply NoDup_singleton].
      intros x Hx ->%list_elem_of_singleton. apply list_elem_of_fmap in Hx as (t & Ht & Hin).
      rewrite <- not_true_iff_false in E. apply E, existsb_exists. exists t.
      split; [by apply list_elem_of_In|]. rewrite Ht. apply Z.eqb_refl.
    + split; [done|]. rewrite length_app in H2. simpl in *. lia.
Qed.

(** An accepted input names every object once, one entry per field. *)
Theorem input_unique typeOf input out :
  InputIdOrEtag typeOf input = Ok out -> NoDup (map Oid out).
Proof.
  unfold InputIdOrEtag. case_match; [intros; simplify_eq; apply NoDup_nil_2|].
  case_decide; [intros; simplify_eq; apply NoDup_nil_2|].
  intros Hr. by apply input_loop_unique in Hr as [? _]; [|apply NoDup_nil_2].
Qed.

(** [IsNone] of a list of references says the opposite of its name. *)
Theorem tids_is_none_inverted (e : list Tid) : Tids_IsNone e = true <-> e <> [].
Proof. unfold Tids_IsNone. destruct e; simpl; [|done]. split; done. Qed.

(** *** Field lists *)

Definition fold_names (l : list string) : list string := map ToLower l.

Lemma MergeFields_unique dst src :
  NoDup (fold_names dst) ->
  NoDup (fold_names (MergeFields dst src)) /\ dst `prefix_of` MergeFields dst src /\
  (forall x, x <> "" -> x ∈ src -> ToLower x ∈ fold_names (MergeFields dst src)).
Proof.
  revert dst. induction src as [|attr src IH]; intros dst Hnd; cbn [MergeFields].
  - split_and!; [done|done|]. by intros ? ? ?%elem_of_nil.
  - case_decide as He; [|destruct (existsb _ dst) eqn:E].
    + destruct (IH dst Hnd) as (H1 & H2 & H3). split_and!; [done|done|].
      intros x Hx [->|Hin]%elem_of_cons; [done|by apply H3].
    + destruct (IH dst Hnd) as (H1 & H2 & H3). split_and!; [done|done|].
      intros x Hx [->|Hin]%elem_of_cons; [|by apply H3].
      apply existsb_exists in E as (d & Hd%list_elem_of_In & Heq%bool_decide_eq_true).
      destruct H2 as [tl ->]. unfold fold_names. rewrite map_app, elem_of_app. left.
      rewrite <- Heq. by apply list_elem_of_fmap_2.
    + assert (NoDup (fold_names (dst ++ [attr]))) as Hnd'.
      { unfold fold_names. rewrite map_app. apply NoDup_app. split_and!; [done| |apply NoDup_singleton].
        intros x (d & -> & Hd)%list_elem_of_fmap Hx%list_elem_of_singleton.
        rewrite <- not_true_iff_false in E. apply E, existsb_exists. exists d.
        split; [by apply list_elem_of_In|by apply bool_decide_eq_true]. }
      destruct (IH _ Hnd') as (H1 & H2 & H3). split_and!; [done|etrans; [by apply prefix_app_r|done]|].
      intros x Hx [->|Hin]%elem_of_cons; [|by apply H3].
      destruct H2 as [tl ->]. unfold fold_names. rewrite !map_app, !elem_of_app. left. right. left.
Qed.

(** Merging keeps the fields there were, adds every new one once (case ignored)
    and leaves none out. *)
Theorem merge_fields_set dst src :
  NoDup (fold_names dst) ->
  NoDup (fold_names (MergeFields dst src)) /\ dst `prefix_of` MergeFields dst src /\
  (forall x, x <> "" -> x ∈ src -> ToLower x ∈ fold_names (MergeFields dst src)).
Proof. apply MergeFields_unique. Qed.

End Etags.
(** ** Varints for the witnesses: seven bits a byte, low bits first *)

Fixpoint leb_append (fuel : nat) (v : Z) : list Z :=
  match fuel with
  | O => [v mod 128]
  | S fuel => if v <? 128 then [v mod 128] else (v mod 128 + 128) :: leb_append fuel (v / 128)
  end.

Fixpoint leb_consume (fuel : nat) (src : list Z) : option (Z * nat) :=
  match src with
  | [] => None
  | b :: src =>
      if b <? 128 then Some (b, 1%nat)
      else match fuel with
           | O => None
           | S fuel => match leb_consume fuel src with
                       | Some (v, n) => Some (b - 128 + 128 * v, S n)
                       | None => None
                       end
           end
  end.

#[local] Instance leb : Varint := {| AppendVarint := leb_append 9; ConsumeVarint := leb_consume 9 |}.

Lemma leb_bytes fuel v : Forall is_byte (leb_append fuel v).
Proof.
  revert v. induction fuel as [|fuel IH]; intros v; cbn [leb_append].
  - apply Forall_cons_2; [|constructor]. unfold is_byte. Z.to_euclidean_division_equations; lia.
  - destruct (v <? 128); apply Forall_cons_2; try constructor; try apply IH;
      unfold is_byte; Z.to_euclidean_division_equations; lia.
Qed.

Lemma leb_roundtrip fuel : forall v rest, 0 <= v < 128 * 128 ^ Z.of_nat fuel ->
  leb_consume fuel (leb_append fuel v ++ rest) = Some (v, length (leb_append fuel v)).
Proof.
  induction fuel as [|fuel IH]; intros v rest Hv.
  - cbn [leb_append app leb_consume]. rewrite Z.mod_small by lia.
    destruct (Z.ltb_spec v 128); [done|lia].
  - cbn [leb_append]. rewrite Nat2Z.inj_succ, Z.pow_succ_r in Hv by lia.
    destruct (Z.ltb_spec v 128) as [H|H]; cbn [app leb_consume].
    + rewrite Z.mod_small by lia. destruct (Z.ltb_spec v 128); [done|lia].
    + pose proof (Z.mod_pos_bound v 128 ltac:(lia)) as Hm.
      destruct (Z.ltb_spec (v mod 128 + 128) 128); [lia|].
      rewrite IH; [|split; [apply Z.div_pos; lia|apply Z.div_lt_upper_bound; lia]].
      cbn [length]. do 2 f_equal. pose proof (Z.div_mod v 128 ltac:(lia)). lia.
Qed.

#[local] Instance leb_laws : VarintLaws.
Proof.
  split.
  - intros v. apply leb_bytes.
  - intros v rest Hv. apply leb_roundtrip. simpl. lia.
  - intros v. simpl. destruct (v <? 128); simpl; lia.
Qed.

Lemma etag_roundtrip_witness :
  exists s, EncodeEtag EtagCase 1024 7 = Ok s /\ DecodeEtag s = Ok (1, 1024, 7).
Proof. apply (etag_roundtrip 1 1024 7); unfold max_int64; lia. Defined.

Lemma id_is_not_etag_witness : EtagOrId EtagCase (FormatInt 1024) = Ok (mkTid None 1024).
Proof. apply (id_is_not_etag EtagCase 1024). unfold max_int64. lia. Defined.

Lemma zero_oid_accepted_witness :
  EtagOrId 1 (EncodeToString (AppendTag [] 1 0 7)) = Ok (mkTid (Some 7) 0).
Proof. apply (zero_oid_accepted 1 7); lia. Defined.

End Etag.
