(* ===== verification/EtagFields.v ===== *)
(** * Field selectors, tags and node constraints: src/pkg/etag (fields.go, etag.go, proto.go, etagtype_string.go)

    The expansion of [*] and [+] in a selector, tags with their types, and the constraints of nodes. *)
From stdpp Require Import prelude strings list.
From Stdlib Require Import ZArith Lia Ascii.
From S2P Require Import Prelude Strconv Etag.

Local Open Scope Z_scope.

Module EtagFields.
Import Etag.

(** ** Selectors (fields.go) *)

Section Select.
Context (userattrs operational : list string).

(** What stands for a special entry of the list. *)
Definition expansion (s : string) : option (list string) :=
  if decide (s = "*") then Some userattrs
  else if decide (s = "+") then Some (MergeFields operational userattrs)
  else None.

(** The loop of [SelectFields] at position [i]. *)
Fixpoint select_loop (fuel i : nat) (fields : list string) : option (list string) :=
  match fuel with
  | O => None
  | S fuel =>
      match fields !! i with
      | None => Some fields
      | Some s =>
          match expansion s with
          | None => select_loop fuel (S i) fields
          | Some attrs =>
              let n := length fields in
              let fields := MergeFields (take i fields) (MergeFields attrs (drop (S i) fields)) in
              let i := if (n <? length fields)%nat then (length fields - n - 1)%nat else i in
              select_loop fuel (S i) fields
          end
      end
  end.

Definition SelectFields (fuel : nat) (selector : string) : option (list string) :=
  match InlineFields selector with
  | [] => Some userattrs
  | fields => select_loop fuel 0 fields
  end.

(** ** Lemmas on selection *)

Definition special (s : string) : bool := bool_decide (s = "*" \/ s = "+").
Definition specials (l : list string) : nat := length (List.filter special l).

Lemma specials_app a b : specials (a ++ b) = (specials a + specials b)%nat.
Proof. unfold specials. by rewrite List.filter_app, length_app. Qed.

Lemma merge_bounds src : forall dst, (specials (MergeFields dst src) <= specials dst + specials src)%nat /\
  (length (MergeFields dst src) <= length dst + length src)%nat.
Proof.
  induction src as [|a src IH]; intros dst; cbn [MergeFields]; [cbn; lia|].
  assert (specials (a :: src) = (specials [a] + specials src)%nat) as Es by apply (specials_app [a] src).
  assert (forall d, (specials d <= specials dst + specials [a])%nat -> (length d <= S (length dst))%nat ->
    (specials (MergeFields d src) <= specials dst + specials (a :: src))%nat /\ (length (MergeFields d src) <= length dst + length (a :: src))%nat) as Hd.
  { intros d H1 H2. destruct (IH d). rewrite Es. cbn [length]. lia. }
  case_decide; [apply Hd; lia|]. destruct (existsb _ dst); [apply Hd; lia|].
  apply Hd; [by rewrite specials_app|rewrite length_app; cbn; lia].
Qed.

Lemma expansion_bounds s attrs : specials userattrs = 0%nat -> specials operational = 0%nat -> expansion s = Some attrs ->
  specials [s] = 1%nat /\ specials attrs = 0%nat /\ (length attrs <= length operational + length userattrs)%nat.
Proof.
  intros Hu Ho. unfold expansion, specials. destruct (merge_bounds userattrs operational) as [H1 H2].
  repeat case_decide; intros [= <-]; subst; cbn; (split; [done|]); fold (specials userattrs) (specials (MergeFields operational userattrs)); lia.
Qed.

Lemma expansion_none s : expansion s = None <-> special s = false.
Proof. unfold expansion, special. rewrite bool_decide_eq_false. repeat case_decide; naive_solver. Qed.

(** Behind the last special entry nothing changes any more. *)
Lemma select_plain fuel : forall i fields, (length fields <= i + fuel)%nat ->
  (forall j s, (i <= j)%nat -> fields !! j = Some s -> special s = false) -> select_loop (S fuel) i fields = Some fields.
Proof.
  induction fuel as [|fuel IH]; intros i fields Hf Hs.
  - cbn. by rewrite (proj2 (lookup_ge_None fields i)) by lia.
  - change (match fields !! i with None => Some fields | Some s => match expansion s with
      | None => select_loop (S fuel) (S i) fields
      | Some attrs => let n := length fields in let f := MergeFields (take i fields) (MergeFields attrs (drop (S i) fields)) in
          let i := if (n <? length f)%nat then (length f - n - 1)%nat else i in select_loop (S fuel) (S i) f
      end end = Some fields).
    destruct (fields !! i) as [x|] eqn:Ei; [|done]. rewrite (proj2 (expansion_none x)) by (by eapply Hs).
    apply IH; [lia|]. intros j s' Hj. apply Hs. lia.
Qed.

Lemma specials_split fields i s : fields !! i = Some s ->
  specials fields = (specials (take i fields) + specials [s] + specials (drop (S i) fields))%nat.
Proof.
  intros Hi. rewrite <- (take_drop_middle fields i s Hi) at 1.
  change (s :: drop (S i) fields) with ([s] ++ drop (S i) fields). rewrite !specials_app. lia.
Qed.

Lemma specials_pos fields i s : fields !! i = Some s -> special s = true -> (0 < specials fields)%nat.
Proof. intros Hi Hs. rewrite (specials_split fields i s Hi). unfold specials at 2. cbn. rewrite Hs. cbn. lia. Qed.

(** Expanding an entry removes a special one and adds at most the expansion. *)
Lemma expand_bounds fields i s attrs : specials userattrs = 0%nat -> specials operational = 0%nat ->
  fields !! i = Some s -> expansion s = Some attrs ->
  let f := MergeFields (take i fields) (MergeFields attrs (drop (S i) fields)) in
  (specials f < specials fields)%nat /\ (length f < length fields + (length operational + length userattrs))%nat.
Proof.
  intros Hu Ho Hi He f. destruct (expansion_bounds s attrs Hu Ho He) as (H1 & H2 & H3).
  pose proof (specials_split fields i s Hi) as Hsp. pose proof (lookup_lt_Some fields i s Hi) as Hlt.
  subst f. destruct (merge_bounds (MergeFields attrs (drop (S i) fields)) (take i fields)) as [Ha Hb].
  destruct (merge_bounds (drop (S i) fields) attrs) as [Hc Hd]. rewrite length_drop in Hd. rewrite length_take in Hb. lia.
Qed.

(** How many turns of the loop are enough. *)
Definition select_bound (fields : list string) : nat :=
  let l := (length fields + specials fields * (length operational + length userattrs))%nat in
  (specials fields * (l + 2) + l + 2)%nat.

Lemma select_ends l : specials userattrs = 0%nat -> specials operational = 0%nat -> forall fuel i fields,
  (length fields + specials fields * (length operational + length userattrs) <= l)%nat ->
  (specials fields * (l + 2) + (l + 1 - i) < fuel)%nat -> is_Some (select_loop fuel i fields).
Proof.
  intros Hu Ho fuel. induction fuel as [|fuel IH]; intros i fields Hl Hf; [lia|]. cbn [select_loop].
  destruct (fields !! i) as [s|] eqn:Ei; [|by eexists]. pose proof (lookup_lt_Some _ _ _ Ei) as Hlt.
  destruct (expansion s) as [attrs|] eqn:Ee; [|apply IH; [done|lia]].
  destruct (expand_bounds fields i s attrs Hu Ho Ei Ee) as [Hs Hn]. apply IH; [nia|].
  set (f := MergeFields (take i fields) (MergeFields attrs (drop (S i) fields))) in *.
  assert ((specials f + 1) * (l + 2) <= specials fields * (l + 2))%nat by (apply Nat.mul_le_mono_r; lia). lia.
Qed.

(** ** Theorems on selection *)

(** When no attribute is called [*] or [+], the expansion of every selector ends. *)
Theorem select_terminates selector : specials userattrs = 0%nat -> specials operational = 0%nat ->
  is_Some (SelectFields (select_bound (InlineFields selector)) selector).
Proof.
  intros Hu Ho. unfold SelectFields. destruct (InlineFields selector) as [|x l] eqn:E; [by eexists|]. rewrite <- E.
  apply (select_ends _ Hu Ho _ _ _ (Nat.le_refl _)). unfold select_bound. lia.
Qed.

(** With one special entry the selection is what stands before it, then the attributes it stands for, then the rest, each name once
    after the first. *)
Theorem select_one selector pre s post attrs : specials userattrs = 0%nat -> specials operational = 0%nat ->
  InlineFields selector = pre ++ s :: post -> expansion s = Some attrs -> specials pre = 0%nat -> specials post = 0%nat ->
  SelectFields (select_bound (InlineFields selector)) selector = Some (MergeFields pre (MergeFields attrs post)).
Proof.
  intros Hu Ho Hsel He Hpre Hpost.
  assert (forall l, specials l = 0%nat -> forall j x, l !! j = Some x -> special x = false) as Hplain.
  { intros l Hl j x Hx. destruct (special x) eqn:Ex; [|done]. pose proof (specials_pos l j x Hx Ex). lia. }
  assert (forall l fuel, l <> [] -> match l with [] => Some userattrs | a :: t => select_loop fuel 0 (a :: t) end = select_loop fuel 0 l) as Hne
    by (by intros [|]).
  unfold SelectFields. rewrite Hsel, Hne by (by destruct pre).
  destruct (expansion_bounds s attrs Hu Ho He) as (Hs1 & Hs2 & Hs3).
  assert (specials (pre ++ s :: post) = 1%nat) as Hsp.
  { change (s :: post) with ([s] ++ post). rewrite !specials_app. lia. }
  set (r := MergeFields pre (MergeFields attrs post)).
  assert (specials r = 0%nat /\ (length r <= length pre + (length operational + length userattrs) + length post)%nat) as [Hr0 Hrl].
  { subst r. destruct (merge_bounds (MergeFields attrs post) pre), (merge_bounds post attrs). lia. }
  set (bound := select_bound (pre ++ s :: post)).
  assert (drop (S (length pre)) (pre ++ s :: post) = post) as Hdrop.
  { clear. induction pre as [|a pre IH]; [done|exact IH]. }
  assert (forall k i fuel, (i + k = length pre)%nat -> (length r + 2 + k <= fuel)%nat ->
    select_loop fuel i (pre ++ s :: post) = Some r) as Hgo.
  { induction k as [|k IH]; intros i fuel Hi Hf; (destruct fuel as [|fuel]; [lia|]); cbn [select_loop].
    - assert (i = length pre) as -> by lia. rewrite list_lookup_middle by done. rewrite He.
      rewrite take_app_length, Hdrop. fold r.
      destruct fuel as [|fuel]; [lia|]. apply select_plain; [destruct (_ <? _)%nat eqn:E; [apply Nat.ltb_lt in E|]; lia|].
      intros j x _ Hx. by eapply (Hplain r).
    - rewrite lookup_app_l by lia. destruct (pre !! i) as [x|] eqn:Ex; [|apply lookup_ge_None in Ex; lia].
      rewrite (proj2 (expansion_none x)) by (by eapply (Hplain pre)). apply IH; lia. }
  apply (Hgo (length pre)); [lia|]. unfold bound, select_bound. rewrite Hsp. rewrite length_app. cbn [length]. lia.
Qed.

End Select.

(** An entry that follows a special one is passed over when the special one adds nothing: the selector [a,b,*,+] of the
    attributes [a] and [b] keeps its plus sign and loses the operational attributes. *)
Theorem selector_passed_over :
  SelectFields ["a"; "b"] ["etag"] (select_bound ["a"; "b"] ["etag"] ["a"; "b"; "*"; "+"]) "a,b,*,+" = Some ["a"; "b"; "+"] /\
  SelectFields ["a"; "b"] ["etag"] (select_bound ["a"; "b"] ["etag"] ["a"; "b"; "+"]) "a,b,+" = Some ["a"; "b"; "etag"].
Proof. vm_compute. done. Qed.

(** ** Tags (etag.go) *)

(** [Tag]: a tuple with its text form; nil is [None]. *)
Record Tag := mkTag { tag_Tid : Tid; tag_Id : string }.

Definition Tag_IsZero (e : option Tag) : bool :=
  match e with None => true | Some t => Oid (tag_Tid t) =? 0 end.
Definition Tag_IsEtag (e : option Tag) : bool :=
  negb (Tag_IsZero e) && match e with Some t => match Ver (tag_Tid t) with Some _ => true | None => false end | None => false end.

(** [Tid.GetId]: the error of [GetId] is dropped. *)
Definition Tid_GetId (e : option Tid) : string := match GetId (Tid_GetOid e) with Ok id => id | Err _ => "" end.

(** [ETag]: a tuple with its type. *)
Record ETag := mkETag { etag_Tid : Tid; etag_Type : Z }.

Definition ETag_Valid (e : option ETag) : option string :=
  match e with
  | None => Some "missing tag"
  | Some e => if etag_Type e <=? NoType then Some "missing type" else Tid_Valid (Some (etag_Tid e))
  end.

Section Versions.
Context {HV : Varint}.

Definition ETag_String (e : ETag) : res string string :=
  EncodeEtag (etag_Type e) (Oid (etag_Tid e)) (Tid_GetVer (Some (etag_Tid e))).

End Versions.

(** [GetTag] of a node with this id and this version. *)
Definition GetTag (id : string) (ver : Z) : res string Tid :=
  match GetOid id with Ok oid => Ok (mkTid (Some ver) oid) | Err e => Err e end.

(** ** Types (etagtype_string.go) *)

Definition EtagType_name : string := "NoTypeEtagCaseEtagCaseCommentEtagCaseLinkEtagRelatedCaseEtagCaseCommunication".
Definition EtagType_index : list nat := [0; 6; 14; 29; 41; 56; 77]%nat.

Definition EtagType_String (i : Z) : string :=
  if Z.of_nat (length EtagType_index) - 1 <=? i then "EtagType(" +:+ FormatInt i +:+ ")"
  else
    let a := default 0%nat (EtagType_index !! Z.to_nat i) in
    let b := default 0%nat (EtagType_index !! Z.to_nat (i + 1)) in
    String.substring a (b - a) EtagType_name.

(** ** Constraints of nodes (proto.go), on their ids *)

Definition RequireId (id : string) : option string := if decide (id = "") then Some "node id required" else None.

(** [UniqueId]: the body of the comparison is empty. *)
Definition UniqueId (this that : string) : option string := None.

(** ** Theorems on tags *)

(** The text of a type is its name, and a number for any other. *)
Theorem type_names i : 0 <= i < 2 ^ 32 ->
  EtagType_String i = nth (Z.to_nat i) ["NoType"; "EtagCase"; "EtagCaseComment"; "EtagCaseLink"; "EtagRelatedCase"; "EtagCaseCommunication"]
    ("EtagType(" +:+ FormatInt i +:+ ")").
Proof.
  intros Hi. unfold EtagType_String. change (Z.of_nat (length EtagType_index) - 1) with 6. destruct (Z.leb_spec 6 i).
  - rewrite nth_overflow; [done|]. cbn. lia.
  - assert (i = 0 \/ i = 1 \/ i = 2 \/ i = 3 \/ i = 4 \/ i = 5) as Hc by lia.
    destruct Hc as [->|[->|[->|[->|[->| ->]]]]]; reflexivity.
Qed.

Lemma ParseInt_range s z : ParseInt 64 s = Some z -> - 2 ^ (64 - 1) <= z < 2 ^ (64 - 1).
Proof.
  unfold ParseInt. generalize (match s with String "-"%char s' => n ← parse_nat s'; Some (- n) | String "+"%char s' => parse_nat s' | _ => parse_nat s end).
  intros [n|]; [|done]. cbn. destruct (_ && _) eqn:E; [|done]. intros [= <-]. apply andb_prop in E as [? ?]. lia.
Qed.

(** A tag made from the id of a node reads back as that id, and is valid. *)
Theorem get_tag_id id ver t : GetTag id ver = Ok t -> 
  Tid_Valid (Some t) = None /\ Tid_GetVer (Some t) = ver /\ GetOid (Tid_GetId (Some t)) = Ok (Oid t).
Proof.
  unfold GetTag. destruct (GetOid id) as [oid|] eqn:E; [|done]. intros [= <-]. unfold GetOid in E.
  destruct (ParseInt 64 id) as [z|] eqn:Ez; [|done]. apply ParseInt_range in Ez. destruct (Z.ltb_spec z 1); [done|].
  injection E as ->. unfold Tid_Valid, Tid_GetId, Tid_GetOid, GetId. cbn [Oid]. destruct (Z.ltb_spec oid 1); [lia|].
  destruct (Z.ltb_spec 0 oid); [|lia]. destruct (Z.ltb_spec oid 1); [lia|]. repeat split. unfold GetOid.
  rewrite ParseInt_FormatInt by done. by destruct (Z.ltb_spec oid 1); [lia|].
Qed.

(** A tag without a version has the text of version zero, which [EncodeTag] refuses to make. *)
Theorem unversioned_etag {HV : Varint} typ oid : 0 < typ -> 1 <= oid ->
  ETag_String (mkETag (mkTid None oid) typ) = ETag_String (mkETag (mkTid (Some 0) oid) typ) /\
  is_Ok (ETag_String (mkETag (mkTid None oid) typ)) /\ ~ is_Ok (EncodeTag typ (mkTid None oid)).
Proof.
  intros Ht Ho. split; [done|]. unfold ETag_String, EncodeEtag, EncodeTag, NoType, validType, NoType, Tid_IsNone, Tid_HasOid, Tid_GetOid. cbn.
  destruct (Z.leb_spec typ 0); [lia|]. destruct (Z.ltb_spec oid 1); [lia|]. split; [by eexists|].
  destruct (Z.ltb_spec 0 typ); [|lia]. destruct (Z.ltb_spec 0 oid); [|lia]. cbn. destruct (Z.ltb_spec 0 oid); [|lia]. cbn. by intros [? ?].
Qed.

(** Two nodes with the same id are never reported. *)
Theorem unique_id_never_refuses id : UniqueId id id = None.
Proof. done. Qed.

(** ** Witnesses *)

Lemma select_terminates_witness : is_Some (SelectFields ["id"; "name"] ["etag"] (select_bound ["id"; "name"] ["etag"] (InlineFields "+,*,x")) "+,*,x").
Proof. apply (select_terminates ["id"; "name"] ["etag"]); reflexivity. Defined.

Lemma select_one_witness :
  SelectFields ["id"; "name"] ["etag"] (select_bound ["id"; "name"] ["etag"] (InlineFields "x,*,etag")) "x,*,etag" = Some ["x"; "id"; "name"; "etag"].
Proof.
  rewrite (select_one ["id"; "name"] ["etag"] "x,*,etag" ["x"] "*" ["etag"] ["id"; "name"]); reflexivity.
Defined.

Lemma type_names_witness : EtagType_String 3 = "EtagCaseLink".
Proof. rewrite (type_names 3) by lia. reflexivity. Defined.

Lemma get_tag_id_witness : Tid_Valid (Some (mkTid (Some 4) 27)) = None.
Proof. apply (get_tag_id "27" 4 (mkTid (Some 4) 27)). reflexivity. Defined.

Lemma unversioned_etag_witness : let HV := {| AppendVarint := fun v => [v]; ConsumeVarint := fun _ => None |} in
  is_Ok (ETag_String (mkETag (mkTid None 7) 1)).
Proof. intros HV. apply (unversioned_etag 1 7); lia. Defined.

End EtagFields.
