(* ===== verification/GrpcPool.v ===== *)
(** * gRPC connection pool: infra/transport/gRPC/pool/pool.go

    A channel holds as many wrappers as the pool has slots; a wrapper has a
    connection or is empty.  Connections are numbers handed out by the factory;
    [p_open] is the set of connections that are open, which the source does not
    keep: it is what the invariant speaks about.  [Get], [Close] of a connection and
    [Close] of the pool are single steps. *)
From stdpp Require Import prelude strings list gmap.
From Stdlib Require Import ZArith Lia.
From S2P Require Import Prelude.
Local Open Scope Z_scope.

Module GrpcPool.

(** An element of the channel. *)
Record wrapper := mkWrap { w_conn : option nat; timeUsed : Z; timeInitiated : Z }.

(** A [*ClientConn] in the hands of a caller. *)
Record handle := mkHandle { h_conn : option nat; h_initiated : Z; unhealthy : bool }.

Record Pool := mkPool {
  clients : option (list wrapper);
  capacity : nat;
  idleTimeout : Z;
  maxLifeDuration : Z;
  closed : bool;
  handles : gmap nat handle;
  p_open : gset nat;
  p_next : nat
}.

(** The [init] connections of a new pool: one factory call each ([true]: it
    succeeds), and the connections opened so far. *)
Fixpoint init_clients (oks : list bool) (now : Z) (next : nat) : bool * list wrapper :=
  match oks with
  | [] => (true, [])
  | false :: _ => (false, [])
  | true :: oks =>
      let '(ok, ws) := init_clients oks now (S next) in (ok, mkWrap (Some next) now now :: ws)
  end.

(** [inl] is the connections left open when a factory call fails. *)
Definition NewWithContext (init cap : Z) (idle life : Z) (oks : Z -> list bool) (now : Z)
  : gset nat + Pool :=
  let cap := if cap <=? 0 then 1 else cap in
  let init := if init <? 0 then 0 else init in
  let init := if cap <? init then cap else init in
  match init_clients (oks init) now 0 with
  | (ok, ws) =>
      let opened := list_to_set (omap w_conn ws) in
      if (ok : bool) then
        inr (mkPool (Some (ws ++ replicate (Z.to_nat cap - length ws) (mkWrap None 0 0)))
               (Z.to_nat cap) idle life false ∅ opened (length ws))
      else inl opened
  end.

Definition set_clients (cs : option (list wrapper)) (p : Pool) : Pool :=
  mkPool cs (capacity p) (idleTimeout p) (maxLifeDuration p) (closed p) (handles p) (p_open p) (p_next p).

Definition set_open (o : gset nat) (p : Pool) : Pool :=
  mkPool (clients p) (capacity p) (idleTimeout p) (maxLifeDuration p) (closed p) (handles p) o (p_next p).

Definition set_handle (h : nat) (c : handle) (p : Pool) : Pool :=
  mkPool (clients p) (capacity p) (idleTimeout p) (maxLifeDuration p) (closed p)
    (<[h := c]> (handles p)) (p_open p) (p_next p).

(** [conn.Close()] *)
Definition shut (c : option nat) (p : Pool) : Pool :=
  match c with Some c => set_open (p_open p ∖ {[ c ]}) p | None => p end.

Definition Pool_Close (p : Pool) : Pool :=
  match clients p with
  | None => p
  | Some cs =>
      if closed p then set_clients None p
      else
        let p := fold_left (fun p w => shut (w_conn w) p) cs (set_clients None p) in
        mkPool (clients p) (capacity p) (idleTimeout p) (maxLifeDuration p) true (handles p)
          (p_open p) (p_next p)
  end.

Definition IsClosed (p : Pool) : bool := match clients p with None => true | Some _ => false end.

(** [Get] into the fresh handle [h]; [ok] is how a factory call ends.  With no
    wrapper in the channel the caller waits until its context is done. *)
Definition Get (now : Z) (ok : bool) (h : nat) (p : Pool) : res string nat * Pool :=
  match clients p with
  | None => (Err "[gRPC POOL] client pool is closed", p)
  | Some [] => (Err "[gRPC POOL] context deadline exceeded", p)
  | Some (w :: rest) =>
      let p := set_clients (Some rest) p in
      let expired := (0 <? idleTimeout p) && (timeUsed w + idleTimeout p <? now) in
      let '(conn, p) :=
        match w_conn w with
        | Some c => if expired then (None, shut (Some c) p) else (Some c, p)
        | None => (None, p)
        end in
      match conn with
      | Some c => (Ok h, set_handle h (mkHandle (Some c) (timeInitiated w) false) p)
      | None =>
          if ok then
            let c := p_next p in
            let p := mkPool (clients p) (capacity p) (idleTimeout p) (maxLifeDuration p) (closed p)
                       (handles p) ({[ c ]} ∪ p_open p) (S c) in
            (Ok h, set_handle h (mkHandle (Some c) now false) p)
          else (Err "factory error",
                set_clients (Some (rest ++ [mkWrap None (timeUsed w) (timeInitiated w)])) p)
      end
  end.

Definition Unhealthy (h : nat) (p : Pool) : Pool :=
  match handles p !! h with
  | Some c => set_handle h (mkHandle (h_conn c) (h_initiated c) true) p
  | None => p
  end.

(** [ClientConn.Close] *)
Definition Conn_Close (now : Z) (h : nat) (p : Pool) : option string * Pool :=
  match handles p !! h with
  | None => (None, p)
  | Some c =>
      match h_conn c with
      | None => (Some "[gRPC pool] already closed", p)
      | Some conn =>
          let bad := unhealthy c ||
            ((0 <? maxLifeDuration p) && (h_initiated c + maxLifeDuration p <? now)) in
          let w := if bad then mkWrap None now 0 else mkWrap (Some conn) now (h_initiated c) in
          let p := if bad then shut (Some conn) p else p in
          let p := set_handle h (mkHandle (Some conn) (h_initiated c) bad) p in
          if closed p then (None, shut (Some conn) p)
          else
            let p := match clients p with
                     | Some cs => if (length cs <? capacity p)%nat
                                  then set_clients (Some (cs ++ [w])) p
                                  else shut (Some conn) p
                     | None => shut (Some conn) p
                     end in
            (None, set_handle h (mkHandle None (h_initiated c) bad) p)
      end
  end.

Definition Capacity (p : Pool) : nat := if IsClosed p then 0%nat else capacity p.
Definition Available (p : Pool) : nat := match clients p with None => 0%nat | Some cs => length cs end.

(** ** Steps and the invariant *)

Inductive step : Pool -> Pool -> Prop :=
| step_get now ok h p : handles p !! h = None -> step p (snd (Get now ok h p))
| step_unhealthy h p : step p (Unhealthy h p)
| step_put now h p : step p (snd (Conn_Close now h p))
| step_close p : step p (Pool_Close p).

(** The connections that wait in the channel, and those in the hands of callers. *)
Definition idle_conns (p : Pool) : list nat := omap w_conn (default [] (clients p)).
Definition held (p : Pool) : gmap nat nat := omap h_conn (handles p).

(** Every open connection is in exactly one place, idle or with one caller. *)
Definition placed (idle : list nat) (hold : gmap nat nat) (opened : gset nat) (next : nat) : Prop :=
  NoDup idle /\
  (forall h c, hold !! h = Some c -> c ∈ opened /\ c ∉ idle) /\
  (forall h h' c, hold !! h = Some c -> hold !! h' = Some c -> h = h') /\
  (forall c, c ∈ idle -> c ∈ opened) /\
  (forall c, c ∈ opened -> c ∈ idle \/ exists h, hold !! h = Some c) /\
  (forall c, c ∈ opened -> (c < next)%nat).

(** An open pool: slots are neither lost nor created. *)
Definition pool_inv (p : Pool) : Prop :=
  exists cs, clients p = Some cs /\ closed p = false /\
    (length cs + size (held p) = capacity p)%nat /\
    placed (idle_conns p) (held p) (p_open p) (p_next p).

(** A closed pool: what is still open is in the hands of a caller. *)
Definition closed_inv (p : Pool) : Prop :=
  clients p = None /\ closed p = true /\
  forall c, c ∈ p_open p -> exists h, held p !! h = Some c.

(** ** Lemmas *)

(** *** Moving a connection *)

Lemma placed_take c idle hold opened next h :
  placed (c :: idle) hold opened next -> hold !! h = None ->
  placed idle (<[h := c]> hold) opened next.
Proof.
  intros (Hnd & Hh & Hinj & Hi & Ho & Hn) Hf. apply NoDup_cons in Hnd as [Hc Hnd].
  split_and!; [done| | | | |done].
  - intros h' c' [[<- <-]|[Hne Hl]]%lookup_insert_Some; [split; [apply Hi; left|done]|].
    destruct (Hh h' c' Hl) as [? Hx]. split; [done|]. intros ?. apply Hx. by right.
  - intros h1 h2 c' [[<- <-]|[? Hl1]]%lookup_insert_Some [[<- E]|[? Hl2]]%lookup_insert_Some; [done| | |].
    + destruct (Hh _ _ Hl2) as [_ []]. left.
    + subst. destruct (Hh _ _ Hl1) as [_ []]. left.
    + by eapply Hinj.
  - intros c' Hc'. apply Hi. by right.
  - intros c' [[->|?]%elem_of_cons|[h' Hl]]%Ho; [right|by left|right].
    + exists h. apply lookup_insert_eq.
    + exists h'. rewrite lookup_insert_ne; [done|]. intros <-. congruence.
Qed.

Lemma placed_drop c idle hold opened next :
  placed (c :: idle) hold opened next -> placed idle hold (opened ∖ {[ c ]}) next.
Proof.
  intros (Hnd & Hh & Hinj & Hi & Ho & Hn). apply NoDup_cons in Hnd as [Hc Hnd].
  split_and!; [done| |done| | |].
  - intros h c' Hl. destruct (Hh _ _ Hl) as [? Hx]. rewrite elem_of_cons in Hx.
    rewrite elem_of_difference, elem_of_singleton. tauto.
  - intros c' Hc'. rewrite elem_of_difference, elem_of_singleton.
    split; [apply Hi; by right|]. by intros ->.
  - intros c' [Hc' Hne]%elem_of_difference. rewrite elem_of_singleton in Hne.
    destruct (Ho _ Hc') as [[?|?]%elem_of_cons|?]; [done|by left|by right].
  - intros c' [? _]%elem_of_difference. by apply Hn.
Qed.

Lemma placed_new idle hold opened next h :
  placed idle hold opened next -> hold !! h = None ->
  placed idle (<[h := next]> hold) ({[ next ]} ∪ opened) (S next).
Proof.
  intros (Hnd & Hh & Hinj & Hi & Ho & Hn) Hf.
  assert (next ∉ opened) as Hfresh by (intros Hx%Hn; lia).
  split_and!; [done| | | | |].
  - intros h' c' [[<- <-]|[Hne Hl]]%lookup_insert_Some; rewrite elem_of_union, elem_of_singleton.
    + split; [by left|]. by intros ?%Hi.
    + destruct (Hh _ _ Hl). tauto.
  - intros h1 h2 c' [[<- <-]|[? Hl1]]%lookup_insert_Some [[<- E]|[? Hl2]]%lookup_insert_Some; [done| | |].
    + by destruct (Hh _ _ Hl2).
    + subst. by destruct (Hh _ _ Hl1).
    + by eapply Hinj.
  - intros c' Hc'. rewrite elem_of_union. right. auto.
  - intros c' [->%elem_of_singleton|Hc']%elem_of_union; [right; exists h; apply lookup_insert_eq|].
    destruct (Ho _ Hc') as [?|[h' Hl]]; [by left|right]. exists h'.
    rewrite lookup_insert_ne; [done|]. intros <-. congruence.
  - intros c' [->%elem_of_singleton|Hc'%Hn]%elem_of_union; lia.
Qed.

Lemma placed_put c idle hold opened next h :
  placed idle hold opened next -> hold !! h = Some c ->
  placed (idle ++ [c]) (delete h hold) opened next.
Proof.
  intros (Hnd & Hh & Hinj & Hi & Ho & Hn) Hl. destruct (Hh _ _ Hl) as [Hc Hnc].
  split_and!; [| | | | |done].
  - apply NoDup_app. split_and!; [done| |apply NoDup_singleton].
    by intros x Hx ->%list_elem_of_singleton.
  - intros h' c' [Hne Hl']%lookup_delete_Some. destruct (Hh _ _ Hl') as [? Hx].
    split; [done|]. rewrite elem_of_app, list_elem_of_singleton. intros [?| ->]; [done|].
    apply Hne. by eapply Hinj.
  - intros h1 h2 c' [_ H1]%lookup_delete_Some [_ H2]%lookup_delete_Some. by eapply Hinj.
  - intros c' [?| ->%list_elem_of_singleton]%elem_of_app; auto.
  - intros c' Hc'. rewrite elem_of_app, list_elem_of_singleton.
    destruct (Ho _ Hc') as [?|[h' Hl']]; [tauto|].
    destruct (decide (h' = h)) as [->|]; [left; right; congruence|].
    right. exists h'. by rewrite lookup_delete_ne.
Qed.

Lemma placed_shut c idle hold opened next h :
  placed idle hold opened next -> hold !! h = Some c ->
  placed idle (delete h hold) (opened ∖ {[ c ]}) next.
Proof.
  intros (Hnd & Hh & Hinj & Hi & Ho & Hn) Hl. destruct (Hh _ _ Hl) as [Hc Hnc].
  split_and!; [done| | | | |].
  - intros h' c' [Hne Hl']%lookup_delete_Some. destruct (Hh _ _ Hl') as [? Hx]. split; [|done].
    rewrite elem_of_difference, elem_of_singleton. split; [done|]. intros ->. apply Hne. by eapply Hinj.
  - intros h1 h2 c' [_ H1]%lookup_delete_Some [_ H2]%lookup_delete_Some. by eapply Hinj.
  - intros c' Hc'. rewrite elem_of_difference, elem_of_singleton. split; [auto|]. by intros ->.
  - intros c' [Hc' Hne]%elem_of_difference. rewrite elem_of_singleton in Hne.
    destruct (Ho _ Hc') as [?|[h' Hl']]; [by left|right]. exists h'.
    rewrite lookup_delete_ne; [done|]. intros <-. congruence.
  - intros c' [? _]%elem_of_difference. by apply Hn.
Qed.

(** *** The held connections after an update of a handle *)

Lemma held_set h c p :
  held (set_handle h c p) =
  match h_conn c with Some n => <[h := n]> (held p) | None => delete h (held p) end.
Proof. unfold held, set_handle. cbn [handles]. rewrite omap_insert. by destruct (h_conn c). Qed.

Lemma held_clients cs p : held (set_clients cs p) = held p.
Proof. done. Qed.

Lemma held_open o p : held (set_open o p) = held p.
Proof. done. Qed.

(** Computes the held connections of an updated pool. *)
Ltac held_norm :=
  repeat (rewrite held_set || rewrite held_clients || rewrite held_open; cbn [h_conn]);
  rewrite ?delete_insert_eq.

Lemma held_free h p : handles p !! h = None -> held p !! h = None.
Proof. intros H. unfold held. by rewrite lookup_omap, H. Qed.

Lemma held_conn h c n p : handles p !! h = Some c -> h_conn c = Some n -> held p !! h = Some n.
Proof. intros H Hc. unfold held. rewrite lookup_omap, H. exact Hc. Qed.

Lemma idle_some p cs : clients p = Some cs -> idle_conns p = omap w_conn cs.
Proof. intros H. unfold idle_conns. by rewrite H. Qed.

Lemma omap_snoc cs w : omap w_conn (cs ++ [w]) = omap w_conn cs ++ match w_conn w with Some c => [c] | None => [] end.
Proof. rewrite omap_app. cbn. by destruct (w_conn w). Qed.

(** *** The steps *)

Lemma Get_inv now ok h p : pool_inv p -> handles p !! h = None -> pool_inv (snd (Get now ok h p)).
Proof.
  intros (cs & Hcs & Hcl & Hlen & Hp) Hh. pose proof (held_free _ _ Hh) as Hf.
  unfold Get. rewrite Hcs. destruct cs as [|w rest]; [by exists []|].
  rewrite (idle_some _ _ Hcs) in Hp. cbn [length] in Hlen.
  assert (omap w_conn (w :: rest) = match w_conn w with Some c => c :: omap w_conn rest
                                    | None => omap w_conn rest end) as Eo by done. rewrite Eo in Hp.
  assert (forall p', clients p' = Some rest -> closed p' = false -> capacity p' = capacity p ->
    held p' = held p -> forall c t, placed (omap w_conn rest) (<[h := c]> (held p)) (p_open p') (p_next p') ->
    pool_inv (set_handle h (mkHandle (Some c) t false) p')) as Htake.
  { intros p' E1 E2 E3 E4 c t Hpl. exists rest. split_and!; [done|done| |].
    - rewrite held_set. cbn [h_conn]. rewrite E4, map_size_insert_None by done. cbn. lia.
    - rewrite (idle_some _ rest), held_set by done. cbn [h_conn]. rewrite E4. exact Hpl. }
  assert (forall p' t u, clients p' = Some rest -> closed p' = false -> capacity p' = capacity p ->
    held p' = held p -> placed (omap w_conn rest) (held p) (p_open p') (p_next p') ->
    pool_inv (snd (if ok
      then (Ok h, set_handle h (mkHandle (Some (p_next p')) now false)
             (mkPool (clients p') (capacity p') (idleTimeout p') (maxLifeDuration p') (closed p')
                (handles p') ({[ p_next p' ]} ∪ p_open p') (S (p_next p'))))
      else (Err "factory error", set_clients (Some (rest ++ [mkWrap None t u])) p')))) as Hnew.
  { intros p' t u E1 E2 E3 E4 Hpl. destruct ok; cbn [snd].
    - apply Htake; [done..|]. cbn [p_open p_next]. by apply placed_new.
    - exists (rest ++ [mkWrap None t u]). split_and!; [done|done| |].
      + rewrite length_app. cbn. unfold held in *. cbn [set_clients handles]. rewrite E4. lia.
      + rewrite (idle_some _ (rest ++ [mkWrap None t u])), omap_snoc by done. cbn [w_conn].
        rewrite app_nil_r. change (held (set_clients _ p')) with (held p'). rewrite E4. exact Hpl. }
  destruct (w_conn w) as [c|] eqn:Ew; cbn [idleTimeout set_clients].
  - destruct (_ && _); cbn [shut].
    + apply Hnew; [done..|]. cbn. by apply placed_drop.
    + cbn [snd]. apply Htake; [done..|]. cbn. by apply placed_take.
  - by apply (Hnew (set_clients (Some rest) p) (timeUsed w) (timeInitiated w)).
Qed.

Lemma Unhealthy_held h p : held (Unhealthy h p) = held p.
Proof.
  unfold Unhealthy. destruct (handles p !! h) as [c|] eqn:E; [|done]. rewrite held_set. cbn [h_conn].
  destruct (h_conn c) as [n|] eqn:Ec.
  - apply insert_id. by eapply held_conn.
  - apply delete_id. unfold held. rewrite lookup_omap, E. exact Ec.
Qed.

Lemma Unhealthy_inv h p : pool_inv p -> pool_inv (Unhealthy h p).
Proof.
  intros (cs & Hcs & Hcl & Hlen & Hp). pose proof (Unhealthy_held h p) as E.
  exists cs. unfold idle_conns in *. rewrite E. unfold Unhealthy. by case_match.
Qed.

Lemma put_inv now h p : pool_inv p -> pool_inv (snd (Conn_Close now h p)).
Proof.
  intros (cs & Hcs & Hcl & Hlen & Hp). unfold Conn_Close.
  destruct (handles p !! h) as [c|] eqn:Eh; [|by exists cs].
  destruct (h_conn c) as [n|] eqn:Ec; [|by exists cs].
  pose proof (held_conn _ _ _ _ Eh Ec) as Hl.
  assert (size (held p) = S (size (delete h (held p)))) as Hsize.
  { pose proof (map_size_delete_Some h (held p) ltac:(by eexists)) as E.
    assert (size (held p) <> 0)%nat; [|lia].
    intros E0. apply map_size_empty_inv in E0. by rewrite E0, lookup_empty in Hl. }
  assert (length cs < capacity p)%nat as Hroom by lia.
  assert ((length cs <? capacity p)%nat = true) as Hlt by (by apply Nat.ltb_lt).
  set (bad := _ || _). destruct bad; cbn -[held Nat.ltb]; rewrite Hcl, Hcs, Hlt; cbn [snd].
  - exists (cs ++ [mkWrap None now 0]). split_and!; [reflexivity|exact Hcl| |].
    + held_norm. rewrite length_app. cbn [length capacity set_handle set_clients set_open]. lia.
    + rewrite (idle_some _ (cs ++ [mkWrap None now 0])), omap_snoc by done. cbn [w_conn].
      rewrite app_nil_r. held_norm. rewrite (idle_some _ _ Hcs) in Hp. by apply placed_shut.
  - exists (cs ++ [mkWrap (Some n) now (h_initiated c)]). split_and!; [reflexivity|exact Hcl| |].
    + held_norm. rewrite length_app. cbn [length capacity set_handle set_clients set_open]. lia.
    + rewrite (idle_some _ (cs ++ [mkWrap (Some n) now (h_initiated c)])), omap_snoc by done. cbn [w_conn].
      held_norm. rewrite (idle_some _ _ Hcs) in Hp. by apply placed_put.
Qed.

Lemma fold_shut cs : forall p,
  let p' := fold_left (fun p w => shut (w_conn w) p) cs p in
  clients p' = clients p /\ handles p' = handles p /\
  p_open p' = p_open p ∖ list_to_set (omap w_conn cs).
Proof.
  induction cs as [|w cs IH]; intros p; cbn [fold_left].
  - cbn. split_and!; [done|done|]. set_solver.
  - destruct (IH (shut (w_conn w) p)) as (H1 & H2 & H3). rewrite H1, H2, H3.
    unfold omap, list_omap. destruct (w_conn w) as [c|]; cbn; split_and!; try done. set_solver.
Qed.

Lemma Close_inv p : pool_inv p -> closed_inv (Pool_Close p).
Proof.
  intros (cs & Hcs & Hcl & _ & Hp). unfold Pool_Close. rewrite Hcs, Hcl.
  destruct (fold_shut cs (set_clients None p)) as (H1 & H2 & H3).
  split_and!; [exact H1|done|]. cbn [p_open]. rewrite H3. cbn [p_open set_clients].
  intros c [Hc Hn]%elem_of_difference. destruct Hp as (_ & _ & _ & _ & Ho & _).
  destruct (Ho c Hc) as [Hi|[h Hh]].
  - destruct Hn. rewrite (idle_some _ _ Hcs) in Hi. by apply elem_of_list_to_set.
  - exists h. unfold held in *. cbn [handles]. by rewrite H2.
Qed.

(** A closed pool stays closed; giving a connection back closes it. *)
Lemma closed_step p p' : closed_inv p -> step p p' -> closed_inv p'.
Proof.
  intros (Hcs & Hcl & Ho) Hs. destruct Hs as [now ok h p Hh|h p|now h p|p].
  - unfold Get. by rewrite Hcs.
  - pose proof (Unhealthy_held h p) as E.
    assert (clients (Unhealthy h p) = None /\ closed (Unhealthy h p) = true /\
            p_open (Unhealthy h p) = p_open p) as (H1 & H2 & H3) by (unfold Unhealthy; by case_match).
    split_and!; [done|done|]. rewrite H3, E. exact Ho.
  - unfold Conn_Close. destruct (handles p !! h) as [c|] eqn:Eh; [|done].
    destruct (h_conn c) as [n|] eqn:Ec; [|done]. set (bad := _ || _).
    assert (forall q, clients q = None -> closed q = true -> held q = held p ->
      (forall x, x ∈ p_open q -> x ∈ p_open p) ->
      closed_inv (shut (Some n) (set_handle h (mkHandle (Some n) (h_initiated c) bad) q))) as Hq.
    { intros q E1 E2 E3 E4. split_and!; [done|done|]. intros x Hx. cbn in Hx.
      apply elem_of_difference in Hx as [Hx _]. destruct (Ho x (E4 x Hx)) as [h' Hh'].
      exists h'. change (held (set_handle h (mkHandle (Some n) (h_initiated c) bad) q) !! h' = Some x).
      rewrite held_set, E3. cbn [h_conn]. rewrite insert_id; [done|]. by eapply held_conn. }
    destruct bad eqn:Eb;
      match goal with |- context [if closed ?q then _ else _] => change (closed q) with (closed p) end;
      rewrite Hcl; cbn [snd].
    + apply (Hq (set_open (p_open p ∖ {[ n ]}) p)); [done|done|done|].
      intros x Hx. cbn in Hx. by apply elem_of_difference in Hx as [? _].
    + by apply (Hq p).
  - unfold Pool_Close. by rewrite Hcs.
Qed.

(** Reachable from a pool in order. *)
Inductive reachable (p0 : Pool) : Pool -> Prop :=
| reach_start : reachable p0 p0
| reach_step p p' : reachable p0 p -> step p p' -> reachable p0 p'.

(** ** Properties *)

(** C27: the pool never shares or loses a connection: in every state reachable
    from a pool in order, either the pool is open, the free slots and the
    connections in use add up to the capacity, and every open connection is
    idle or held by exactly one caller; or it is closed and every connection
    still open is in the hands of a caller. *)
Theorem pool_connections_exclusive p0 p :
  pool_inv p0 -> reachable p0 p -> pool_inv p \/ closed_inv p.
Proof.
  intros H0 Hr. induction Hr as [|p p' Hr IH Hs]; [by left|].
  destruct IH as [Hi|Hc]; [|right; by eapply closed_step].
  destruct Hs as [now ok h p Hh|h p|now h p|p].
  - left. by apply Get_inv.
  - left. by apply Unhealthy_inv.
  - left. by apply put_inv.
  - right. by apply Close_inv.
Qed.

(** A new pool is in order. *)
Lemma init_clients_conns oks now : forall next ws,
  init_clients oks now next = (true, ws) ->
  length ws = length oks /\ omap w_conn ws = seq next (length oks).
Proof.
  induction oks as [|[] oks IH]; intros next ws; cbn [init_clients]; [by intros; simplify_eq| |done].
  destruct (init_clients oks now (S next)) as [ok ws'] eqn:E. intros. simplify_eq.
  destruct (IH _ _ E) as [H1 H2]. cbn. by rewrite H1, H2.
Qed.

Lemma NewWithContext_inv init cap idle life now p :
  NewWithContext init cap idle life (fun n => replicate (Z.to_nat n) true) now = inr p -> pool_inv p.
Proof.
  unfold NewWithContext. set (cap' := if cap <=? 0 then 1 else cap).
  set (i1 := if init <? 0 then 0 else init). set (i2 := if cap' <? i1 then cap' else i1).
  assert (0 < cap') by (subst cap'; destruct (Z.leb_spec cap 0); lia).
  assert (0 <= i2 <= cap').
  { subst i2 i1. destruct (Z.ltb_spec init 0), (Z.ltb_spec cap' (if init <? 0 then 0 else init));
      repeat case_match; z_bool; lia. }
  destruct (init_clients _ now 0) as [ok ws] eqn:E. destruct ok; [|done]. intros. simplify_eq.
  destruct (init_clients_conns _ _ _ _ E) as [Hl Hc]. rewrite length_replicate in Hl, Hc.
  eexists. split_and!; [done|done| |].
  - rewrite length_app, length_replicate. unfold held. cbn. rewrite omap_empty, map_size_empty. lia.
  - erewrite idle_some by reflexivity. unfold held. cbn [handles p_open p_next].
    rewrite omap_app, Hc, omap_empty.
    assert (omap w_conn (replicate (Z.to_nat cap' - length ws) (mkWrap None 0 0)) = []) as ->
      by (induction (Z.to_nat cap' - length ws)%nat; done).
    rewrite app_nil_r. split_and!.
    + apply NoDup_seq.
    + intros h c Hx. by rewrite lookup_empty in Hx.
    + intros h h' c Hx. by rewrite lookup_empty in Hx.
    + intros c Hx. by apply elem_of_list_to_set.
    + intros c Hx. left. by apply elem_of_list_to_set in Hx.
    + intros c Hx. apply elem_of_list_to_set, elem_of_seq in Hx. lia.
Qed.

(** A factory error while the pool is built leaves the connections made before
    it open, with no one to close them. *)
Theorem failed_new_leaks now :
  NewWithContext 2 2 0 0 (fun _ => [true; false]) now = inl {[ 0%nat ]}.
Proof. reflexivity. Qed.

(** ** Witness: take, refuse, give back and close *)

Definition demo_pool : Pool :=
  match NewWithContext 1 2 0 0 (fun n => replicate (Z.to_nat n) true) 0 with
  | inr p => p
  | inl _ => mkPool None 0 0 0 true ∅ ∅ 0
  end.

Lemma demo_pool_inv : pool_inv demo_pool.
Proof. by apply (NewWithContext_inv 1 2 0 0 0). Qed.

Lemma pool_connections_exclusive_witness :
  let p1 := snd (Get 1 true 0 demo_pool) in
  let p2 := snd (Get 2 true 1 p1) in
  let p3 := snd (Conn_Close 3 0 p2) in
  (pool_inv p3 \/ closed_inv p3) /\ Available p3 = 1%nat.
Proof.
  intros p1 p2 p3. split; [|reflexivity].
  apply (pool_connections_exclusive demo_pool p3 demo_pool_inv).
  eapply reach_step; [|apply step_put].
  eapply reach_step; [|by apply step_get].
  eapply reach_step; [|by apply step_get].
  apply reach_start.
Defined.

End GrpcPool.
