(* ===== verification/GrpcClient.v ===== *)
(** * gRPC client: infra/transport/gRPC (client.go, options.go)

    The options of a client, its dial options, and calls over the pool of connections
    ([GrpcPool]).  Service configurations are shared by reference, so they live in a store;
    reference 0 is the package's default.  TLS settings, interceptors and extra dial
    options are numbered; the text of a duration is an argument. *)
From stdpp Require Import prelude strings list gmap.
From Stdlib Require Import ZArith Lia.
From S2P Require Import Prelude GrpcPool.

Local Open Scope Z_scope.

Module GrpcClient.
Import GrpcPool.

Record RetryPolicy := mkRP {
  rp_MaxAttempts : Z;
  rp_InitialBackoff : string;
  rp_MaxBackoff : string;
  rp_Multiplier : Z;
  RetryableStatusCodes : list string
}.

(** Load balancing is the list of policy names, a health check the name of its service. *)
Record ServiceConfig := mkSC {
  LoadBalancingConfig : list string;
  HealthCheckConfig : option string;
  RetryPolicy_ : option RetryPolicy
}.

(** The multiplier is its value in thousandths. *)
Record RetryConfig := mkRetry { MaxAttempts : Z; InitialBackoff : Z; MaxBackoff : Z; BackoffMultiplier : Z }.

Record PoolConfig := mkPC { InitialSize : Z; MaxSize : Z; IdleTimeout : Z; MaxLifeDuration : Z }.

Record Keepalive := mkKA { ka_Time : Z; ka_Timeout : Z; PermitWithoutStream : bool }.

Record clientOptions := mkCO {
  target : string;
  timeout : Z;
  tlsConfig : option nat;
  healthCheck : bool;
  retryConfig : option RetryConfig;
  poolConfig : PoolConfig;
  unary : list nat;
  stream : list nat;
  dialOptions : list nat;
  serviceConfig : option nat;
  keepaliveParams : Keepalive
}.

Definition second : Z := 1000000000.

Definition defaultKeepaliveParams := mkKA (10 * second) (3 * second) true.
Definition defaultServiceConfig := mkSC ["round_robin"%string] None None.
Definition defaultPoolConfig := mkPC 5 20 (300 * second) (1800 * second).
Definition defaultTimeout := 30 * second.

Definition DefaultRetryConfig := mkRetry 3 100000000 second 2000.
Definition AggressiveKeepalive := mkKA (5 * second) (2 * second) true.
Definition ConservativeKeepalive := mkKA (30 * second) (10 * second) false.

(** Service configurations by reference. *)
Abbreviation store := (gmap nat ServiceConfig).

Definition default_ref : nat := 0.

(** The store when the package is loaded. *)
Definition initial_store : store := {[ default_ref := defaultServiceConfig ]}.

Inductive ClientOption :=
| WithTarget (s : string)
| WithTimeout (d : Z)
| WithTLS (c : option nat)
| WithHealthCheck
| WithRetry (c : RetryConfig)
| WithPool (c : PoolConfig)
| WithUnaryInterceptors (l : list nat)
| WithStreamInterceptors (l : list nat)
| WithDialOptions (l : list nat)
| WithServiceConfig (ref : option nat)
| WithKeepalive (k : Keepalive)
| WithLoadBalancing (policy : string).

Definition set_service (ref : option nat) (o : clientOptions) : clientOptions :=
  mkCO (target o) (timeout o) (tlsConfig o) (healthCheck o) (retryConfig o) (poolConfig o) (unary o) (stream o)
    (dialOptions o) ref (keepaliveParams o).

(** An option on the options of a client and the store it may write to. *)
Definition apply_option (opt : ClientOption) (o : clientOptions) (st : store) : clientOptions * store :=
  match opt with
  | WithTarget s => (mkCO s (timeout o) (tlsConfig o) (healthCheck o) (retryConfig o) (poolConfig o) (unary o) (stream o)
                       (dialOptions o) (serviceConfig o) (keepaliveParams o), st)
  | WithTimeout d => (mkCO (target o) d (tlsConfig o) (healthCheck o) (retryConfig o) (poolConfig o) (unary o) (stream o)
                        (dialOptions o) (serviceConfig o) (keepaliveParams o), st)
  | WithTLS c => (mkCO (target o) (timeout o) c (healthCheck o) (retryConfig o) (poolConfig o) (unary o) (stream o)
                    (dialOptions o) (serviceConfig o) (keepaliveParams o), st)
  | WithHealthCheck => (mkCO (target o) (timeout o) (tlsConfig o) true (retryConfig o) (poolConfig o) (unary o) (stream o)
                          (dialOptions o) (serviceConfig o) (keepaliveParams o), st)
  | WithRetry c => (mkCO (target o) (timeout o) (tlsConfig o) (healthCheck o) (Some c) (poolConfig o) (unary o) (stream o)
                      (dialOptions o) (serviceConfig o) (keepaliveParams o), st)
  | WithPool c => (mkCO (target o) (timeout o) (tlsConfig o) (healthCheck o) (retryConfig o) c (unary o) (stream o)
                     (dialOptions o) (serviceConfig o) (keepaliveParams o), st)
  | WithUnaryInterceptors l => (mkCO (target o) (timeout o) (tlsConfig o) (healthCheck o) (retryConfig o) (poolConfig o)
                                  (unary o ++ l) (stream o) (dialOptions o) (serviceConfig o) (keepaliveParams o), st)
  | WithStreamInterceptors l => (mkCO (target o) (timeout o) (tlsConfig o) (healthCheck o) (retryConfig o) (poolConfig o)
                                   (unary o) (stream o ++ l) (dialOptions o) (serviceConfig o) (keepaliveParams o), st)
  | WithDialOptions l => (mkCO (target o) (timeout o) (tlsConfig o) (healthCheck o) (retryConfig o) (poolConfig o)
                            (unary o) (stream o) (dialOptions o ++ l) (serviceConfig o) (keepaliveParams o), st)
  | WithServiceConfig ref => (set_service ref o, st)
  | WithKeepalive k => (mkCO (target o) (timeout o) (tlsConfig o) (healthCheck o) (retryConfig o) (poolConfig o)
                          (unary o) (stream o) (dialOptions o) (serviceConfig o) k, st)
  | WithLoadBalancing policy =>
      let ref := default (fresh (dom st)) (serviceConfig o) in
      let c := default (mkSC [] None None) (st !! ref) in
      (set_service (Some ref) o, <[ref := mkSC [policy] (HealthCheckConfig c) (RetryPolicy_ c)]> st)
  end.

Fixpoint apply_options (opts : list ClientOption) (o : clientOptions) (st : store) : clientOptions * store :=
  match opts with
  | [] => (o, st)
  | opt :: opts => let '(o, st) := apply_option opt o st in apply_options opts o st
  end.

Definition new_options : clientOptions :=
  mkCO EmptyString defaultTimeout None false None defaultPoolConfig [] [] [] (Some default_ref) defaultKeepaliveParams.

Definition validateOptions (o : clientOptions) : option string :=
  if decide (target o = EmptyString) then Some "target is required"%string else None.

Section Client.
Context (Duration_String : Z -> string).

Definition retry_policy (r : RetryConfig) : RetryPolicy :=
  mkRP (MaxAttempts r) (Duration_String (InitialBackoff r)) (Duration_String (MaxBackoff r)) (BackoffMultiplier r)
    ["Unavailable"; "DeadlineExceeded"]%string.

(** [buildServiceConfig]: the configuration that is marshalled; the missing parts are written
    into the shared object. *)
Definition buildServiceConfig (o : clientOptions) (st : store) : option ServiceConfig * store :=
  match serviceConfig o with
  | None => (None, st)
  | Some ref =>
      match st !! ref with
      | None => (None, st)
      | Some c =>
          let health := match HealthCheckConfig c with
                        | None => if healthCheck o then Some EmptyString else None
                        | h => h end in
          let retry := match RetryPolicy_ c with None => retry_policy <$> retryConfig o | r => r end in
          let c := mkSC (LoadBalancingConfig c) health retry in
          (Some c, <[ref := c]> st)
      end
  end.

Inductive DialOption :=
| TransportCredentials (tls : option nat)
| DefaultServiceConfig (c : ServiceConfig)
| KeepaliveParams (k : Keepalive)
| ChainUnary (l : list nat)
| ChainStream (l : list nat)
| Extra (n : nat).

Definition buildDialOptions (o : clientOptions) (st : store) : list DialOption * store :=
  let '(c, st) := buildServiceConfig o st in
  ([TransportCredentials (tlsConfig o)] ++
   match c with Some c => [DefaultServiceConfig c] | None => [] end ++
   [KeepaliveParams (keepaliveParams o)] ++
   match unary o with [] => [] | l => [ChainUnary l] end ++
   match stream o with [] => [] | l => [ChainStream l] end ++
   map Extra (dialOptions o), st).

(** Each connection of the new pool builds the dial options again; [dial] tells which of
    the factory calls succeed. *)
Definition NewClient (opts : list ClientOption) (dial : Z -> list bool) (now : Z) (st : store)
  : res string (clientOptions * Pool) * store :=
  let '(o, st) := apply_options opts new_options st in
  match validateOptions o with
  | Some err => (Err ("[gRPC client] invalid options: " +:+ err), st)
  | None =>
      let st := match Z.to_nat (InitialSize (poolConfig o)) with O => st | S _ => snd (buildDialOptions o st) end in
      let pc := poolConfig o in
      match NewWithContext (InitialSize pc) (MaxSize pc) (IdleTimeout pc) (MaxLifeDuration pc) dial now with
      | inl _ => (Err "[gRPC client] failed to create connection pool"%string, st)
      | inr p => (Ok (o, p), st)
      end
  end.

End Client.

(** ** Calls *)

(** An error of a call: the code of its gRPC status, if it has one. *)
Definition call_error := option Z.

(** Unavailable, Canceled, Aborted. *)
Definition isConnectionError (err : call_error) : bool :=
  match err with None => false | Some code => bool_decide (code ∈ [14; 1; 10]) end.

(** [Execute] with the fresh handle [h]; [fn] returns an error or panics, and the deferred
    [Close] runs in both cases, at the time [later]. *)
Definition Execute (now later : Z) (ok : bool) (h : nat) (fn : outcome (option call_error)) (p : Pool)
  : outcome (res string (option call_error)) * Pool :=
  match Get now ok h p with
  | (Err e, p) => (Ret (Err ("[gRPC client] failed to get connection from pool: " +:+ e)), p)
  | (Ok h, p) =>
      match fn with
      | Panic m => (Panic m, snd (Conn_Close later h p))
      | Ret err =>
          let p := match err with Some e => if isConnectionError e then Unhealthy h p else p | None => p end in
          (Ret (Ok err), snd (Conn_Close later h p))
      end
  end.

(** [GetAPI]: the handle stays with the caller until the cleanup. *)
Definition GetAPI (now : Z) (ok : bool) (h : nat) (p : Pool) : res string nat * Pool :=
  match Get now ok h p with
  | (Err e, p) => (Err ("[gRPC client] failed to get connection: " +:+ e), p)
  | (Ok h, p) => (Ok h, p)
  end.

(** [Close] of a client that has its pool. *)
Definition Client_Close (p : Pool) : Pool := Pool_Close p.

Record PoolStats := mkStats { st_Capacity : nat; st_Available : nat; InUse : Z }.

Definition Stats (p : Pool) : PoolStats :=
  if IsClosed p then mkStats 0 0 0
  else mkStats (Capacity p) (Available p) (Z.of_nat (Capacity p) - Z.of_nat (Available p)).

(** ** Lemmas *)

Section Stable.
Context (Duration_String : Z -> string).

Lemma buildServiceConfig_stable o st ref c :
  serviceConfig o = Some ref -> st !! ref = Some c ->
  exists c', buildServiceConfig Duration_String o st = (Some c', <[ref := c']> st) /\ LoadBalancingConfig c' = LoadBalancingConfig c
  /\ (RetryPolicy_ c <> None -> RetryPolicy_ c' = RetryPolicy_ c)
  /\ (RetryPolicy_ c = None -> RetryPolicy_ c' = retry_policy Duration_String <$> retryConfig o).
Proof.
  intros Hr Hc. unfold buildServiceConfig. rewrite Hr, Hc. eexists. split; [done|]. cbn.
  split; [done|]. by destruct (RetryPolicy_ c).
Qed.

End Stable.

(** Options that keep to their own configuration leave the others alone. *)
Definition own_option (opt : ClientOption) : bool :=
  match opt with WithLoadBalancing _ | WithServiceConfig _ => false | _ => true end.

Lemma own_options_store opts o st : forallb own_option opts = true ->
  (apply_options opts o st).2 = st /\ serviceConfig (apply_options opts o st).1 = serviceConfig o.
Proof.
  revert o st. induction opts as [|opt opts IH]; intros o st; [done|]. cbn [forallb]. intros [Ho Hs]%andb_prop.
  cbn [apply_options]. destruct opt; cbn [apply_option]; try done;
    match goal with |- context [apply_options opts ?o' st] => destruct (IH o' st Hs) as [-> ->] end; done.
Qed.

(** *** The pool through a call *)

Lemma Get_handle now ok h p h' p' : Get now ok h p = (Ok h', p') ->
  h' = h /\ closed p' = closed p /\ exists c t, handles p' = <[h := mkHandle (Some c) t false]> (handles p).
Proof.
  unfold Get. destruct (clients p) as [[|w rest]|]; [done| |done].
  destruct (w_conn w) as [c|]; cbn; [destruct ((0 <? idleTimeout p) && _); cbn|]; try (destruct ok); cbn;
    intros [= <- <-]; cbn; eauto.
Qed.

Lemma Conn_Close_handle later h p hd c : closed p = false -> handles p !! h = Some hd -> h_conn hd = Some c ->
  let p' := snd (Conn_Close later h p) in
  held p' = delete h (held p) /\ (unhealthy hd = true -> (c ∉ p_open p')).
Proof.
  intros Hcl Hh Hc. unfold Conn_Close. rewrite Hh, Hc.
  set (bad := unhealthy hd || _).
  assert (forall q, closed (if bad then shut (Some c) q else q) = closed q) as Hq by (intros q; by destruct bad).
  cbn zeta. cbn [closed set_handle]. rewrite Hq, Hcl. cbn [snd].
  split.
  - rewrite held_set. cbn [h_conn]. 
    match goal with |- delete h (held ?q) = _ => assert (held q = <[h := c]> (held p)) as -> end;
      [|apply delete_insert_eq].
    destruct bad; cbn [clients set_handle shut set_open]; destruct (clients p) as [cs|]; try case_match;
      unfold set_clients, set_open, shut, held; cbn [handles set_handle]; by rewrite omap_insert.
  - intros Hu. assert (bad = true) as -> by (subst bad; by rewrite Hu).
    cbn [clients set_handle shut set_open p_open]. destruct (clients p) as [cs|]; try case_match; cbn; set_solver.
Qed.

(** ** Theorems *)

(** C28: a call leaves the pool sound and gives its slot back, also when the function panics: what
    callers hold is what they held before.  After an error of the connection the
    connection of the call is closed. *)
Theorem execute_returns_slot now later ok h fn p : pool_inv p -> handles p !! h = None ->
  let '(r, p') := Execute now later ok h fn p in
  pool_inv p' /\ held p' = held p /\
  match r with
  | Ret (Ok (Some err)) => isConnectionError err = true ->
      exists c p1, Get now ok h p = (Ok h, p1) /\ held p1 !! h = Some c /\ (c ∉ p_open p')
  | _ => True
  end.
Proof.
  intros Hp Hh. unfold Execute. pose proof (Get_inv now ok h p Hp Hh) as Hp1.
  destruct (Get now ok h p) as [[h'|e] p1] eqn:Eg; cbn in Hp1.
  2: { split; [done|]. split; [|done]. unfold Get in Eg. destruct Hp as (cs & Hcs & _). rewrite Hcs in Eg.
       destruct cs as [|w rest]; [by simplify_eq|]. destruct (w_conn w), ok; cbn in Eg;
         try destruct ((0 <? idleTimeout p) && _); by simplify_eq. }
  destruct (Get_handle _ _ _ _ _ _ Eg) as (-> & Hcl & c & t & Eh).
  assert (held p1 = <[h := c]> (held p)) as E1 by (unfold held; by rewrite Eh, omap_insert).
  assert (closed p1 = false) as Hcl1 by (rewrite Hcl; by destruct Hp as (? & ? & ? & _)).
  assert (handles p1 !! h = Some (mkHandle (Some c) t false)) as Hh1 by (rewrite Eh; apply lookup_insert_eq).
  assert (delete h (held p1) = held p) as Ed by (rewrite E1; apply delete_insert_id; by apply held_free).
  destruct (Conn_Close_handle later h p1 _ c Hcl1 Hh1 eq_refl) as [Hheld _].
  assert (forall r : outcome (res string (option call_error)), match r with Ret (Ok (Some err)) => isConnectionError err = false | _ => True end ->
    pool_inv (snd (Conn_Close later h p1)) /\ held (snd (Conn_Close later h p1)) = held p /\
    match r with Ret (Ok (Some err)) => isConnectionError err = true ->
      exists c p2, (Ok h, p1) = (Ok (E := string) h, p2) /\ held p2 !! h = Some c /\ (c ∉ p_open (snd (Conn_Close later h p1))) | _ => True end) as Hgood.
  { intros r Hr. split; [by apply put_inv|]. split; [by rewrite Hheld|].
    destruct r as [[[err|]|]|]; try done. intros. congruence. }
  destruct fn as [[err|]|m]; [|exact (Hgood (Ret (Ok None)) I)|exact (Hgood (Panic m) I)].
  destruct (isConnectionError err) eqn:Ec; [|pose proof (Hgood (Ret (Ok (Some err))) Ec) as Hg; cbn beta iota in Hg; by rewrite Ec in Hg].
  assert (Unhealthy h p1 = set_handle h (mkHandle (Some c) t true) p1) as Eu by (unfold Unhealthy; by rewrite Hh1).
  destruct (Conn_Close_handle later h (Unhealthy h p1) (mkHandle (Some c) t true) c) as [Hheld2 Hbad];
    [by rewrite Eu|rewrite Eu; apply lookup_insert_eq|done|].
  split; [by apply put_inv, Unhealthy_inv|]. split; [by rewrite Hheld2, Unhealthy_held|].
  intros _. exists c, p1. split; [done|]. split; [rewrite E1; apply lookup_insert_eq|by apply Hbad].
Qed.

(** After [Close] the client refuses every call without touching a connection, its statistics are empty, and the
    connections that are still open are exactly those that callers of [GetAPI] hold. *)
Theorem closed_client now later ok h fn p : pool_inv p ->
  Execute now later ok h fn (Client_Close p) =
    (Ret (Err "[gRPC client] failed to get connection from pool: [gRPC POOL] client pool is closed"), Client_Close p) /\
  Stats (Client_Close p) = mkStats 0 0 0 /\
  forall c, c ∈ p_open (Client_Close p) <-> exists h, held p !! h = Some c.
Proof.
  intros (cs & Hcs & Hcl & _ & Hpl).
  destruct (fold_shut cs (set_clients None p)) as (E1 & _ & E3).
  assert (clients (Client_Close p) = None) as Hn by (unfold Client_Close, Pool_Close; rewrite Hcs, Hcl; exact E1).
  assert (p_open (Client_Close p) = p_open p ∖ list_to_set (idle_conns p)) as Ho
    by (unfold Client_Close, Pool_Close, idle_conns; rewrite Hcs, Hcl; exact E3).
  split; [unfold Execute, Get; by rewrite Hn|]. split; [unfold Stats, IsClosed; by rewrite Hn|].
  intros c. rewrite Ho. destruct Hpl as (_ & Hheld & _ & _ & Hopen & _). split.
  - intros [Hc Hi]%elem_of_difference. rewrite elem_of_list_to_set in Hi. by destruct (Hopen c Hc).
  - intros [h' Hh]. destruct (Hheld h' c Hh) as [Hc Hi]. apply elem_of_difference. by rewrite elem_of_list_to_set.
Qed.

Section Polluted.
Context (Duration_String : Z -> string).

(** The first client with a retry policy that keeps the default configuration writes its policy
    into the default: every later client with the default configuration dials with
    that policy, even if it asks for another one or for none. *)
Theorem default_config_polluted opts1 opts2 dial now o1 p1 st1 r :
  forallb own_option opts1 = true -> forallb own_option opts2 = true ->
  NewClient Duration_String opts1 dial now initial_store = (Ok (o1, p1), st1) ->
  retryConfig o1 = Some r -> 0 < InitialSize (poolConfig o1) ->
  let '(o2, st2) := apply_options opts2 new_options st1 in
  exists c2, fst (buildServiceConfig Duration_String o2 st2) = Some c2 /\ RetryPolicy_ c2 = Some (retry_policy Duration_String r).
Proof.
  intros Ho1 Ho2 Hn Hr Hs. unfold NewClient in Hn.
  destruct (own_options_store opts1 new_options initial_store Ho1) as [E1 S1].
  destruct (apply_options opts1 new_options initial_store) as [o st]. cbn [fst snd] in E1, S1. subst st.
  destruct (validateOptions o); [done|].
  destruct (NewWithContext _ _ _ _ _ _) as [|p]; [done|]. injection Hn as <- <- <-.
  destruct (Z.to_nat (InitialSize (poolConfig o))) as [|n] eqn:En; [lia|].
  unfold buildDialOptions.
  destruct (buildServiceConfig_stable Duration_String o initial_store default_ref defaultServiceConfig S1 eq_refl)
    as (c1 & -> & _ & _ & Ec). cbn [snd].
  specialize (Ec eq_refl). rewrite Hr in Ec. cbn in Ec.
  destruct (own_options_store opts2 new_options (<[default_ref := c1]> initial_store) Ho2) as [E2 S2].
  destruct (apply_options opts2 new_options _) as [o2 st2]. cbn [fst snd] in E2, S2. subst st2.
  destruct (buildServiceConfig_stable Duration_String o2 (<[default_ref := c1]> initial_store) default_ref c1 S2)
    as (c2 & -> & _ & Ek & _); [apply lookup_insert_eq|].
  exists c2. split; [done|]. by rewrite Ek, Ec by by rewrite Ec.
Qed.

(** Choosing a balancing policy changes the default of the package, too: a later client without
    options balances by it. *)
Theorem load_balancing_polluted policy st o : serviceConfig o = Some default_ref ->
  exists c, fst (buildServiceConfig Duration_String o (snd (apply_options [WithLoadBalancing policy] new_options st))) = Some c
  /\ LoadBalancingConfig c = [policy].
Proof.
  intros Ho. cbn [apply_options apply_option new_options serviceConfig default snd].
  edestruct (buildServiceConfig_stable Duration_String o) as (c & -> & Hl & _); [exact Ho|apply lookup_insert_eq|].
  exists c. by rewrite Hl.
Qed.

(** A client without a target is refused before any connection is made. *)
Theorem target_required opts dial now st :
  target (apply_options opts new_options st).1 = EmptyString ->
  NewClient Duration_String opts dial now st = (Err "[gRPC client] invalid options: target is required"%string, (apply_options opts new_options st).2).
Proof.
  intros Ht. unfold NewClient. destruct (apply_options opts new_options st) as [o st'].
  unfold validateOptions. cbn in Ht. by rewrite Ht.
Qed.

End Polluted.

(** *** Witnesses *)

Lemma execute_returns_slot_witness :
  let '(r, p') := Execute 1 2 true 0 (Ret (Some (Some 14))) demo_pool in
  r = Ret (Ok (Some (Some 14))) /\ held p' = ∅ /\ p_open p' = ∅.
Proof.
  pose proof (execute_returns_slot 1 2 true 0 (Ret (Some (Some 14))) demo_pool demo_pool_inv eq_refl) as H.
  destruct (Execute 1 2 true 0 (Ret (Some (Some 14))) demo_pool) as [r p'] eqn:E. vm_compute in E. simplify_eq.
  split; [done|]. split; by vm_compute.
Defined.

Lemma closed_client_witness :
  Execute 1 2 true 0 (Ret None) (Client_Close demo_pool) =
    (Ret (Err "[gRPC client] failed to get connection from pool: [gRPC POOL] client pool is closed"), Client_Close demo_pool).
Proof. exact (proj1 (closed_client 1 2 true 0 (Ret None) demo_pool demo_pool_inv)). Defined.

Lemma default_config_polluted_witness :
  let opts := [WithTarget "a"; WithRetry DefaultRetryConfig; WithPool (mkPC 1 2 0 0)] in
  let st1 := snd (NewClient (fun _ => "d") opts (fun _ => [true]) 0 initial_store) in
  exists c2, fst (buildServiceConfig (fun _ => "d") new_options st1) = Some c2
  /\ RetryPolicy_ c2 = Some (retry_policy (fun _ => "d") DefaultRetryConfig).
Proof.
  cbv zeta.
  destruct (NewClient (fun _ => "d") [WithTarget "a"; WithRetry DefaultRetryConfig; WithPool (mkPC 1 2 0 0)] (fun _ => [true]) 0 initial_store)
    as [[[o1 p1]|e] st1] eqn:E; [|by vm_compute in E].
  apply (default_config_polluted (fun _ => "d") [WithTarget "a"; WithRetry DefaultRetryConfig; WithPool (mkPC 1 2 0 0)] []
    (fun _ => [true]) 0 o1 p1 st1 DefaultRetryConfig eq_refl eq_refl E);
    vm_compute in E; injection E as <- _ _; done.
Defined.

Lemma load_balancing_polluted_witness :
  exists c, fst (buildServiceConfig (fun _ => "d") new_options
    (snd (apply_options [WithLoadBalancing "pick_first"] new_options initial_store))) = Some c
  /\ LoadBalancingConfig c = ["pick_first"].
Proof. by apply (load_balancing_polluted (fun _ => "d") "pick_first" initial_store new_options). Defined.

Lemma target_required_witness :
  NewClient (fun _ => "d") [WithHealthCheck] (fun _ => []) 0 initial_store
    = (Err "[gRPC client] invalid options: target is required", initial_store).
Proof. by apply (target_required (fun _ => "d") [WithHealthCheck] (fun _ => []) 0 initial_store). Defined.

End GrpcClient.
