(* ===== verification/WErrors.v ===== *)
(** * Application errors: src/pkg/errors (errors.go, werror.go, wrapper.go, print.go)

    An error is a chain of wrappers over a plain error; a wrapper attaches a value
    or a cause.  The walks of [errors.Is], [errors.As] and [Values] follow [Unwrap],
    which builds new nodes for errors with a cause, so they are defined by
    well-founded recursion on the size of the error. *)
From Equations Require Import Equations.
From stdpp Require Import prelude strings list.
From Stdlib Require Import ZArith Lia Ascii.
From S2P Require Import Prelude.

Local Open Scope Z_scope.

Module WErrors.

Inductive ErrKey := ErrKeyNone | ErrKeyID | ErrKeyMessage | ErrKeyCode.

Definition ErrKey_String (e : ErrKey) : string :=
  match e with
  | ErrKeyNone => "none" | ErrKeyID => "id" | ErrKeyMessage => "message" | ErrKeyCode => "code"
  end.

(** The dynamic values that serve as keys and values ([interface{}]); the values of
    other comparable types are numbered. *)
Inductive any :=
| AStr (s : string)
| AKey (k : ErrKey)
| ACode (c : Z)
| AOther (n : nat).

#[export] Instance ErrKey_eq : EqDecision ErrKey.
Proof. solve_decision. Defined.
#[export] Instance any_eq : EqDecision any.
Proof. solve_decision. Defined.

(** Errors.  [opaque] and [foreign] come from other packages (errors.New makes an
    [opaque] one): the number is the identity that [==] compares, [formatter] tells
    whether the type implements fmt.Formatter, [next] is what its Unwrap method
    returns; an [opaque] error does not unwrap. *)
Inductive error :=
| opaque (id : nat) (msg : string) (formatter : bool)
| foreign (id : nat) (msg : string) (formatter : bool) (next : error)
| formatError (err : error)
| errWithValue (err : error) (key value : any)
| errWithCause (err cause : error).

Fixpoint Error (e : error) : string :=
  match e with
  | opaque _ msg _ => msg
  | foreign _ msg _ _ => msg
  | formatError err => Error err
  | errWithValue err key value =>
      match value with
      | AStr s => if decide (key = AKey ErrKeyMessage) then s else Error err
      | _ => Error err
      end
  | errWithCause err _ => Error err
  end.

(** [err.(fmt.Formatter)] *)
Definition is_Formatter (e : error) : bool :=
  match e with
  | opaque _ _ f | foreign _ _ f _ => f
  | formatError _ | errWithValue _ _ _ | errWithCause _ _ => true
  end.

(** The loop of [errWithCause.Unwrap] over directly nested causes. *)
Fixpoint skip_causes (e : error) : error :=
  match e with errWithCause err _ => skip_causes err | _ => e end.

(** [errors.Unwrap] on an error that is not an [errWithCause]. *)
Definition plain_Unwrap (e : error) : option error :=
  match e with
  | opaque _ _ _ => None
  | foreign _ _ _ next => Some next
  | formatError err => Some err
  | errWithValue err _ _ => Some err
  | errWithCause _ _ => None
  end.

Definition errWithCause_Unwrap (err cause : error) : option error :=
  match plain_Unwrap (skip_causes err) with
  | None => Some cause
  | Some nextErr => Some (errWithCause nextErr cause)
  end.

Definition Unwrap (e : error) : option error :=
  match e with
  | errWithCause err cause => errWithCause_Unwrap err cause
  | _ => plain_Unwrap e
  end.

(** [err == target] for a target from another package. *)
Definition same (e : error) (target : nat) : bool :=
  match e with
  | opaque id _ _ | foreign id _ _ _ => (id =? target)%nat
  | _ => false
  end.

Fixpoint errWithCause_Is (e : error) (target : nat) : bool :=
  match e with
  | errWithCause err _ => same err target || errWithCause_Is err target
  | _ => false
  end.

(** [errWithCause.As] with a target type given by its test. *)
Fixpoint errWithCause_As (ty : error -> bool) (e : error) : option error :=
  match e with
  | errWithCause err _ => if ty err then Some err else errWithCause_As ty err
  | _ => None
  end.

Fixpoint esize (e : error) : nat :=
  match e with
  | opaque _ _ _ => 1
  | foreign _ _ _ err => S (esize err)
  | formatError err => S (esize err)
  | errWithValue err _ _ => S (esize err)
  | errWithCause err cause => S (esize err + esize cause)
  end.

Lemma skip_causes_size e : (esize (skip_causes e) <= esize e)%nat.
Proof. induction e; simpl; lia. Qed.

Lemma plain_Unwrap_size e e' : plain_Unwrap e = Some e' -> (esize e' < esize e)%nat.
Proof. destruct e; simpl; intros [= ->]; lia. Qed.

Lemma Unwrap_size e e' : Unwrap e = Some e' -> (esize e' < esize e)%nat.
Proof.
  destruct e as [| | | |err cause]; try apply plain_Unwrap_size.
  cbn [Unwrap]. unfold errWithCause_Unwrap. pose proof (skip_causes_size err).
  destruct (plain_Unwrap (skip_causes err)) as [n|] eqn:E; intros [= <-]; simpl; [|lia].
  apply plain_Unwrap_size in E. lia.
Qed.

(** A value with the equation that names it, for recursive calls that need it. *)
Definition inspect {A} (a : A) : {b | a = b} := exist _ a eq_refl.

(** [errors.Is]: the node, its Is method, then what it unwraps to. *)
Equations? Is (e : error) (target : nat) : bool by wf (esize e) lt :=
  Is e target with same e target || errWithCause_Is e target => {
    | true := true
    | false with inspect (Unwrap e) => {
        | exist _ (Some e') U := Is e' target
        | exist _ None _ := false } }.
Proof. by apply Unwrap_size. Qed.

(** [errors.As]: the first error of the chain whose type passes the test. *)
Equations? As (ty : error -> bool) (e : error) : option error by wf (esize e) lt :=
  As ty e with ty e => {
    | true := Some e
    | false with errWithCause_As ty e => {
        | Some found := Some found
        | None with inspect (Unwrap e) => {
            | exist _ (Some e') U := As ty e'
            | exist _ None _ := None } } }.
Proof. by apply Unwrap_size. Qed.

Lemma errWithCause_As_size ty e w : errWithCause_As ty e = Some w -> (esize w < esize e)%nat.
Proof.
  induction e as [| | | |err IH cause _]; simpl; try done.
  case_match; [intros [= ->]; lia|]. intros Hw. apply IH in Hw. lia.
Qed.

Lemma As_size ty e w : As ty e = Some w -> w = e /\ ty e = true \/ (esize w < esize e)%nat.
Proof.
  funelim (As ty e); intros Hw; simplify_eq.
  - by left.
  - right. by eapply errWithCause_As_size.
  - right. match goal with U : Unwrap _ = _ |- _ => apply Unwrap_size in U end.
    match goal with IH : forall _, As _ _ = _ -> _ |- _ => apply IH in Hw end.
    destruct Hw as [[-> _]|]; lia.
Qed.

Definition isWError (e : error) : bool :=
  match e with errWithValue _ _ _ | errWithCause _ _ => true | _ => false end.

Definition is_errWithCause (e : error) : bool :=
  match e with errWithCause _ _ => true | _ => false end.

(** The loop of [Lookup]: our own wrappers are opened directly, anything else
    through [errors.As]. *)
Equations? Lookup (e : error) (key : any) : option any by wf (esize e) lt :=
  Lookup (errWithValue err k v) key with decide (k = key) => {
    | left _ := Some v
    | right _ := Lookup err key };
  Lookup (errWithCause err _) key := Lookup err key;
  Lookup e key with inspect (As isWError e) => {
    | exist _ (Some w) U := Lookup w key
    | exist _ None _ := None }.
Proof.
  all: simpl; try lia.
  all: apply As_size in U; simpl in U; destruct U as [[? ?]|?]; [done|lia].
Qed.

Definition Value (err : option error) (key : any) : option any := err ≫= fun e => Lookup e key.

Definition Cause (err : option error) : option error :=
  match err ≫= As is_errWithCause with
  | Some (errWithCause _ cause) => Some cause
  | _ => None
  end.

Definition ID (err : option error) : string :=
  match Value err (AKey ErrKeyID) with Some (AStr id) => id | _ => "" end.

(** The gRPC codes the package uses. *)
Definition OK : Z := 0.
Definition code_InvalidArgument : Z := 3.
Definition code_NotFound : Z := 5.
Definition code_PermissionDenied : Z := 7.
Definition code_Aborted : Z := 10.
Definition code_Internal : Z := 13.
Definition code_Unavailable : Z := 14.
Definition code_Unauthenticated : Z := 16.

Definition Code (err : option error) : Z :=
  match err with
  | None => OK
  | Some _ =>
      let code := match Value err (AKey ErrKeyCode) with Some (ACode c) => c | _ => 0 end in
      if code =? 0 then code_Internal else code
  end.

(** [values[k] = v] unless the key is there. *)
Definition add_new (acc : list (any * any)) (k v : any) : list (any * any) :=
  match assoc_lookup k acc with Some _ => acc | None => acc ++ [(k, v)] end.

(** The loop of [Values], which follows [Unwrap]; the map in the order of insertion. *)
Equations? values_loop (e : error) (acc : list (any * any)) : list (any * any) by wf (esize e) lt :=
  values_loop e acc with inspect (Unwrap e) => {
    | exist _ (Some e') U :=
        values_loop e' (match e with errWithValue _ k v => add_new acc k v | _ => acc end)
    | exist _ None _ := match e with errWithValue _ k v => add_new acc k v | _ => acc end }.
Proof. by apply Unwrap_size. Qed.

Definition Values (err : option error) : list (any * any) :=
  match err with None => [] | Some e => values_loop e [] end.

(** ** Wrappers *)

Definition Wrapper := option error -> option error.

Definition Set_ (err : option error) (key value : any) : option error :=
  match err with None => None | Some e => Some (errWithValue e key value) end.

Definition WithValue (key value : any) : Wrapper := fun err => Set_ err key value.

Definition AppendMessage (msg : string) : Wrapper := fun err =>
  match err with
  | None => None
  | Some e => Set_ err (AKey ErrKeyMessage) (AStr (Error e +:+ ": " +:+ msg))
  end.

Definition PrependMessage (msg : string) : Wrapper := fun err =>
  match err with
  | None => None
  | Some e => Set_ err (AKey ErrKeyMessage) (AStr (msg +:+ ": " +:+ Error e))
  end.

Definition WithID (msg : string) : Wrapper := WithValue (AKey ErrKeyID) (AStr msg).
Definition WithCode (code : Z) : Wrapper := WithValue (AKey ErrKeyCode) (ACode code).

Definition WithCause (err : option error) : Wrapper := fun nerr =>
  match nerr, err with
  | Some n, Some c => Some (errWithCause n c)
  | _, _ => nerr
  end.

(** A wrapper that turns an error into nil is not considered; the package has none. *)
Definition Wrap (err : option error) (wrappers : list Wrapper) : option error :=
  match err with
  | None => None
  | Some _ =>
      match fold_left (fun err (w : Wrapper) => w err) wrappers err with
      | None => None
      | Some e => if is_Formatter e then Some e else Some (formatError e)
      end
  end.

(** [New]; [id] is the identity of the error that errors.New makes. *)
Definition New (id : nat) (msg : string) (wrappers : list Wrapper) : option error :=
  Wrap (Some (opaque id msg false)) wrappers.

Definition Forbidden id msg wrappers := New id msg (wrappers ++ [WithCode code_PermissionDenied]).
Definition Unauthenticated id msg wrappers := New id msg (wrappers ++ [WithCode code_Unauthenticated]).
Definition NotFound id msg wrappers := New id msg (wrappers ++ [WithCode code_NotFound]).
Definition InvalidArgument id msg wrappers := New id msg (wrappers ++ [WithCode code_InvalidArgument]).
Definition Aborted id msg wrappers := New id msg (wrappers ++ [WithCode code_Aborted]).
Definition Internal id msg wrappers := New id msg (wrappers ++ [WithCode code_Internal]).
Definition Unavailable id msg wrappers := New id msg (wrappers ++ [WithCode code_Unavailable]).

Definition Prepend (err : option error) (msg : string) (wrappers : list Wrapper) : option error :=
  Wrap err (wrappers ++ [PrependMessage msg]).
Definition Append (err : option error) (msg : string) (wrappers : list Wrapper) : option error :=
  Wrap err (wrappers ++ [AppendMessage msg]).

(** The arguments of [Prependf] and [Appendf]: format arguments mixed with wrappers. *)
Definition splitWrappers (args : list (any + Wrapper)) : list any * list Wrapper :=
  (omap (fun a => match a with inl x => Some x | inr _ => None end) args,
   omap (fun a => match a with inl _ => None | inr w => Some w end) args).

Lemma Cause_size e c : Cause (Some e) = Some c -> (esize c < esize e)%nat.
Proof.
  unfold Cause. simpl. destruct (As is_errWithCause e) as [w|] eqn:E; [|done].
  apply As_size in E. destruct w; try done. intros [= ->]. simpl in E.
  destruct E as [[<- _]|]; simpl; lia.
Qed.

(** The messages that [msgWithCauses] collects, before they are joined. *)
Equations? messages_loop (e : error) : list string by wf (esize e) lt :=
  messages_loop e with inspect (Cause (Some e)) => {
    | exist _ (Some cause) U :=
        (if decide (Error e = "") then [] else [Error e]) ++ messages_loop cause
    | exist _ None _ := if decide (Error e = "") then [] else [Error e] }.
Proof. by eapply Cause_size. Qed.

(** [strings.Join] *)
Fixpoint Join (sep : string) (l : list string) : string :=
  match l with
  | [] => ""
  | [s] => s
  | s :: l => s +:+ sep +:+ Join sep l
  end.

Definition msgWithCauses (err : option error) : string :=
  Join ": " (match err with None => [] | Some e => messages_loop e end).

Section Formatting.
(** fmt.Sprintf, the %s form of a value, and the order in which a map is ranged over. *)
Context (Sprintf : string -> list any -> string) (show : any -> string)
        (order : list (any * any) -> list (any * any)).

Definition AppendMessagef (format : string) (args : list any) : Wrapper :=
  AppendMessage (Sprintf format args).
Definition PrependMessagef (format : string) (args : list any) : Wrapper :=
  PrependMessage (Sprintf format args).

Definition Prependf (err : option error) (format : string) (args : list (any + Wrapper)) : option error :=
  let '(fmtArgs, wrappers) := splitWrappers args in
  Wrap err (wrappers ++ [PrependMessagef format fmtArgs]).
Definition Appendf (err : option error) (format : string) (args : list (any + Wrapper)) : option error :=
  let '(fmtArgs, wrappers) := splitWrappers args in
  Wrap err (wrappers ++ [AppendMessagef format fmtArgs]).

(** [Details] up to the cause. *)
Definition details_head (e : error) : string :=
  let det := fold_left (fun det '(key, value) =>
               match key with
               | AStr k => det +:+ "; " +:+ k +:+ " = " +:+ show value
               | _ => det
               end) (order (Values (Some e))) "" in
  let msg := Error e +:+ det in
  let id := ID (Some e) in
  if decide (id = "") then msg else id +:+ ": " +:+ msg.

Equations? details_loop (e : error) : string by wf (esize e) lt :=
  details_loop e with inspect (Cause (Some e)) => {
    | exist _ (Some cause) U := details_head e +:+ "; caused by: " +:+ details_loop cause
    | exist _ None _ := details_head e }.
Proof. by apply Cause_size. Qed.

Definition Details (err : option error) : string :=
  match err with None => "" | Some e => details_loop e end.

(** What [Format] writes for a verb; [plus] is the flag of %+v and [quote] is %q. *)
Definition Format (quote : string -> string) (verb : ascii) (plus : bool) (e : error) : string :=
  if decide (verb = "v"%char) then
    if plus then Details (Some e) else msgWithCauses (Some e)
  else if decide (verb = "s"%char) then msgWithCauses (Some e)
  else if decide (verb = "q"%char) then quote (Error e)
  else "".

End Formatting.

(** ** Reference definitions *)

(** The identities of the errors of the main chain, causes left aside. *)
Fixpoint main_ids (e : error) : list nat :=
  match e with
  | opaque id _ _ => [id]
  | foreign id _ _ next => id :: main_ids next
  | formatError err | errWithValue err _ _ | errWithCause err _ => main_ids err
  end.

(** The values of the main chain, the last attached first. *)
Fixpoint main_values (e : error) : list (any * any) :=
  match e with
  | opaque _ _ _ => []
  | errWithValue err k v => (k, v) :: main_values err
  | foreign _ _ _ err | formatError err | errWithCause err _ => main_values err
  end.

(** The cause attached last. *)
Fixpoint last_cause (e : error) : option error :=
  match e with
  | opaque _ _ _ => None
  | errWithCause _ c => Some c
  | foreign _ _ _ err | formatError err | errWithValue err _ _ => last_cause err
  end.

(** The values above the last cause, then those of the cause. *)
Fixpoint reachable_values (e : error) : list (any * any) :=
  match e with
  | opaque _ _ _ => []
  | errWithValue err k v => (k, v) :: reachable_values err
  | foreign _ _ _ err | formatError err => reachable_values err
  | errWithCause _ c => reachable_values c
  end.

(** ** Lemmas *)

(** One step of a walk: eliminate the call and rewrite with what it tested. *)
Ltac walk_step call :=
  funelim call; repeat match goal with
  | U : Unwrap _ = _ |- _ => rewrite U
  | U : Cause _ = _ |- _ => rewrite U
  | U : As _ _ = _ |- _ => rewrite U
  | U : errWithCause_As _ _ = _ |- _ => rewrite U
  | U : ?ty _ = _ |- context [if ?ty _ then _ else _] => rewrite U
  | U : _ || _ = _ |- _ => rewrite U
  end; try done.

Lemma Is_step e target :
  Is e target = same e target || errWithCause_Is e target ||
    match Unwrap e with Some e' => Is e' target | None => false end.
Proof. walk_step (Is e target). Qed.

Lemma As_step ty e :
  As ty e = if ty e then Some e else
    match errWithCause_As ty e with
    | Some w => Some w
    | None => match Unwrap e with Some e' => As ty e' | None => None end
    end.
Proof. walk_step (As ty e). Qed.

Lemma values_step e acc :
  values_loop e acc =
    let acc := match e with errWithValue _ k v => add_new acc k v | _ => acc end in
    match Unwrap e with Some e' => values_loop e' acc | None => acc end.
Proof. walk_step (values_loop e acc). Qed.

Lemma messages_step e :
  messages_loop e = (if decide (Error e = "") then [] else [Error e]) ++
    match Cause (Some e) with Some c => messages_loop c | None => [] end.
Proof. walk_step (messages_loop e). by rewrite app_nil_r. Qed.

(** Induction on the size of an error. *)
Lemma esize_ind (P : error -> Prop) :
  (forall e, (forall e', (esize e' < esize e)%nat -> P e') -> P e) -> forall e, P e.
Proof. apply (well_founded_induction_type (Wf_nat.well_founded_ltof _ esize)). Qed.

Lemma cause_Is_skip e c target : errWithCause_Is (errWithCause e c) target = same (skip_causes e) target.
Proof.
  revert c. induction e as [| | | |e IH c' _]; intros c; simpl; rewrite ?orb_false_r; try done. exact (IH c').
Qed.

Lemma main_ids_skip e : main_ids (skip_causes e) = main_ids e.
Proof. by induction e. Qed.

Lemma skip_not_cause e err c : skip_causes e <> errWithCause err c.
Proof. by induction e. Qed.

Lemma main_ids_Unwrap e target : is_errWithCause e = false ->
  bool_decide (target ∈ main_ids e) = same e target ||
    match plain_Unwrap e with Some n => bool_decide (target ∈ main_ids n) | None => false end.
Proof.
  destruct e as [id msg f|id msg f next|err|err k v|err c]; intros Hc; simpl in *; try done.
  - rewrite orb_false_r. destruct (Nat.eqb_spec id target); case_bool_decide; set_solver.
  - destruct (Nat.eqb_spec id target); repeat case_bool_decide; set_solver.
Qed.

(** The walk of [Is] over an error with a cause. *)
Lemma Is_cause e : forall c target,
  Is (errWithCause e c) target = bool_decide (target ∈ main_ids e) || Is c target.
Proof.
  induction e as [e IH] using esize_ind. intros c target.
  rewrite Is_step, cause_Is_skip. cbn [same Unwrap]. unfold errWithCause_Unwrap.
  rewrite <- main_ids_skip, main_ids_Unwrap.
  2: { pose proof (skip_not_cause e). destruct (skip_causes e); naive_solver. }
  pose proof (skip_causes_size e).
  destruct (plain_Unwrap (skip_causes e)) as [n|] eqn:E; simpl; rewrite ?orb_false_r; [|done].
  apply plain_Unwrap_size in E. rewrite IH by lia. by rewrite orb_assoc.
Qed.

(** A walk over the nodes above the first cause, for [As] with a target type that
    neither plain nor format errors have. *)
Lemma As_cause_chain e : As is_errWithCause e =
  match e with
  | foreign _ _ _ err | formatError err | errWithValue err _ _ => As is_errWithCause err
  | errWithCause _ _ => Some e
  | opaque _ _ _ => None
  end.
Proof. rewrite As_step. by destruct e. Qed.

Lemma Cause_last e : Cause (Some e) = last_cause e.
Proof. unfold Cause. simpl. by induction e; rewrite As_cause_chain. Qed.

Lemma As_werror_chain e : As isWError e =
  match e with
  | foreign _ _ _ err | formatError err => As isWError err
  | errWithValue _ _ _ | errWithCause _ _ => Some e
  | opaque _ _ _ => None
  end.
Proof. rewrite As_step. by destruct e. Qed.

(** Opening a foreign or a format error does not change what is looked up. *)
Lemma Lookup_As e key :
  Lookup e key = match As isWError e with Some w => Lookup w key | None => None end.
Proof.
  destruct e as [id msg f|id msg f err|err|err k v|err c];
    try (rewrite As_werror_chain; done).
  all: rewrite ?Lookup_equation_2, ?Lookup_equation_3; destruct (inspect _) as [[w|] U]; simpl; by rewrite U.
Qed.

Lemma Lookup_main e key : Lookup e key = assoc_lookup key (main_values e).
Proof.
  induction e as [id msg f|id msg f err IH|err IH|err IH k v|err IH c _]; simpl.
  - by rewrite Lookup_As, As_werror_chain.
  - by rewrite <- IH, Lookup_As, As_werror_chain, <- Lookup_As.
  - by rewrite <- IH, Lookup_As, As_werror_chain, <- Lookup_As.
  - rewrite Lookup_equation_4. destruct (decide (k = key)) as [->|Hk]; simpl.
    + by rewrite decide_True.
    + by rewrite decide_False.
  - by rewrite Lookup_equation_5.
Qed.

Lemma values_cause e : forall c acc, values_loop (errWithCause e c) acc = values_loop c acc.
Proof.
  induction e as [e IH] using esize_ind. intros c acc.
  rewrite values_step. cbn [Unwrap]. unfold errWithCause_Unwrap. pose proof (skip_causes_size e).
  destruct (plain_Unwrap (skip_causes e)) as [n|] eqn:E; [|done].
  apply plain_Unwrap_size in E. apply IH. lia.
Qed.

Lemma add_new_lookup acc k v key :
  assoc_lookup key (add_new acc k v) =
    match assoc_lookup key acc with Some x => Some x | None => assoc_lookup key [(k, v)] end.
Proof.
  unfold add_new. destruct (assoc_lookup k acc) as [x|] eqn:E.
  - destruct (assoc_lookup key acc) as [y|] eqn:Ey; rewrite ?Ey; [done|]. simpl.
    rewrite decide_False; [done|]. by intros ->; rewrite E in Ey.
  - rewrite assoc_lookup_app. done.
Qed.

Lemma values_loop_lookup e : forall acc key,
  assoc_lookup key (values_loop e acc) =
    match assoc_lookup key acc with Some x => Some x | None => assoc_lookup key (reachable_values e) end.
Proof.
  induction e as [id msg f|id msg f err IH|err IH|err IH k v|err _ c IH]; intros acc key.
  - rewrite values_step. simpl. by case_match.
  - rewrite values_step. apply IH.
  - rewrite values_step. apply IH.
  - rewrite values_step. simpl. rewrite IH, add_new_lookup. simpl.
    by destruct (assoc_lookup key acc), (decide (key = k)).
  - rewrite values_cause. apply IH.
Qed.

Definition keeps (w : Wrapper) : Prop := forall e, is_Some (w (Some e)).

Lemma fold_keeps ws : Forall keeps ws -> forall e,
  is_Some (fold_left (fun err (w : Wrapper) => w err) ws (Some e)).
Proof.
  induction 1 as [|w ws Hw _ IH]; intros e; simpl; [done|].
  destruct (Hw e) as [e' ->]. apply IH.
Qed.

(** The value of the last wrapper is the one that is found. *)
Lemma New_value id msg ws key value : Forall keeps ws ->
  Value (New id msg (ws ++ [WithValue key value])) key = Some value.
Proof.
  intros Hk. unfold New, Wrap. rewrite fold_left_app.
  destruct (fold_keeps ws Hk (opaque id msg false)) as [e ->]. simpl.
  rewrite Lookup_main. simpl. by rewrite decide_True.
Qed.

Lemma New_code id msg ws code : Forall keeps ws -> code <> 0 ->
  Code (New id msg (ws ++ [WithCode code])) = code.
Proof.
  intros Hk Hc. pose proof (New_value id msg ws (AKey ErrKeyCode) (ACode code) Hk) as H.
  unfold WithCode, Code. destruct (New id msg _) eqn:E; [|done].
  rewrite H. by destruct (Z.eqb_spec code 0).
Qed.

(** The wrappers of the package keep an error an error. *)
Lemma package_wrappers_keep :
  (forall k v, keeps (WithValue k v)) /\ (forall m, keeps (AppendMessage m)) /\
  (forall m, keeps (PrependMessage m)) /\ (forall c, keeps (WithCause c)).
Proof. repeat split; intros; intros e; try done. by destruct c. Qed.

(** ** Properties *)

(** Errors.Is on an error of this package finds exactly the errors of its main
    chain of wrappers and those that errors.Is finds in the cause attached last,
    whatever the nodes that Unwrap makes on the way; the walk ends for every error. *)
Theorem is_main_or_cause e target :
  Is e target = bool_decide (target ∈ main_ids e) ||
    match Cause (Some e) with Some c => Is c target | None => false end.
Proof.
  rewrite Cause_last. induction e as [id msg f|id msg f err IH|err IH|err IH k v|err _ c _].
  - rewrite Is_step, main_ids_Unwrap by done. by rewrite !orb_false_r.
  - rewrite Is_step, main_ids_Unwrap by done. simpl. rewrite IH. by rewrite orb_false_r, orb_assoc.
  - rewrite Is_step. simpl. apply IH.
  - rewrite Is_step. simpl. apply IH.
  - by rewrite Is_cause.
Qed.

(** Value returns the value attached last under the key along the main chain of
    wrappers, through errors of other packages, and never one of a cause. *)
Theorem value_main_chain e key : Value (Some e) key = assoc_lookup key (main_values e).
Proof. apply Lookup_main. Qed.

(** Values is not the map of what Value finds: for an error with a cause it is the map
    of the cause alone, so the values attached before the cause are missing and those
    of the cause are there; in general it holds the values above the last cause and
    then those of the cause. *)
Theorem values_follow_cause :
  (forall e c, Values (Some (errWithCause e c)) = Values (Some c)) /\
  (forall e key, assoc_lookup key (Values (Some e)) = assoc_lookup key (reachable_values e)).
Proof.
  split; intros.
  - apply values_cause.
  - apply values_loop_lookup.
Qed.

(** The constructors for a kind of failure return an error with that kind's gRPC
    code, whatever codes the other wrappers attach. *)
Theorem package_codes id msg ws : Forall keeps ws ->
  Code (Forbidden id msg ws) = 7 /\ Code (Unauthenticated id msg ws) = 16 /\
  Code (NotFound id msg ws) = 5 /\ Code (InvalidArgument id msg ws) = 3 /\
  Code (Aborted id msg ws) = 10 /\ Code (Internal id msg ws) = 13 /\
  Code (Unavailable id msg ws) = 14.
Proof. intros Hk. repeat split; by apply New_code. Qed.

Lemma package_codes_witness :
  Code (NotFound 1 "no contact" [WithID "contacts.get"; WithCode 2; WithCause (Some (opaque 2 "sql: no rows" false))]) = 5.
Proof.
  apply (package_codes 1 "no contact"). repeat constructor; intros e; eexists; reflexivity.
Defined.

(** A value attached before a cause: [Value] finds it, [Values] does not have it, and
    has the code of the cause instead. *)
Theorem values_disagree :
  let e := New 1 "boom" [WithCode 5; WithCause (New 2 "low" [WithCode 14])] in
  Code e = 5 /\ Values e = [(AKey ErrKeyCode, ACode 14)].
Proof. split; reflexivity. Qed.

End WErrors.
