(* ===== verification/Interceptors.v ===== *)
(** * gRPC server interceptors: src/pkg/interceptors

    error.go turns the errors of handlers into statuses with a JSON body, panic.go turns
    panics into errors.  Logging and spans are left out; a handler returns a response, an
    error or panics.  The JSON text of the body is an argument. *)
From stdpp Require Import prelude strings list.
From Stdlib Require Import ZArith Lia.
From S2P Require Import Prelude WErrors.

Local Open Scope Z_scope.

Module Interceptors.
Import WErrors.

(** The codes of gRPC that WErrors does not name. *)
Definition code_AlreadyExists : Z := 6.

Record rpcError := mkRpc { Id : string; Detail : string; rpc_Code : Z; rpc_Status : string }.

(** [http.StatusText] for the codes in use. *)
Definition StatusText (code : Z) : string :=
  if code =? 400 then "Bad Request" else if code =? 401 then "Unauthorized"
  else if code =? 403 then "Forbidden" else if code =? 404 then "Not Found"
  else if code =? 500 then "Internal Server Error" else "".

(** The switch on the code of the error. *)
Definition http_code (grpcCode : Z) : Z * string :=
  if grpcCode =? code_Unauthenticated then (401, "api.process.unauthenticated"%string)
  else if grpcCode =? code_PermissionDenied then (403, "api.process.unauthorized"%string)
  else if grpcCode =? code_NotFound then (404, "api.process.not_found"%string)
  else if (grpcCode =? code_Aborted) || (grpcCode =? code_InvalidArgument) || (grpcCode =? code_AlreadyExists)
  then (400, "api.process.bad_args"%string)
  else (500, "api.process.internal"%string).

(** A gRPC status error; [status.Error] with the code OK is no error. *)
Record status := mkStatus { st_code : Z; st_message : string }.

Definition status_Error (code : Z) (msg : string) : option status :=
  if code =? OK then None else Some (mkStatus code msg).

Section Interceptors.
Context {Resp : Type} (json : rpcError -> string).

Definition logAndReturnGRPCError (err : error) : option status :=
  let grpcCode := Code (Some err) in
  let '(httpCode, id) := http_code grpcCode in
  status_Error grpcCode (json (mkRpc id (Error err) (i32 httpCode) (StatusText httpCode))).

(** What a handler gives: a response (nil is [None]) and an error. *)
Definition Handler := outcome (option Resp * option error).

Definition UnaryServerErrorInterceptor (handler : Handler) : outcome (option Resp * option status) :=
  outcome_bind handler (fun '(resp, err) =>
    match err with
    | Some e => Ret (None, logAndReturnGRPCError e)
    | None => Ret (resp, None)
    end).

(** [n] is the identity of the package's error. *)
Definition errPanicReceived (n : nat) : option error :=
  New n "panic occurred, please contact our support" [WithID "interceptor.panic"].

Definition grpcPanicRecoveryHandler (n : nat) (p : any) : option error :=
  Wrap (errPanicReceived n) [WithValue (AStr "stack") p].

(** [panic_value] is the value recovered from a panic message. *)
Definition RecoveryUnaryServerInterceptor (n : nat) (panic_value : string -> any) (handler : Handler) : Handler :=
  match handler with
  | Panic p => Ret (None, grpcPanicRecoveryHandler n (panic_value p))
  | Ret r => Ret r
  end.

(** ** Theorems *)

Lemma Code_not_OK err : Code (Some err) <> OK.
Proof. unfold Code, OK, code_Internal. case_match eqn:E; z_bool; [done|lia]. Qed.

(** An error of the handler always reaches the client as an error, with the code the error
    carries (Internal if it has none) and no response; without an error the response passes
    unchanged. *)
Theorem error_reaches_client resp e :
  UnaryServerErrorInterceptor (Ret (resp, None)) = Ret (resp, None)
  /\ exists st, UnaryServerErrorInterceptor (Ret (resp, Some e)) = Ret (None, Some st) /\ st_code st = Code (Some e).
Proof.
  split; [done|]. cbn. unfold logAndReturnGRPCError, status_Error.
  destruct (http_code (Code (Some e))) as [h id].
  destruct (Z.eqb_spec (Code (Some e)) OK) as [E|]; [by apply Code_not_OK in E|]. by eexists.
Qed.

(** A panic behind both interceptors is an Internal status with the HTTP code 500 and the fixed
    message: the panic value does not leave the server. *)
Theorem panic_becomes_internal n panic_value p :
  UnaryServerErrorInterceptor (RecoveryUnaryServerInterceptor n panic_value (Panic p)) =
    Ret (None, Some (mkStatus code_Internal
      (json (mkRpc "api.process.internal" "panic occurred, please contact our support" 500 "Internal Server Error")))).
Proof.
  cbn [RecoveryUnaryServerInterceptor UnaryServerErrorInterceptor outcome_bind].
  assert (exists e, grpcPanicRecoveryHandler n (panic_value p) = Some e /\ Code (Some e) = code_Internal
    /\ Error e = "panic occurred, please contact our support"%string) as (e & -> & Hc & He).
  { eexists. split; [reflexivity|]. split.
    - unfold Code, Value. cbn [mbind option_bind]. by rewrite Lookup_main.
    - cbn. by destruct (panic_value p). }
  unfold logAndReturnGRPCError. by rewrite Hc, He.
Qed.

End Interceptors.
End Interceptors.
