(* ===== verification/ClientTimeout.v ===== *)
(** * The timeout of client calls: src/pkg/interceptors/client_interceptors/timeout.go

    A call of the interceptor chooses a timeout from the options of the call and gives the invoker a context with a
    deadline.  A context is its deadline in nanoseconds; calls of the invoker are an argument. *)
From stdpp Require Import prelude strings list.
From Stdlib Require Import ZArith Lia.
From S2P Require Import Prelude.

Local Open Scope Z_scope.

Module ClientTimeout.

(** [grpc.CallOption]: one of ours, or any other. *)
Inductive CallOption := TimeoutCallOption (timeout : Z) | OtherOption (n : nat).

Definition WithCallTimeout (timeout : Z) : CallOption := TimeoutCallOption timeout.

Fixpoint getTimeoutFromCallOptions (opts : list CallOption) (defaultTimeout : Z) : Z :=
  match opts with
  | [] => defaultTimeout
  | TimeoutCallOption t :: _ => t
  | OtherOption _ :: opts => getTimeoutFromCallOptions opts defaultTimeout
  end.

(** [context.WithTimeout]: the deadline of the parent stays when it is earlier. *)
Definition WithTimeout (now : Z) (ctx : option Z) (t : Z) : option Z :=
  match ctx with
  | Some d => if d <? now + t then Some d else Some (now + t)
  | None => Some (now + t)
  end.

Section Interceptor.
Context {R : Type}.

(** The result, and the contexts that are cancelled when the call has returned. *)
Definition TimeoutInterceptor (timeout now : Z) (invoker : option Z -> list CallOption -> outcome R)
    (ctx : option Z) (opts : list CallOption) : outcome R * list (option Z) :=
  let t := getTimeoutFromCallOptions opts timeout in
  if t <=? 0 then (invoker ctx opts, [])
  else let c := WithTimeout now ctx t in (invoker c opts, [c]).

(** The invoker is called once, with the options as they are; the deadline is never after that of the caller, and it is the earlier
    of the two when the timeout in force is positive: the first timeout option of the call, which may turn it off, else
    the default.  The context made for the call is cancelled after it, also when the invoker panics. *)
Theorem call_deadline timeout now invoker ctx opts :
  exists d, TimeoutInterceptor timeout now invoker ctx opts =
    (invoker d opts, if getTimeoutFromCallOptions opts timeout <=? 0 then [] else [d]) /\
  (forall x, ctx = Some x -> exists y, d = Some y /\ y <= x) /\
  (0 < getTimeoutFromCallOptions opts timeout ->
     d = Some (match ctx with Some x => Z.min x (now + getTimeoutFromCallOptions opts timeout)
               | None => now + getTimeoutFromCallOptions opts timeout end)) /\
  (getTimeoutFromCallOptions opts timeout <= 0 -> d = ctx).
Proof.
  unfold TimeoutInterceptor. set (t := getTimeoutFromCallOptions opts timeout). destruct (Z.leb_spec t 0).
  - exists ctx. split; [done|]. split; [|split; [lia|done]]. intros x ->. exists x. split; [done|lia].
  - exists (WithTimeout now ctx t). split; [done|]. unfold WithTimeout. destruct ctx as [x|]; [|naive_solver lia].
    destruct (Z.ltb_spec x (now + t)); (split; [|split; [intros _; f_equal; lia|lia]]); intros x0 [= <-]; eexists; (split; [done|lia]).
Qed.

(** The timeout in force is that of the first option of its kind, also when it is zero. *)
Theorem first_timeout_wins pre t rest timeout : Forall (fun o => match o with OtherOption _ => True | _ => False end) pre ->
  getTimeoutFromCallOptions (pre ++ WithCallTimeout t :: rest) timeout = t.
Proof. induction 1 as [|o pre Ho _ IH]; [done|]. by destruct o. Qed.

End Interceptor.

Lemma first_timeout_wins_witness : getTimeoutFromCallOptions [OtherOption 1; WithCallTimeout 0; WithCallTimeout 5] 10 = 0.
Proof. apply (first_timeout_wins [OtherOption 1] 0 [WithCallTimeout 5]). repeat constructor. Defined.

End ClientTimeout.
