(* ===== verification/Filters.v ===== *)
(** * Filters: src/pkg/filters

    The translation of a checked CEL syntax tree into a tree of filters (parse.go,
    comprehension.go, model.go, connections.go, api.go). *)
From stdpp Require Import prelude strings list.
From Stdlib Require Import ZArith Lia.
From S2P Require Import Prelude.

Local Open Scope go_scope.
Local Open Scope Z_scope.

Module Filters.

(** ** The syntax tree (google.golang.org/genproto/.../expr/v1alpha1) *)

(** Doubles are kept as their bits; null, unsigned and byte constants are [ConstOther]. *)
Inductive Constant :=
| StringValue (s : string) | Int64Value (z : Z) | DoubleValue (bits : Z) | BoolValue (b : bool)
| ConstOther.

(** [ExprOther] stands for list and struct literals. *)
Inductive Expr :=
| IdentExpr (name : string)
| ConstExpr (c : Constant)
| SelectExpr (operand : Expr) (field : string)
| CallExpr (function : string) (args : list Expr)
| ComprehensionExpr (iterVar : string) (iterRange : Expr) (loopStep : option Expr)
| ExprOther.

(** ** The filter tree *)

Inductive Comparison :=
| Equal | GreaterThan | GreaterThanOrEqual | LessThan | LessThanOrEqual | NotEqual | Like | ILike
| IsNull | NotNull | Contains | NotContains.

Inductive MultiComparison :=
| In | NotIn | EqAny | EqAll | GtAny | GtAll | GeAny | GeAll | LtAny | LtAll | LeAny | LeAll
| LikeAny | ILikeAny | NotLikeAny.

Inductive ConnectionType := And | Or.

(** The [any] of a filter; [None] is nil. *)
Inductive value := VString (s : string) | VInt (z : Z) | VDouble (bits : Z) | VBool (b : bool).

Record Filter := mkFilter { Column : string; Value : option value; ComparisonType : Comparison }.

Record MultiFilter := mkMulti
  { MColumn : string; MValues : list value; MComparisonType : MultiComparison }.

Inductive FilterExpr :=
| FFilter (f : Filter)
| FNode (nodes : list FilterExpr) (conn : ConnectionType)
| FMulti (m : MultiFilter).

Definition GetFilter (f : FilterExpr) : option Filter :=
  match f with FFilter x => Some x | _ => None end.
Definition GetFilterNode (f : FilterExpr) : option (list FilterExpr * ConnectionType) :=
  match f with FNode ns c => Some (ns, c) | _ => None end.
Definition GetMultiFilter (f : FilterExpr) : option MultiFilter :=
  match f with FMulti m => Some m | _ => None end.

(** ** Identifiers and constants *)

(** [None] is the nil alias map. *)
Fixpoint extractIdentifier (e : Expr) (alias : option (list (string * string))) : string :=
  match e with
  | SelectExpr operand field =>
      let nested := extractIdentifier operand alias in
      if decide (nested = "") then field else nested +:+ "." +:+ field
  | IdentExpr name =>
      match alias with
      | None => name
      | Some m => default name (assoc_lookup name m)
      end
  | _ => ""
  end.

Definition ExtractIdentifier := extractIdentifier.

Definition extractConstant (s : Expr) : res string value :=
  match s with
  | ConstExpr c =>
      match c with
      | StringValue s => Ok (VString s)
      | Int64Value z => Ok (VInt z)
      | DoubleValue d => Ok (VDouble d)
      | BoolValue b => Ok (VBool b)
      | ConstOther => Err "unsupported constant type"
      end
  | _ => Err "expected constant"
  end.

Definition mapCELComparison (function : string) : res string Comparison :=
  if decide (function = "_==_") then Ok Equal
  else if decide (function = "_!=_") then Ok NotEqual
  else if decide (function = "_>_") then Ok GreaterThan
  else if decide (function = "_>=_") then Ok GreaterThanOrEqual
  else if decide (function = "_<_") then Ok LessThan
  else if decide (function = "_<=_") then Ok LessThanOrEqual
  else if decide (function = "like") then Ok Like
  else if decide (function = "isnull") then Ok IsNull
  else if decide (function = "notnull") then Ok NotNull
  else if decide (function = "equals") then Ok Equal
  else Err ("unsupported comparison: " +:+ function).

Definition mapCELArrayComparison (function : string) : res string Comparison :=
  if decide (function = "_==_") then Ok Contains
  else if decide (function = "_!=_") then Ok NotContains
  else Err ("unsupported comparison: " +:+ function).

(** ** Parsing *)

Definition is_logical (f : string) : bool := bool_decide (f ∈ ["_&&_"; "_||_"]).
Definition is_comparison (f : string) : bool :=
  bool_decide (f ∈ ["_==_"; "_!=_"; "_>_"; "_>=_"; "_<_"; "_<=_"; "like"]).
Definition is_null_test (f : string) : bool := bool_decide (f ∈ ["isnull"; "notnull"]).

(** The body shared by [parseComparisonExpr] and its variant with aliases. *)
Definition comparison_with (map : string -> res string Comparison)
    (alias : option (list (string * string))) (function : string) (args : list Expr)
  : res string FilterExpr :=
  match args with
  | [a; b] =>
      let column := ExtractIdentifier a alias in
      let? value := extractConstant b in
      let? comparison := map function in
      Ok (FFilter (mkFilter column (Some value) comparison))
  | _ => Err "comparison expression must have 2 arguments"
  end.

Definition parseComparisonExpr := comparison_with mapCELComparison None.

Definition parseComparisonExprWithAlias (alias : list (string * string)) :=
  comparison_with mapCELArrayComparison (Some alias).

Definition parseLikeExpr (args : list Expr) : res string FilterExpr :=
  match args with
  | [a; b] =>
      let column := ExtractIdentifier a None in
      let? value := extractConstant b in
      Ok (FFilter (mkFilter column (Some value) Like))
  | _ => Err "like expression must have 2 arguments"
  end.

Definition parseNullExpr (function : string) (args : list Expr) : res string FilterExpr :=
  match args with
  | [] => Err "is null expression must have 1 argument"
  | a :: _ =>
      let column := ExtractIdentifier a None in
      let? comparison := mapCELComparison function in
      Ok (FFilter (mkFilter column None comparison))
  end.

(** [rec] parses an argument. *)
Definition parseLogicalExpr (rec : Expr -> res string FilterExpr) (function : string)
    (args : list Expr) : res string FilterExpr :=
  match args with
  | [a; b] =>
      let connection := if decide (function = "_&&_") then And else Or in
      let? lhs := rec a in
      let? rhs := rec b in
      Ok (FNode [lhs; rhs] connection)
  | _ => Err "logical expression must have 2 arguments"
  end.

(** The same with a parser that knows the aliases. *)
Definition parseLogicalExprWithAlias (recWithAlias : Expr -> res string FilterExpr) :=
  parseLogicalExpr recWithAlias.

Definition is_call (e : Expr) : bool := match e with CallExpr _ _ => true | _ => false end.

(** The loop of [parseComprehensionExpr]: the first argument that is a call is parsed. *)
Fixpoint first_call (rec : Expr -> res string FilterExpr) (args : list Expr) : res string FilterExpr :=
  match args with
  | [] => Err "could not parse comprehension expression"
  | arg :: args => if is_call arg then rec arg else first_call rec args
  end.

Definition parseCallExpr (rec : Expr -> res string FilterExpr) (function : string)
    (args : list Expr) : res string FilterExpr :=
  if is_logical function then parseLogicalExpr rec function args
  else if is_comparison function then parseComparisonExpr function args
  else if is_null_test function then parseNullExpr function args
  else Err ("unsupported function: " +:+ function).

Definition parseCallExprWithAlias (alias : list (string * string))
    (rec : Expr -> res string FilterExpr) (function : string) (args : list Expr)
  : res string FilterExpr :=
  if is_logical function then parseLogicalExprWithAlias rec function args
  else if is_comparison function then parseComparisonExprWithAlias alias function args
  else if is_null_test function then parseNullExpr function args
  else Err ("unsupported function: " +:+ function).

Definition parseComprehensionExpr
    (rec : list (string * string) -> Expr -> res string FilterExpr)
    (parentAlias : string) (iterRange : Expr) (loopStep : option Expr) : res string FilterExpr :=
  let parent := extractIdentifier iterRange None in
  match loopStep with
  | None => Err "comprehension expression missing loop step"
  | Some (CallExpr _ args) =>
      if (length args <? 2)%nat then Err "comprehension loop step must have 2 arguments"
      else first_call (rec [(parentAlias, parent)]) args
  | Some _ => Err "comprehension loop step is not a call expression"
  end.

Fixpoint parseExprWithAlias (alias : list (string * string)) (s : Expr) {struct s}
  : res string FilterExpr :=
  match s with
  | CallExpr f args => parseCallExprWithAlias alias (parseExprWithAlias alias) f args
  | IdentExpr _ => Err "standalone identifier not supported"
  | ConstExpr _ => Err "standalone constant not supported"
  | ComprehensionExpr v r l => parseComprehensionExpr parseExprWithAlias v r l
  | _ => Err "unsupported expression type"
  end.

Fixpoint parseExpr (s : Expr) : res string FilterExpr :=
  match s with
  | CallExpr f args => parseCallExpr parseExpr f args
  | IdentExpr _ => Err "standalone identifier not supported"
  | ConstExpr _ => Err "standalone constant not supported"
  | ComprehensionExpr v r l => parseComprehensionExpr parseExprWithAlias v r l
  | _ => Err "unsupported expression type"
  end.

Definition parseCELASTToFilter (e : Expr) : res string FilterExpr := parseExpr e.

(** ** The entry point and the environment (api.go, env_extends.go) *)

Section Api.
(** cel-go: an environment can be extended and compiles a query to a checked tree. *)
Context {Env : Type} (Extend : Env -> res string Env) (Compile : Env -> string -> res string Expr).

Definition ErrEmptyQuery : string := "empty query".
Definition ErrNilEnvironment : string := "nil CEL environment provided".

Definition ParseFilters (env : option Env) (query : string) : res string FilterExpr :=
  if decide (query = "") then Err ErrEmptyQuery
  else match env with
       | None => Err ErrNilEnvironment
       | Some env =>
           let? env := Extend env in
           let? checked := Compile env query in
           parseCELASTToFilter checked
       end.

End Api.

Inductive celType :=
| StringType | IntType | BoolType | DoubleType | TimestampType | DynType
| ObjectType (name : string) | ListType (t : celType).

(** The overloads of each function: a name, the types of the arguments. *)
Definition FunctionExtends : list (string * list (string * list celType)) :=
  [("isnull", [("timestamp_null", [TimestampType]); ("bool_null", [BoolType]);
               ("int_null", [IntType]); ("string_null", [StringType])]);
   ("notnull", [("timestamp_null", [TimestampType]); ("bool_null", [BoolType]);
                ("int_null", [IntType]); ("string_null", [StringType])]);
   ("equals", [("timestamp_int", [TimestampType; IntType]);
               ("timestamp_timestamp", [TimestampType; TimestampType]);
               ("int_int", [IntType; IntType])]);
   ("like", [("string_string", [StringType; StringType])])].

(** The fields of a message (protoreflect). *)
Inductive Kind :=
| StringKind | Int32Kind | Sint32Kind | Sfixed32Kind | Int64Kind | Sint64Kind | Sfixed64Kind
| Uint32Kind | Fixed32Kind | Uint64Kind | Fixed64Kind | BoolKind | FloatKind | DoubleKind
| MessageKind (name : string) | EnumKind | BytesKind | GroupKind.

Record fieldDesc := mkField { f_name : string; f_kind : Kind; f_repeated : bool }.

Inductive EnvOption := Types (msg : string) | Variable_ (name : string) (t : celType).

Definition kind_type (k : Kind) : celType :=
  match k with
  | StringKind => StringType
  | Int32Kind | Sint32Kind | Sfixed32Kind | Int64Kind | Sint64Kind | Sfixed64Kind
  | Uint32Kind | Fixed32Kind | Uint64Kind | Fixed64Kind => IntType
  | BoolKind => BoolType
  | FloatKind | DoubleKind => DoubleType
  | MessageKind name => ObjectType name
  | EnumKind | BytesKind | GroupKind => DynType
  end.

Definition ProtoToCELVariables (msg : string) (fields : list fieldDesc) : list EnvOption :=
  Types msg ::
  ((fun fd => let t := kind_type (f_kind fd) in
              Variable_ (f_name fd) (if f_repeated fd then ListType t else t)) <$> fields).

(** ** Queries *)

(** The language the package is documented and tested for: comparisons and null tests
    of a dotted path, their conjunctions and disjunctions, and [exists] over a
    repeated field, with equalities of the element or its fields. *)
Inductive op := OEq | ONe | OGt | OGe | OLt | OLe | OLike.

Definition op_name (o : op) : string :=
  match o with
  | OEq => "_==_" | ONe => "_!=_" | OGt => "_>_" | OGe => "_>=_" | OLt => "_<_" | OLe => "_<=_"
  | OLike => "like"
  end.
Definition op_comparison (o : op) : Comparison :=
  match o with
  | OEq => Equal | ONe => NotEqual | OGt => GreaterThan | OGe => GreaterThanOrEqual
  | OLt => LessThan | OLe => LessThanOrEqual | OLike => Like
  end.
Definition conn_name (c : ConnectionType) : string := match c with And => "_&&_" | Or => "_||_" end.

Record path := mkPath { root : string; fields : list string }.

Inductive body :=
| BCmp (equal : bool) (rest : list string) (v : value)
| BConn (c : ConnectionType) (l r : body).

Inductive query :=
| QCmp (o : op) (p : path) (v : value)
| QNull (isnull : bool) (p : path)
| QConn (c : ConnectionType) (l r : query)
| QExists (p : path) (var : string) (b : body).

Definition path_expr (p : path) : Expr := fold_left SelectExpr (fields p) (IdentExpr (root p)).
Definition dotted (base : string) (fs : list string) : string :=
  fold_left (fun acc f => acc +:+ "." +:+ f) fs base.
Definition path_name (p : path) : string := dotted (root p) (fields p).

Definition value_const (v : value) : Constant :=
  match v with
  | VString s => StringValue s | VInt z => Int64Value z
  | VDouble d => DoubleValue d | VBool b => BoolValue b
  end.

Fixpoint body_cel (var : string) (b : body) : Expr :=
  match b with
  | BCmp eq rest v =>
      CallExpr (if eq then "_==_" else "_!=_")
        [path_expr (mkPath var rest); ConstExpr (value_const v)]
  | BConn c l r => CallExpr (conn_name c) [body_cel var l; body_cel var r]
  end.

(** The tree that cel-go compiles a query to; the macro [exists] accumulates with [||]. *)
Fixpoint query_cel (q : query) : Expr :=
  match q with
  | QCmp o p v => CallExpr (op_name o) [path_expr p; ConstExpr (value_const v)]
  | QNull b p => CallExpr (if b then "isnull" else "notnull") [path_expr p]
  | QConn c l r => CallExpr (conn_name c) [query_cel l; query_cel r]
  | QExists p var b =>
      ComprehensionExpr var (path_expr p)
        (Some (CallExpr "_||_" [IdentExpr "@result"; body_cel var b]))
  end.

Fixpoint body_filter (parent : string) (b : body) : FilterExpr :=
  match b with
  | BCmp eq rest v =>
      FFilter (mkFilter (dotted parent rest) (Some v) (if eq then Contains else NotContains))
  | BConn c l r => FNode [body_filter parent l; body_filter parent r] c
  end.

(** The filter that a query stands for. *)
Fixpoint query_filter (q : query) : FilterExpr :=
  match q with
  | QCmp o p v => FFilter (mkFilter (path_name p) (Some v) (op_comparison o))
  | QNull b p => FFilter (mkFilter (path_name p) None (if b then IsNull else NotNull))
  | QConn c l r => FNode [query_filter l; query_filter r] c
  | QExists p var b => body_filter (path_name p) b
  end.

(** Variables have names. *)
Fixpoint query_ok (q : query) : bool :=
  match q with
  | QCmp _ p _ | QNull _ p | QExists p _ _ => negb (bool_decide (root p = ""))
  | QConn _ l r => query_ok l && query_ok r
  end.

(** ** Lemmas *)

Lemma append_nonempty (a b : string) : a <> "" -> a +:+ b <> "".
Proof. by destruct a. Qed.

Lemma extract_path p alias base :
  extractIdentifier (IdentExpr (root p)) alias = base -> base <> "" ->
  extractIdentifier (path_expr p) alias = dotted base (fields p).
Proof.
  unfold path_expr, dotted. generalize (IdentExpr (root p)) as e.
  destruct p as [r fs]. simpl. clear r. revert base.
  induction fs as [|f fs IH]; intros base e He Hb; simpl; [done|].
  apply IH; [|by apply append_nonempty]. simpl. rewrite He. by rewrite decide_False.
Qed.

Lemma extractConstant_value v : extractConstant (ConstExpr (value_const v)) = Ok v.
Proof. by destruct v. Qed.

Lemma op_parse o :
  is_logical (op_name o) = false /\ is_comparison (op_name o) = true /\
  mapCELComparison (op_name o) = Ok (op_comparison o).
Proof. by destruct o. Qed.

Lemma conn_parse c : is_logical (conn_name c) = true /\
  (if decide (conn_name c = "_&&_") then And else Or) = c.
Proof. by destruct c. Qed.

Lemma body_parse var parent b : parent <> "" ->
  parseExprWithAlias [(var, parent)] (body_cel var b) = Ok (body_filter parent b).
Proof.
  intros Hp. induction b as [eq rest v|c l IHl r IHr].
  - cbn [body_cel parseExprWithAlias]. unfold parseCallExprWithAlias, parseComparisonExprWithAlias, comparison_with.
    unfold ExtractIdentifier. rewrite extractConstant_value.
    rewrite (extract_path _ _ parent); [by destruct eq| |done].
    simpl. by rewrite decide_True.
  - cbn [body_cel parseExprWithAlias]. unfold parseCallExprWithAlias, parseLogicalExprWithAlias, parseLogicalExpr.
    destruct (conn_parse c) as [-> ->]. by rewrite IHl, IHr.
Qed.

Lemma dotted_nonempty base fs : base <> "" -> dotted base fs <> "".
Proof.
  unfold dotted. revert base. induction fs as [|f fs IH]; intros base Hb; simpl; [done|].
  apply IH. by apply append_nonempty.
Qed.

Lemma body_is_call var b : is_call (body_cel var b) = true.
Proof. by destruct b. Qed.

(** The shape of the trees that the parser makes. *)
Definition leaf_ok (f : Filter) : bool :=
  match ComparisonType f, Value f with
  | (IsNull | NotNull), None => true
  | ILike, _ => false
  | (IsNull | NotNull), Some _ => false
  | _, Some _ => true
  | _, None => false
  end.

Fixpoint well_formed (f : FilterExpr) : bool :=
  match f with
  | FFilter f => leaf_ok f
  | FNode [l; r] _ => well_formed l && well_formed r
  | FNode _ _ => false
  | FMulti _ => false
  end.

Fixpoint expr_size (e : Expr) : nat :=
  match e with
  | IdentExpr _ | ConstExpr _ | ExprOther => 1
  | SelectExpr o _ => S (expr_size o)
  | CallExpr _ args => S (sum_list_with expr_size args)
  | ComprehensionExpr _ r l => S (expr_size r + match l with Some l => expr_size l | None => 0 end)
  end.

Lemma arg_size (a : Expr) args : a ∈ args -> (expr_size a <= sum_list_with expr_size args)%nat.
Proof. induction 1; simpl; lia. Qed.

(** What holds of the parse of the smaller arguments holds of the call. *)
Definition sound (m : res string FilterExpr) : Prop := forall f, m = Ok f -> well_formed f = true.

Lemma comparison_sound map alias fn args :
  (forall c, map fn = Ok c -> leaf_ok (mkFilter "" (Some (VBool true)) c) = true) ->
  sound (comparison_with map alias fn args).
Proof.
  intros Hm f. unfold comparison_with. destruct args as [|a [|b []]]; try done.
  destruct (extractConstant b) as [v|]; [|done]. cbn [res_bind].
  destruct (map fn) as [c|] eqn:E; [|done]. cbn [res_bind]. intros [= <-].
  specialize (Hm c eq_refl). by destruct c.
Qed.

Lemma comparison_names fn c : is_comparison fn = true -> mapCELComparison fn = Ok c ->
  leaf_ok (mkFilter "" (Some (VBool true)) c) = true.
Proof.
  unfold is_comparison, mapCELComparison. intros Hb Hc. apply bool_decide_eq_true in Hb.
  repeat (case_decide; [by simplify_eq|]). set_solver.
Qed.

Lemma array_names fn c : mapCELArrayComparison fn = Ok c ->
  leaf_ok (mkFilter "" (Some (VBool true)) c) = true.
Proof. unfold mapCELArrayComparison. by repeat case_decide; intros; simplify_eq. Qed.

Lemma null_sound fn args : is_null_test fn = true -> sound (parseNullExpr fn args).
Proof.
  unfold is_null_test. intros Hn f. apply bool_decide_eq_true in Hn.
  destruct args as [|a args]; [done|]. unfold parseNullExpr, mapCELComparison.
  assert (fn = "isnull" \/ fn = "notnull") as [-> | ->] by set_solver; simpl; by intros [= <-].
Qed.

Lemma logical_sound rec fn args : (forall a, a ∈ args -> sound (rec a)) -> sound (parseLogicalExpr rec fn args).
Proof.
  intros H f. unfold parseLogicalExpr. destruct args as [|a [|b []]]; try done.
  destruct (rec a) as [l|] eqn:Ea; [|done]. cbn [res_bind].
  destruct (rec b) as [r|] eqn:Eb; [|done]. cbn [res_bind]. intros [= <-]. simpl.
  rewrite (H a), (H b); set_solver.
Qed.

Lemma first_call_sound rec args : (forall a, a ∈ args -> sound (rec a)) -> sound (first_call rec args).
Proof.
  induction args as [|a args IH]; intros H f; simpl; [done|].
  destruct (is_call a); [apply H; set_solver|]. apply IH. set_solver.
Qed.

Lemma comprehension_sound rec v r l :
  (forall alias e, (expr_size e < expr_size (ComprehensionExpr v r l))%nat -> sound (rec alias e)) ->
  sound (parseComprehensionExpr rec v r l).
Proof.
  intros H f. unfold parseComprehensionExpr.
  destruct l as [[| | |fn args| |]|]; try done. case_match; [done|].
  apply first_call_sound. intros a Ha. apply H. pose proof (arg_size a args Ha). simpl. lia.
Qed.

Lemma alias_sound n : forall e alias, (expr_size e < n)%nat -> sound (parseExprWithAlias alias e).
Proof.
  induction n as [|n IH]; intros e alias Hn f; [lia|]. destruct e as [| | |fn args|v r l|]; try done.
  - cbn [parseExprWithAlias]. unfold parseCallExprWithAlias. destruct (is_logical fn).
    { apply logical_sound. intros a Ha. apply IH. pose proof (arg_size a args Ha). simpl in Hn. lia. }
    destruct (is_comparison fn); [apply comparison_sound; apply array_names|].
    destruct (is_null_test fn) eqn:E; [by apply null_sound|done].
  - cbn [parseExprWithAlias]. apply comprehension_sound. intros. apply IH. lia.
Qed.

Lemma expr_sound n : forall e, (expr_size e < n)%nat -> sound (parseExpr e).
Proof.
  induction n as [|n IH]; intros e Hn f; [lia|]. destruct e as [| | |fn args|v r l|]; try done.
  - cbn [parseExpr]. unfold parseCallExpr. destruct (is_logical fn).
    { apply logical_sound. intros a Ha. apply IH. pose proof (arg_size a args Ha). simpl in Hn. lia. }
    destruct (is_comparison fn) eqn:E.
    { apply comparison_sound. intros c. by apply comparison_names. }
    destruct (is_null_test fn) eqn:E'; [by apply null_sound|done].
  - cbn [parseExpr]. apply comprehension_sound. intros. by eapply alias_sound.
Qed.

(** ** Properties *)

(** C19: every query of the supported language is parsed to the filter it stands for: paths
    become columns, connectives keep their shape, and the variable of an [exists] is
    replaced by the path of the repeated field. *)
Theorem query_parses q : query_ok q = true -> parseCELASTToFilter (query_cel q) = Ok (query_filter q).
Proof.
  unfold parseCELASTToFilter. induction q as [o p v|b p|c l IHl r IHr|p var b]; intros Hq; simpl in Hq.
  - cbn [query_cel parseExpr]. unfold parseCallExpr, parseComparisonExpr, comparison_with, ExtractIdentifier.
    destruct (op_parse o) as (-> & -> & ->). rewrite extractConstant_value.
    rewrite (extract_path p None (root p)); [done|done|by case_bool_decide].
  - cbn [query_cel parseExpr]. unfold parseCallExpr, parseNullExpr, ExtractIdentifier.
    rewrite (extract_path p None (root p)); [by destruct b|done|by case_bool_decide].
  - apply andb_prop in Hq as [Hl Hr]. cbn [query_cel parseExpr]. unfold parseCallExpr, parseLogicalExpr.
    destruct (conn_parse c) as [-> ->]. by rewrite IHl, IHr.
  - assert (root p <> "") as Hr by by case_bool_decide.
    cbn [query_cel parseExpr]. unfold parseComprehensionExpr.
    rewrite (extract_path p None (root p)) by done. cbn [length Nat.ltb Nat.leb first_call is_call].
    rewrite body_is_call, body_parse; [done|]. by apply dotted_nonempty.
Qed.

Definition demo_query : query :=
  QConn Or (QExists (mkPath "related_entities" []) "v"
              (BConn And (BCmp true ["name"] (VString "test")) (BCmp false ["id"] (VInt 1))))
    (QCmp OEq (mkPath "created_by" ["id"]) (VInt 1)).

Lemma query_parses_witness :
  parseCELASTToFilter (query_cel demo_query) =
    Ok (FNode [FNode [FFilter (mkFilter "related_entities.name" (Some (VString "test")) Contains);
                      FFilter (mkFilter "related_entities.id" (Some (VInt 1)) NotContains)] And;
               FFilter (mkFilter "created_by.id" (Some (VInt 1)) Equal)] Or).
Proof. apply (query_parses demo_query). reflexivity. Defined.

(** C20: a tree that the parser returns is well typed for any syntax tree: connectives have
    two operands, null tests have no value and every other comparison has one, and
    no multi-value filter or [ILike] is ever made. *)
Theorem parsed_well_formed e f : parseCELASTToFilter e = Ok f -> well_formed f = true.
Proof. apply (expr_sound (S (expr_size e))). lia. Qed.

Lemma parsed_well_formed_witness :
  well_formed (query_filter demo_query) = true.
Proof. apply (parsed_well_formed (query_cel demo_query)). reflexivity. Defined.

(** The quantifier of a comprehension is not read: [all], [exists] and
    [exists_one] over the same field and condition give the same filter, whatever
    function the loop step applies. *)
Theorem quantifier_ignored v range f g args :
  parseCELASTToFilter (ComprehensionExpr v range (Some (CallExpr f args))) =
  parseCELASTToFilter (ComprehensionExpr v range (Some (CallExpr g args))).
Proof. done. Qed.

(** A null test inside a comprehension keeps the name of the loop variable. *)
Theorem null_test_keeps_alias :
  parseCELASTToFilter
    (ComprehensionExpr "v" (IdentExpr "related_entities")
       (Some (CallExpr "_||_" [IdentExpr "@result"; CallExpr "isnull" [SelectExpr (IdentExpr "v") "name"]])))
  = Ok (FFilter (mkFilter "v.name" None IsNull)).
Proof. reflexivity. Qed.

(** The range of a nested comprehension is not resolved either. *)
Theorem nested_range_keeps_alias :
  parseCELASTToFilter
    (ComprehensionExpr "o" (IdentExpr "orgs")
       (Some (CallExpr "_||_" [IdentExpr "@result";
          CallExpr "_||_" [
            ComprehensionExpr "u" (SelectExpr (IdentExpr "o") "users")
              (Some (CallExpr "_||_" [IdentExpr "@result";
                 CallExpr "_==_" [SelectExpr (IdentExpr "u") "name"; ConstExpr (StringValue "x")]]));
            CallExpr "_==_" [SelectExpr (IdentExpr "o") "name"; ConstExpr (StringValue "y")]]])))
  = Ok (FNode [FFilter (mkFilter "o.users.name" (Some (VString "x")) Contains);
               FFilter (mkFilter "orgs.name" (Some (VString "y")) Contains)] Or).
Proof. reflexivity. Qed.

(** A comparison whose left side is a call becomes a filter on the empty column. *)
Theorem call_compares_empty_column o f args v :
  parseCELASTToFilter (CallExpr (op_name o) [CallExpr f args; ConstExpr (value_const v)]) =
  Ok (FFilter (mkFilter "" (Some v) (op_comparison o))).
Proof. by destruct o, v. Qed.

(** The environment declares [equals], which the parser refuses. *)
Theorem equals_unsupported args : "equals" ∈ FunctionExtends.*1 /\
  parseCELASTToFilter (CallExpr "equals" args) = Err "unsupported function: equals".
Proof. split; [set_solver|done]. Qed.

End Filters.
