(* ===== verification/SafeMap.v ===== *)
(** * Locked maps: src/pkg/safemap

    [SafeMap] is a map behind a lock, so each method is one step. *)
From stdpp Require Import prelude strings list gmap.
From Stdlib Require Import ZArith Lia.
From S2P Require Import Prelude.

Module SafeMap.

Section Safe.
Context {Key Val : Type} `{Countable Key}.

(** The outer [None] is the nil pointer, the inner one the nil map. *)
Definition SafeMap := option (option (gmap Key Val)).

Definition New (init : option (gmap Key Val)) : SafeMap := Some (Some (default ∅ init)).

Definition store (s : SafeMap) : gmap Key Val := default ∅ (mjoin s).

Definition Get (s : SafeMap) (key : Key) : option Val :=
  match s with None => None | Some m => default ∅ m !! key end.

Definition Set_ (s : SafeMap) (key : Key) (v : Val) : SafeMap :=
  match s with None => None | Some m => Some (Some (<[key := v]> (default ∅ m))) end.

Definition Remove (s : SafeMap) (key : Key) : SafeMap :=
  match s with
  | None => None
  | Some None => Some None
  | Some (Some m) => Some (Some (delete key m))
  end.

Definition Copy (s : SafeMap) : res string (option (gmap Key Val)) :=
  match s with None => Err "safeMap is nil" | Some m => Ok m end.

Definition Len (s : SafeMap) : nat :=
  match s with None => 0 | Some m => size (default ∅ m : gmap Key Val) end.

(** [Range] with a callback that updates [St] and may fail; [order] is the order in
    which the runtime visits the entries. *)
Fixpoint range_loop {St E : Type} (callback : St -> Key -> Val -> option E * St)
    (entries : list (Key * Val)) (st : St) : option E * St :=
  match entries with
  | [] => (None, st)
  | (k, v) :: rest =>
      match callback st k v with
      | (Some err, st) => (Some err, st)
      | (None, st) => range_loop callback rest st
      end
  end.

Definition Range {St : Type} (order : gmap Key Val -> list (Key * Val))
    (callback : St -> Key -> Val -> option string * St) (s : SafeMap) (st : St) : option string * St :=
  match s with
  | None => (Some "safeMap is nil", st)
  | Some m => range_loop callback (order (default ∅ m)) st
  end.

(** The runtime visits every entry once. *)
Definition fair_order (order : gmap Key Val -> list (Key * Val)) : Prop :=
  forall m, order m ≡ₚ map_to_list m.

(** A map that can be written behaves as the finite map it holds. *)
Lemma safe_ops m key key' v :
  Get (Set_ (Some m) key v) key = Some v /\
  (key <> key' -> Get (Set_ (Some m) key v) key' = Get (Some m) key') /\
  Get (Remove (Some m) key) key = None /\
  (key <> key' -> Get (Remove (Some m) key) key' = Get (Some m) key').
Proof.
  repeat split; simpl; destruct m as [m|]; simpl; intros; by simplify_map_eq.
Qed.

(** Collecting the entries with [Range] is the content of the map. *)
Lemma range_collect order s : fair_order order ->
  (Range order (fun acc k v => (None, acc ++ [(k, v)])) (Some s) []).2 ≡ₚ map_to_list (store (Some s)).
Proof.
  intros Ho. change (store (Some s)) with (default ∅ s). rewrite <- (Ho (default ∅ s)). simpl.
  enough (forall l acc, (range_loop (E:=string) (fun acc k v => (None, acc ++ [(k, v)])) l acc).2 = acc ++ l) as ->.
  { done. }
  induction l as [|[k v] l IH]; intros acc; simpl; [by rewrite app_nil_r|]. by rewrite IH, <- app_assoc.
Qed.

End Safe.
Arguments SafeMap Key Val {_ _}.

End SafeMap.
