(* ===== verification/Watcher.v ===== *)
(** * Observers: src/pkg/watcher

    A watcher keeps its observers in slices; the model has the backing arrays,
    because [Detach] shifts a slice in place while a notification may be ranging
    over it. *)
From stdpp Require Import prelude strings list gmap.
From Stdlib Require Import Lia.
From S2P Require Import Prelude.

Module Watcher.

Definition EventType := string.
Definition EventTypeCreate : EventType := "create".
Definition EventTypeDelete : EventType := "remove".
Definition EventTypeUpdate : EventType := "update".
Definition EventTypeResolutionTime : EventType := "resolution_time".
Definition EventTypeRecordCall : EventType := "record_call".

(** An observer is known by its id.  What its [Update] does to the watcher it is
    attached to is a list of commands. *)
Definition Observer := nat.

(** A slice of observers: the backing array and the length; the array may be longer. *)
Record slice := mkSlice { arr : nat; len : nat }.

(** An event type without an entry has the nil slice. *)
Record DefaultWatcher := mkWatcher {
  observers : gmap EventType slice;
  heap : gmap nat (list Observer);
  next_arr : nat
}.

Definition NewDefaultWatcher : DefaultWatcher := mkWatcher ∅ ∅ 0.

Definition array (dw : DefaultWatcher) (s : slice) : list Observer := default [] (heap dw !! arr s).

Definition elems (dw : DefaultWatcher) (s : slice) : list Observer := take (len s) (array dw s).

(** [dw.observers[et]] *)
Definition attached (dw : DefaultWatcher) (et : EventType) : list Observer :=
  match observers dw !! et with Some s => elems dw s | None => [] end.

(** [dw.observers[et] = append(dw.observers[et], o)]: in place when the array has
    room, otherwise into a new array with [spare] more slots. *)
Definition Attach (spare : nat) (et : EventType) (o : Observer) (dw : DefaultWatcher) : DefaultWatcher :=
  let fresh l :=
    mkWatcher (<[et := mkSlice (next_arr dw) (S (length l))]> (observers dw))
      (<[next_arr dw := l ++ o :: replicate spare 0%nat]> (heap dw)) (S (next_arr dw)) in
  match observers dw !! et with
  | None => fresh []
  | Some s =>
      if (len s <? length (array dw s))%nat then
        mkWatcher (<[et := mkSlice (arr s) (S (len s))]> (observers dw))
          (<[arr s := <[len s := o]> (array dw s)]> (heap dw)) (next_arr dw)
      else fresh (elems dw s)
  end.

(** The index of the first observer with the id. *)
Fixpoint find_index (o : Observer) (l : list Observer) : option nat :=
  match l with
  | [] => None
  | v :: l => if decide (v = o) then Some 0%nat else S <$> find_index o l
  end.

(** [append(s[:i], s[i+1:]...)]: the tail is copied one slot to the left in the array. *)
Definition shift_left (i n : nat) (a : list Observer) : list Observer :=
  take i a ++ take (n - i - 1) (drop (S i) a) ++ drop (n - 1) a.

Definition Detach (et : EventType) (o : Observer) (dw : DefaultWatcher) : DefaultWatcher :=
  match observers dw !! et with
  | None => dw
  | Some s =>
      match find_index o (elems dw s) with
      | None => dw
      | Some i =>
          mkWatcher (<[et := mkSlice (arr s) (len s - 1)]> (observers dw))
            (<[arr s := shift_left i (len s) (array dw s)]> (heap dw)) (next_arr dw)
      end
  end.

Inductive command := CAttach (spare : nat) (et : EventType) (o : Observer) | CDetach (et : EventType) (o : Observer).

Definition run_command (dw : DefaultWatcher) (c : command) : DefaultWatcher :=
  match c with
  | CAttach n et o => Attach n et o dw
  | CDetach et o => Detach et o dw
  end.

Section Notify.
(** [Update] of an observer; its error is only logged. *)
Context (update : Observer -> EventType -> list command).

(** The range loop of [Notify]: the slice is read once, its elements as the loop goes. *)
Fixpoint notify_loop (et : EventType) (s : slice) (i n : nat) (dw : DefaultWatcher)
  : list Observer * DefaultWatcher :=
  match n with
  | 0 => ([], dw)
  | S n =>
      match array dw s !! i with
      | None => ([], dw)
      | Some o =>
          let '(called, dw) := notify_loop et s (S i) n (fold_left run_command (update o et) dw) in
          (o :: called, dw)
      end
  end.

(** The observers called, and the watcher afterwards; the result is always nil. *)
Definition Notify (et : EventType) (dw : DefaultWatcher) : list Observer * DefaultWatcher :=
  match observers dw !! et with Some s => notify_loop et s 0 (len s) dw | None => ([], dw) end.

Definition ErrUnknownType : string := "unknown event type".

Definition OnEvent (et : EventType) (dw : DefaultWatcher) : option string * (list Observer * DefaultWatcher) :=
  if decide (et ∈ [EventTypeCreate; EventTypeDelete; EventTypeUpdate; EventTypeResolutionTime;
                   EventTypeRecordCall])
  then (None, Notify et dw)
  else (Some ErrUnknownType, ([], dw)).

End Notify.

(** ** The manager of clusters (manager.go) *)

Section Manager.
(** A watcher of a cluster: its [OnEvent] acts on some state and may fail. *)
Context {W St : Type} (on_event : W -> EventType -> St -> option string * St).

Record DefaultWatcherManager := mkManager { clusters : gmap string (list W); state : bool }.

Definition NewDefaultWatcherManager (st : bool) : DefaultWatcherManager := mkManager ∅ st.

Definition GetCluster (d : DefaultWatcherManager) (id : string) : option (list W) := clusters d !! id.

Definition AddWatcher (id : string) (w : W) (d : DefaultWatcherManager) : DefaultWatcherManager :=
  mkManager (<[id := default [] (clusters d !! id) ++ [w]]> (clusters d)) (state d).

Definition RemoveCluster (id : string) (d : DefaultWatcherManager) : DefaultWatcherManager :=
  mkManager (delete id (clusters d)) (state d).

Definition Enable (d : DefaultWatcherManager) : DefaultWatcherManager := mkManager (clusters d) true.
Definition Disable (d : DefaultWatcherManager) : DefaultWatcherManager := mkManager (clusters d) false.
Definition GetState (d : DefaultWatcherManager) : bool := state d.

Fixpoint notify_cluster (ws : list W) (et : EventType) (st : St) : option string * St :=
  match ws with
  | [] => (None, st)
  | w :: ws =>
      match on_event w et st with
      | (Some err, st) => (Some err, st)
      | (None, st) => notify_cluster ws et st
      end
  end.

Definition Manager_Notify (d : DefaultWatcherManager) (id : string) (et : EventType) (st : St)
  : option string * St :=
  if negb (state d) then (None, st)
  else match GetCluster d id with
       | None => (None, st)
       | Some ws => notify_cluster ws et st
       end.

End Manager.

(** ** Lemmas *)

(** Slices lie in their arrays, and no two event types share an array. *)
Definition winv (dw : DefaultWatcher) : Prop :=
  (forall et s, observers dw !! et = Some s -> (arr s < next_arr dw)%nat /\ (len s <= length (array dw s))%nat) /\
  (forall et et' s s', observers dw !! et = Some s -> observers dw !! et' = Some s' -> arr s = arr s' -> et = et').

(** The specification: a list of observers per event type. *)
Definition remove_first (o : Observer) (l : list Observer) : list Observer :=
  match find_index o l with Some i => delete i l | None => l end.

Definition spec_command (et : EventType) (l : list Observer) (c : command) : list Observer :=
  match c with
  | CAttach _ et' o => if decide (et' = et) then l ++ [o] else l
  | CDetach et' o => if decide (et' = et) then remove_first o l else l
  end.

Lemma array_insert dw (obs : gmap EventType slice) i a n s :
  array (mkWatcher obs (<[i := a]> (heap dw)) n) s = if decide (arr s = i) then a else array dw s.
Proof. unfold array. simpl. case_decide; by simplify_map_eq. Qed.

Lemma find_index_Some o l i : find_index o l = Some i -> (i < length l)%nat.
Proof.
  revert i. induction l as [|v l IH]; intros i; simpl; [done|]. case_decide; [by intros [= <-]; lia|].
  destruct (find_index o l) as [j|]; simpl; [|done]. intros [= <-]. specialize (IH j eq_refl). lia.
Qed.

Lemma length_shift_left i n a : (i < n)%nat -> (n <= length a)%nat -> length (shift_left i n a) = length a.
Proof. intros. unfold shift_left. rewrite !length_app, !length_take, !length_drop. lia. Qed.

Lemma take_shift_left i n a : (i < n)%nat -> (n <= length a)%nat ->
  take (n - 1) (shift_left i n a) = delete i (take n a).
Proof.
  intros Hi Hn. unfold shift_left.
  rewrite app_assoc, take_app_length' by (rewrite length_app, !length_take, length_drop; lia).
  rewrite delete_take_drop, take_take, Nat.min_l by lia. f_equal.
  rewrite take_drop_commute. do 2 f_equal. lia.
Qed.

(** Storing an array and a slice for one event type. *)
Lemma update_spec dw et s a n :
  winv dw -> (len s <= length a)%nat -> (arr s < n)%nat -> (next_arr dw <= n)%nat ->
  (forall et' s', et' <> et -> observers dw !! et' = Some s' -> arr s' <> arr s) ->
  let dw' := mkWatcher (<[et := s]> (observers dw)) (<[arr s := a]> (heap dw)) n in
  winv dw' /\ forall et', attached dw' et' = if decide (et = et') then take (len s) a else attached dw et'.
Proof.
  intros [Hin Hdis] Hlen Harr Hn Hne dw'. split; [split|].
  - intros et' s' Hs'. subst dw'. rewrite array_insert. simpl in *.
    apply lookup_insert_Some in Hs' as [[<- <-]|[Het Hs']]; [by rewrite decide_True|].
    rewrite decide_False by (by apply (Hne et')). destruct (Hin _ _ Hs'). lia.
  - intros et1 et2 s1 s2. simpl. rewrite !lookup_insert_Some.
    intros [[<- <-]|[? ?]] [[<- <-]|[? ?]] Heq; try done; [| |by eapply Hdis].
    + by destruct (Hne et2 s2).
    + by destruct (Hne et1 s1).
  - intros et'. unfold attached, elems. subst dw'. simpl. case_decide as Het.
    + subst. rewrite lookup_insert_eq, array_insert. by rewrite decide_True.
    + rewrite lookup_insert_ne by done. destruct (observers dw !! et') as [s'|] eqn:Hs'; [|done].
      rewrite array_insert, decide_False; [done|]. by apply (Hne et').
Qed.

Lemma Attach_spec n et o dw : winv dw ->
  winv (Attach n et o dw) /\
  forall et', attached (Attach n et o dw) et' = spec_command et' (attached dw et') (CAttach n et o).
Proof.
  intros Hw. pose proof Hw as [Hin Hdis]. unfold Attach, spec_command.
  assert (Hfresh : forall et' s', et' <> et -> observers dw !! et' = Some s' -> arr s' <> next_arr dw).
  { intros et' s' _ Hs'. destruct (Hin _ _ Hs'). lia. }
  destruct (observers dw !! et) as [s|] eqn:Hs.
  - assert (attached dw et = elems dw s) as Hatt by (unfold attached; by rewrite Hs).
    destruct (Hin _ _ Hs) as [Harr Hle].
    destruct (Nat.ltb_spec (len s) (length (array dw s))) as [Hlt|Hge].
    + destruct (update_spec dw et (mkSlice (arr s) (S (len s))) (<[len s := o]> (array dw s)) (next_arr dw)) as [Hw' Ha']; [done|..|split; [exact Hw'|]].
      1: rewrite length_insert; simpl; lia. 1: simpl; lia. 1: done.
      { simpl. intros et' s' Het Hs' Heq. by apply Het, (Hdis et' et s' s). }
      intros et'. rewrite Ha'. case_decide; subst; [|done]. rewrite Hatt. unfold elems. simpl.
      rewrite (take_S_r _ _ o) by (by apply list_lookup_insert_eq). by rewrite take_insert_ge by lia.
    + assert (elems dw s = array dw s) as He by (unfold elems; rewrite take_ge; [done|lia]).
      destruct (update_spec dw et (mkSlice (next_arr dw) (S (length (elems dw s))))
        (elems dw s ++ o :: replicate n 0%nat) (S (next_arr dw)))
        as [Hw' Ha']; [done|..|split; [exact Hw'|]]; simpl.
      1: rewrite length_app; simpl; lia. 1: lia. 1: lia. 1: done.
      intros et'. rewrite Ha'. case_decide; subst; [|done]. rewrite Hatt. simpl.
      by rewrite (take_S_r _ _ o), take_app_length by (by apply list_lookup_middle).
  - destruct (update_spec dw et (mkSlice (next_arr dw) 1) ([] ++ o :: replicate n 0%nat) (S (next_arr dw))) as [Hw' Ha']; [done|..|split; [exact Hw'|]]; simpl.
    1: simpl; lia. 1: lia. 1: lia. 1: done.
    intros et'. rewrite Ha'. case_decide; subst; [|done]. unfold attached. by rewrite Hs.
Qed.

Lemma Detach_spec et o dw : winv dw ->
  winv (Detach et o dw) /\
  forall et', attached (Detach et o dw) et' = spec_command et' (attached dw et') (CDetach et o).
Proof.
  intros Hw. pose proof Hw as [Hin Hdis]. unfold Detach, spec_command, remove_first.
  destruct (observers dw !! et) as [s|] eqn:Hs.
  2: { split; [done|]. intros et'. case_decide; subst; [|done]. unfold attached. by rewrite Hs. }
  assert (attached dw et = elems dw s) as Hatt by (unfold attached; by rewrite Hs).
  destruct (Hin _ _ Hs) as [Harr Hle].
  destruct (find_index o (elems dw s)) as [i|] eqn:Hi.
  2: { split; [done|]. intros et'. case_decide; subst; [|done]. by rewrite Hatt, Hi. }
  pose proof (find_index_Some _ _ _ Hi) as Hil. unfold elems in Hil. rewrite length_take in Hil.
  destruct (update_spec dw et (mkSlice (arr s) (len s - 1)) (shift_left i (len s) (array dw s)) (next_arr dw)) as [Hw' Ha']; [done|..|split; [exact Hw'|]].
  1: rewrite length_shift_left; simpl; lia. 1: simpl; lia. 1: done.
  { simpl. intros et' s' Het Hs' Heq. by apply Het, (Hdis et' et s' s). }
  intros et'. rewrite Ha'. case_decide; subst; [|done]. rewrite Hatt, Hi. simpl.
  by rewrite take_shift_left by lia.
Qed.

Lemma commands_spec cs dw : winv dw ->
  winv (fold_left run_command cs dw) /\
  forall et, attached (fold_left run_command cs dw) et = fold_left (spec_command et) cs (attached dw et).
Proof.
  revert dw. induction cs as [|c cs IH]; intros dw Hw; simpl; [done|].
  assert (winv (run_command dw c) /\
          forall et, attached (run_command dw c) et = spec_command et (attached dw et) c) as [Hw' Ha].
  { destruct c; [by apply Attach_spec|by apply Detach_spec]. }
  destruct (IH _ Hw') as [Hw'' Ha']. split; [done|]. intros et. by rewrite Ha', Ha.
Qed.

Lemma notify_quiet update et s dw : (forall o, update o et = []) -> forall n i,
  (i + n <= length (array dw s))%nat ->
  notify_loop update et s i n dw = (take n (drop i (array dw s)), dw).
Proof.
  intros Hu. induction n as [|n IH]; intros i Hi; simpl; [done|].
  destruct (lookup_lt_is_Some_2 (array dw s) i) as [o Ho]; [lia|]. rewrite Ho, Hu. simpl.
  rewrite IH by lia. by rewrite (drop_S _ _ _ Ho).
Qed.

(** ** Properties *)

(** Whatever observers were attached and detached before, a notification calls those
    that are attached, in the order of attachment, each as often as it was attached
    and not detached, as long as no observer changes the watcher while it runs. *)
Theorem notify_refines update cs et : (forall o, update o et = []) ->
  let dw := fold_left run_command cs NewDefaultWatcher in
  Notify update et dw = (fold_left (spec_command et) cs [], dw).
Proof.
  intros Hu dw. assert (winv NewDefaultWatcher) as H0 by (split; by intros).
  destruct (commands_spec cs _ H0) as [[Hin _] Ha]. fold dw in Hin, Ha. specialize (Ha et).
  change (attached NewDefaultWatcher et) with (@nil Observer) in Ha. rewrite <- Ha.
  unfold Notify, attached. destruct (observers dw !! et) as [s|] eqn:Hs; [|done].
  destruct (Hin _ _ Hs). by rewrite notify_quiet by (done || lia).
Qed.

Lemma notify_refines_witness :
  let cs := [CAttach 1 EventTypeCreate 1; CAttach 0 EventTypeCreate 2; CAttach 2 EventTypeUpdate 7;
             CAttach 0 EventTypeCreate 3; CDetach EventTypeCreate 2] in
  (Notify (fun _ _ => []) EventTypeCreate (fold_left run_command cs NewDefaultWatcher)).1 = [1; 3].
Proof.
  intros cs. exact (f_equal fst (notify_refines (fun _ _ => []) cs EventTypeCreate (fun _ => eq_refl))).
Defined.

(** An observer that detaches itself when it is called makes the notification skip the
    next observer and call the last one twice. *)
Theorem detach_while_notified :
  let cs := [CAttach 0 EventTypeCreate 1; CAttach 1 EventTypeCreate 2; CAttach 0 EventTypeCreate 3] in
  let update o et := if decide (o = 1) then [CDetach et 1] else [] in
  (Notify update EventTypeCreate (fold_left run_command cs NewDefaultWatcher)).1 = [1; 3; 3].
Proof. reflexivity. Qed.

End Watcher.
