(* ===== verification/Pgw.v ===== *)
(** * The PostgreSQL wrapper: src/infra/pgw

    Configuration and strategies (config.go, pool_manager.go), the state of a pool with
    its subscribers (pool_state.go), connecting with retries (pool.go), the choice of a
    pool (pool_manager.go) and the translation of errors (errors.go,
    errors_manager.go).  [PgwMonitor] has the goroutines that watch the pools. *)
From stdpp Require Import prelude strings list gmap.
From Stdlib Require Import ZArith Lia.
From S2P Require Import Prelude SafeMap.

Local Open Scope go_scope.
Local Open Scope Z_scope.

Module Pgw.

(** ** The state of a pool and its subscribers *)

Inductive PoolState :=
| HostStateConnecting | HostStateConnected | HostStateRetrying | HostStateClosed | HostStateError.

#[export] Instance PoolState_eq : EqDecision PoolState.
Proof. solve_decision. Defined.

(** A channel of states: what is buffered (at most 4) and whether it is closed. *)
Record chan := mkChan { buffer : list PoolState; ch_closed : bool }.
Definition chan_cap : nat := 4.

Record poolState := mkPS {
  state : PoolState;
  mode : string;
  notifyChangeChannels : list nat;
  chans : gmap nat chan;
  closeChan : bool;
  next_chan : nat
}.

Definition set_chans (cs : gmap nat chan) (s : poolState) : poolState :=
  mkPS (state s) (mode s) (notifyChangeChannels s) cs (closeChan s) (next_chan s).

(** [select { case ch <- st: default: }] *)
Definition try_send (ch : nat) (st : PoolState) (cs : gmap nat chan) : outcome (gmap nat chan) :=
  match cs !! ch with
  | None => Ret cs
  | Some c =>
      if ch_closed c then Panic "send on closed channel"
      else if (length (buffer c) <? chan_cap)%nat
           then Ret (<[ch := mkChan (buffer c ++ [st]) false]> cs)
           else Ret cs
  end.

Definition close_chan (ch : nat) (cs : gmap nat chan) : outcome (gmap nat chan) :=
  match cs !! ch with
  | None => Ret cs
  | Some c =>
      if ch_closed c then Panic "close of closed channel"
      else Ret (<[ch := mkChan (buffer c) true]> cs)
  end.

(** A loop over channels. *)
Fixpoint each_chan (f : nat -> gmap nat chan -> outcome (gmap nat chan)) (l : list nat)
    (cs : gmap nat chan) : outcome (gmap nat chan) :=
  match l with
  | [] => Ret cs
  | ch :: l => let! cs := f ch cs in each_chan f l cs
  end.

Definition notifyChange (s : poolState) : outcome poolState :=
  let! cs := each_chan (fun ch => try_send ch (state s)) (notifyChangeChannels s) (chans s) in
  Ret (set_chans cs s).

Definition Set_ (st : PoolState) (s : poolState) : outcome poolState :=
  if decide (st = state s) then Ret s
  else notifyChange (mkPS st (mode s) (notifyChangeChannels s) (chans s) (closeChan s) (next_chan s)).

Definition Get (s : poolState) : PoolState := state s.
Definition GetMode (s : poolState) : string := mode s.

Definition SubscribeChange (s : poolState) : nat * poolState :=
  let ch := next_chan s in
  (ch, mkPS (state s) (mode s) (notifyChangeChannels s ++ [ch]) (<[ch := mkChan [] false]> (chans s))
         (closeChan s) (S ch)).

(** The goroutine of [SubscribeChange] when the context of the subscriber ends. *)
Definition ctx_done (ch : nat) (s : poolState) : outcome poolState :=
  if decide (ch ∈ notifyChangeChannels s) then
    let! cs := close_chan ch (chans s) in
    Ret (mkPS (state s) (mode s) (filter (fun c => c <> ch) (notifyChangeChannels s)) cs
           (closeChan s) (next_chan s))
  else Ret s.

(** The part of [Close] under the lock of the channels. *)
Definition close_channels (s : poolState) : outcome poolState :=
  if closeChan s then Panic "close of closed channel"
  else
    let! cs := each_chan close_chan (notifyChangeChannels s) (chans s) in
    Ret (mkPS (state s) (mode s) [] cs true (next_chan s)).

Definition PS_Close (s : poolState) : outcome poolState :=
  let! s := Set_ HostStateClosed s in close_channels s.

(** A receive by the holder of a channel. *)
Definition receive (ch : nat) (s : poolState) : option (PoolState * poolState) :=
  match chans s !! ch with
  | Some (mkChan (st :: q) cl) => Some (st, set_chans (<[ch := mkChan q cl]> (chans s)) s)
  | _ => None
  end.

(** ** Pools *)

(** [health] counts the running health checks; [verifier] is whether a migration verifier
    is configured. *)
Record Pool := mkPool {
  ps : poolState;
  p_closed : bool;
  health : nat;
  verifier : bool
}.

Definition set_ps (s : poolState) (p : Pool) : Pool := mkPool s (p_closed p) (health p) (verifier p).

Definition newPool (mode : string) (verifier : bool) : Pool :=
  mkPool (mkPS HostStateConnecting mode [] ∅ false 0) false 0 verifier.

(** What the database answers during one attempt: [None] is success. *)
Record attempt := mkAttempt
  { a_ping : option string; a_acquire : option string; a_verify : option string }.

Definition GetState (p : Pool) : PoolState := Get (ps p).

Definition set_state (st : PoolState) (p : Pool) : outcome Pool :=
  let! s := Set_ st (ps p) in Ret (set_ps s p).

Definition validateHealth (ping : option string) (p : Pool) : outcome (option string * Pool) :=
  match ping with
  | Some err =>
      let! p := if decide (GetState p = HostStateError) then Ret p else set_state HostStateError p in
      Ret (Some err, p)
  | None =>
      let! p := if decide (GetState p = HostStateConnected) then Ret p
                else set_state HostStateConnected p in
      Ret (None, p)
  end.

Definition ErrMigrationVerify : string := "pgw: migration unverified".

(** [errors.Join] of two errors: their messages on two lines. *)
Definition newline : string := String (Ascii.ascii_of_nat 10) EmptyString.
Definition join (a b : string) : string := a +:+ newline +:+ b.

Definition verifyMigration (a : attempt) (p : Pool) : outcome (option string * Pool) :=
  if negb (verifier p) then Ret (None, p)
  else match a_acquire a with
       | Some err => let! p := set_state HostStateError p in Ret (Some err, p)
       | None =>
           match a_verify a with
           | Some err =>
               let! p := set_state HostStateError p in Ret (Some (join ErrMigrationVerify err), p)
           | None => Ret (None, p)
           end
       end.

Definition start_health (p : Pool) : Pool := mkPool (ps p) (p_closed p) (S (health p)) (verifier p).

Definition Connect (a : attempt) (p : Pool) : outcome (option string * Pool) :=
  let! (err, p) := validateHealth (a_ping a) p in
  match err with
  | Some e => Ret (Some e, p)
  | None =>
      let! (err, p) := verifyMigration a p in
      match err with
      | Some e => Ret (Some e, p)
      | None => Ret (None, start_health p)
      end
  end.

Definition RetryStrategy := Z -> Z -> Z.

(** The loop of [ConnectWithRetry], [n] attempts left of which the next is number [i];
    [answers i] is what the database answers then and [closing i] whether the pool
    is closed during the wait after it.  The waits are returned too. *)
Fixpoint retry_loop (n : nat) (i : Z) (strategy : RetryStrategy) (base : Z)
    (answers : Z -> attempt) (closing : Z -> bool) (lastErr : option string) (p : Pool)
  : outcome (option string * list Z * Pool) :=
  match n with
  | 0%nat => Ret (lastErr, [], p)
  | S n =>
      let! (err, p) := Connect (answers i) p in
      match err with
      | None => Ret (None, [], p)
      | Some e =>
          if (0 <? n)%nat then
            let timeToWait := strategy base i in
            if closing i then Ret (Some "pool closed while waiting for reconnect", [timeToWait], p)
            else
              let! (err, waits, p) := retry_loop n (i + 1) strategy base answers closing (Some e) p in
              Ret (err, timeToWait :: waits, p)
          else retry_loop n (i + 1) strategy base answers closing (Some e) p
      end
  end.

Definition ConnectWithRetry (maxAttempts : Z) (strategy : RetryStrategy) (base : Z)
    (answers : Z -> attempt) (closing : Z -> bool) (p : Pool)
  : outcome (option string * list Z * Pool) :=
  retry_loop (Z.to_nat maxAttempts) 1 strategy base answers closing None p.

(** One turn of the loop of [healthCheck] on a tick; a failed check ends the goroutine. *)
Definition health_tick (ping : option string) (p : Pool) : outcome Pool :=
  let! (err, p) := validateHealth ping p in
  match err with
  | None => Ret p
  | Some _ => Ret (mkPool (ps p) (p_closed p) (health p - 1) (verifier p))
  end.

(** [Close], which closeOnce runs once; it stops the health checks. *)
Definition Pool_Close (p : Pool) : outcome Pool :=
  if p_closed p then Ret p
  else let! s := PS_Close (ps p) in Ret (mkPool s true 0 (verifier p)).

(** ** Retry and pick strategies (config.go) *)

Definition Second : Z := 1000000000.

(** [time.Duration(a*x) * time.Second], both products at 64 bits. *)
Definition RetryStrategyLinear : RetryStrategy := fun a x =>
  let a := if a =? 0 then 1 else a in i64 (i64 (a * x) * Second).

(** math.Pow of whole numbers, exact up to 2^53. *)
Definition RetryStrategyExponential : RetryStrategy := fun a x =>
  let a := if (a <=? 0) || (a =? 1) then 2 else a in i64 (a ^ x * Second).

(** A host is named by a number; a strategy sees the entries in the order of the range. *)
Definition PickStrategy := list (string * nat) -> option nat.

(** [IntN n] is the random index below [n]. *)
Definition RandomPickStrategy (IntN : nat -> nat) : PickStrategy := fun entries =>
  let hosts := entries.*2 in
  if (length hosts =? 0)%nat then None else hosts !! IntN (length hosts).

Section Least.
(** The connections of a host that are in use. *)
Context (load : nat -> Z).

Definition least_step (acc : Z * option nat) (e : string * nat) : Z * option nat :=
  let '(minConnections, result) := acc in
  let l := load e.2 in
  if (minConnections =? 0) || (l <? minConnections) then (l, Some e.2) else (minConnections, result).

Definition LeastConnectionsPickStrategy : PickStrategy := fun entries =>
  (fold_left least_step entries (0, None)).2.
End Least.

(** ** Configuration *)

Record PrimaryConfig := mkPrimary {
  pr_DSN : string; pr_MaxConns : Z; pr_MinConns : Z;
  pr_HealthCheckInterval : Z; pr_HealthCheckTimeout : Z;
  pr_RetryAttempts : Z; pr_RetryInterval : Z;
  pr_RetryStrategy : option RetryStrategy; pr_RetryStrategyBaseValue : Z
}.

Record StandbyConfig := mkStandby {
  sb_DSN : list string; sb_MaxConns : Z; sb_MinConns : Z;
  sb_HealthCheckInterval : Z; sb_HealthCheckTimeout : Z;
  sb_RetriesBeforeUnhealthy : Z;
  sb_RetryStrategy : option RetryStrategy; sb_RetryStrategyBaseValue : Z;
  sb_PickStrategy : option PickStrategy; sb_UnhealthyReplicaRetryInterval : Z
}.

Definition Minute : Z := 60 * Second.

Section Config.
Context (IntN : nat -> nat).

Definition DefaultPrimaryPoolConfig : PrimaryConfig :=
  mkPrimary "" 0 0 (5 * Second) (3 * Second) 5 (5 * Second) (Some RetryStrategyLinear) 2.

Definition DefaultStandbyPoolConfig : StandbyConfig :=
  mkStandby [] 0 0 (5 * Second) (3 * Second) 5 (Some RetryStrategyLinear) 2
    (Some (RandomPickStrategy IntN)) (30 * Minute).

Definition pos_or (v d : Z) : Z := if 0 <? v then v else d.
Definition some_or {A} (v d : option A) : option A := match v with Some _ => v | None => d end.

Definition mergePrimaryPoolConfigWithDefault (c : PrimaryConfig) : PrimaryConfig :=
  let d := DefaultPrimaryPoolConfig in
  mkPrimary (if decide (pr_DSN c = "") then pr_DSN d else pr_DSN c)
    (pos_or (pr_MaxConns c) (pr_MaxConns d)) (pos_or (pr_MinConns c) (pr_MinConns d))
    (pos_or (pr_HealthCheckInterval c) (pr_HealthCheckInterval d))
    (pos_or (pr_HealthCheckTimeout c) (pr_HealthCheckTimeout d))
    (pos_or (pr_RetryAttempts c) (pr_RetryAttempts d))
    (pos_or (pr_RetryInterval c) (pr_RetryInterval d))
    (some_or (pr_RetryStrategy c) (pr_RetryStrategy d))
    (pos_or (pr_RetryStrategyBaseValue c) (pr_RetryStrategyBaseValue d)).

Definition mergeStandbyPoolConfigWithDefault (c : StandbyConfig) : StandbyConfig :=
  let d := DefaultStandbyPoolConfig in
  mkStandby (if (0 <? length (sb_DSN c))%nat then sb_DSN c else sb_DSN d)
    (pos_or (sb_MaxConns c) (sb_MaxConns d)) (pos_or (sb_MinConns c) (sb_MinConns d))
    (pos_or (sb_HealthCheckInterval c) (sb_HealthCheckInterval d))
    (pos_or (sb_HealthCheckTimeout c) (sb_HealthCheckTimeout d))
    (pos_or (sb_RetriesBeforeUnhealthy c) (sb_RetriesBeforeUnhealthy d))
    (some_or (sb_RetryStrategy c) (sb_RetryStrategy d))
    (pos_or (sb_RetryStrategyBaseValue c) (sb_RetryStrategyBaseValue d))
    (sb_PickStrategy d) (sb_UnhealthyReplicaRetryInterval d).

(** [c_Tracer] and [c_Verifier] tell whether a tracer and a verifier are set. *)
Record Config := mkConfig {
  c_ApplicationName : string; c_Tracer : bool;
  c_Primary : PrimaryConfig; c_Standby : StandbyConfig; c_Verifier : bool
}.

Definition ConfigOption := Config -> Config.
Definition WithApplicationName (name : string) : ConfigOption :=
  fun c => mkConfig name (c_Tracer c) (c_Primary c) (c_Standby c) (c_Verifier c).
Definition WithTracer (t : bool) : ConfigOption :=
  fun c => mkConfig (c_ApplicationName c) t (c_Primary c) (c_Standby c) (c_Verifier c).
Definition WithPrimaryConfig (cfg : PrimaryConfig) : ConfigOption :=
  fun c => mkConfig (c_ApplicationName c) (c_Tracer c) cfg (c_Standby c) (c_Verifier c).
Definition WithStandbyConfig (cfg : StandbyConfig) : ConfigOption :=
  fun c => mkConfig (c_ApplicationName c) (c_Tracer c) (c_Primary c) cfg (c_Verifier c).
Definition WithMigrationVerifier (v : bool) : ConfigOption :=
  fun c => mkConfig (c_ApplicationName c) (c_Tracer c) (c_Primary c) (c_Standby c) v.

(** The configuration that [NewPoolManager] runs with. *)
Definition effective_config (options : list ConfigOption) : Config :=
  let cfg := fold_left (fun c (o : ConfigOption) => o c) options
               (mkConfig "" false DefaultPrimaryPoolConfig DefaultStandbyPoolConfig false) in
  mkConfig (c_ApplicationName cfg) (c_Tracer cfg) (mergePrimaryPoolConfigWithDefault (c_Primary cfg))
    (mergeStandbyPoolConfigWithDefault (c_Standby cfg)) (c_Verifier cfg).

(** The configuration of the standby manager; a zero or nil field takes the default. *)
Record standbyManagerConfig := mkSM {
  sm_PickStrategy : option PickStrategy; sm_RetryInterval : Z;
  sm_RetriesBeforeUnhealthy : Z; sm_RetryStrategy : option RetryStrategy; sm_Base : Z;
  sm_HealthCheckInterval : Z; sm_HealthCheckTimeout : Z
}.

Definition zero_or (v d : Z) : Z := if v =? 0 then d else v.

Definition normalizeConfig (cfg : standbyManagerConfig) : standbyManagerConfig :=
  let d := DefaultStandbyPoolConfig in
  mkSM (some_or (sm_PickStrategy cfg) (sb_PickStrategy d))
    (zero_or (sm_RetryInterval cfg) (sb_UnhealthyReplicaRetryInterval d))
    (zero_or (sm_RetriesBeforeUnhealthy cfg) (sb_RetriesBeforeUnhealthy d))
    (some_or (sm_RetryStrategy cfg) (sb_RetryStrategy d))
    (zero_or (sm_Base cfg) (sb_RetryStrategyBaseValue d))
    (zero_or (sm_HealthCheckInterval cfg) (sb_HealthCheckInterval d))
    (zero_or (sm_HealthCheckTimeout cfg) (sb_HealthCheckTimeout d)).

End Config.

(** ** Routing (pool_manager.go) *)

Definition ErrUnreachable : string := "the resource is unreachable now".

(** The manager as the routing methods see it: the master, if any, with its state; the
    standby store in the order of a range; the strategy. *)
Record PoolManager := mkPM {
  master : option nat;
  state_of : nat -> PoolState;
  standby_entries : list (string * nat);
  pick : PickStrategy
}.

Definition Primary (c : PoolManager) : res string nat :=
  match master c with
  | None => Err ErrUnreachable
  | Some m => if decide (state_of c m = HostStateConnected) then Ok m else Err ErrUnreachable
  end.

Definition Pick (c : PoolManager) : option nat := pick c (standby_entries c).

Definition Standby (c : PoolManager) : res string nat :=
  match Pick c with None => Err ErrUnreachable | Some host => Ok host end.

Definition StandbyPreferred (c : PoolManager) : res string nat :=
  match Pick c with None => Primary c | Some host => Ok host end.

(** ** Errors (errors.go, errors_manager.go) *)

Record PgError := mkPg {
  pg_Code : string; pg_Message : string; SchemaName : string; TableName : string;
  ColumnName : string; ConstraintName : string
}.

(** An error of the driver: its text, and the PgError that errors.As finds in it. *)
Record dberror := mkErr { e_text : string; e_pg : option PgError }.

Section ErrorsManager.
(** The errors that the registered processors make. *)
Context {P : Type}.

Inductive perror :=
| Raw (e : dberror)
| ConnectionExceptionError (code detail : string)
| DataExceptionError (schema column table detail : string)
| Processed (e : P).

Definition ErrorProcessor := PgError -> P.

Record errorsManager := mkEM {
  notNullViolations : SafeMap.SafeMap string (SafeMap.SafeMap string ErrorProcessor);
  uniqueViolations : SafeMap.SafeMap string ErrorProcessor;
  foreignKeyViolations : SafeMap.SafeMap string ErrorProcessor;
  checkViolations : SafeMap.SafeMap string ErrorProcessor
}.

Definition newErrorsManager : errorsManager :=
  mkEM (SafeMap.New None) (SafeMap.New None) (SafeMap.New None) (SafeMap.New None).

Definition getNotNullViolation (e : errorsManager) (table column : string) : option ErrorProcessor :=
  match SafeMap.Get (notNullViolations e) table with
  | None => None
  | Some columnsMap => SafeMap.Get columnsMap column
  end.
Definition getUniqueViolation (e : errorsManager) (c : string) := SafeMap.Get (uniqueViolations e) c.
Definition getForeignKeyViolation (e : errorsManager) (c : string) := SafeMap.Get (foreignKeyViolations e) c.
Definition getCheckViolation (e : errorsManager) (c : string) := SafeMap.Get (checkViolations e) c.

(** The tail shared by the four parsers of violations. *)
Definition process (processor : option ErrorProcessor) (pg : PgError) : perror :=
  match processor with
  | Some f => Processed (f pg)
  | None => DataExceptionError (SchemaName pg) (ColumnName pg) (TableName pg) (pg_Message pg)
  end.

Definition parseConnectionException (pg : PgError) : perror :=
  ConnectionExceptionError (pg_Code pg) (pg_Message pg).
Definition parseNotNullViolation (e : errorsManager) (pg : PgError) : perror :=
  process (getNotNullViolation e (TableName pg) (ColumnName pg)) pg.
Definition parseForeignKeyViolation (e : errorsManager) (pg : PgError) : perror :=
  process (getForeignKeyViolation e (ConstraintName pg)) pg.
Definition parseUniqueViolation (e : errorsManager) (pg : PgError) : perror :=
  process (getUniqueViolation e (ConstraintName pg)) pg.
Definition parseCheckViolation (e : errorsManager) (pg : PgError) : perror :=
  process (getCheckViolation e (ConstraintName pg)) pg.

Definition ParsePgError (e : errorsManager) (err : option dberror) : option perror :=
  match err with
  | None => None
  | Some err =>
      match e_pg err with
      | None => Some (Raw err)
      | Some pg =>
          let code := pg_Code pg in
          if decide (code = "08000" \/ code = "08006") then Some (parseConnectionException pg)
          else if decide (code = "23502") then Some (parseNotNullViolation e pg)
          else if decide (code = "23503") then Some (parseForeignKeyViolation e pg)
          else if decide (code = "23505") then Some (parseUniqueViolation e pg)
          else if decide (code = "23514") then Some (parseCheckViolation e pg)
          else Some (Raw err)
      end
  end.

Definition RegisterNotNullViolationProcessor (table column : string) (f : ErrorProcessor)
    (e : errorsManager) : option string * errorsManager :=
  let columnsMap := default (SafeMap.New None) (SafeMap.Get (notNullViolations e) table) in
  let with_columns m :=
    mkEM (SafeMap.Set_ (notNullViolations e) table m) (uniqueViolations e) (foreignKeyViolations e)
      (checkViolations e) in
  match SafeMap.Get columnsMap column with
  | Some _ =>
      (Some ("column " +:+ column +:+ " is already registered for not null violation on table " +:+ table),
       with_columns columnsMap)
  | None => (None, with_columns (SafeMap.Set_ columnsMap column f))
  end.

Definition RegisterUniqueViolation (c : string) (f : ErrorProcessor) (e : errorsManager) : errorsManager :=
  mkEM (notNullViolations e) (SafeMap.Set_ (uniqueViolations e) c f) (foreignKeyViolations e) (checkViolations e).
Definition RegisterForeignKeyViolation (c : string) (f : ErrorProcessor) (e : errorsManager) : errorsManager :=
  mkEM (notNullViolations e) (uniqueViolations e) (SafeMap.Set_ (foreignKeyViolations e) c f) (checkViolations e).
Definition RegisterCheckViolation (c : string) (f : ErrorProcessor) (e : errorsManager) : errorsManager :=
  mkEM (notNullViolations e) (uniqueViolations e) (foreignKeyViolations e) (SafeMap.Set_ (checkViolations e) c f).

(** The methods of a pool that return an error of the driver. *)
Inductive method :=
| Exec | Query | QueryRow | BeginTx | Begin | Acquire | AcquireAllIdle | AcquireFunc | CopyFrom | SendBatch.

Definition parseErr (e : errorsManager) (err : option dberror) : option perror := ParsePgError e err.

(** What a method returns for the error of the call; the rows, batches and
    connections that are returned report later errors themselves. *)
Definition method_error (e : errorsManager) (m : method) (err : option dberror) : option perror :=
  match m with
  | Exec | Query | BeginTx | Begin | Acquire | CopyFrom => parseErr e err
  | QueryRow | AcquireAllIdle | AcquireFunc | SendBatch => Raw <$> err
  end.

End ErrorsManager.
Arguments perror P : clear implicits.
Arguments errorsManager P : clear implicits.

(** ** Lemmas on channels *)

(** The channels of the list are distinct, open and known; no buffer is over its capacity. *)
Definition psinv (s : poolState) : Prop :=
  NoDup (notifyChangeChannels s) /\
  (forall ch, ch ∈ notifyChangeChannels s -> exists b, chans s !! ch = Some (mkChan b false)) /\
  (forall ch c, chans s !! ch = Some c -> (ch < next_chan s)%nat /\ (length (buffer c) <= chan_cap)%nat).

Definition push (st : PoolState) (c : chan) : chan :=
  mkChan (take chan_cap (buffer c ++ [st])) (ch_closed c).
Definition shut (c : chan) : chan := mkChan (buffer c) true.

(** A loop over distinct open channels updates each of them once. *)
Lemma each_chan_alter f g l :
  (forall ch b cs, cs !! ch = Some (mkChan b false) -> (length b <= chan_cap)%nat -> f ch cs = Ret (alter g ch cs)) ->
  NoDup l -> forall cs,
  (forall ch, ch ∈ l -> exists b, cs !! ch = Some (mkChan b false) /\ (length b <= chan_cap)%nat) ->
  exists cs', each_chan f l cs = Ret cs' /\
    forall ch, cs' !! ch = if decide (ch ∈ l) then g <$> cs !! ch else cs !! ch.
Proof.
  intros Hf. induction 1 as [|ch l Hnin Hnd IH]; intros cs Hopen; simpl.
  { by exists cs. }
  destruct (Hopen ch) as (b & Hb & Hlen); [set_solver|].
  rewrite (Hf ch b cs Hb Hlen). cbn [outcome_bind].
  destruct (IH (alter g ch cs)) as (cs' & Hrun & Hcs').
  { intros ch' Hin. rewrite lookup_alter_ne by set_solver. apply Hopen. set_solver. }
  exists cs'. split; [done|]. intros ch'. rewrite Hcs'. destruct (decide (ch' = ch)) as [->|Hne].
  - rewrite decide_False by done. rewrite decide_True by set_solver. by rewrite lookup_alter_eq.
  - rewrite lookup_alter_ne by done. repeat case_decide; set_solver.
Qed.

Lemma open_bounded s : psinv s -> forall ch, ch ∈ notifyChangeChannels s ->
  exists b, chans s !! ch = Some (mkChan b false) /\ (length b <= chan_cap)%nat.
Proof. intros (_ & Ho & Hb) ch Hin. destruct (Ho ch Hin) as [b E]. exists b. split; [done|]. by apply (Hb _ _ E). Qed.

(** [Set_] never panics and gives every subscriber with room the new state. *)
Lemma Set_spec st s : psinv s -> exists cs,
  Set_ st s = Ret (mkPS st (mode s) (notifyChangeChannels s) cs (closeChan s) (next_chan s)) /\
  forall ch, cs !! ch =
    if decide (st <> state s /\ ch ∈ notifyChangeChannels s) then push st <$> chans s !! ch else chans s !! ch.
Proof.
  intros Hs. unfold Set_. case_decide as Heq.
  { exists (chans s). destruct s; simpl in *; subst. split; [done|]. intros ch. by rewrite decide_False by tauto. }
  unfold notifyChange. cbn [state notifyChangeChannels chans].
  destruct (each_chan_alter (fun ch => try_send ch st) (push st) (notifyChangeChannels s)) with (cs := chans s)
    as (cs & -> & Hcs).
  - intros ch b cs Hb Hlen. unfold try_send. rewrite Hb. cbn [ch_closed buffer].
    destruct (Nat.ltb_spec (length b) chan_cap).
    + f_equal. apply map_eq. intros ch'. destruct (decide (ch' = ch)) as [->|].
      * rewrite lookup_insert_eq, lookup_alter_eq, Hb. unfold push. simpl. f_equal. rewrite take_ge; [done|].
        rewrite length_app. simpl. lia.
      * by rewrite lookup_insert_ne, lookup_alter_ne by done.
    + f_equal. symmetry. apply map_eq. intros ch'. destruct (decide (ch' = ch)) as [->|].
      * rewrite lookup_alter_eq, Hb. unfold push. simpl. do 2 f_equal. rewrite take_app_le by lia.
        rewrite take_ge; [done|lia].
      * by rewrite lookup_alter_ne by done.
  - apply Hs.
  - by apply open_bounded.
  - exists cs. split; [done|]. intros ch. rewrite Hcs. repeat case_decide; tauto.
Qed.

Lemma Set_psinv st s s' : psinv s -> Set_ st s = Ret s' -> psinv s'.
Proof.
  intros Hs Hr. destruct (Set_spec st s Hs) as (cs & Hr' & Hcs). rewrite Hr in Hr'. simplify_eq.
  destruct Hs as (Hnd & Ho & Hb). split; [done|]. simpl. split.
  - intros ch Hin. rewrite Hcs. destruct (Ho ch Hin) as [b ->]. destruct (decide (_ /\ _)); eexists; reflexivity.
  - intros ch c. rewrite Hcs. destruct (decide (_ /\ _)); [|by apply Hb].
    intros (c0 & E & ->)%fmap_Some. destruct (Hb _ _ E). split; [done|]. simpl. rewrite length_take. lia.
Qed.

Lemma close_channels_spec s : psinv s -> closeChan s = false -> exists s',
  close_channels s = Ret s' /\ psinv s' /\ notifyChangeChannels s' = [] /\ state s' = state s /\ closeChan s' = true.
Proof.
  intros Hs Hc. unfold close_channels. rewrite Hc.
  destruct (each_chan_alter close_chan shut (notifyChangeChannels s)) with (cs := chans s) as (cs & -> & Hcs).
  - intros ch b cs Hb _. unfold close_chan. rewrite Hb. cbn [ch_closed buffer]. f_equal.
    apply map_eq. intros ch'. destruct (decide (ch' = ch)) as [->|].
    + by rewrite lookup_insert_eq, lookup_alter_eq, Hb.
    + by rewrite lookup_insert_ne, lookup_alter_ne by done.
  - apply Hs.
  - by apply open_bounded.
  - eexists. split; [done|]. repeat split; try done; simpl.
    + constructor.
    + intros ch Hin. by apply elem_of_nil in Hin.
    + destruct Hs as (_ & _ & Hb). revert H. rewrite Hcs. case_decide; [|apply Hb].
      intros (c0 & E & ->)%fmap_Some. by apply (Hb _ _ E).
    + destruct Hs as (_ & _ & Hb). revert H. rewrite Hcs. case_decide; [|apply Hb].
      intros (c0 & E & ->)%fmap_Some. by apply (Hb _ _ E).
Qed.

Lemma ctx_done_spec ch s : psinv s -> exists s',
  ctx_done ch s = Ret s' /\ psinv s' /\ state s' = state s /\ closeChan s' = closeChan s.
Proof.
  intros Hs. pose proof Hs as (Hnd & Ho & Hb). unfold ctx_done. case_decide as Hin; [|by exists s].
  destruct (Ho ch Hin) as [b E]. unfold close_chan. rewrite E. cbn [ch_closed outcome_bind buffer].
  eexists. split; [done|]. split; [|done]. split; [by apply NoDup_filter|]. simpl. split.
  - intros ch' [Hne Hin']%list_elem_of_filter. rewrite lookup_insert_ne by done. by apply Ho.
  - intros ch' c. rewrite lookup_insert_Some. intros [[<- <-]|[? E']]; [by apply (Hb _ _ E)|by apply Hb].
Qed.

Lemma SubscribeChange_psinv s : psinv s -> psinv (SubscribeChange s).2.
Proof.
  intros (Hnd & Ho & Hb). unfold SubscribeChange. simpl. split; [|split]; simpl.
  - apply NoDup_app. repeat split; [done| |by apply NoDup_singleton].
    intros ch Hin ->%list_elem_of_singleton. destruct (Ho _ Hin) as [b E]. destruct (Hb _ _ E). lia.
  - intros ch [Hin| ->%list_elem_of_singleton]%elem_of_app.
    + destruct (Ho _ Hin) as [b E]. destruct (Hb _ _ E). rewrite lookup_insert_ne by lia. by exists b.
    + rewrite lookup_insert_eq. by exists [].
  - intros ch c. rewrite lookup_insert_Some. intros [[<- <-]|[? E]]; [simpl; lia|].
    destruct (Hb _ _ E). split; [lia|done].
Qed.

Lemma receive_psinv ch s st s' : psinv s -> receive ch s = Some (st, s') -> psinv s'.
Proof.
  intros (Hnd & Ho & Hb). unfold receive. destruct (chans s !! ch) as [[[|st0 q] cl]|] eqn:E; try done.
  intros [= <- <-]. split; [done|]. simpl. split.
  - intros ch' Hin. destruct (decide (ch' = ch)) as [->|]; [|rewrite lookup_insert_ne by done; by apply Ho].
    rewrite lookup_insert_eq. destruct (Ho _ Hin) as [b E']. rewrite E in E'. simplify_eq. by exists q.
  - intros ch' c. rewrite lookup_insert_Some. intros [[<- <-]|[? E']]; [|by apply Hb].
    destruct (Hb _ _ E). simpl in *. split; [done|lia].
Qed.

(** ** The state under concurrent use *)

(** The goroutine that runs the function of closeOnce: not started, before [state.Set(Closed)], before the
    section that closes the channels, done. *)
Inductive once := OnceIdle | OnceSet | OnceClose | OnceDone.

Record live := mkLive { l_pool : Pool; l_once : once }.

(** What goroutines do with a pool and its state, one critical section each.  [CallClose] is any call of [Pool.Close]: the
    first one starts the function of closeOnce, whose two sections are turns of [CloseTurn]; the others only wait. *)
Inductive pool_op :=
| CallSet (st : PoolState)
| CallSubscribe
| SubscriberDone (ch : nat)
| Receive (ch : nat)
| CallClose
| CloseTurn.

Definition on_state (m : outcome poolState) (l : live) : outcome live :=
  let! s := m in Ret (mkLive (set_ps s (l_pool l)) (l_once l)).

Definition pool_exec (op : pool_op) (l : live) : outcome live :=
  let s := ps (l_pool l) in
  match op with
  | CallSet st => on_state (Set_ st s) l
  | CallSubscribe => on_state (Ret (SubscribeChange s).2) l
  | SubscriberDone ch => on_state (ctx_done ch s) l
  | Receive ch => on_state (Ret (match receive ch s with Some (_, s') => s' | None => s end)) l
  | CallClose =>
      match l_once l with
      | OnceIdle => Ret (mkLive (mkPool s true 0 (verifier (l_pool l))) OnceSet)
      | _ => Ret l
      end
  | CloseTurn =>
      match l_once l with
      | OnceSet => let! s := Set_ HostStateClosed s in Ret (mkLive (set_ps s (l_pool l)) OnceClose)
      | OnceClose => let! s := close_channels s in Ret (mkLive (set_ps s (l_pool l)) OnceDone)
      | _ => Ret l
      end
  end.

Fixpoint pool_run (ops : list pool_op) (l : live) : outcome live :=
  match ops with
  | [] => Ret l
  | op :: ops => let! l := pool_exec op l in pool_run ops l
  end.

(** Without other goroutines in between this is [Pool_Close]. *)
Lemma close_undisturbed p : p_closed p = false ->
  pool_run [CallClose; CloseTurn; CloseTurn] (mkLive p OnceIdle) = (let! p := Pool_Close p in Ret (mkLive p OnceDone)).
Proof.
  intros Hp. unfold Pool_Close, PS_Close. rewrite Hp. simpl. destruct (Set_ HostStateClosed (ps p)) as [s|]; [|done]. simpl.
  by destruct (close_channels s).
Qed.

Definition live_inv (l : live) : Prop :=
  psinv (ps (l_pool l)) /\ closeChan (ps (l_pool l)) = match l_once l with OnceDone => true | _ => false end.

Lemma pool_exec_inv op l : live_inv l -> exists l', pool_exec op l = Ret l' /\ live_inv l'.
Proof.
  intros [Hs Hc]. destruct op as [st| |ch|ch| |]; cbn [pool_exec].
  - destruct (Set_spec st _ Hs) as (cs & E & _). pose proof (Set_psinv _ _ _ Hs E). rewrite E. eexists. by split.
  - eexists. split; [reflexivity|]. split; [by apply SubscribeChange_psinv|done].
  - destruct (ctx_done_spec ch _ Hs) as (s' & E & H' & _ & Hc'). rewrite E. eexists. split; [reflexivity|]. split; [done|].
    simpl. congruence.
  - eexists. split; [reflexivity|]. destruct (receive ch (ps (l_pool l))) as [[st s']|] eqn:E; [|by split].
    split; [by eapply receive_psinv|]. simpl. rewrite <- Hc. unfold receive in E. by repeat case_match; simplify_eq/=.
  - destruct (l_once l) eqn:Eo; (eexists; split; [reflexivity|]); [by split|unfold live_inv; by rewrite Eo..].
  - destruct (l_once l) eqn:Eo.
    + eexists. split; [reflexivity|]. unfold live_inv. by rewrite Eo.
    + destruct (Set_spec HostStateClosed _ Hs) as (cs & E & _). pose proof (Set_psinv _ _ _ Hs E). rewrite E. eexists. by split.
    + destruct (close_channels_spec _ Hs Hc) as (s' & E & H' & _ & _ & Hc'). rewrite E. eexists. split; [reflexivity|]. by split.
    + eexists. split; [reflexivity|]. unfold live_inv. by rewrite Eo.
Qed.

Lemma pool_run_inv ops : forall l, live_inv l -> exists l', pool_run ops l = Ret l' /\ live_inv l'.
Proof.
  induction ops as [|op ops IH]; intros l Hl; cbn [pool_run]; [by exists l|].
  destruct (pool_exec_inv op l Hl) as (l1 & -> & H1). cbn [outcome_bind]. by apply IH.
Qed.

Lemma newPool_psinv mode v : psinv (ps (newPool mode v)).
Proof. split; [constructor|]. split; simpl; [by intros ch ?%elem_of_nil|done]. Qed.

(** ** Lemmas on connecting *)

(** How an attempt ends. *)
Definition attempt_error (v : bool) (a : attempt) : option string :=
  match a_ping a with
  | Some e => Some e
  | None =>
      if v then
        match a_acquire a with
        | Some e => Some e
        | None => match a_verify a with Some e => Some (join ErrMigrationVerify e) | None => None end
        end
      else None
  end.

Lemma set_state_spec st p : psinv (ps p) -> exists s',
  set_state st p = Ret (set_ps s' p) /\ psinv s' /\ state s' = st.
Proof.
  intros Hp. unfold set_state. destruct (Set_spec st _ Hp) as (cs & E & _). rewrite E.
  eexists. split; [done|]. split; [by eapply Set_psinv|done].
Qed.

Lemma validateHealth_spec ping p : psinv (ps p) -> exists s',
  validateHealth ping p = Ret (ping, set_ps s' p) /\ psinv s' /\
  state s' = match ping with None => HostStateConnected | Some _ => HostStateError end.
Proof.
  intros Hp. unfold validateHealth, GetState, Get.
  destruct ping as [e|]; case_decide as Hd; try (exists (ps p); by destruct p).
  - destruct (set_state_spec HostStateError p Hp) as (s' & -> & ? & ?). by exists s'.
  - destruct (set_state_spec HostStateConnected p Hp) as (s' & -> & ? & ?). by exists s'.
Qed.

Lemma verifyMigration_spec a p : psinv (ps p) -> a_ping a = None -> state (ps p) = HostStateConnected ->
  exists s', verifyMigration a p = Ret (attempt_error (verifier p) a, set_ps s' p) /\ psinv s' /\
  state s' = match attempt_error (verifier p) a with None => HostStateConnected | Some _ => HostStateError end.
Proof.
  intros Hp Ha Hst. unfold verifyMigration, attempt_error. rewrite Ha.
  destruct (verifier p) eqn:Ev; simpl; [|exists (ps p); by destruct p].
  destruct (set_state_spec HostStateError p Hp) as (s' & Hset & ? & ?).
  destruct (a_acquire a) as [e|]; [|destruct (a_verify a) as [e|]]; rewrite ?Hset.
  - by exists s'.
  - by exists s'.
  - exists (ps p). by destruct p.
Qed.

Lemma Connect_spec a p : psinv (ps p) -> exists s',
  Connect a p = Ret (attempt_error (verifier p) a,
                     mkPool s' (p_closed p)
                       (match attempt_error (verifier p) a with None => S (health p) | Some _ => health p end)
                       (verifier p)) /\
  psinv s' /\
  state s' = match attempt_error (verifier p) a with None => HostStateConnected | Some _ => HostStateError end.
Proof.
  intros Hp. unfold Connect. destruct (validateHealth_spec (a_ping a) p Hp) as (s1 & -> & H1 & Hst1).
  cbn [outcome_bind]. destruct (a_ping a) as [e|] eqn:Ea.
  { exists s1. unfold attempt_error. by rewrite Ea. }
  destruct (verifyMigration_spec a (set_ps s1 p)) as (s2 & -> & H2 & Hst2); [done..|].
  cbn [outcome_bind]. exists s2. cbn [set_ps verifier p_closed] in *.
  destruct (attempt_error (verifier p) a); (split; [done|by split]).
Qed.

(** The numbers of the attempts from [i] on. *)
Fixpoint numbers (i : Z) (n : nat) : list Z := match n with 0%nat => [] | S n => i :: numbers (i + 1) n end.

(** A failed attempt that is not the last: wait and go on. *)
Lemma retry_again strategy base answers n i last p e : psinv (ps p) -> (0 < n)%nat ->
  attempt_error (verifier p) (answers i) = Some e ->
  exists s', psinv s' /\ state s' = HostStateError /\
  retry_loop (S n) i strategy base answers (fun _ => false) last p =
    outcome_bind (retry_loop n (i + 1) strategy base answers (fun _ => false) (Some e) (set_ps s' p))
      (fun '(err, waits, p) => Ret (err, strategy base i :: waits, p)).
Proof.
  intros Hp Hn He. destruct (Connect_spec (answers i) p Hp) as (s1 & Hc & H1 & Hst).
  rewrite He in Hc, Hst. exists s1. split; [done|]. split; [done|]. cbn [retry_loop]. rewrite Hc. cbn [outcome_bind].
  destruct (Nat.ltb_spec 0 n); [done|lia].
Qed.

Lemma retry_succeeds strategy base answers k : forall n i last p,
  psinv (ps p) -> (k < n)%nat ->
  (forall j, i <= j < i + Z.of_nat k -> is_Some (attempt_error (verifier p) (answers j))) ->
  attempt_error (verifier p) (answers (i + Z.of_nat k)) = None ->
  exists s', retry_loop n i strategy base answers (fun _ => false) last p =
    Ret (None, strategy base <$> numbers i k, mkPool s' (p_closed p) (S (health p)) (verifier p)) /\
  state s' = HostStateConnected.
Proof.
  induction k as [|k IH]; intros n i last p Hp Hk Hf Hok; (destruct n as [|n]; [lia|]).
  - rewrite Z.add_0_r in Hok. destruct (Connect_spec (answers i) p Hp) as (s1 & Hc & _ & Hst).
    rewrite Hok in Hc, Hst. exists s1. cbn [retry_loop]. by rewrite Hc.
  - destruct (Hf i) as [e He]; [lia|].
    destruct (retry_again strategy base answers n i last p e) as (s1 & H1 & _ & ->); [done|lia|done|].
    destruct (IH n (i + 1) (Some e) (set_ps s1 p)) as (s2 & -> & Hst); [done|lia| | |by exists s2].
    + intros j Hj. apply Hf. lia.
    + rewrite <- Hok. do 2 f_equal. lia.
Qed.

Lemma retry_fails strategy base answers m : forall i last p,
  psinv (ps p) ->
  (forall j, i <= j <= i + Z.of_nat m -> is_Some (attempt_error (verifier p) (answers j))) ->
  exists s', retry_loop (S m) i strategy base answers (fun _ => false) last p =
    Ret (attempt_error (verifier p) (answers (i + Z.of_nat m)), strategy base <$> numbers i m, set_ps s' p) /\
  state s' = HostStateError.
Proof.
  induction m as [|m IH]; intros i last p Hp Hf; (destruct (Hf i) as [e He]; [lia|]).
  - destruct (Connect_spec (answers i) p Hp) as (s1 & Hc & _ & Hst). rewrite He in Hc, Hst.
    exists s1. cbn [retry_loop]. rewrite Hc. cbn [outcome_bind Nat.ltb Nat.leb]. by rewrite Z.add_0_r, He.
  - destruct (retry_again strategy base answers (S m) i last p e) as (s1 & H1 & _ & ->); [done|lia|done|].
    destruct (IH (i + 1) (Some e) (set_ps s1 p)) as (s2 & -> & Hst); [done| |].
    + intros j Hj. apply Hf. lia.
    + exists s2. split; [|done]. by replace (i + Z.of_nat (S m)) with (i + 1 + Z.of_nat m) by lia.
Qed.

(** What any run of the loop leaves. *)
Lemma retry_result strategy base answers n : forall i last p err waits p',
  psinv (ps p) -> (0 < n)%nat \/ is_Some last /\ state (ps p) = HostStateError ->
  retry_loop n i strategy base answers (fun _ => false) last p = Ret (err, waits, p') ->
  psinv (ps p') /\
  match err with
  | None => state (ps p') = HostStateConnected /\ health p' = S (health p)
  | Some _ => state (ps p') = HostStateError /\ health p' = health p
  end.
Proof.
  induction n as [|n IH]; intros i last p err waits p' Hp Hn; cbn [retry_loop].
  { destruct Hn as [?|[[l ->] ?]]; [lia|]. by intros [= <- <- <-]. }
  destruct (Connect_spec (answers i) p Hp) as (s1 & -> & H1 & Hst). cbn [outcome_bind].
  destruct (attempt_error (verifier p) (answers i)) as [e|]; [|by intros [= <- <- <-]].
  destruct (0 <? n)%nat.
  - destruct (retry_loop n (i + 1) _ _ _ _ _ _) as [[[err1 w1] p1]|] eqn:E; [|done]. cbn [outcome_bind].
    intros [= <- <- <-]. eapply IH in E; [done|done|]. right. split; [by eexists|done].
  - intros E. eapply IH in E; [done|done|]. right. split; [by eexists|done].
Qed.

(** ** Lemmas on strategies *)

Lemma least_fold load es : forall m r,
  0 < m -> (forall e, e ∈ es -> 0 < load e.2) ->
  exists m' r', fold_left (least_step load) es (m, Some r) = (m', Some r') /\
    (m = load r -> m' = load r') /\ m' <= m /\ (forall e, e ∈ es -> m' <= load e.2) /\
    (r' = r \/ r' ∈ es.*2).
Proof.
  induction es as [|[k h] es IH]; intros m r Hm Hpos; simpl.
  { exists m, r. repeat split; try done; [|by left]. by intros e ?%elem_of_nil. }
  assert (0 < load h) as Hh by (apply (Hpos (k, h)); set_solver).
  destruct (Z.eqb_spec m 0); [lia|]. simpl.
  destruct (Z.ltb_spec (load h) m).
  - destruct (IH (load h) h) as (m' & r' & -> & Hl & Hle & Hmin & Hin); [done|set_solver|].
    exists m', r'. repeat split; try done; [by intros _; apply Hl|lia| |right; set_solver].
    intros e [->|He]%elem_of_cons; [done|by apply Hmin].
  - destruct (IH m r) as (m' & r' & -> & Hl & Hle & Hmin & Hin); [done|set_solver|].
    exists m', r'. repeat split; try done; [|set_solver].
    intros e [->|He]%elem_of_cons; [simpl; lia|by apply Hmin].
Qed.

(** ** Properties *)

(** C14: whatever the order in which goroutines set the state of a pool, subscribe to it, leave, receive and
    close the pool, as often as they like, none of these operations panics: the channels on the list of
    subscribers are open, so no state is sent to a closed one and none is closed twice.  The state itself must not be closed twice, which
    would panic; closeOnce lets it happen once. *)
Theorem pool_state_never_panics mode v ops : exists l,
  pool_run ops (mkLive (newPool mode v) OnceIdle) = Ret l /\
  let s := ps (l_pool l) in
  (forall ch, ch ∈ notifyChangeChannels s -> exists b, chans s !! ch = Some (mkChan b false)) /\
  (l_once l <> OnceDone -> exists s', PS_Close s = Ret s' /\ state s' = HostStateClosed /\ notifyChangeChannels s' = []) /\
  (l_once l = OnceDone -> PS_Close s = Panic "close of closed channel").
Proof.
  destruct (pool_run_inv ops (mkLive (newPool mode v) OnceIdle)) as (l & Hr & Hs & Hc).
  { split; [apply newPool_psinv|done]. }
  exists l. split; [done|]. cbv zeta. split; [apply Hs|]. unfold PS_Close.
  destruct (Set_spec HostStateClosed _ Hs) as (cs & E & _). pose proof (Set_psinv _ _ _ Hs E) as H1. rewrite E. cbn [outcome_bind].
  split; intros Ho.
  - match goal with |- context [close_channels ?x] => destruct (close_channels_spec x H1) as (s' & -> & _ & Hn & Hst & _) end;
      [simpl; rewrite Hc; by destruct (l_once l)|by exists s'].
  - unfold close_channels. simpl. by rewrite Hc, Ho.
Qed.

(** ConnectWithRetry returns after the first attempt that succeeds, the pool being
    connected and checked by one more health check, and after all attempts with the
    error of the last one otherwise; between attempts it waits what the strategy
    says for their numbers. *)
Theorem connect_with_retry max strategy base answers p :
  psinv (ps p) -> 1 <= max ->
  (forall k, 0 <= k < max ->
     (forall j, 1 <= j <= k -> is_Some (attempt_error (verifier p) (answers j))) ->
     attempt_error (verifier p) (answers (k + 1)) = None ->
     exists s', ConnectWithRetry max strategy base answers (fun _ => false) p =
       Ret (None, strategy base <$> numbers 1 (Z.to_nat k),
            mkPool s' (p_closed p) (S (health p)) (verifier p)) /\ state s' = HostStateConnected) /\
  ((forall j, 1 <= j <= max -> is_Some (attempt_error (verifier p) (answers j))) ->
     exists s', ConnectWithRetry max strategy base answers (fun _ => false) p =
       Ret (attempt_error (verifier p) (answers max), strategy base <$> numbers 1 (Z.to_nat max - 1),
            set_ps s' p) /\ state s' = HostStateError).
Proof.
  intros Hp Hmax. split.
  - intros k Hk Hf Hok. apply retry_succeeds; [done|lia| |].
    + intros j Hj. apply Hf. lia.
    + rewrite Z2Nat.id by lia. by rewrite Z.add_comm.
  - intros Hf. unfold ConnectWithRetry.
    destruct (retry_fails strategy base answers (Z.to_nat max - 1) 1 None p Hp) as (s' & E & Hst).
    { intros j Hj. apply Hf. lia. }
    replace (S (Z.to_nat max - 1)) with (Z.to_nat max) in E by lia.
    replace (1 + Z.of_nat (Z.to_nat max - 1)) with max in E by lia. by exists s'.
Qed.

Definition demo_answers (j : Z) : attempt :=
  if j <? 3 then mkAttempt (Some "connection refused") None None else mkAttempt None None None.

Lemma connect_with_retry_witness :
  exists s', ConnectWithRetry 5 RetryStrategyLinear 2 demo_answers (fun _ => false) (newPool "any" true) =
    Ret (None, [2 * Second; 4 * Second], mkPool s' false 1 true) /\ state s' = HostStateConnected.
Proof.
  destruct (connect_with_retry 5 RetryStrategyLinear 2 demo_answers (newPool "any" true)) as [H _].
  - apply newPool_psinv.
  - lia.
  - apply (H 2); [lia| |reflexivity]. intros j Hj. unfold demo_answers.
    destruct (Z.ltb_spec j 3); [by eexists|lia].
Defined.

(** With replicas that all have connections in use, LeastConnectionsPickStrategy returns
    one with the fewest, and nil only for an empty store. *)
Theorem least_connections_minimal load es : (forall e, e ∈ es -> 0 < load e.2) ->
  match LeastConnectionsPickStrategy load es with
  | None => es = []
  | Some h => h ∈ es.*2 /\ forall e, e ∈ es -> load h <= load e.2
  end.
Proof.
  intros Hpos. unfold LeastConnectionsPickStrategy. destruct es as [|[k h] es]; [done|]. simpl.
  destruct (least_fold load es (load h) h) as (m & r & -> & Hm & Hle & Hmin & Hin).
  - apply (Hpos (k, h)). set_solver.
  - set_solver.
  - simpl. rewrite <- (Hm eq_refl). split; [set_solver|].
    intros e [->|He]%elem_of_cons; [done|by apply Hmin].
Qed.

Lemma least_connections_minimal_witness :
  let load h := if (h =? 0)%nat then 7 else 3 in
  LeastConnectionsPickStrategy load [("a", 0%nat); ("b", 1%nat)] = Some 1%nat /\
  (forall e, e ∈ [("a", 0%nat); ("b", 1%nat)] -> load 1%nat <= load e.2).
Proof.
  intros load. split; [reflexivity|].
  apply (least_connections_minimal load [("a", 0%nat); ("b", 1%nat)]).
  intros e _. subst load. simpl. by case_match.
Defined.

(** An idle replica is passed over: when one with no connection in use is the best so
    far, the next one visited is taken whatever its load. *)
Theorem idle_replica_replaced load es idle busy : load idle.2 = 0 ->
  (forall e, e ∈ es -> 0 <= load e.2) ->
  LeastConnectionsPickStrategy load (es ++ [idle; busy]) = Some busy.2.
Proof.
  intros Hi Hpos. unfold LeastConnectionsPickStrategy. rewrite fold_left_app.
  destruct (fold_left (least_step load) es (0, None)) as [m r] eqn:E. simpl. rewrite Hi.
  destruct (Z.eqb_spec m 0) as [->|Hm]; simpl; [done|].
  enough (0 <= m) by (by destruct (Z.ltb_spec 0 m); [|lia]).
  enough (forall l acc, 0 <= acc.1 -> (forall e, e ∈ l -> 0 <= load e.2) ->
            0 <= (fold_left (least_step load) l acc).1) as G.
  { specialize (G es (0, None)). rewrite E in G. apply G; [done|done]. }
  induction l as [|e l IH]; intros [a b] Ha Hl; simpl; [done|].
  apply IH; [|set_solver]. case_match; simpl in *; [apply Hl; set_solver|done].
Qed.

Lemma idle_replica_replaced_witness :
  LeastConnectionsPickStrategy (fun h => if (h =? 0)%nat then 0 else 50) [("a", 0%nat); ("b", 1%nat)] = Some 1%nat.
Proof. apply (idle_replica_replaced _ [] ("a", 0%nat) ("b", 1%nat)); [reflexivity|]. by intros e ?%elem_of_nil. Defined.

(** The strategy and the retry interval that a caller configures for standbys never
    reach the standby manager: the merge keeps the defaults. *)
Theorem standby_options_dropped IntN cfg options :
  let c := c_Standby (effective_config IntN (options ++ [WithStandbyConfig cfg])) in
  sb_PickStrategy c = Some (RandomPickStrategy IntN) /\
  sb_UnhealthyReplicaRetryInterval c = 30 * Minute /\
  (0 < sb_HealthCheckInterval cfg -> sb_HealthCheckInterval c = sb_HealthCheckInterval cfg).
Proof.
  unfold effective_config. rewrite fold_left_app. simpl. repeat split. intros H. unfold pos_or.
  by destruct (Z.ltb_spec 0 (sb_HealthCheckInterval cfg)); [|lia].
Qed.

(** The merged primary configuration is usable: attempts, intervals and the base are
    positive and there is a strategy; what the caller set to a positive value is kept. *)
Theorem primary_config_merged c :
  let m := mergePrimaryPoolConfigWithDefault c in
  1 <= pr_RetryAttempts m /\ 0 < pr_RetryInterval m /\ 0 < pr_HealthCheckInterval m /\
  0 < pr_HealthCheckTimeout m /\ 0 < pr_RetryStrategyBaseValue m /\ is_Some (pr_RetryStrategy m) /\
  (0 < pr_RetryAttempts c -> pr_RetryAttempts m = pr_RetryAttempts c) /\
  (0 < pr_MaxConns c -> pr_MaxConns m = pr_MaxConns c).
Proof.
  simpl. unfold pos_or, some_or, Second.
  repeat split; repeat case_match; z_bool; try lia; done.
Qed.

Section ErrorProperties.
Context {P : Type}.
Implicit Types (e : errorsManager P) (f : @ErrorProcessor P).

(** The maps of a manager are allocated. *)
Definition em_ok e : Prop :=
  is_Some (uniqueViolations e) /\ is_Some (foreignKeyViolations e) /\ is_Some (checkViolations e) /\
  is_Some (notNullViolations e) /\
  (forall table cols, SafeMap.Get (notNullViolations e) table = Some cols -> is_Some cols).

Lemma newErrorsManager_ok : em_ok (newErrorsManager (P := P)).
Proof.
  do 4 (split; [by eexists|]). intros table cols. simpl. by rewrite lookup_empty.
Qed.

Lemma get_set {V} (m : SafeMap.SafeMap string V) k v : is_Some m -> SafeMap.Get (SafeMap.Set_ m k v) k = Some v.
Proof. intros [x ->]. simpl. by rewrite lookup_insert_eq. Qed.

(** A processor registered for a constraint or a column makes the error of the next
    violation of it; a second registration for a column is refused and the first
    processor stays. *)
Theorem registered_processor_used e f pg text : em_ok e ->
  let err := Some (mkErr text (Some pg)) in
  (pg_Code pg = "23505" ->
     ParsePgError (RegisterUniqueViolation (ConstraintName pg) f e) err = Some (Processed (f pg))) /\
  (pg_Code pg = "23503" ->
     ParsePgError (RegisterForeignKeyViolation (ConstraintName pg) f e) err = Some (Processed (f pg))) /\
  (pg_Code pg = "23514" ->
     ParsePgError (RegisterCheckViolation (ConstraintName pg) f e) err = Some (Processed (f pg))) /\
  (pg_Code pg = "23502" ->
     match getNotNullViolation e (TableName pg) (ColumnName pg),
           RegisterNotNullViolationProcessor (TableName pg) (ColumnName pg) f e with
     | None, (res, e') => res = None /\ ParsePgError e' err = Some (Processed (f pg))
     | Some g, (res, e') => is_Some res /\ ParsePgError e' err = Some (Processed (g pg))
     end).
Proof.
  intros (Hu & Hf & Hc & Hn & Hcols) err. subst err. unfold ParsePgError. cbn [e_pg].
  repeat split; intros ->; simpl.
  - unfold parseUniqueViolation, getUniqueViolation. cbn [uniqueViolations RegisterUniqueViolation].
    by rewrite get_set.
  - unfold parseForeignKeyViolation, getForeignKeyViolation. cbn [foreignKeyViolations RegisterForeignKeyViolation].
    by rewrite get_set.
  - unfold parseCheckViolation, getCheckViolation. cbn [checkViolations RegisterCheckViolation].
    by rewrite get_set.
  - unfold RegisterNotNullViolationProcessor, parseNotNullViolation, getNotNullViolation.
    destruct (SafeMap.Get (notNullViolations e) (TableName pg)) as [cols|] eqn:E; cbn [from_option id].
    + destruct (SafeMap.Get cols (ColumnName pg)) as [g|] eqn:Eg; cbn [notNullViolations].
      * rewrite (get_set (notNullViolations e)) by done. rewrite Eg. by split.
      * rewrite (get_set (notNullViolations e)) by done. by rewrite (get_set cols) by eauto.
    + destruct (SafeMap.Get (SafeMap.New None) (ColumnName pg)) as [g|] eqn:Eg; [done|].
      cbn [notNullViolations]. rewrite (get_set (notNullViolations e)) by done. by rewrite get_set.
Qed.

(** Errors that carry no PostgreSQL error, or one of another class, are returned as
    they are; the methods that return rows, batches or connections without parsing
    do so for every error. *)
Theorem raw_methods e m err : m ∈ [QueryRow; AcquireFunc; SendBatch] ->
  method_error e m (Some err) = Some (Raw err).
Proof. intros Hm. repeat (apply elem_of_cons in Hm as [->|Hm]; [done|]). by apply elem_of_nil in Hm. Qed.

End ErrorProperties.

Lemma registered_processor_used_witness :
  let pg := mkPg "23505" "duplicate key" "public" "users" "" "users_email_key" in
  ParsePgError (RegisterUniqueViolation "users_email_key" (fun _ => "email taken") newErrorsManager)
    (Some (mkErr "ERROR" (Some pg))) = Some (Processed "email taken").
Proof.
  intros pg.
  destruct (registered_processor_used newErrorsManager (fun _ => "email taken") pg "ERROR") as [H _].
  - apply newErrorsManager_ok.
  - by apply H.
Defined.

End Pgw.
