(* ===== verification/PgwMonitor.v ===== *)
(** * The goroutines that watch the pools: src/infra/pgw (pool_manager.go, standby_manager.go)

    The monitor of the primary pool and that of a standby, each interleaved with the
    health check of its pool.  [ConnectWithRetry] holds a lock and is one step; so are
    a tick of the health check, a subscription and a receive. *)
From stdpp Require Import prelude strings list gmap.
From Stdlib Require Import ZArith Lia.
From S2P Require Import Prelude SafeMap Pgw.

Local Open Scope Z_scope.

Module PgwMonitor.
Import Pgw.

(** Where a monitor goroutine is: about to subscribe, waiting on a channel, in
    [reconnectMasterLoop], or over. *)
Inductive monitor := Starting | Watching (ch : nat) | Reconnecting | Stopped.

Section Supervisor.
(** The configured attempts, strategy and base of the retries. *)
Context (max : Z) (strategy : RetryStrategy) (base : Z).

(** ** The primary *)

Record primary := mkPrimaryNode { m_pool : Pool; m_mon : monitor }.

(** [initPrimary] after a connection: the monitor goroutine has been started. *)
Definition initial (n : primary) : Prop :=
  exists mode v answers waits p,
    ConnectWithRetry max strategy base answers (fun _ => false) (newPool mode v) = Ret (None, waits, p) /\
    n = mkPrimaryNode p Starting.

(** [startMasterMonitor]: subscribing, and what follows a received state. *)
Definition subscribe (n : primary) : primary :=
  let '(ch, s) := SubscribeChange (ps (m_pool n)) in
  mkPrimaryNode (set_ps s (m_pool n)) (Watching ch).

Definition on_state (st : PoolState) (ch : nat) (p : Pool) : primary :=
  if decide (st = HostStateError) then mkPrimaryNode p Reconnecting else mkPrimaryNode p (Watching ch).

(** A turn of [reconnectMasterLoop]. *)
Definition on_reconnect (err : option string) (p : Pool) : primary :=
  mkPrimaryNode p (match err with None => Starting | Some _ => Reconnecting end).

Inductive mstep : primary -> primary -> Prop :=
| m_tick ping p p' mon : (0 < health p)%nat -> health_tick ping p = Ret p' ->
    mstep (mkPrimaryNode p mon) (mkPrimaryNode p' mon)
| m_subscribe p : mstep (mkPrimaryNode p Starting) (subscribe (mkPrimaryNode p Starting))
| m_receive ch p st s : receive ch (ps p) = Some (st, s) ->
    mstep (mkPrimaryNode p (Watching ch)) (on_state st ch (set_ps s p))
| m_leave ch p s mon : mon <> Watching ch -> ctx_done ch (ps p) = Ret s ->
    mstep (mkPrimaryNode p mon) (mkPrimaryNode (set_ps s p) mon)
| m_reconnect answers err waits p p' :
    ConnectWithRetry max strategy base answers (fun _ => false) p = Ret (err, waits, p') ->
    mstep (mkPrimaryNode p Reconnecting) (on_reconnect err p')
| m_close p p' mon : Pool_Close p = Ret p' -> mstep (mkPrimaryNode p mon) (mkPrimaryNode p' Stopped).

(** Steps in which the health check does not fail before the monitor has subscribed. *)
Definition attentive (n n' : primary) : Prop :=
  mstep n n' /\ (m_mon n = Starting -> GetState (m_pool n') <> HostStateError).

(** ** A standby *)

(** [in_store] and [in_unhealthy] tell which maps of the manager hold the host;
    [moving] that a goroutine of [monitorUnhealthy] is about to move it. *)
Record standby := mkStandbyNode {
  s_pool : Pool; s_mon : monitor; in_store : bool; in_unhealthy : bool; adding : bool; moving : bool
}.

(** [AddStandby] before its goroutine has connected. *)
Definition AddStandby (mode : string) (v : bool) : standby :=
  mkStandbyNode (newPool mode v) Stopped false false true false.

(** The end of that goroutine. *)
Definition added (err : option string) (p : Pool) : standby :=
  match err with
  | Some _ => mkStandbyNode p Stopped false true false false
  | None => mkStandbyNode p Starting true false false false
  end.

Definition moveToUnhealthy (n : standby) : standby :=
  if in_store n then mkStandbyNode (s_pool n) (s_mon n) false true (adding n) (moving n) else n.

Definition with_mon (mon : monitor) (n : standby) : standby :=
  mkStandbyNode (s_pool n) mon (in_store n) (in_unhealthy n) (adding n) (moving n).
Definition with_pool (p : Pool) (n : standby) : standby :=
  mkStandbyNode p (s_mon n) (in_store n) (in_unhealthy n) (adding n) (moving n).

(** [monitorStateChange] after a received state. *)
Definition on_change (st : PoolState) (ch : nat) (n : standby) : standby :=
  match st with
  | HostStateError => with_mon Stopped (moveToUnhealthy n)
  | HostStateClosed =>
      mkStandbyNode (s_pool n) Stopped false (in_unhealthy n) (adding n) (moving n)
  | _ => n
  end.

(** [monitorUnhealthy]: a host of the unhealthy store on a tick, and the move. *)
Definition retried (err : option string) (p : Pool) (n : standby) : standby :=
  match err with
  | Some _ => with_pool p n
  | None => mkStandbyNode p Starting (in_store n) (in_unhealthy n) (adding n) true
  end.
Definition dropped (n : standby) : standby :=
  mkStandbyNode (s_pool n) (s_mon n) (in_store n) false (adding n) (moving n).
Definition moved (n : standby) : standby :=
  mkStandbyNode (s_pool n) (s_mon n) true false (adding n) false.

Definition connects (answers : Z -> attempt) (p : Pool) (err : option string) (p' : Pool) : Prop :=
  exists waits, ConnectWithRetry max strategy base answers (fun _ => false) p = Ret (err, waits, p').

Inductive sstep : standby -> standby -> Prop :=
| s_added answers err n p' : adding n = true -> connects answers (s_pool n) err p' -> sstep n (added err p')
| s_tick ping n p' : (0 < health (s_pool n))%nat -> health_tick ping (s_pool n) = Ret p' ->
    sstep n (with_pool p' n)
| s_subscribe n ch s : s_mon n = Starting -> SubscribeChange (ps (s_pool n)) = (ch, s) ->
    sstep n (with_mon (Watching ch) (with_pool (set_ps s (s_pool n)) n))
| s_receive n ch st s : s_mon n = Watching ch -> receive ch (ps (s_pool n)) = Some (st, s) ->
    sstep n (on_change st ch (with_pool (set_ps s (s_pool n)) n))
| s_retry answers err n p' : in_unhealthy n = true -> moving n = false ->
    GetState (s_pool n) <> HostStateClosed -> connects answers (s_pool n) err p' -> sstep n (retried err p' n)
| s_drop n : in_unhealthy n = true -> moving n = false -> GetState (s_pool n) = HostStateClosed ->
    sstep n (dropped n)
| s_move n : moving n = true -> sstep n (moved n)
| s_close n p' : Pool_Close (s_pool n) = Ret p' -> sstep n (with_pool p' n).

(** ** Lemmas *)

Hypothesis max_pos : 1 <= max.

Lemma connect_result answers p err waits p' : psinv (ps p) ->
  ConnectWithRetry max strategy base answers (fun _ => false) p = Ret (err, waits, p') ->
  psinv (ps p') /\
  match err with
  | None => GetState p' = HostStateConnected /\ health p' = S (health p)
  | Some _ => GetState p' = HostStateError /\ health p' = health p
  end.
Proof. intros Hp E. eapply retry_result in E; [done|done|]. left. lia. Qed.

(** A tick of the health check. *)
Lemma tick_result ping p p' : psinv (ps p) -> health_tick ping p = Ret p' ->
  psinv (ps p') /\
  (exists cs, ps p' = mkPS (GetState p') (mode (ps p)) (notifyChangeChannels (ps p)) cs
                      (closeChan (ps p)) (next_chan (ps p)) /\
     forall ch, cs !! ch =
       if decide (GetState p' <> GetState p /\ ch ∈ notifyChangeChannels (ps p))
       then push (GetState p') <$> chans (ps p) !! ch else chans (ps p) !! ch) /\
  match ping with
  | None => GetState p' = HostStateConnected /\ health p' = health p
  | Some _ => GetState p' = HostStateError /\ health p' = (health p - 1)%nat
  end.
Proof.
  intros Hp. unfold health_tick, validateHealth.
  assert (forall st, exists s', Set_ st (ps p) = Ret s' /\ psinv s' /\
    (exists cs, s' = mkPS st (mode (ps p)) (notifyChangeChannels (ps p)) cs (closeChan (ps p)) (next_chan (ps p)) /\
     forall ch, cs !! ch = if decide (st <> GetState p /\ ch ∈ notifyChangeChannels (ps p))
       then push st <$> chans (ps p) !! ch else chans (ps p) !! ch)) as Hset.
  { intros st. destruct (Set_spec st (ps p) Hp) as (cs & E & Hcs). eexists. split; [done|].
    split; [by eapply Set_psinv|]. by exists cs. }
  destruct ping as [e|].
  - destruct (Hset HostStateError) as (s' & E & Hs' & Hcs).
    intros Hr. assert (p' = mkPool s' (p_closed p) (health p - 1) (verifier p)) as ->.
    2: { destruct Hcs as (cs & -> & Hcs). split; [done|]. split; [by exists cs|done]. }
    revert Hr. destruct (decide (GetState p = HostStateError)) as [Hd|Hd]; cbn [outcome_bind].
    + assert (s' = ps p) as -> by (unfold Set_ in E; rewrite decide_True in E by done; congruence).
      by intros ?; simplify_eq.
    + unfold set_state. rewrite E. by intros ?; simplify_eq/=.
  - destruct (Hset HostStateConnected) as (s' & E & Hs' & Hcs).
    intros Hr. assert (p' = mkPool s' (p_closed p) (health p) (verifier p)) as ->.
    2: { destruct Hcs as (cs & -> & Hcs). split; [done|]. split; [by exists cs|done]. }
    revert Hr. destruct (decide (GetState p = HostStateConnected)) as [Hd|Hd]; cbn [outcome_bind].
    + assert (s' = ps p) as -> by (unfold Set_ in E; rewrite decide_True in E by done; congruence).
      by intros ?; simplify_eq; destruct p'.
    + unfold set_state. rewrite E. by intros ?; simplify_eq/=.
Qed.

Lemma ctx_done_other ch ch' s s' : ctx_done ch s = Ret s' -> ch' <> ch ->
  chans s' !! ch' = chans s !! ch' /\ state s' = state s /\
  (ch' ∈ notifyChangeChannels s -> ch' ∈ notifyChangeChannels s').
Proof.
  unfold ctx_done, close_chan. intros E Hne. case_decide; [|by simplify_eq].
  destruct (chans s !! ch) as [c|] eqn:Ec.
  - destruct (ch_closed c); [done|]. cbn [outcome_bind] in E. simplify_eq. simpl.
    rewrite lookup_insert_ne by done. split; [done|]. split; [done|]. intros ?. by apply list_elem_of_filter.
  - cbn [outcome_bind] in E. simplify_eq. simpl. split; [done|]. split; [done|].
    intros ?. by apply list_elem_of_filter.
Qed.

(** The invariant of a monitored primary: an error that the monitor has not taken yet
    is in its channel, and at most one health check runs. *)
Definition monitored (n : primary) : Prop :=
  match m_mon n with
  | Starting => psinv (ps (m_pool n)) /\ GetState (m_pool n) = HostStateConnected /\ health (m_pool n) = 1%nat
  | Watching ch =>
      psinv (ps (m_pool n)) /\ ch ∈ notifyChangeChannels (ps (m_pool n)) /\
      (GetState (m_pool n) = HostStateConnected /\ health (m_pool n) = 1%nat /\
         chans (ps (m_pool n)) !! ch = Some (mkChan [] false) \/
       GetState (m_pool n) = HostStateError /\ health (m_pool n) = 0%nat /\
         chans (ps (m_pool n)) !! ch = Some (mkChan [HostStateError] false))
  | Reconnecting => psinv (ps (m_pool n)) /\ GetState (m_pool n) = HostStateError /\ health (m_pool n) = 0%nat
  | Stopped => True
  end.

Lemma initial_monitored n : initial n -> monitored n.
Proof.
  intros (mode & v & answers & waits & p & E & ->). apply connect_result in E as (Hp & Hst & Hh).
  - done.
  - apply newPool_psinv.
Qed.

Lemma tick_monitored ping p p' mon : monitored (mkPrimaryNode p mon) -> (0 < health p)%nat ->
  health_tick ping p = Ret p' -> (mon = Starting -> GetState p' <> HostStateError) ->
  monitored (mkPrimaryNode p' mon).
Proof.
  intros Hm Hh E Hatt. destruct mon as [|ch| |]; [| | |done].
  - destruct Hm as (Hp & Hst & Hh1). destruct (tick_result _ _ _ Hp E) as (Hp' & _ & Hres).
    destruct ping; destruct Hres as [Hs Hhp]; [by destruct (Hatt eq_refl)|].
    split; [done|]. split; [done|]. simpl in *. lia.
  - destruct Hm as (Hp & Hin & [(Hst & Hh1 & Hch)|(_ & Hh0 & _)]); [|simpl in *; lia].
    destruct (tick_result _ _ _ Hp E) as (Hp' & (cs & Hps & Hcs) & Hres). simpl in *.
    unfold monitored. cbn [m_pool m_mon]. split; [done|]. rewrite Hps. cbn [notifyChangeChannels chans]. split; [done|]. rewrite Hcs, Hch, Hst.
    destruct ping; destruct Hres as [Hs Hhp]; rewrite Hs.
    + right. split; [done|]. split; [lia|]. by rewrite decide_True.
    + left. split; [done|]. split; [lia|]. rewrite decide_False by tauto. done.
  - destruct Hm as (_ & _ & Hh0). simpl in *. lia.
Qed.

Lemma attentive_monitored n n' : monitored n -> attentive n n' -> monitored n'.
Proof.
  intros Hm [Hs Hatt].
  destruct Hs as [ping p p' mon Hh E|p|ch p st s E|ch p s mon Hne E|answers err waits p p' E|p p' mon E].
  - by eapply tick_monitored.
  - destruct Hm as (Hp & Hst & Hh). simpl in *. split; [by apply SubscribeChange_psinv|].
    simpl. split; [set_solver|]. left. split; [done|]. split; [done|]. by rewrite lookup_insert_eq.
  - destruct Hm as (Hp & Hin & Hcase). unfold on_state. simpl in *.
    pose proof (receive_psinv _ _ _ _ Hp E) as Hs. unfold receive in E.
    destruct Hcase as [(Hst & Hh & Hch)|(Hst & Hh & Hch)]; rewrite Hch in E; [done|].
    simplify_eq. rewrite decide_True by done. split; [exact Hs|by split].
  - unfold monitored in *. destruct mon as [|ch'| |]; [| | |done]; simpl in *.
    + destruct Hm as (Hp & Hst & Hh). destruct (ctx_done_spec ch _ Hp) as (s' & E' & Hp' & Hst' & _).
      rewrite E in E'. simplify_eq. split; [done|]. unfold GetState, Get in *. simpl. by rewrite Hst'.
    + destruct Hm as (Hp & Hin & Hcase). destruct (ctx_done_spec ch _ Hp) as (s' & E' & Hp' & Hst' & _).
      rewrite E in E'. simplify_eq. destruct (ctx_done_other ch ch' _ _ E) as (Hch & _ & Hin'); [congruence|].
      split; [done|]. split; [by apply Hin'|]. unfold GetState, Get in *. simpl. by rewrite Hst', Hch.
    + destruct Hm as (Hp & Hst & Hh). destruct (ctx_done_spec ch _ Hp) as (s' & E' & Hp' & Hst' & _).
      rewrite E in E'. simplify_eq. split; [done|]. unfold GetState, Get in *. simpl. by rewrite Hst'.
  - destruct Hm as (Hp & Hst & Hh). simpl in *. apply connect_result in E as [Hp' Hres]; [|done].
    destruct err; destruct Hres as [Hs Hhp]; (split; [done|]); (split; [done|]); simpl; rewrite Hhp, Hh; done.
  - done.
Qed.

(** A primary that nobody will reconnect: its last state is an error, no health check
    runs and the monitor waits on an empty channel. *)
Definition dead (n : primary) : Prop :=
  GetState (m_pool n) = HostStateError /\ health (m_pool n) = 0%nat /\
  exists ch, m_mon n = Watching ch /\ chans (ps (m_pool n)) !! ch = Some (mkChan [] false).

Lemma dead_step n n' : dead n -> mstep n n' -> dead n' \/ m_mon n' = Stopped.
Proof.
  intros (Hst & Hh & ch & Hmon & Hch) Hs.
  destruct Hs as [ping p p' mon Hh' E|p|ch' p st s E|ch' p s mon Hne E|answers err waits p p' E|p p' mon E];
    simpl in *; simplify_eq.
  - lia.
  - unfold receive in E. by rewrite Hch in E.
  - destruct (ctx_done_other ch' ch _ _ E) as (Hch' & Hst' & _); [congruence|].
    left. split; [unfold GetState, Get in *; simpl; by rewrite Hst'|]. split; [done|]. exists ch. simpl. by rewrite Hch'.
  - by right.
Qed.

(** The standby invariant: a host is in at most one of the two stores, and it is in one
    of them, being added, or closed. *)
Definition placed (n : standby) : Prop :=
  psinv (ps (s_pool n)) /\
  (adding n = true -> in_store n = false /\ in_unhealthy n = false /\ moving n = false) /\
  (moving n = true -> in_store n = false /\ in_unhealthy n = true) /\
  (in_store n = true -> in_unhealthy n = false).

Lemma Pool_Close_psinv p p' : psinv (ps p) -> Pool_Close p = Ret p' -> psinv (ps p').
Proof.
  intros Hp. unfold Pool_Close, PS_Close. destruct (p_closed p); [by intros [= <-]|].
  destruct (Set_spec HostStateClosed _ Hp) as (cs & E & _). rewrite E. cbn [outcome_bind].
  match type of E with _ = Ret ?x => set (s1 := x) in * end.
  destruct (closeChan s1) eqn:Ec; [unfold close_channels; by rewrite Ec|].
  destruct (close_channels_spec s1) as (s' & -> & Hs' & _); [by eapply Set_psinv|done|].
  cbn [outcome_bind]. by intros [= <-].
Qed.

Lemma connects_psinv answers p err p' : psinv (ps p) -> connects answers p err p' -> psinv (ps p').
Proof. intros Hp [waits E]. by apply connect_result in E as [? _]. Qed.

(** Decides the flags of a standby from the invariant. *)
Ltac flags :=
  intros; simpl in *; repeat match goal with
  | H : ?b = true -> _, H' : ?b = true |- _ => specialize (H H')
  end; destruct_and?; repeat split; congruence.

Lemma sstep_placed n n' : placed n -> sstep n n' -> placed n'.
Proof.
  intros (Hp & Hadd & Hmov & Hex) Hs.
  destruct Hs as [answers err n p' Ha Hc|ping n p' Hh E|n ch s Hm E|n ch st s Hm E|answers err n p' Hu Hmv Hcl Hc
                 |n Hu Hmv Hcl|n Hmv|n p' E].
  - apply connects_psinv in Hc; [|done]. by destruct err.
  - apply tick_result in E as (Hp' & _); [|done]. by split.
  - split; [|done]. simpl. pose proof (SubscribeChange_psinv _ Hp) as Hsub. by rewrite E in Hsub.
  - apply receive_psinv in E; [|done].
    destruct st; simpl; try (by split).
    + split; [done|]. repeat split; flags.
    + unfold moveToUnhealthy. simpl. destruct (in_store n) eqn:Es.
      * split; [done|]. repeat split; flags.
      * unfold placed. simpl. by rewrite Es.
  - apply connects_psinv in Hc; [|done]. destruct err; simpl; [by split|].
    split; [done|]. repeat split; try flags. simpl. destruct (in_store n); [flags|done].
  - split; [done|]. repeat split; flags.
  - split; [done|]. repeat split; flags.
  - apply Pool_Close_psinv in E; [|done]. by split.
Qed.

Lemma tick_fails p : psinv (ps p) -> exists p', health_tick (Some "ping failed") p = Ret p'.
Proof.
  intros Hp. unfold health_tick. destruct (validateHealth_spec (Some "ping failed") p Hp) as (s' & -> & _). by eexists.
Qed.

(** ** Properties *)

(** C15: as long as the health check does not fail between a connection and the
    subscription of the monitor, a failure of the primary is never lost: whenever its
    state is an error, the monitor is reconnecting or the error is in its channel; and
    at most one health check runs. *)
Theorem primary_failure_seen n0 n : initial n0 -> runs attentive n0 n -> m_mon n <> Stopped ->
  (health (m_pool n) <= 1)%nat /\
  (GetState (m_pool n) = HostStateError ->
     m_mon n = Reconnecting \/
     exists ch, m_mon n = Watching ch /\ chans (ps (m_pool n)) !! ch = Some (mkChan [HostStateError] false)).
Proof.
  intros H0 Hr Hns. pose proof (runs_inv attentive monitored n0 n attentive_monitored (initial_monitored _ H0) Hr) as Hm.
  unfold monitored in Hm. destruct (m_mon n) as [|ch| |]; [| | |done].
  - destruct Hm as (_ & Hst & Hh). split; [lia|]. by rewrite Hst.
  - destruct Hm as (_ & _ & [(Hst & Hh & _)|(Hst & Hh & Hch)]); (split; [lia|]); [by rewrite Hst|].
    intros _. right. by exists ch.
  - destruct Hm as (_ & _ & Hh). split; [lia|]. by left.
Qed.

(** But every connected primary has a run of two steps after which nobody reconnects
    it: the health check fails, then the monitor subscribes.  From then on, until
    the manager is closed, its state stays an error, although the database may be back. *)
Theorem primary_failure_missed n0 : initial n0 ->
  exists n, runs mstep n0 n /\ GetState (m_pool n) = HostStateError /\
  forall n', runs mstep n n' -> m_mon n' <> Stopped ->
    GetState (m_pool n') = HostStateError /\ health (m_pool n') = 0%nat.
Proof.
  intros H0. pose proof (initial_monitored _ H0) as Hm. destruct H0 as (mode & v & answers & waits & p & _ & ->).
  destruct Hm as (Hp & Hst & Hh). cbn [m_pool] in *.
  destruct (tick_fails p Hp) as [p' E]. pose proof (tick_result _ _ _ Hp E) as (Hp' & _ & Hst' & Hh').
  assert (dead (subscribe (mkPrimaryNode p' Starting))) as Hd.
  { unfold dead, subscribe. simpl. split; [done|]. split; [lia|]. eexists. split; [done|]. by rewrite lookup_insert_eq. }
  exists (subscribe (mkPrimaryNode p' Starting)). split.
  { eapply runs_step; [|apply m_subscribe]. eapply runs_step; [apply runs_refl|]. eapply m_tick; [lia|done]. }
  split; [by destruct Hd|]. intros n' Hr Hns.
  assert (dead n' \/ m_mon n' = Stopped) as [(? & ? & _)|]; [|by split|done].
  eapply (runs_inv mstep (fun n => dead n \/ m_mon n = Stopped)); [|by left|done].
  intros x y [Hx|Hx] Hs; [by eapply dead_step|]. right. destruct Hs; simpl in *; try done.
Qed.

(** A standby is in at most one of the two stores in every reachable state, and only
    a host that is in the unhealthy store is moved back. *)
Theorem standby_in_one_store mode v n : runs sstep (AddStandby mode v) n ->
  (in_store n = true -> in_unhealthy n = false) /\
  (moving n = true -> in_store n = false /\ in_unhealthy n = true).
Proof.
  intros Hr. enough (placed n) as (_ & _ & ? & ?) by done.
  eapply (runs_inv sstep placed); [apply sstep_placed| |done].
  split; [apply newPool_psinv|]. by repeat split.
Qed.

(** Every standby that connects has a run after which it stays among the healthy ones
    with a failed state: the health check fails before the monitor subscribes, and
    then the only step left is to close the pool. *)
Theorem standby_failure_missed mode v answers p :
  connects answers (newPool mode v) None p ->
  exists n, runs sstep (AddStandby mode v) n /\ in_store n = true /\ GetState (s_pool n) = HostStateError /\
  forall n', sstep n n' -> p_closed (s_pool n') = true.
Proof.
  intros Hc. destruct Hc as [waits Ec]. pose proof (connect_result _ _ _ _ _ (newPool_psinv mode v) Ec) as (Hp & Hst & Hh).
  destruct (tick_fails p Hp) as [p' E]. pose proof (tick_result _ _ _ Hp E) as (Hp' & _ & Hst' & Hh').
  set (n1 := with_pool p' (added None p)). destruct (SubscribeChange (ps p')) as [ch s] eqn:Es.
  exists (with_mon (Watching ch) (with_pool (set_ps s p') n1)). split; [|split; [done|split]].
  - eapply runs_step; [|by apply (s_subscribe n1 ch s)].
    eapply runs_step; [|apply (s_tick (Some "ping failed") (added None p)); [simpl; lia|done]].
    eapply runs_step; [apply runs_refl|]. eapply s_added; [done|]. by exists waits.
  - unfold SubscribeChange in Es. simplify_eq. done.
  - assert (chans s !! ch = Some (mkChan [] false)) as Hch.
    { unfold SubscribeChange in Es. simplify_eq. simpl. by rewrite lookup_insert_eq. }
    intros n' Hs. remember (with_mon _ _) as n eqn:En. destruct Hs; subst; simpl in *; try done.
    + lia.
    + simplify_eq. unfold receive in *. match goal with H : match chans ?s !! ?c with _ => _ end = _ |- _ => by rewrite Hch in H end.
    + match goal with H : Pool_Close _ = _ |- _ => revert H end. unfold Pool_Close.
      case_match; [by intros [= <-]|]. destruct (PS_Close _); [by intros [= <-]|done].
Qed.

End Supervisor.

(** A pool is served while its migrations are unverified: in an attempt whose
    verification fails, [Primary] returns the pool between the ping and the verdict. *)
Theorem unverified_pool_served p a err entries strategy :
  psinv (ps p) -> verifier p = true -> a = mkAttempt None None (Some err) ->
  exists p1 p2,
    validateHealth (a_ping a) p = Ret (None, p1) /\
    Primary (mkPM (Some 0%nat) (fun _ => GetState p1) entries strategy) = Ok 0%nat /\
    verifyMigration a p1 = Ret (Some (join ErrMigrationVerify err), p2) /\
    Connect a p = Ret (Some (join ErrMigrationVerify err), p2) /\
    Primary (mkPM (Some 0%nat) (fun _ => GetState p2) entries strategy) = Err ErrUnreachable.
Proof.
  intros Hp Hv ->. cbn [a_ping].
  destruct (validateHealth_spec None p Hp) as (s1 & E1 & H1 & Hst1).
  destruct (verifyMigration_spec (mkAttempt None None (Some err)) (set_ps s1 p)) as (s2 & E2 & H2 & Hst2); [done..|].
  cbn [set_ps verifier] in E2, Hst2. rewrite Hv in E2, Hst2. unfold attempt_error in E2, Hst2. simpl in E2, Hst2.
  exists (set_ps s1 p), (set_ps s2 (set_ps s1 p)). split; [done|]. split.
  { unfold Primary, GetState, Get. simpl. by rewrite decide_True. }
  split; [done|]. split.
  { unfold Connect. cbn [a_ping]. rewrite E1. cbn [outcome_bind]. by rewrite E2. }
  unfold Primary, GetState, Get. simpl. by rewrite decide_False by (by rewrite Hst2).
Qed.

(** ** Witnesses *)

Definition up : attempt := mkAttempt None None None.

Definition or_new (m : outcome (option string * list Z * Pool)) : Pool :=
  match m with Ret (_, _, p) => p | Panic _ => newPool "" false end.

Definition demo_pool : Pool :=
  or_new (ConnectWithRetry 1 RetryStrategyLinear 2 (fun _ => up) (fun _ => false) (newPool "any" false)).

Lemma demo_initial : initial 1 RetryStrategyLinear 2 (mkPrimaryNode demo_pool Starting).
Proof. exists "any", false, (fun _ => up), [], demo_pool. split; reflexivity. Qed.

Definition failed (p : Pool) : Pool :=
  match health_tick (Some "down") p with Ret p => p | Panic _ => p end.

Lemma primary_failure_seen_witness :
  let n1 := subscribe (mkPrimaryNode demo_pool Starting) in
  let n2 := mkPrimaryNode (failed (m_pool n1)) (Watching 0) in
  m_mon n2 = Reconnecting \/
  exists ch, m_mon n2 = Watching ch /\ chans (ps (m_pool n2)) !! ch = Some (mkChan [HostStateError] false).
Proof.
  intros n1 n2.
  apply (primary_failure_seen 1 RetryStrategyLinear 2 ltac:(lia) (mkPrimaryNode demo_pool Starting) n2 demo_initial).
  - eapply runs_step; [eapply runs_step; [apply runs_refl|]|].
    + split; [apply m_subscribe|]. intros _. vm_compute. discriminate.
    + split; [apply (m_tick 1 RetryStrategyLinear 2 (Some "down") (m_pool n1) _ (Watching 0)); [vm_compute; lia|reflexivity]|].
      intros H. vm_compute in H. discriminate.
  - discriminate.
  - reflexivity.
Defined.

Lemma primary_failure_missed_witness :
  exists n, runs (mstep 1 RetryStrategyLinear 2) (mkPrimaryNode demo_pool Starting) n /\
    GetState (m_pool n) = HostStateError.
Proof.
  destruct (primary_failure_missed 1 RetryStrategyLinear 2 ltac:(lia) (mkPrimaryNode demo_pool Starting) demo_initial)
    as (n & Hr & Hst & _).
  exists n. split; [exact Hr|exact Hst].
Defined.

Lemma standby_in_one_store_witness :
  let n := added None demo_pool in in_store n = true -> in_unhealthy n = false.
Proof.
  intros n. apply (standby_in_one_store 1 RetryStrategyLinear 2 ltac:(lia) "any" false n).
  eapply runs_step; [apply runs_refl|].
  apply (s_added 1 RetryStrategyLinear 2 (fun _ => up)); [reflexivity|]. exists []. reflexivity.
Defined.

Lemma standby_failure_missed_witness :
  exists n, runs (sstep 1 RetryStrategyLinear 2) (AddStandby "any" false) n /\ in_store n = true /\
    GetState (s_pool n) = HostStateError.
Proof.
  destruct (standby_failure_missed 1 RetryStrategyLinear 2 ltac:(lia) "any" false (fun _ => up) demo_pool)
    as (n & Hr & Hs & Hst & _).
  - exists []. reflexivity.
  - exists n. split; [exact Hr|]. split; [exact Hs|exact Hst].
Defined.

Lemma unverified_pool_served_witness :
  exists p1 p2, validateHealth None (newPool "any" true) = Ret (None, p1) /\
    Connect (mkAttempt None None (Some "schema at version 3")) (newPool "any" true) =
      Ret (Some (join ErrMigrationVerify "schema at version 3"), p2).
Proof.
  destruct (unverified_pool_served (newPool "any" true) (mkAttempt None None (Some "schema at version 3"))
              "schema at version 3" [] (fun _ => None)) as (p1 & p2 & H1 & _ & _ & H2 & _).
  - apply newPool_psinv.
  - reflexivity.
  - reflexivity.
  - exists p1, p2. split; [exact H1|exact H2].
Defined.

End PgwMonitor.
