(* ===== verification/PgwSetup.v ===== *)
(** * Setting up and closing the PostgreSQL pools: src/infra/pgw (pool_manager.go,
    standby_manager.go, verifier/goose)

    [NewPoolManager] with the pgx pools it opens, the goroutines of [AddStandby], the moves of standbys between the two stores and
    [Close].  The stores have a lock each and a move takes them one after the other: its accesses to the stores are
    steps of their own, and so are the two loops of [Close].  Which pgx pools are open is part of the state, so that the theorems
    can say what is released. *)
From stdpp Require Import prelude strings list gmap.
From Stdlib Require Import ZArith Lia.
From S2P Require Import Prelude SafeMap Pgw.

Local Open Scope go_scope.
Local Open Scope Z_scope.

Module PgwSetup.
Import Pgw.

(** ** What pgx provides *)

(** Which servers a connection accepts (pgconn.ValidateConnectTargetSessionAttrs...). *)
Inductive session := SessionPrimary | SessionReadOnly.

(** The part of pgxpool.Config that the managers set. *)
Record pgxConfig := mkPgx {
  ConnString : string;
  RuntimeParams : gmap string string;
  Traced : bool;
  px_MaxConns : Z;
  px_MinConns : Z;
  ValidateConnect : option session;
  AfterConnect : option string
}.

(** pgxpool.ParseConfig; [ConnString] returns the text that was parsed. *)
Class Pgx := ParseConfig : string -> res string pgxConfig.
Class PgxLaws (P : Pgx) := conn_string : forall dsn cfg, ParseConfig dsn = Ok cfg -> ConnString cfg = dsn.

Definition postgresApplicationNameKey : string := "application_name".

(** The pgx pools are numbered in the order of their creation.  [w_open] holds those that are
    open, [w_hosts] the [Pool] made over each. *)
Record world := mkWorld {
  w_next : nat;
  w_open : gset nat;
  w_hosts : gmap nat Pool;
  w_cfgs : gmap nat pgxConfig
}.

Definition set_host (i : nat) (p : Pool) (w : world) : world :=
  mkWorld (w_next w) (w_open w) (<[i := p]> (w_hosts w)) (w_cfgs w).

(** Closing a pgx pool. *)
Definition pgx_Close (i : nat) (w : world) : world :=
  mkWorld (w_next w) (w_open w ∖ {[i]}) (w_hosts w) (w_cfgs w).

(** pgxpool.NewWithConfig, which fails with [open_error]. *)
Definition NewWithConfig (open_error : nat -> option string) (cfg : pgxConfig) (w : world)
  : res string nat * world :=
  let i := w_next w in
  match open_error i with
  | Some e => (Err e, mkWorld (S i) (w_open w) (w_hosts w) (w_cfgs w))
  | None => (Ok i, mkWorld (S i) ({[i]} ∪ w_open w) (w_hosts w) (<[i := cfg]> (w_cfgs w)))
  end.

(** ** Pools *)

Record PoolConfig := mkPoolConfig {
  HealthCheckInterval : Z; HealthCheckTimeout : Z; ErrorParser : bool; MigrationVerifier : bool
}.

(** [newPool] with its checks; [None] is a nil pgx pool, [ErrorParser] whether it is set. *)
Definition checked_newPool (pool : option pgxConfig) (cfg : PoolConfig) : res string (PoolConfig * Pool) :=
  match pool with
  | None => Err "pgw: pool must not be nil"
  | Some px =>
      if negb (ErrorParser cfg) then Err "pgw: ErrorParser must not be nil"
      else
        let cfg := mkPoolConfig
          (zero_or (HealthCheckInterval cfg) (pr_HealthCheckInterval DefaultPrimaryPoolConfig))
          (zero_or (HealthCheckTimeout cfg) (pr_HealthCheckTimeout DefaultPrimaryPoolConfig))
          (ErrorParser cfg) (MigrationVerifier cfg) in
        Ok (cfg, newPool (default "" (RuntimeParams px !! "target_session_attrs")) (MigrationVerifier cfg))
  end.

(** [Pool.Close] with its pgx pool: closeOnce runs the body once. *)
Definition close_host (i : nat) (w : world) : outcome world :=
  match w_hosts w !! i with
  | None => Ret w
  | Some p =>
      if p_closed p then Ret w
      else let! p := Pool_Close p in Ret (set_host i p (pgx_Close i w))
  end.

Fixpoint close_hosts (l : list nat) (w : world) : outcome world :=
  match l with
  | [] => Ret w
  | i :: l => let! w := close_host i w in close_hosts l w
  end.

(** [ConnectWithRetry] with a strategy that may be nil: the call of a nil function panics
    at the first wait. *)
Definition connect_retry (max : Z) (strategy : option RetryStrategy) (base : Z)
    (answers : Z -> attempt) (p : Pool) : outcome (option string * Pool) :=
  match strategy with
  | Some f =>
      let! (err, _, p) := ConnectWithRetry max f base answers (fun _ => false) p in Ret (err, p)
  | None =>
      let! (err, waits, p) := ConnectWithRetry max (fun _ _ => 0) base answers (fun _ => true) p in
      match waits with [] => Ret (err, p) | _ :: _ => Panic "nil pointer dereference" end
  end.

(** ** The managers *)

(** A goroutine that has a standby in hand: [moveToUnhealthy] before it removes the host it has read from the store, and then before it
    puts it in the other; [monitorUnhealthy] while it connects a host, before it removes it, and before it puts it back in the store. *)
Inductive move :=
| Leaving (key : string) (host : nat)
| Left (key : string) (host : nat)
| Retrying (key : string) (host : nat)
| Returning (key : string) (host : nat)
| Returned (key : string) (host : nat).

(** [pending] are the standbys whose goroutine in [AddStandby] still runs, with their keys; [moving] the moves under way. *)
Record standbyManager := mkStandbyManager {
  sm_config : standbyManagerConfig;
  sm_verifier : bool;
  store : gmap string nat;
  unhealthyStore : gmap string nat;
  sm_closed : bool;
  pending : list (string * nat);
  moving : list move
}.

Record PoolManager := mkManager {
  config : Config;
  m_master : option nat;
  standbys : option standbyManager;
  m_closed : bool
}.

Section Setup.
Context `{Px : Pgx} (IntN : nat -> nat).
(** What the creation of a pgx pool and the attempts to connect answer, per pool. *)
Context (open_error : nat -> option string) (answers : nat -> Z -> attempt).

Definition setPoolApplicationName (name : string) (cfg : pgxConfig) : pgxConfig :=
  if (0 <? String.length name)%nat then
    mkPgx (ConnString cfg) (<[postgresApplicationNameKey := name]> (RuntimeParams cfg)) (Traced cfg)
      (px_MaxConns cfg) (px_MinConns cfg) (ValidateConnect cfg) (AfterConnect cfg)
  else cfg.

(** What both managers set: application name, tracer and numbers of connections. *)
Definition shared_settings (c : Config) (maxConns minConns : Z) (cfg : pgxConfig) : pgxConfig :=
  let cfg := setPoolApplicationName (c_ApplicationName c) cfg in
  mkPgx (ConnString cfg) (RuntimeParams cfg) (c_Tracer c || Traced cfg)
    (if 0 <? maxConns then i32 maxConns else px_MaxConns cfg)
    (if 0 <? minConns then i32 minConns else px_MinConns cfg)
    (ValidateConnect cfg) (AfterConnect cfg).

Definition with_session (s : session) (after : option string) (cfg : pgxConfig) : pgxConfig :=
  mkPgx (ConnString cfg) (RuntimeParams cfg) (Traced cfg) (px_MaxConns cfg) (px_MinConns cfg)
    (Some s) (match after with Some q => Some q | None => AfterConnect cfg end).

Definition buildPrimaryPgxPool (c : Config) (w : world) : res string nat * world :=
  let primary := c_Primary c in
  if decide (pr_DSN primary = "") then (Err "primary config DSN is required", w)
  else match ParseConfig (pr_DSN primary) with
       | Err e => (Err e, w)
       | Ok cfg =>
           NewWithConfig open_error
             (with_session SessionPrimary None
                (shared_settings c (pr_MaxConns primary) (pr_MinConns primary) cfg)) w
       end.

Definition initPrimary (c : Config) (w : world) : outcome (res string nat * world) :=
  let primary := c_Primary c in
  match buildPrimaryPgxPool c w with
  | (Err e, w) => Ret (Err e, w)
  | (Ok i, w) =>
      match checked_newPool (w_cfgs w !! i)
              (mkPoolConfig (pr_HealthCheckInterval primary) (pr_HealthCheckTimeout primary) true (c_Verifier c)) with
      | Err e => Ret (Err e, pgx_Close i w)
      | Ok (_, p) =>
          let! (err, p) := connect_retry (pr_RetryAttempts primary) (pr_RetryStrategy primary)
                             (pr_RetryStrategyBaseValue primary) (answers i) p in
          let w := set_host i p w in
          match err with
          | Some e => let! w := close_host i w in Ret (Err e, w)
          | None => Ret (Ok i, w)
          end
      end
  end.

Definition newStandbyManager (cfg : standbyManagerConfig) (verifier : bool) : standbyManager :=
  mkStandbyManager (normalizeConfig IntN cfg) verifier ∅ ∅ false [] [].

Definition AddStandby (i : nat) (sm : standbyManager) (w : world) : option string * standbyManager * world :=
  match checked_newPool (w_cfgs w !! i)
          (mkPoolConfig (sm_HealthCheckInterval (sm_config sm)) (sm_HealthCheckTimeout (sm_config sm)) true
             (sm_verifier sm)) with
  | Err e => (Some e, sm, w)
  | Ok (_, host) =>
      let key := default "" (ConnString <$> w_cfgs w !! i) in
      (None,
       mkStandbyManager (sm_config sm) (sm_verifier sm) (store sm) (unhealthyStore sm) (sm_closed sm)
         (pending sm ++ [(key, i)]) (moving sm),
       set_host i host w)
  end.

Definition read_only : string := "SET SESSION CHARACTERISTICS AS TRANSACTION READ ONLY".

(** The loop of [initStandby] over the addresses. *)
Fixpoint standby_loop (c : Config) (dsns : list string) (sm : standbyManager) (w : world)
  : option string * standbyManager * world :=
  match dsns with
  | [] => (None, sm, w)
  | dsn :: dsns =>
      match ParseConfig dsn with
      | Err e => (Some e, sm, w)
      | Ok cfg =>
          let replica := c_Standby c in
          match NewWithConfig open_error
                  (with_session SessionReadOnly (Some read_only)
                     (shared_settings c (sb_MaxConns replica) (sb_MinConns replica) cfg)) w with
          | (Err e, w) => (Some e, sm, w)
          | (Ok i, w) =>
              match AddStandby i sm w with
              | (Some e, sm, w) => (Some e, sm, w)
              | (None, sm, w) => standby_loop c dsns sm w
              end
          end
      end
  end.

Definition initStandby (c : Config) (w : world) : option string * standbyManager * world :=
  let replica := c_Standby c in
  let sm := newStandbyManager
    (mkSM (sb_PickStrategy replica) (sb_UnhealthyReplicaRetryInterval replica)
       (sb_RetriesBeforeUnhealthy replica) (sb_RetryStrategy replica) (sb_RetryStrategyBaseValue replica)
       (sb_HealthCheckInterval replica) (sb_HealthCheckTimeout replica)) (c_Verifier c) in
  if (length (sb_DSN replica) =? 0)%nat then (None, sm, w) else standby_loop c (sb_DSN replica) sm w.

(** What [NewPoolManager] returns; with an error the caller gets no manager, and
    the standby manager that had been made is kept here to tell what is left running. *)
Inductive created :=
| Created (m : PoolManager)
| Failed (err : string) (left : option standbyManager).

Definition NewPoolManager (options : list ConfigOption) (w : world) : outcome (created * world) :=
  let c := effective_config IntN options in
  let! (r, w) := initPrimary c w in
  match r with
  | Err e => Ret (Failed e None, w)
  | Ok master =>
      match initStandby c w with
      | (Some e, sm, w) => let! w := close_host master w in Ret (Failed e (Some sm), w)
      | (None, sm, w) => Ret (Created (mkManager c (Some master) (Some sm) false), w)
      end
  end.

(** ** Goroutines and Close *)

Definition with_stores (s u : gmap string nat) (pend : list (string * nat)) (sm : standbyManager)
  : standbyManager :=
  mkStandbyManager (sm_config sm) (sm_verifier sm) s u (sm_closed sm) pend (moving sm).

Definition with_moving (l : list move) (sm : standbyManager) : standbyManager :=
  mkStandbyManager (sm_config sm) (sm_verifier sm) (store sm) (unhealthyStore sm) (sm_closed sm) (pending sm) l.

(** The goroutine of [AddStandby]: connecting, then one of the stores. *)
Definition add_done (key : string) (i : nat) (answers : Z -> attempt) (sm : standbyManager) (w : world)
  : outcome (standbyManager * world) :=
  match w_hosts w !! i with
  | None => Ret (sm, w)
  | Some host =>
      let! (err, host) := connect_retry (sm_RetriesBeforeUnhealthy (sm_config sm))
                            (sm_RetryStrategy (sm_config sm)) (sm_Base (sm_config sm)) answers host in
      let rest := filter (fun e => e <> (key, i)) (pending sm) in
      Ret (match err with
           | Some _ => with_stores (store sm) (<[key := i]> (unhealthyStore sm)) rest sm
           | None => with_stores (<[key := i]> (store sm)) (unhealthyStore sm) rest sm
           end, set_host i host w)
  end.

(** [moveToUnhealthy] up to the host it reads from the store. *)
Definition moveToUnhealthy (key : string) (sm : standbyManager) : standbyManager :=
  if decide (key = "") then sm
  else match store sm !! key with
       | None => sm
       | Some host => with_moving (moving sm ++ [Leaving key host]) sm
       end.

(** The accesses of the moves to the stores. *)
Definition store_Remove (key : string) (sm : standbyManager) : standbyManager :=
  with_stores (delete key (store sm)) (unhealthyStore sm) (pending sm) sm.
Definition unhealthy_Set (key : string) (host : nat) (sm : standbyManager) : standbyManager :=
  with_stores (store sm) (<[key := host]> (unhealthyStore sm)) (pending sm) sm.
Definition unhealthy_Remove (key : string) (sm : standbyManager) : standbyManager :=
  with_stores (store sm) (delete key (unhealthyStore sm)) (pending sm) sm.
Definition store_Set (key : string) (host : nat) (sm : standbyManager) : standbyManager :=
  with_stores (<[key := host]> (store sm)) (unhealthyStore sm) (pending sm) sm.

(** The host that a round of [monitorUnhealthy] finds in the unhealthy store. *)
Definition retry_begin (key : string) (sm : standbyManager) : standbyManager :=
  match unhealthyStore sm !! key with
  | None => sm
  | Some host => with_moving (moving sm ++ [Retrying key host]) sm
  end.

(** A round of [monitorUnhealthy] connects a host. *)
Definition retry_host (i : nat) (answers : Z -> attempt) (sm : standbyManager) (w : world) : outcome (option string * world) :=
  match w_hosts w !! i with
  | None => Ret (None, w)
  | Some host =>
      let! (err, host) := connect_retry (sm_RetriesBeforeUnhealthy (sm_config sm))
                            (sm_RetryStrategy (sm_config sm)) (sm_Base (sm_config sm)) answers host in
      Ret (err, set_host i host w)
  end.

(** The next step of a move, and what it is then. *)
Definition move_turn (answers : Z -> attempt) (mv : move) (sm : standbyManager) (w : world)
  : outcome (option move * standbyManager * world) :=
  match mv with
  | Leaving key host => Ret (Some (Left key host), store_Remove key sm, w)
  | Left key host => Ret (None, unhealthy_Set key host sm, w)
  | Retrying key host =>
      let! (err, w) := retry_host host answers sm w in
      Ret (match err with Some _ => None | None => Some (Returning key host) end, sm, w)
  | Returning key host => Ret (Some (Returned key host), unhealthy_Remove key sm, w)
  | Returned key host => Ret (None, store_Set key host sm, w)
  end.

Definition replace_move (j : nat) (mv : option move) (l : list move) : list move :=
  match mv with Some mv => <[j := mv]> l | None => delete j l end.

Definition Stats (sm : standbyManager) : nat * nat := (size (store sm), size (unhealthyStore sm)).

(** [standbyManager.Close]: the channel and the loop over the store; then the loop over the unhealthy store. *)
Definition standby_Close_first (order : gmap string nat -> list (string * nat)) (sm : standbyManager) (w : world)
  : outcome (standbyManager * world) :=
  if sm_closed sm then Panic "close of closed channel"
  else
    let sm := mkStandbyManager (sm_config sm) (sm_verifier sm) (store sm) (unhealthyStore sm) true (pending sm) (moving sm) in
    let! w := close_hosts (order (store sm)).*2 w in Ret (sm, w).
Definition standby_Close_rest (order : gmap string nat -> list (string * nat)) (sm : standbyManager) (w : world) : outcome world :=
  close_hosts (order (unhealthyStore sm)).*2 w.

(** [PoolManager.Close] up to the end of the loop over the store, and the rest of it. *)
Definition Close_first (order : gmap string nat -> list (string * nat)) (m : PoolManager) (w : world)
  : outcome (standbyManager * world) :=
  if m_closed m then Panic "close of closed channel"
  else
    let! w := match m_master m with Some i => close_host i w | None => Ret w end in
    match standbys m with
    | None => Panic "nil pointer dereference"
    | Some sm => standby_Close_first order sm w
    end.

Definition Close (order : gmap string nat -> list (string * nat)) (m : PoolManager) (w : world)
  : outcome (PoolManager * world) :=
  let! (sm, w) := Close_first order m w in
  let! w := standby_Close_rest order sm w in
  Ret (mkManager (config m) (m_master m) (Some sm) true, w).

(** What a pool does meanwhile: a tick of its health check, subscriptions and their ends,
    receives. *)
Inductive pool_step : Pool -> Pool -> Prop :=
| pool_tick ping p p' : (0 < health p)%nat -> health_tick ping p = Ret p' -> pool_step p p'
| pool_subscribe p : pool_step p (set_ps (SubscribeChange (ps p)).2 p)
| pool_leave ch p s : ctx_done ch (ps p) = Ret s -> pool_step p (set_ps s p)
| pool_receive ch p st s : receive ch (ps p) = Some (st, s) -> pool_step p (set_ps s p).

(** The steps of the goroutines of a manager.  A monitor that learns that a pool is closed removes its key from a store. *)
Inductive mstep : standbyManager * world -> standbyManager * world -> Prop :=
| step_added key i ans sm w sm' w' : (key, i) ∈ pending sm ->
    add_done key i ans sm w = Ret (sm', w') -> mstep (sm, w) (sm', w')
| step_unhealthy key sm w : mstep (sm, w) (moveToUnhealthy key sm, w)
| step_retry key sm w : mstep (sm, w) (retry_begin key sm, w)
| step_move j mv ans sm w mv' sm' w' : moving sm !! j = Some mv -> move_turn ans mv sm w = Ret (mv', sm', w') ->
    mstep (sm, w) (with_moving (replace_move j mv' (moving sm)) sm', w')
| step_closed key i p sm w : w_hosts w !! i = Some p -> p_closed p = true ->
    store sm !! key = Some i -> mstep (sm, w) (store_Remove key sm, w)
| step_unhealthy_closed key i p sm w : w_hosts w !! i = Some p -> p_closed p = true ->
    unhealthyStore sm !! key = Some i -> mstep (sm, w) (unhealthy_Remove key sm, w)
| step_pool i p p' sm w : w_hosts w !! i = Some p -> pool_step p p' -> mstep (sm, w) (sm, set_host i p' w).

End Setup.

(** ** Lemmas on pools *)

(** A pool that has not been closed. *)
Definition alive (p : Pool) : Prop :=
  psinv (ps p) /\ p_closed p = false /\ closeChan (ps p) = false.

Lemma set_state_alive st p : alive p -> exists p', set_state st p = Ret p' /\ alive p'.
Proof.
  intros (Hp & Hc & Hcc). unfold set_state. destruct (Set_spec st _ Hp) as (cs & E & _). rewrite E.
  eexists. split; [done|]. split; [by eapply Set_psinv|by split].
Qed.

(** Runs a call that is known to keep the pool alive. *)
Ltac run_alive H := let p := fresh "p" in let E := fresh "E" in
  destruct H as (p & E & ?); rewrite E; cbn [outcome_bind].

Lemma validateHealth_alive ping p : alive p -> exists p', validateHealth ping p = Ret (ping, p') /\ alive p'.
Proof.
  intros Hp. unfold validateHealth. destruct ping as [e|]; case_decide; cbn [outcome_bind]; eauto.
  - run_alive (set_state_alive HostStateError p Hp). eauto.
  - run_alive (set_state_alive HostStateConnected p Hp). eauto.
Qed.

Lemma verifyMigration_alive a p : alive p -> exists err p', verifyMigration a p = Ret (err, p') /\ alive p'.
Proof.
  intros Hp. unfold verifyMigration. destruct (verifier p); simpl; [|eauto].
  destruct (a_acquire a); [|destruct (a_verify a); [|eauto]]; run_alive (set_state_alive HostStateError p Hp); eauto.
Qed.

Lemma Connect_alive a p : alive p -> exists err p', Connect a p = Ret (err, p') /\ alive p'.
Proof.
  intros Hp. unfold Connect. destruct (validateHealth_alive (a_ping a) p Hp) as (p1 & -> & H1).
  cbn [outcome_bind]. destruct (a_ping a); [eauto|].
  destruct (verifyMigration_alive a p1 H1) as (err & p2 & -> & H2). cbn [outcome_bind].
  destruct err; [eauto|]. eexists _, _. split; [done|]. by destruct p2.
Qed.

Lemma retry_alive strategy base answers closing n : forall i last p, alive p ->
  exists err waits p', retry_loop n i strategy base answers closing last p = Ret (err, waits, p') /\ alive p'.
Proof.
  induction n as [|n IH]; intros i last p Hp; cbn [retry_loop]; [eauto|].
  destruct (Connect_alive (answers i) p Hp) as ([e|] & p1 & -> & H1); cbn [outcome_bind]; [|eauto].
  destruct (0 <? n)%nat; [|by apply IH]. destruct (closing i); [eauto|].
  destruct (IH (i + 1) (Some e) p1 H1) as (err & waits & p2 & -> & H2). cbn [outcome_bind]. eauto.
Qed.

(** With a strategy, connecting returns and the pool stays open. *)
Lemma connect_retry_alive max strategy base answers p : is_Some strategy -> alive p ->
  exists err p', connect_retry max strategy base answers p = Ret (err, p') /\ alive p'.
Proof.
  intros [f ->] Hp. unfold connect_retry, ConnectWithRetry.
  destruct (retry_alive f base answers (fun _ => false) (Z.to_nat max) 1 None p Hp) as (err & waits & p' & -> & H').
  cbn [outcome_bind]. eauto.
Qed.

Lemma newPool_alive mode v : alive (newPool mode v).
Proof. split; [apply newPool_psinv|done]. Qed.

Lemma pool_step_alive p p' : alive p -> pool_step p p' -> alive p'.
Proof.
  intros Hp Hs. destruct Hs as [ping p p' Hh E|p|ch p s E|ch p st s E].
  - unfold health_tick in E. destruct (validateHealth_alive ping p Hp) as (p1 & E1 & H1). rewrite E1 in E.
    cbn [outcome_bind] in E. destruct ping; simplify_eq; [|done]. by destruct p1.
  - destruct Hp as (Hi & ? & ?). split; [by apply SubscribeChange_psinv|done].
  - destruct Hp as (Hi & ? & Hc). destruct (ctx_done_spec ch _ Hi) as (s' & E' & Hs' & _).
    rewrite E in E'. simplify_eq. split; [done|]. split; [done|]. simpl. revert E. unfold ctx_done.
    case_decide; [|by intros [= <-]]. destruct (close_chan _ _); [|done]. by intros [= <-].
  - destruct Hp as (Hi & ? & Hc). split; [by eapply receive_psinv|]. split; [done|]. simpl. revert E.
    unfold receive. case_match; [|done]. destruct c as [[|x q] cl]; [done|]. by intros [= <- <-].
Qed.

Lemma close_alive p : alive p -> exists p', Pool_Close p = Ret p' /\ p_closed p' = true /\ health p' = 0%nat.
Proof.
  intros (Hp & Hc & Hcc). unfold Pool_Close, PS_Close. rewrite Hc.
  destruct (Set_spec HostStateClosed _ Hp) as (cs & E & _). rewrite E. cbn [outcome_bind].
  match type of E with _ = Ret ?x => set (s1 := x) in * end.
  destruct (close_channels_spec s1) as (s' & -> & _); [by eapply Set_psinv|done|]. by eexists.
Qed.

(** Nothing but [Close] closes a pool or opens it again. *)
Lemma set_state_closed st p p' : set_state st p = Ret p' -> p_closed p' = p_closed p.
Proof. unfold set_state. destruct (Set_ st (ps p)); [|done]. by intros [= <-]. Qed.

Lemma validateHealth_closed ping p e p' : validateHealth ping p = Ret (e, p') -> p_closed p' = p_closed p.
Proof.
  unfold validateHealth. destruct ping as [x|]; case_decide; cbn [outcome_bind]; try by intros [= <- <-].
  - destruct (set_state HostStateError p) eqn:E; [|done]. intros [= <- <-]. by eapply set_state_closed.
  - destruct (set_state HostStateConnected p) eqn:E; [|done]. intros [= <- <-]. by eapply set_state_closed.
Qed.

Lemma verifyMigration_closed a p e p' : verifyMigration a p = Ret (e, p') -> p_closed p' = p_closed p.
Proof.
  unfold verifyMigration. destruct (verifier p); simpl; [|by intros [= <- <-]].
  destruct (a_acquire a); [|destruct (a_verify a); [|by intros [= <- <-]]];
    (destruct (set_state HostStateError p) eqn:E; [|done]); intros [= <- <-]; by eapply set_state_closed.
Qed.

Lemma Connect_closed a p e p' : Connect a p = Ret (e, p') -> p_closed p' = p_closed p.
Proof.
  unfold Connect. destruct (validateHealth (a_ping a) p) as [[e1 p1]|] eqn:E1; [|done]. apply validateHealth_closed in E1.
  cbn [outcome_bind]. destruct e1; [by intros [= <- <-]|].
  destruct (verifyMigration a p1) as [[e2 p2]|] eqn:E2; [|done]. apply verifyMigration_closed in E2.
  cbn [outcome_bind]. destruct e2; intros [= <- <-]; simpl; congruence.
Qed.

Lemma retry_closed strategy base answers closing n : forall i last p e waits p',
  retry_loop n i strategy base answers closing last p = Ret (e, waits, p') -> p_closed p' = p_closed p.
Proof.
  induction n as [|n IH]; intros i last p e waits p'; cbn [retry_loop]; [by intros [= <- <- <-]|].
  destruct (Connect (answers i) p) as [[[x|] p1]|] eqn:E1; [| |done]; apply Connect_closed in E1; cbn [outcome_bind];
    [|by intros [= <- <- <-]].
  destruct (0 <? n)%nat; [|by intros ->%IH]. destruct (closing i); [by intros [= <- <- <-]|].
  destruct (retry_loop n _ _ _ _ _ _ p1) as [[[y ws] p2]|] eqn:E2; [|done]. apply IH in E2. cbn [outcome_bind].
  intros [= <- <- <-]. congruence.
Qed.

Lemma connect_retry_closed max strategy base answers p e p' :
  connect_retry max strategy base answers p = Ret (e, p') -> p_closed p' = p_closed p.
Proof.
  unfold connect_retry, ConnectWithRetry. destruct strategy as [f|].
  - destruct (retry_loop _ _ _ _ _ _ _ _) as [[[y ws] p2]|] eqn:E; [|done]. apply retry_closed in E. by intros [= <- <-].
  - destruct (retry_loop _ _ _ _ _ _ _ _) as [[[y ws] p2]|] eqn:E; [|done]. apply retry_closed in E. cbn [outcome_bind].
    destruct ws; [|done]. by intros [= <- <-].
Qed.

Lemma pool_step_closed p p' : pool_step p p' -> p_closed p' = p_closed p.
Proof.
  destruct 1 as [ping p p' Hh E|p|ch p s E|ch p st s E]; try done. unfold health_tick in E.
  destruct (validateHealth ping p) as [[x p1]|] eqn:E1; [|done]. apply validateHealth_closed in E1. cbn [outcome_bind] in E.
  by destruct x; simplify_eq.
Qed.

(** A pool that [Close] closes or has closed before; its pgx pool is open in the first case only. *)
Definition closable (i : nat) (w : world) : Prop := exists p, w_hosts w !! i = Some p /\
  (alive p \/ p_closed p = true /\ i ∉ w_open w).
Definition closed_in (i : nat) (w : world) : Prop := exists p, w_hosts w !! i = Some p /\ p_closed p = true.

(** Closing pools closes exactly those that were not closed before. *)
Lemma close_hosts_spec l : forall w, (forall i, i ∈ l -> closable i w) ->
  exists w', close_hosts l w = Ret w' /\ w_open w' = w_open w ∖ list_to_set l /\
    (forall i, i ∉ l -> w_hosts w' !! i = w_hosts w !! i) /\
    (forall i, i ∈ l -> closed_in i w') /\
    (forall i, i ∈ l -> i ∈ w_open w -> exists p, w_hosts w' !! i = Some p /\ health p = 0%nat) /\
    w_cfgs w' = w_cfgs w /\ w_next w' = w_next w /\
    (forall i, closed_in i w -> closed_in i w' /\ w_hosts w' !! i = w_hosts w !! i).
Proof.
  induction l as [|i l IH]; intros w Hl; cbn [close_hosts].
  { exists w. split; [done|]. split; [set_solver|]. split; [done|]. split; [by intros i ?%elem_of_nil|].
    split; [by intros i ?%elem_of_nil|done]. }
  destruct (Hl i) as (p & Ep & Hp); [by left|]. unfold close_host. rewrite Ep. destruct (p_closed p) eqn:Hc.
  - cbn [outcome_bind]. destruct Hp as [(_ & ? & _)|[_ Hno]]; [congruence|].
    destruct (IH w) as (w' & -> & Ho & Hother & Hcl & Hh & Hcfg & Hnx & Hkeep); [intros j Hj; apply Hl; by right|].
    assert (closed_in i w) as Hci by by exists p.
    exists w'. split; [done|]. split; [rewrite Ho; set_solver|]. split; [intros j Hj; apply Hother; set_solver|].
    split; [intros j [->|Hj]%elem_of_cons; [by apply Hkeep|by apply Hcl]|]. split; [|done].
    intros j [->|Hj]%elem_of_cons; [done|by apply Hh].
  - destruct Hp as [Hp|[? _]]; [|congruence]. destruct (close_alive p Hp) as (p' & -> & Hp' & Hz). cbn [outcome_bind].
    set (w1 := set_host i p' (pgx_Close i w)).
    assert (w_hosts w1 !! i = Some p') as E1 by (subst w1; simpl; by rewrite lookup_insert_eq).
    destruct (IH w1) as (w' & -> & Ho & Hother & Hcl & Hh & Hcfg & Hnx & Hkeep).
    { intros j Hj. destruct (decide (j = i)) as [->|Hne]; [exists p'; split; [done|right; split; [done|subst w1; set_solver]]|].
      destruct (Hl j) as (q & Eq & Hq); [by right|]. exists q. subst w1. simpl. rewrite lookup_insert_ne by done. split; [done|].
      destruct Hq as [?|[? ?]]; [by left|right; set_solver]. }
    destruct (Hkeep i) as [Hci Hei]; [by exists p'|].
    exists w'. split; [done|]. split; [rewrite Ho; subst w1; simpl; set_solver|]. split.
    { intros j Hj. rewrite Hother by set_solver. subst w1. simpl. by rewrite lookup_insert_ne by set_solver. }
    split; [intros j [->|Hj]%elem_of_cons; [done|by apply Hcl]|]. split.
    { intros j Hj Hoj. destruct (decide (j = i)) as [->|Hne]; [exists p'; by rewrite Hei|]. apply Hh; [set_solver|subst w1; set_solver]. }
    split; [done|]. split; [done|]. intros j (q & Eq & Hq). assert (j <> i) by (intros ->; congruence).
    assert (w_hosts w1 !! j = w_hosts w !! j) as E2 by (subst w1; simpl; by rewrite lookup_insert_ne).
    destruct (Hkeep j) as [? E3]; [exists q; by rewrite E2|]. split; [done|congruence].
Qed.

Lemma alive_closable i w p : w_hosts w !! i = Some p -> alive p -> closable i w.
Proof. intros. exists p. auto. Qed.

(** ** Lemmas on the set-up *)

Section Laws.
Context {Px : Pgx} {PxL : PgxLaws Px} (IntN : nat -> nat).
Context (open_error : nat -> option string) (answers : nat -> Z -> attempt).

(** A world in which every pgx pool has been numbered. *)
Definition numbered (w : world) : Prop := forall i, i ∈ w_open w -> (i < w_next w)%nat.

(** The session and the settings of a pool that the managers configure. *)
Definition configured (c : Config) (dsn : string) (s : session) (after : option string)
    (maxConns minConns : Z) (cfg : pgxConfig) : Prop :=
  ConnString cfg = dsn /\ ValidateConnect cfg = Some s /\
  (forall q, after = Some q -> AfterConnect cfg = Some q) /\
  (c_ApplicationName c <> "" -> RuntimeParams cfg !! postgresApplicationNameKey = Some (c_ApplicationName c)) /\
  (c_Tracer c = true -> Traced cfg = true) /\
  (0 < maxConns < 2 ^ 31 -> px_MaxConns cfg = maxConns) /\
  (0 < minConns < 2 ^ 31 -> px_MinConns cfg = minConns).

Lemma i32_small z : 0 < z < 2 ^ 31 -> i32 z = z.
Proof. intros Hz. apply wrap_signed_small; lia. Qed.

Lemma settings_configured c dsn s after maxConns minConns px : ParseConfig dsn = Ok px ->
  configured c dsn s after maxConns minConns (with_session s after (shared_settings c maxConns minConns px)).
Proof.
  intros Hpx. unfold configured, with_session, shared_settings, setPoolApplicationName. simpl.
  assert (0 < maxConns < 2 ^ 31 -> (0 <? maxConns) = true) as Hmax by lia.
  assert (0 < minConns < 2 ^ 31 -> (0 <? minConns) = true) as Hmin by lia.
  repeat split.
  - pose proof (conn_string _ _ Hpx) as Hs. destruct (0 <? _)%nat; exact Hs.
  - by intros q ->.
  - intros Hn. destruct (c_ApplicationName c) eqn:Ea; [done|]. simpl. by rewrite lookup_insert_eq.
  - by intros ->.
  - intros Hm. rewrite Hmax by done. by apply i32_small.
  - intros Hm. rewrite Hmin by done. by apply i32_small.
Qed.

(** From [w] to [w'] the standbys [L] have been opened, and nothing else has changed. *)
Record opened (c : Config) (L : list (string * nat)) (w w' : world) : Prop := {
  o_nodup : NoDup L.*2;
  o_new : forall i, i ∈ L.*2 -> (w_next w <= i)%nat;
  o_open : w_open w' = w_open w ∪ list_to_set L.*2;
  o_numbered : numbered w';
  o_hosts : forall i, i ∉ L.*2 -> w_hosts w' !! i = w_hosts w !! i;
  o_cfgs : forall i, (i < w_next w)%nat -> w_cfgs w' !! i = w_cfgs w !! i;
  o_alive : forall i, i ∈ L.*2 -> exists p, w_hosts w' !! i = Some p /\ alive p;
  o_configured : forall k i, (k, i) ∈ L -> exists cfg, w_cfgs w' !! i = Some cfg /\
    configured c k SessionReadOnly (Some read_only) (sb_MaxConns (c_Standby c)) (sb_MinConns (c_Standby c)) cfg
}.

Lemma opened_nil c w w' : numbered w' -> w_open w' = w_open w -> w_hosts w' = w_hosts w ->
  w_cfgs w' = w_cfgs w -> opened c [] w w'.
Proof.
  intros Hn Ho Hh Hc. split; rewrite ?Ho, ?Hh, ?Hc; try done; try set_solver. constructor.
Qed.

Lemma standby_loop_spec c dsns : forall sm w err sm' w', numbered w ->
  standby_loop open_error c dsns sm w = (err, sm', w') ->
  exists L, sm' = with_stores (store sm) (unhealthyStore sm) (pending sm ++ L) sm /\
    L.*1 `prefix_of` dsns /\ (err = None -> L.*1 = dsns) /\ opened c L w w'.
Proof.
  assert (forall sm dsns (e : string) w w', opened c [] w w' -> exists L,
    sm = with_stores (store sm) (unhealthyStore sm) (pending sm ++ L) sm /\
    L.*1 `prefix_of` dsns /\ (Some e = None -> L.*1 = dsns) /\ opened c L w w') as Hstop.
  { intros sm dsns' e w w' Ho. exists []. rewrite app_nil_r. destruct sm. split; [done|]. split; [apply prefix_nil|done]. }
  induction dsns as [|dsn dsns IH]; intros sm w err sm' w' Hn; cbn [standby_loop].
  { intros [= <- <- <-]. exists []. rewrite app_nil_r. destruct sm. split; [done|]. split; [done|].
    split; [done|by apply opened_nil]. }
  destruct (ParseConfig dsn) as [px|e] eqn:Epx; [|by intros [= <- <- <-]; apply Hstop, opened_nil].
  unfold NewWithConfig. destruct (open_error (w_next w)) as [e|] eqn:Eo.
  { intros [= <- <- <-]. apply Hstop, opened_nil; try done. intros i Hi. simpl. specialize (Hn i Hi). lia. }
  set (cfg := with_session _ _ _). unfold AddStandby, checked_newPool. cbn [w_cfgs]. rewrite lookup_insert_eq.
  cbn [ErrorParser negb]. set (i := w_next w) in *. set (p := newPool _ _).
  cbn [fmap option_fmap option_map default from_option].
  intros E. apply IH in E as (L & -> & Hpre & Hall & [Hnd Hge Hopen Hn' Hh Hc Hal Hcf]).
  2: { intros j. simpl. intros [->%elem_of_singleton|Hj]%elem_of_union; [lia|]. specialize (Hn j Hj). lia. }
  pose proof (settings_configured c dsn SessionReadOnly (Some read_only) (sb_MaxConns (c_Standby c))
                (sb_MinConns (c_Standby c)) px Epx) as Hcfg.
  fold cfg in Hcfg. assert (ConnString cfg = dsn) as Hk by apply Hcfg.
  assert (i ∉ L.*2) as Hni by (intros Hi; specialize (Hge i Hi); simpl in Hge; lia).
  exists ((dsn, i) :: L). split; [unfold with_stores; simpl; rewrite <- app_assoc; simpl; repeat f_equal; exact Hk|].
  split; [by apply prefix_cons|]. split; [intros He; simpl; f_equal; by apply Hall|]. simpl in *. split; simpl.
  - by apply NoDup_cons.
  - intros j [->|Hj]%elem_of_cons; [lia|specialize (Hge j Hj); lia].
  - rewrite Hopen. set_solver.
  - done.
  - intros j Hj. rewrite Hh by set_solver. by rewrite lookup_insert_ne by set_solver.
  - intros j Hj. rewrite Hc by lia. by rewrite lookup_insert_ne by lia.
  - intros j [->|Hj]%elem_of_cons; [|by apply Hal]. exists p. rewrite Hh by done. rewrite lookup_insert_eq.
    split; [done|apply newPool_alive].
  - intros k j [[= -> ->]|Hj]%elem_of_cons; [|by apply Hcf]. exists cfg. rewrite Hc by lia. by rewrite lookup_insert_eq.
Qed.

Lemma initPrimary_spec c w : is_Some (pr_RetryStrategy (c_Primary c)) -> numbered w ->
  exists r w', initPrimary open_error answers c w = Ret (r, w') /\ numbered w' /\
  match r with
  | Err _ => w_open w' = w_open w
  | Ok i =>
      i ∉ w_open w /\ (i < w_next w')%nat /\ w_open w' = {[i]} ∪ w_open w /\
      (exists p, w_hosts w' !! i = Some p /\ alive p) /\
      (exists cfg, w_cfgs w' !! i = Some cfg /\
         configured c (pr_DSN (c_Primary c)) SessionPrimary None
           (pr_MaxConns (c_Primary c)) (pr_MinConns (c_Primary c)) cfg)
  end.
Proof.
  intros Hs Hn. unfold initPrimary, buildPrimaryPgxPool. case_decide; [by eexists _, _|].
  destruct (ParseConfig (pr_DSN (c_Primary c))) as [px|e] eqn:Epx; [|by eexists _, _].
  unfold NewWithConfig. destruct (open_error (w_next w)) as [e|] eqn:Eo.
  { eexists _, _. split; [done|]. split; [|done]. intros i Hi. simpl. specialize (Hn i Hi). lia. }
  set (cfg := with_session _ _ _). cbn [w_cfgs]. unfold checked_newPool. rewrite lookup_insert_eq. cbn [ErrorParser negb].
  set (i := w_next w) in *.
  edestruct (connect_retry_alive (pr_RetryAttempts (c_Primary c)) (pr_RetryStrategy (c_Primary c))
    (pr_RetryStrategyBaseValue (c_Primary c)) (answers i)) as (err & p & E & Hp); [done|apply newPool_alive|].
  rewrite E. cbn [outcome_bind]. assert (i ∉ w_open w) as Hi by (intros Hi; specialize (Hn i Hi); lia).
  destruct err as [e|].
  - destruct (close_hosts_spec [i] (set_host i p (mkWorld (S i) ({[i]} ∪ w_open w) (w_hosts w) (<[i:=cfg]> (w_cfgs w)))))
      as (w' & E' & Ho & _).
    { intros j ->%list_elem_of_singleton. eapply alive_closable; [simpl; by rewrite lookup_insert_eq|done]. }
    cbn [close_hosts] in E'. destruct (close_host i _) as [w1|] eqn:E1; [|done]. cbn [outcome_bind] in E'. simplify_eq.
    cbn [outcome_bind]. eexists _, _. split; [done|]. simpl in Ho.
    assert (w_next w' = S i) as Hnext.
    { revert E1. unfold close_host. simpl. rewrite lookup_insert_eq. destruct (p_closed p); [by intros [= <-]|].
      destruct (Pool_Close p); [|done]. by intros [= <-]. }
    split; [|rewrite Ho; set_solver]. intros j. rewrite Ho, Hnext. intros Hj. specialize (Hn j ltac:(set_solver)). lia.
  - eexists _, _. split; [done|]. simpl. split.
    { intros j. simpl. intros [->%elem_of_singleton|Hj]%elem_of_union; [lia|]. specialize (Hn j Hj). lia. }
    split; [done|]. split; [lia|]. split; [done|]. rewrite !lookup_insert_eq. split; [by eexists|].
    eexists. split; [done|]. by apply settings_configured.
Qed.

(** ** A running manager *)

Definition move_entry (mv : move) : string * nat :=
  match mv with Leaving k i | Left k i | Retrying k i | Returning k i | Returned k i => (k, i) end.

(** A standby whose goroutine has yet to finish, one that is in a store, and one that a move has taken out of a store. *)
Definition in_place (k : string) (i : nat) (sm : standbyManager) : Prop :=
  (k, i) ∈ pending sm \/ store sm !! k = Some i \/ unhealthyStore sm !! k = Some i \/
  Left k i ∈ moving sm \/ Returned k i ∈ moving sm.

(** The standbys of [L] are where a goroutine or [Close] finds them, except those that are closed; those that are pending are in no store
    and no move. *)
Record placed (L : list (string * nat)) (sm : standbyManager) (w : world) : Prop := {
  p_pending : forall e, e ∈ pending sm -> e ∈ L;
  p_store : forall k i, store sm !! k = Some i -> (k, i) ∈ L;
  p_unhealthy : forall k i, unhealthyStore sm !! k = Some i -> (k, i) ∈ L;
  p_moving : forall mv, mv ∈ moving sm -> move_entry mv ∈ L;
  p_fresh : forall k i, (k, i) ∈ pending sm -> store sm !! k = None /\ unhealthyStore sm !! k = None /\
    forall mv, mv ∈ moving sm -> (move_entry mv).1 <> k;
  p_place : forall k i, (k, i) ∈ L -> in_place k i sm \/ closed_in i w
}.

(** Exactly the pools of the manager that are not closed are open besides those of [O]. *)
Record running (m : nat) (L : list (string * nat)) (O : gset nat) (sm : standbyManager) (w : world) : Prop := {
  r_placed : placed L sm w;
  r_open : forall i, i ∈ w_open w <-> i ∈ O \/ (i = m \/ i ∈ L.*2) /\ ~ closed_in i w;
  r_hosts : forall i, i = m \/ i ∈ L.*2 -> exists p, w_hosts w !! i = Some p /\ (alive p \/ p_closed p = true);
  r_strategy : is_Some (sm_RetryStrategy (sm_config sm))
}.

Lemma entry_unique (L : list (string * nat)) k i j : NoDup L.*1 -> (k, i) ∈ L -> (k, j) ∈ L -> i = j.
Proof.
  intros Hnd Hi Hj. apply list_elem_of_lookup in Hi as [a Ha], Hj as [b Hb].
  assert (a = b) as ->; [|congruence]. apply (NoDup_lookup L.*1 a b k); [done|..]; rewrite list_lookup_fmap.
  - by rewrite Ha.
  - by rewrite Hb.
Qed.

Lemma elem_replace j mv mv' (l : list move) x : l !! j = Some mv -> x ∈ replace_move j mv' l -> x ∈ l \/ mv' = Some x.
Proof.
  intros Hj. destruct mv' as [y|]; simpl.
  - intros [n Hn]%list_elem_of_lookup. destruct (decide (n = j)) as [->|Hne].
    + rewrite list_lookup_insert_eq in Hn by (by eapply lookup_lt_Some). simplify_eq. by right.
    + rewrite list_lookup_insert_ne in Hn by done. left. by eapply list_elem_of_lookup_2.
  - intros Hx. left. rewrite (delete_Permutation l j mv Hj). by right.
Qed.

Lemma replace_elem j mv mv' (l : list move) x : l !! j = Some mv -> x ∈ l -> x = mv \/ x ∈ replace_move j mv' l.
Proof.
  intros Hj Hx. destruct mv' as [y|]; simpl.
  - apply list_elem_of_lookup in Hx as [n Hn]. destruct (decide (n = j)) as [->|Hne]; [left; congruence|]. right.
    apply (list_elem_of_lookup_2 _ n). by rewrite list_lookup_insert_ne.
  - rewrite (delete_Permutation l j mv Hj) in Hx. by apply elem_of_cons in Hx.
Qed.

Lemma replace_new j mv y (l : list move) : l !! j = Some mv -> y ∈ replace_move j (Some y) l.
Proof. intros Hj. simpl. apply (list_elem_of_lookup_2 _ j), list_lookup_insert_eq. by eapply lookup_lt_Some. Qed.

(** The goroutine of [AddStandby] puts its host in a store. *)
Lemma placed_add L sm w k i (err : option string) : NoDup L.*1 -> placed L sm w -> (k, i) ∈ pending sm ->
  placed L (match err with
            | Some _ => with_stores (store sm) (<[k := i]> (unhealthyStore sm)) (filter (fun e => e <> (k, i)) (pending sm)) sm
            | None => with_stores (<[k := i]> (store sm)) (unhealthyStore sm) (filter (fun e => e <> (k, i)) (pending sm)) sm
            end : standbyManager) w.
Proof.
  intros Hnd [HP HS HU HM HF HC] Hin. pose proof (HP _ Hin) as HinL.
  assert (forall k' i', (k', i') ∈ filter (fun e => e <> (k, i)) (pending sm) -> (k', i') ∈ pending sm /\ k' <> k) as Hrest.
  { intros k' i' [Hne Hp]%list_elem_of_filter. split; [done|]. intros ->. apply Hne. f_equal. by eapply entry_unique, HinL; [|apply HP]. }
  assert (forall k' i', (k', i') ∈ pending sm -> (k', i') = (k, i) \/ (k', i') ∈ filter (fun e => e <> (k, i)) (pending sm)) as Hkeep.
  { intros k' i' Hp. destruct (decide ((k', i') = (k, i))); [by left|]. right. by apply list_elem_of_filter. }
  destruct err as [e|]; split; cbn [with_stores pending store unhealthyStore moving].
  1,7: (intros [k' i'] Hp; apply HP; by apply Hrest).
  1,6: (intros k' i'; try rewrite lookup_insert_Some; naive_solver).
  1,5: (intros k' i'; try rewrite lookup_insert_Some; naive_solver).
  1,4: done.
  1,3: (intros k' i' [Hp Hne]%Hrest; destruct (HF _ _ Hp) as (? & ? & ?); rewrite lookup_insert_ne by done; done).
  all: intros k' i' HL'; destruct (HC _ _ HL') as [Hpl|?]; [left|by right]; unfold in_place in *; cbn [with_stores pending store unhealthyStore moving];
    destruct (decide (k' = k)) as [->|Hne];
    [rewrite (entry_unique _ _ _ _ Hnd HL' HinL), lookup_insert_eq; auto|rewrite lookup_insert_ne by done];
    destruct Hpl as [Hp|?]; [|by auto]; destruct (Hkeep _ _ Hp) as [[= ? ?]|?]; [done|by auto].
Qed.

(** A move begins with a host that a store has. *)
Lemma placed_begin L sm w mv : placed L sm w ->
  (store sm !! (move_entry mv).1 = Some (move_entry mv).2 \/ unhealthyStore sm !! (move_entry mv).1 = Some (move_entry mv).2) ->
  placed L (with_moving (moving sm ++ [mv]) sm) w.
Proof.
  intros [HP HS HU HM HF HC] Hmv. split; cbn [with_moving pending store unhealthyStore moving]; try done.
  - intros x [Hx| ->%list_elem_of_singleton]%elem_of_app; [by apply HM|]. rewrite (surjective_pairing (move_entry mv)).
    destruct Hmv; [by apply HS|by apply HU].
  - intros k i Hp. destruct (HF _ _ Hp) as (Hs & Hu & Hm). split; [done|]. split; [done|].
    intros x [Hx| ->%list_elem_of_singleton]%elem_of_app; [by apply Hm|]. intros <-. destruct Hmv; congruence.
  - intros k i HL. destruct (HC _ _ HL) as [Hpl|?]; [left|by right]. unfold in_place in *.
    cbn [with_moving pending store unhealthyStore moving]. rewrite !elem_of_app. tauto.
Qed.

(** The stores lose nothing but what the move has in hand or has put down. *)
Lemma placed_turn L sm w ans j mv mv' sm' w' : NoDup L.*1 -> placed L sm w -> moving sm !! j = Some mv ->
  move_turn ans mv sm w = Ret (mv', sm', w') -> (forall i, closed_in i w -> closed_in i w') ->
  placed L (with_moving (replace_move j mv' (moving sm)) sm') w'.
Proof.
  intros Hnd [HP HS HU HM HF HC] Hj E Hw. pose proof (list_elem_of_lookup_2 _ _ _ Hj) as Hin.
  pose proof (HM _ Hin) as HinL.
  assert (pending sm' = pending sm /\ match mv' with Some x => move_entry x = move_entry mv | None => True end /\
    (forall k i, store sm' !! k = Some i -> store sm !! k = Some i \/ (k, i) = move_entry mv) /\
    (forall k i, unhealthyStore sm' !! k = Some i -> unhealthyStore sm !! k = Some i \/ (k, i) = move_entry mv) /\
    (forall k i, (k, i) <> move_entry mv -> in_place k i sm -> (k, i) ∈ L ->
       in_place k i (with_moving (replace_move j mv' (moving sm)) sm')) /\
    (in_place (move_entry mv).1 (move_entry mv).2 sm ->
       in_place (move_entry mv).1 (move_entry mv).2 (with_moving (replace_move j mv' (moving sm)) sm')))
    as (Hpend & Hmv' & Hst & Hun & Hother & Hown).
  { assert (forall k i, (k, i) <> move_entry mv -> (k, i) ∈ L -> k <> (move_entry mv).1) as Hkne.
    { intros k i Hne HL ->. apply Hne. rewrite (surjective_pairing (move_entry mv)) in *. f_equal. by eapply entry_unique. }
    assert (forall x, x ∈ moving sm -> move_entry x <> move_entry mv -> x ∈ replace_move j mv' (moving sm)) as Hstay.
    { intros x Hx Hne. destruct (replace_elem j mv mv' _ x Hj Hx) as [->|?]; done. }
    destruct mv as [k h|k h|k h|k h|k h]; cbn [move_turn move_entry fst snd] in *.
    3: destruct (retry_host h ans sm w) as [[err w1]|]; [|done]; cbn [outcome_bind] in E; injection E as <- <- <-.
    1,2,4,5: injection E as <- <- <-.
    all: (split; [done|]); (split; [try done; by destruct err|]).
    all: (split; [intros k0 i0; simpl; rewrite ?lookup_delete_Some, ?lookup_insert_Some; naive_solver|]).
    all: (split; [intros k0 i0; simpl; rewrite ?lookup_delete_Some, ?lookup_insert_Some; naive_solver|]).
    all: unfold in_place; cbn [with_moving with_stores store_Remove unhealthy_Set unhealthy_Remove store_Set pending store unhealthyStore moving]; split.
    1,3,5,7,9: intros k0 i0 Hne Hpl HL0; pose proof (Hkne _ _ Hne HL0); rewrite ?lookup_insert_ne, ?lookup_delete_ne by done;
      destruct Hpl as [?|[?|[?|[?|?]]]]; [auto 6|auto 6|auto 6|do 3 right; left; by apply Hstay|do 4 right; by apply Hstay].
    - intros _. do 3 right. left. by eapply replace_new.
    - intros _. rewrite lookup_insert_eq. auto.
    - intros _. do 4 right. by eapply replace_new.
    - intros _. rewrite lookup_insert_eq. auto.
    - intros Hpl. destruct Hpl as [?|[?|[?|[Hx|Hx]]]]; [auto 6|auto 6|auto 6|do 3 right; left|do 4 right];
        by destruct (replace_elem j _ (match err with Some _ => None | None => Some (Returning k h) end) _ _ Hj Hx). }
  assert (forall k i, (k, i) = move_entry mv -> (k, i) ∈ L) as Hent by (intros k i ->; done).
  split; cbn [with_moving pending store unhealthyStore moving].
  - rewrite Hpend. done.
  - intros k i [?|?]%Hst; [by apply HS|by apply Hent].
  - intros k i [?|?]%Hun; [by apply HU|by apply Hent].
  - intros x [?| ->]%(elem_replace _ _ _ _ _ Hj); [by apply HM|by rewrite Hmv'].
  - rewrite Hpend. intros k i Hp. destruct (HF _ _ Hp) as (Hs & Hu & Hm). split_and!.
    + apply eq_None_not_Some. intros [i' [?|Heq]%Hst]; [congruence|]. apply (Hm _ Hin). by rewrite <- Heq.
    + apply eq_None_not_Some. intros [i' [?|Heq]%Hun]; [congruence|]. apply (Hm _ Hin). by rewrite <- Heq.
    + intros x [?| ->]%(elem_replace _ _ _ _ _ Hj); [by apply Hm|]. rewrite Hmv'. by apply Hm.
  - intros k i HL. destruct (HC _ _ HL) as [Hpl|?]; [left|right; by apply Hw].
    destruct (decide ((k, i) = move_entry mv)) as [Heq|Hne]; [|by apply Hother].
    replace k with (move_entry mv).1 in * by by rewrite <- Heq. replace i with (move_entry mv).2 in * by by rewrite <- Heq. by apply Hown.
Qed.

(** The key of a closed pool leaves a store. *)
Lemma placed_forget L sm w k i : placed L sm w -> closed_in i w -> NoDup L.*1 -> (k, i) ∈ L ->
  placed L (store_Remove k sm) w /\ placed L (unhealthy_Remove k sm) w.
Proof.
  intros [HP HS HU HM HF HC] Hcl Hnd HkL.
  split; split; cbn [store_Remove unhealthy_Remove with_stores pending store unhealthyStore moving]; try done.
  1,4: (intros k' i'; rewrite lookup_delete_Some; naive_solver).
  1,3: (intros k' i' Hp; destruct (HF _ _ Hp) as (? & ? & ?); split_and!; try done; by apply lookup_delete_None; right).
  all: intros k' i' HL; destruct (HC _ _ HL) as [Hpl|?]; [|by right]; destruct (decide (k' = k)) as [->|Hne];
    [right; by rewrite (entry_unique _ _ _ _ Hnd HL HkL)|left; unfold in_place in *;
     cbn [store_Remove unhealthy_Remove with_stores pending store unhealthyStore moving]; by rewrite lookup_delete_ne].
Qed.

Lemma placed_closed L sm w w' : placed L sm w -> (forall i, closed_in i w -> closed_in i w') -> placed L sm w'.
Proof. intros [HP HS HU HM HF HC] Hw. split; try done. intros k i HL. destruct (HC _ _ HL); [by left|right; by apply Hw]. Qed.

(** A host that is connected or ticks stays as open as it was. *)
Lemma set_host_same i p p' w : w_hosts w !! i = Some p -> p_closed p' = p_closed p ->
  forall j, closed_in j (set_host i p' w) <-> closed_in j w.
Proof.
  intros Hp Hc j. unfold closed_in. simpl. destruct (decide (j = i)) as [->|Hne].
  - rewrite lookup_insert_eq, Hp. split; intros (q & [= <-] & ?); eexists; (split; [done|congruence]).
  - by rewrite lookup_insert_ne.
Qed.

Lemma running_host m L O sm w i p p' : running m L O sm w -> w_hosts w !! i = Some p -> p_closed p' = p_closed p ->
  (alive p -> alive p') -> running m L O sm (set_host i p' w).
Proof.
  intros [Hpl Ho Hh Hst] Hp Hc Hal. pose proof (set_host_same i p p' w Hp Hc) as Hsame. split; try done.
  - eapply placed_closed; [done|]. intros j. by apply Hsame.
  - intros j. rewrite Hsame. apply Ho.
  - intros j Hj. simpl. destruct (decide (j = i)) as [->|Hne]; [|rewrite lookup_insert_ne by done; by apply Hh].
    rewrite lookup_insert_eq. destruct (Hh i Hj) as (q & Eq & Hq). simplify_eq. eexists. split; [done|].
    destruct Hq; [left; by apply Hal|right; congruence].
Qed.

Lemma connect_host m L O sm w i p ans err p' : running m L O sm w -> w_hosts w !! i = Some p ->
  connect_retry (sm_RetriesBeforeUnhealthy (sm_config sm)) (sm_RetryStrategy (sm_config sm)) (sm_Base (sm_config sm)) ans p = Ret (err, p') ->
  running m L O sm (set_host i p' w).
Proof.
  intros Hr Hp E. apply (running_host _ _ _ _ _ _ p); [done|done|by eapply connect_retry_closed|]. intros Hal.
  destruct (connect_retry_alive (sm_RetriesBeforeUnhealthy (sm_config sm)) _ (sm_Base (sm_config sm)) ans p (r_strategy _ _ _ _ _ Hr) Hal)
    as (e & q & Eq & Hq). rewrite E in Eq. by simplify_eq.
Qed.

Lemma running_placed m L O sm sm' w : running m L O sm w -> placed L sm' w -> sm_config sm' = sm_config sm -> running m L O sm' w.
Proof. intros [Hpl Ho Hh Hst] Hpl' Hc. split; try done. by rewrite Hc. Qed.

Lemma mstep_running m L O s s' : NoDup L.*1 -> running m L O s.1 s.2 -> mstep s s' -> running m L O s'.1 s'.2.
Proof.
  intros Hnd Hr Hs.
  destruct Hs as [k i ans sm w sm' w' Hin E|k sm w|k sm w|j mv ans sm w mv' sm' w' Hj E|k i p sm w Hp Hc Hk|k i p sm w Hp Hc Hk|i p p' sm w Hp Hpool];
    cbn [fst snd] in *.
  - unfold add_done in E. destruct (w_hosts w !! i) as [p|] eqn:Ep; [|by simplify_eq].
    destruct (connect_retry _ _ _ _ _) as [[err p1]|] eqn:Ec; [|done]. cbn [outcome_bind] in E. simplify_eq.
    pose proof (connect_host _ _ _ _ _ _ _ _ _ _ Hr Ep Ec) as Hr'. apply (running_placed _ _ _ sm); [done| |by destruct err].
    by apply (placed_add L sm _ k i err Hnd (r_placed _ _ _ _ _ Hr')).
  - unfold moveToUnhealthy. case_decide; [done|]. destruct (store sm !! k) as [i|] eqn:Ek; [|done].
    apply (running_placed _ _ _ sm); [done| |done]. apply placed_begin; [apply Hr|by left].
  - unfold retry_begin. destruct (unhealthyStore sm !! k) as [i|] eqn:Ek; [|done].
    apply (running_placed _ _ _ sm); [done| |done]. apply placed_begin; [apply Hr|by right].
  - assert (running m L O sm w' /\ sm_config sm' = sm_config sm /\ forall i, closed_in i w -> closed_in i w') as (Hr' & Hcfg & Hw).
    { destruct mv as [k h|k h|k h|k h|k h]; cbn [move_turn] in E; try (by injection E as <- <- <-).
      unfold retry_host in E. destruct (w_hosts w !! h) as [p|] eqn:Ep; [|by injection E as <- <- <-].
      destruct (connect_retry _ _ _ _ _) as [[err p1]|] eqn:Ec; [|done]. cbn [outcome_bind] in E. injection E as <- <- <-.
      split; [by eapply connect_host|]. split; [done|]. intros i. apply (set_host_same h p p1); [done|by eapply connect_retry_closed]. }
    apply (running_placed _ _ _ sm); [done| |done]. eapply placed_turn; [done|apply Hr|done|done|done].
  - apply (running_placed _ _ _ sm); [done| |done]. eapply placed_forget; [apply Hr|by exists p|done|by eapply p_store; [apply Hr|]].
  - apply (running_placed _ _ _ sm); [done| |done]. eapply (placed_forget L sm w k i); [apply Hr|by exists p|done|by eapply p_unhealthy; [apply Hr|]].
  - apply (running_host _ _ _ _ _ _ p); [done|done|by apply pool_step_closed|]. intros Hal. by eapply pool_step_alive.
Qed.

(** The steps keep the flag of the manager, what is open and what is closed. *)
Lemma mstep_keeps s s' : mstep s s' -> sm_closed s'.1 = sm_closed s.1 /\ w_open s'.2 = w_open s.2 /\
  forall i, closed_in i s'.2 <-> closed_in i s.2.
Proof.
  destruct 1 as [k i ans sm w sm' w' Hin E|k sm w|k sm w|j mv ans sm w mv' sm' w' Hj E|k i p sm w Hp Hc Hk|k i p sm w Hp Hc Hk|i p p' sm w Hp Hpool];
    cbn [fst snd]; try done.
  - unfold add_done in E. destruct (w_hosts w !! i) as [p|] eqn:Ep; [|by simplify_eq].
    destruct (connect_retry _ _ _ _ _) as [[err p1]|] eqn:Ec; [|done]. cbn [outcome_bind] in E. simplify_eq.
    split; [by destruct err|]. split; [done|]. apply (set_host_same i p); [done|by eapply connect_retry_closed].
  - unfold moveToUnhealthy. case_decide; [done|]. by destruct (store sm !! k).
  - unfold retry_begin. by destruct (unhealthyStore sm !! k).
  - destruct mv as [k h|k h|k h|k h|k h]; cbn [move_turn] in E; try (by injection E as <- <- <-).
    unfold retry_host in E. destruct (w_hosts w !! h) as [p|] eqn:Ep; [|by injection E as <- <- <-].
    destruct (connect_retry _ _ _ _ _) as [[err p1]|] eqn:Ec; [|done]. cbn [outcome_bind] in E. injection E as <- <- <-.
    split; [done|]. split; [done|]. apply (set_host_same h p); [done|by eapply connect_retry_closed].
  - split; [done|]. split; [done|]. apply (set_host_same i p); [done|by apply pool_step_closed].
Qed.

Lemma runs_keep s s' : runs mstep s s' -> sm_closed s'.1 = sm_closed s.1 /\ w_open s'.2 = w_open s.2 /\
  forall i, closed_in i s'.2 <-> closed_in i s.2.
Proof.
  intros Hr. apply (runs_inv mstep (fun x => sm_closed x.1 = sm_closed s.1 /\ w_open x.2 = w_open s.2 /\
    forall i, closed_in i x.2 <-> closed_in i s.2) s s'); [|done|done].
  intros x y (H1 & H2 & H3) Hxy. destruct (mstep_keeps _ _ Hxy) as (-> & -> & H4). split; [done|]. split; [done|].
  intros i. by rewrite H4.
Qed.

(** ** What NewPoolManager leaves open *)

Lemma effective_strategies options :
  is_Some (pr_RetryStrategy (c_Primary (effective_config IntN options))) /\
  is_Some (sb_RetryStrategy (c_Standby (effective_config IntN options))).
Proof. unfold effective_config. cbn. unfold some_or. split; by case_match. Qed.

(** The three ways [NewPoolManager] ends. *)
Lemma new_manager_cases options w : numbered w ->
  exists r w', NewPoolManager IntN open_error answers options w = Ret (r, w') /\
  let c := effective_config IntN options in
  match r with
  | Failed _ None => w_open w' = w_open w
  | Failed _ (Some sm) => w_open w' = w_open w ∪ list_to_set (pending sm).*2 /\ sm_closed sm = false
  | Created m => exists master sm,
      m = mkManager c (Some master) (Some sm) false /\ (pending sm).*1 = sb_DSN (c_Standby c) /\
      NoDup (master :: (pending sm).*2) /\ list_to_set (master :: (pending sm).*2) ## w_open w /\
      running master (pending sm) (w_open w) sm w' /\ sm_closed sm = false /\
      (forall i, i = master \/ i ∈ (pending sm).*2 -> ~ closed_in i w') /\
      (exists cfg, w_cfgs w' !! master = Some cfg /\
         configured c (pr_DSN (c_Primary c)) SessionPrimary None (pr_MaxConns (c_Primary c)) (pr_MinConns (c_Primary c)) cfg) /\
      (forall k i, (k, i) ∈ pending sm -> exists cfg, w_cfgs w' !! i = Some cfg /\
         configured c k SessionReadOnly (Some read_only) (sb_MaxConns (c_Standby c)) (sb_MinConns (c_Standby c)) cfg)
  end.
Proof.
  intros Hn. unfold NewPoolManager. destruct (effective_strategies options) as [Hps Hss].
  set (c := effective_config IntN options) in *.
  destruct (initPrimary_spec c w Hps Hn) as (r & w1 & -> & Hn1 & Hr). cbn [outcome_bind].
  destruct r as [master|e]; [|by eexists _, _]. destruct Hr as (Hni & Hlt & Ho1 & (p & Ep & Hp) & (cfg & Ecfg & Hcfg)).
  unfold initStandby. set (sm0 := newStandbyManager IntN _ _).
  assert (exists err sm w2 L, (if (length (sb_DSN (c_Standby c)) =? 0)%nat then (None, sm0, w1)
            else standby_loop open_error c (sb_DSN (c_Standby c)) sm0 w1) = (err, sm, w2) /\
          sm = with_stores ∅ ∅ L sm0 /\ (err = None -> L.*1 = sb_DSN (c_Standby c)) /\ opened c L w1 w2)
    as (err & sm & w2 & L & -> & -> & Hall & [Hnd Hge Hop Hn2 Hh Hc Hal Hcf]).
  { destruct (Nat.eqb_spec (length (sb_DSN (c_Standby c))) 0) as [E0|_].
    { apply nil_length_inv in E0. rewrite E0. eexists _, _, _, []. split; [done|]. split; [done|]. split; [done|by apply opened_nil]. }
    destruct (standby_loop _ c _ sm0 w1) as [[err sm] w2] eqn:E. pose proof (standby_loop_spec _ _ _ _ _ _ _ Hn1 E) as (L & -> & _ & Hall & Hop).
    exists err, (with_stores ∅ ∅ L sm0), w2, L. repeat split; done || apply Hop. }
  assert (master ∉ L.*2) as Hml by (intros Hi; specialize (Hge _ Hi); lia).
  assert (forall i, i ∈ L.*2 -> i ∉ w_open w) as Hdis.
  { intros i Hi Hio. specialize (Hge _ Hi). specialize (Hn1 i). rewrite Ho1 in Hn1. specialize (Hn1 ltac:(set_solver)). lia. }
  assert (w_hosts w2 !! master = Some p) as Ep2 by by rewrite Hh.
  assert (forall i, i = master \/ i ∈ L.*2 -> exists q, w_hosts w2 !! i = Some q /\ alive q) as Halive.
  { intros i [->|Hi]; [eauto|by apply Hal]. }
  assert (forall i, i = master \/ i ∈ L.*2 -> ~ closed_in i w2) as Hnc.
  { intros i (q & Eq & Hq & Hqc & _)%Halive (q' & Eq' & Hc'). congruence. }
  destruct err as [e|].
  - destruct (close_hosts_spec [master] w2) as (w3 & E3 & Ho3 & _); [intros i ->%list_elem_of_singleton; by eapply alive_closable|].
    cbn [close_hosts] in E3. destruct (close_host master w2) as [w4|] eqn:E4; [|done]. cbn [outcome_bind] in *. simplify_eq.
    eexists _, _. split; [done|]. simpl. split; [|done]. rewrite Ho3, Hop, Ho1. simpl. set_solver.
  - eexists _, _. split; [done|]. eexists master, _. split; [done|]. simpl. split; [by apply Hall|].
    split; [by apply NoDup_cons|]. split; [rewrite elem_of_disjoint; set_solver|]. split.
    + split; simpl.
      * split; simpl; try done; try (intros k i; by rewrite lookup_empty).
        { intros mv Hmv. by apply elem_of_nil in Hmv. }
        { intros k i _. rewrite !lookup_empty. split_and!; try done. intros mv Hmv. by apply elem_of_nil in Hmv. }
        intros k i HL. left. by left.
      * intros i. rewrite Hop, Ho1, !elem_of_union, elem_of_singleton, elem_of_list_to_set.
        specialize (Hnc i). naive_solver.
      * intros i (q & ? & ?)%Halive. eauto.
      * unfold some_or. by case_match.
    + split; [done|]. split; [done|]. split; [exists cfg; by rewrite Hc by lia|done].
Qed.

(** The standbys that a move has taken out of one store and not yet put in the other. *)
Definition in_hand (sm : standbyManager) : list nat :=
  omap (fun mv => match mv with
                  | Left k i | Returned k i =>
                      if decide (store sm !! k = None /\ unhealthyStore sm !! k = None) then Some i else None
                  | _ => None
                  end) (moving sm).

(** The hosts of a store, in the order of a loop. *)
Lemma elem_of_order order (s : gmap string nat) i : SafeMap.fair_order order -> i ∈ (order s).*2 <-> exists k, s !! k = Some i.
Proof.
  intros Hord. rewrite (Hord s), list_elem_of_fmap. split.
  - intros ([k j] & -> & Hin%elem_of_map_to_list). eauto.
  - intros [k Hk]. exists (k, i). split; [done|]. by apply elem_of_map_to_list.
Qed.

(** Closing hosts of a manager. *)
Lemma close_some m L O sm w l : running m L O sm w -> list_to_set (m :: L.*2) ## O -> (forall i, i ∈ l -> i = m \/ i ∈ L.*2) ->
  exists w', close_hosts l w = Ret w' /\ running m L O sm w' /\ w_open w' = w_open w ∖ list_to_set l /\
    (forall i, i ∈ w_open w -> i ∉ w_open w' -> exists p, w_hosts w' !! i = Some p /\ health p = 0%nat) /\
    (forall i, closed_in i w -> w_hosts w' !! i = w_hosts w !! i).
Proof.
  intros [Hpl Ho Hh Hst] Hdis Hl. destruct (close_hosts_spec l w) as (w' & E & Hopen & Hother & Hcl & Hz & _ & _ & Hkeep).
  { intros i Hi. destruct (Hh i (Hl i Hi)) as (p & Ep & Hp). exists p. split; [done|]. destruct Hp as [?|Hc]; [by left|]. right.
    split; [done|]. rewrite Ho. intros [HO|[_ Hn]]; [|by apply Hn; exists p].
    apply (Hdis i); [|done]. rewrite elem_of_list_to_set, elem_of_cons. by apply Hl. }
  assert (forall i, closed_in i w' <-> closed_in i w \/ i ∈ l) as Hcw.
  { intros i. split; [|intros [?|?]; [by apply Hkeep|by apply Hcl]]. intros (p & Ep & Hp).
    destruct (decide (i ∈ l)) as [|Hni]; [by right|]. left. exists p. by rewrite <- (Hother i Hni). }
  exists w'. split; [done|]. split; [|split; [done|]; split; [|by intros i Hi; apply Hkeep]].
  - split; [eapply placed_closed; [done|]; intros i; rewrite Hcw; auto| |  |done].
    + intros i. rewrite Hopen, elem_of_difference, elem_of_list_to_set, Ho, Hcw.
      assert (i ∈ l -> i ∉ O) by (intros Hi HO; apply (Hdis i); [|done]; rewrite elem_of_list_to_set, elem_of_cons; by apply Hl).
      tauto.
    + intros i Hi. destruct (decide (i ∈ l)) as [Hil|Hil]; [destruct (Hcl i Hil) as (p & ? & ?); eauto|]. rewrite (Hother i Hil). by apply Hh.
  - intros i Hi Hni. apply Hz; [|done]. rewrite Hopen in Hni. set_solver.
Qed.

(** [Close] up to the end of its first loop. *)
Lemma close_first_running c m L O sm w order : SafeMap.fair_order order -> running m L O sm w -> NoDup (m :: L.*2) ->
  list_to_set (m :: L.*2) ## O -> sm_closed sm = false -> (forall i, i = m \/ i ∈ L.*2 -> ~ closed_in i w) ->
  exists sm2 w2, Close_first order (mkManager c (Some m) (Some sm) false) w = Ret (sm2, w2) /\
    running m L O sm2 w2 /\ unhealthyStore sm2 = unhealthyStore sm /\ sm_closed sm2 = true /\
    (forall i, i ∈ w_open w2 <-> i ∈ O \/ i ∈ L.*2 /\ forall k, store sm !! k <> Some i) /\
    (forall i, i ∈ w_open w -> i ∉ w_open w2 -> closed_in i w2 /\ exists p, w_hosts w2 !! i = Some p /\ health p = 0%nat).
Proof.
  intros Hord Hr Hnd Hdis Hcl Hopen. unfold Close_first, standby_Close_first. cbn [m_closed m_master standbys]. rewrite Hcl.
  pose proof (p_store _ _ _ (r_placed _ _ _ _ _ Hr)) as Hst.
  assert (forall k i, store sm !! k = Some i -> i ∈ L.*2) as Hin by (intros k i Hk; by apply (list_elem_of_fmap_2 snd L (k, i)), Hst).
  destruct (close_some m L O sm w (m :: (order (store sm)).*2) Hr Hdis) as (w2 & E & Hr2 & Ho & Hz & _).
  { intros i [->|[k Hk]%(elem_of_order _ _ _ Hord)]%elem_of_cons; [by left|right; by eapply Hin]. }
  cbn [close_hosts] in E. destruct (close_host m w) as [w1|]; [|done]. cbn [outcome_bind store] in *. rewrite E. cbn [outcome_bind].
  eexists _, _. split; [done|]. cbn [sm_closed unhealthyStore]. split_and!; try done.
  - eapply running_placed; [exact Hr2| |done]. destruct Hr2 as [[HP HS HU HM HF HC] _ _ _]. by split.
  - intros i. rewrite Ho, elem_of_difference, elem_of_list_to_set, elem_of_cons, (elem_of_order _ _ _ Hord), (r_open _ _ _ _ _ Hr).
    specialize (Hdis i). rewrite elem_of_list_to_set, elem_of_cons in Hdis. apply NoDup_cons in Hnd as [Hm _]. specialize (Hopen i).
    split; [intros [[?|[[->|?] _]] Hno]; naive_solver|]. intros [HO|[Hi Hns]]; [|by split; [auto|intros [->|[k ?]]; [done|by eapply Hns]]].
    split; [by left|]. intros [->|[k Hk]]; apply Hdis; auto. right. by eapply Hin.
  - intros i Hi Hni. split; [|by apply Hz]. revert Hni. rewrite (r_open _ _ _ _ _ Hr2). intros Hni. apply (r_open _ _ _ _ _ Hr) in Hi.
    destruct Hi as [?|[Hi _]]; [destruct Hni; by left|]. destruct (r_hosts _ _ _ _ _ Hr2 i Hi) as (p & Ep & [Hp|Hp]); [|by exists p].
    destruct Hni. right. split; [done|]. intros (q & Eq & Hq). destruct Hp as (_ & ? & _). congruence.
Qed.

(** The second loop. *)
Lemma close_rest_running m L O sm w order : SafeMap.fair_order order -> running m L O sm w -> list_to_set (m :: L.*2) ## O ->
  exists w', standby_Close_rest order sm w = Ret w' /\
    (forall i, i ∈ w_open w' <-> i ∈ w_open w /\ forall k, unhealthyStore sm !! k <> Some i) /\
    (forall k i, unhealthyStore sm !! k = Some i -> i ∉ O) /\
    (forall i, i ∈ w_open w -> i ∉ w_open w' -> exists p, w_hosts w' !! i = Some p /\ health p = 0%nat) /\
    (forall i, closed_in i w -> w_hosts w' !! i = w_hosts w !! i).
Proof.
  intros Hord Hr Hdis. unfold standby_Close_rest.
  assert (forall k i, unhealthyStore sm !! k = Some i -> i ∈ L.*2) as Hin.
  { intros k i Hk. apply (list_elem_of_fmap_2 snd L (k, i)). eapply p_unhealthy; [apply Hr|done]. }
  destruct (close_some m L O sm w (order (unhealthyStore sm)).*2 Hr Hdis) as (w' & E & _ & Ho & Hz & Hkeep).
  { intros i [k Hk]%(elem_of_order _ _ _ Hord). right. by eapply Hin. }
  exists w'. split; [done|]. split; [|split; [|done]].
  - intros i. rewrite Ho, elem_of_difference, elem_of_list_to_set, (elem_of_order _ _ _ Hord). naive_solver.
  - intros k i Hk HO. apply (Hdis i); [|done]. rewrite elem_of_list_to_set, elem_of_cons. right. by eapply Hin.
Qed.

Lemma entry_unique_snd (L : list (string * nat)) k k' i : NoDup L.*2 -> (k, i) ∈ L -> (k', i) ∈ L -> k = k'.
Proof.
  intros Hnd Hi Hj. apply list_elem_of_lookup in Hi as [a Ha], Hj as [b Hb].
  assert (a = b) as ->; [|congruence]. apply (NoDup_lookup L.*2 a b i); [done|..]; rewrite list_lookup_fmap.
  - by rewrite Ha.
  - by rewrite Hb.
Qed.

(** What neither loop finds when nothing happens between them. *)
Lemma missed_iff L sm w i : NoDup L.*1 -> NoDup L.*2 -> placed L sm w -> ~ closed_in i w ->
  (i ∈ L.*2 /\ (forall k, store sm !! k <> Some i) /\ forall k, unhealthyStore sm !! k <> Some i) <-> i ∈ (pending sm).*2 \/ i ∈ in_hand sm.
Proof.
  intros Hnd Hnd2 [HP HS HU HM HF HC] Hnc. split.
  - intros (([k j] & -> & HL)%list_elem_of_fmap & Hs & Hu). simpl in *. destruct (HC _ _ HL) as [Hpl|?]; [|done].
    assert (store sm !! k = None /\ unhealthyStore sm !! k = None) as Hnone.
    { split; apply eq_None_not_Some; intros [x Hx].
      - apply (Hs k). rewrite Hx. f_equal. by eapply entry_unique; [|apply HS|].
      - apply (Hu k). rewrite Hx. f_equal. by eapply entry_unique; [|apply HU|]. }
    destruct Hpl as [Hp|[Hp|[Hp|Hin]]]; [left; by apply (list_elem_of_fmap_2 snd _ (k, j))|by destruct (Hs k)|by destruct (Hu k)|]. right.
    apply list_elem_of_omap. destruct Hin as [Hin|Hin]; eexists; (split; [exact Hin|]); simpl; by rewrite decide_True.
  - assert (forall k, (k, i) ∈ L -> store sm !! k = None -> unhealthyStore sm !! k = None ->
      i ∈ L.*2 /\ (forall k, store sm !! k <> Some i) /\ forall k, unhealthyStore sm !! k <> Some i) as Hback.
    { intros k HL Hs Hu. split; [by apply (list_elem_of_fmap_2 snd L (k, i))|].
      split; intros k' Hk'; [pose proof (HS _ _ Hk') as HL'|pose proof (HU _ _ Hk') as HL'];
        rewrite (entry_unique_snd _ _ _ _ Hnd2 HL' HL) in Hk'; congruence. }
    intros [([k j] & -> & Hp)%list_elem_of_fmap|(mv & Hmv & Hi)%list_elem_of_omap].
    + destruct (HF _ _ Hp) as (? & ? & _). apply (Hback k); [by apply HP|done|done].
    + pose proof (HM _ Hmv) as HL. destruct mv as [k h|k h|k h|k h|k h]; try done; simpl in Hi, HL; case_decide as Hd; try done;
        simplify_eq; destruct Hd as [Hs Hu]; by apply (Hback k).
Qed.

Lemma missed_standby L sm w i : placed L sm w -> i ∈ (pending sm).*2 \/ i ∈ in_hand sm -> i ∈ L.*2.
Proof.
  intros [HP _ _ HM _ _] [(e & -> & He)%list_elem_of_fmap|(mv & Hmv & Hi)%list_elem_of_omap].
  - apply (list_elem_of_fmap_2 snd L e). by apply HP.
  - pose proof (HM _ Hmv) as HL. destruct mv; try done; simpl in Hi, HL; case_decide; try done; simplify_eq; by apply (list_elem_of_fmap_2 snd L (key, _)).
Qed.

(** A new manager, and what its goroutines make of it. *)
Lemma created_running options w0 m w1 sm1 sm w : numbered w0 ->
  NewPoolManager IntN open_error answers options w0 = Ret (Created m, w1) -> NoDup (sb_DSN (c_Standby (config m))) ->
  standbys m = Some sm1 -> runs mstep (sm1, w1) (sm, w) ->
  exists c master, m = mkManager c (Some master) (Some sm1) false /\ NoDup (pending sm1).*1 /\ NoDup (master :: (pending sm1).*2) /\
    list_to_set (master :: (pending sm1).*2) ## w_open w0 /\ running master (pending sm1) (w_open w0) sm w /\
    sm_closed sm = false /\ forall i, i = master \/ i ∈ (pending sm1).*2 -> ~ closed_in i w.
Proof.
  intros Hn E Hk Hsm Hr. destruct (new_manager_cases options w0 Hn) as (r & w' & E' & Hcase).
  rewrite E in E'. simplify_eq. destruct Hcase as (master & sm' & -> & Hkeys & Hnd & Hdis & Hrun & Hflag & Hal & _). simpl in *. simplify_eq.
  rewrite <- Hkeys in Hk. destruct (runs_keep _ _ Hr) as (Hf & _ & Hc). cbn [fst snd] in *. eexists _, master. split_and!; try done.
  - apply (runs_inv mstep (fun s => running master (pending sm1) (w_open w0) s.1 s.2) (sm1, w') (sm, w)); [|done|done].
    intros ? ? ? ?. by eapply mstep_running.
  - congruence.
  - intros i Hi. rewrite Hc. by apply Hal.
Qed.

(** ** Theorems *)

(** [NewPoolManager] always returns.  When the primary cannot be set up, no pool is
    left open.  When the standbys cannot be set up, the primary is closed but every standby
    opened so far stays open, with the goroutine of a standby manager nobody can
    close.  When it succeeds, exactly the primary and one pool per standby address are
    open. *)
Theorem new_manager_open options w : numbered w ->
  exists r w', NewPoolManager IntN open_error answers options w = Ret (r, w') /\
  match r with
  | Failed _ None => w_open w' = w_open w
  | Failed _ (Some sm) => w_open w' = w_open w ∪ list_to_set (pending sm).*2 /\ sm_closed sm = false
  | Created m => exists master sm, m_master m = Some master /\ standbys m = Some sm /\
      (pending sm).*1 = sb_DSN (c_Standby (config m)) /\
      w_open w' = w_open w ∪ {[master]} ∪ list_to_set (pending sm).*2
  end.
Proof.
  intros Hn. destruct (new_manager_cases options w Hn) as (r & w' & E & Hr). exists r, w'. split; [done|].
  destruct r as [m|e [sm|]]; try done. destruct Hr as (master & sm & -> & Hk & _ & _ & [_ Ho _ _] & _ & Hnc & _). exists master, sm. split_and!; try done.
  apply set_eq. intros i. rewrite Ho, !elem_of_union, elem_of_singleton, elem_of_list_to_set. specialize (Hnc i). naive_solver.
Qed.

(** C16: however the standbys of a manager have connected, failed and moved between the stores, and whatever moves are under way,
    [Close] returns.  If nothing moves between its two loops it closes every pool the manager has opened, with its health
    checks, except those whose goroutine in [AddStandby] is still running and those that a move has taken out of one store and not
    yet put in the other.  If goroutines run between the loops, it leaves open exactly the standbys that were not in the store at
    the first loop and are not in the unhealthy store at the second.  What it leaves open, no later step closes, and a second
    [Close] panics.  The addresses of the standbys are distinct; [pending sm1] are all the standbys of the new manager. *)
Theorem close_releases options w0 m w1 sm1 sm w order : numbered w0 -> SafeMap.fair_order order ->
  NewPoolManager IntN open_error answers options w0 = Ret (Created m, w1) ->
  NoDup (sb_DSN (c_Standby (config m))) ->
  standbys m = Some sm1 -> runs mstep (sm1, w1) (sm, w) ->
  exists sm2 w2, Close_first order (mkManager (config m) (m_master m) (Some sm) (m_closed m)) w = Ret (sm2, w2) /\
    (exists w', Close order (mkManager (config m) (m_master m) (Some sm) (m_closed m)) w =
         Ret (mkManager (config m) (m_master m) (Some sm2) true, w') /\
       w_open w' = w_open w0 ∪ list_to_set (pending sm).*2 ∪ list_to_set (in_hand sm) /\
       (forall i, i ∈ w_open w -> i ∉ w_open w' -> exists p, w_hosts w' !! i = Some p /\ health p = 0%nat)) /\
    (forall sm3 w3, runs mstep (sm2, w2) (sm3, w3) -> exists w', standby_Close_rest order sm3 w3 = Ret w' /\
       (forall i, i ∈ w_open w' <-> i ∈ w_open w0 \/
          i ∈ (pending sm1).*2 /\ (forall k, store sm !! k <> Some i) /\ (forall k, unhealthyStore sm3 !! k <> Some i)) /\
       (forall s, runs mstep (sm3, w') s -> w_open s.2 = w_open w')) /\
    (forall order' w', Close order' (mkManager (config m) (m_master m) (Some sm2) true) w' = Panic "close of closed channel").
Proof.
  intros Hn Hord E Hk Hsm Hr.
  destruct (created_running _ _ _ _ _ _ _ Hn E Hk Hsm Hr) as (c & master & -> & Hnd1 & Hnd & Hdis & Hrun & Hf & Hopen). cbn [config m_master m_closed].
  destruct (close_first_running c _ _ _ _ _ order Hord Hrun Hnd Hdis Hf Hopen) as (sm2 & w2 & Ec & Hr2 & Hu2 & _ & Ho2 & Hz2).
  exists sm2, w2. split; [done|]. split; [|split; [|done]].
  - destruct (close_rest_running _ _ _ _ _ order Hord Hr2 Hdis) as (w4 & E4 & Ho4 & HO & Hz4 & Hk4).
    exists w4. unfold Close. rewrite Ec. cbn [outcome_bind]. rewrite E4. cbn [outcome_bind]. split; [done|]. rewrite Hu2 in *. split.
    + apply set_eq. intros i. rewrite Ho4, Ho2, !elem_of_union, !elem_of_list_to_set.
      pose proof (missed_iff (pending sm1) sm w i Hnd1 (proj2 (proj1 (NoDup_cons _ _) Hnd)) (r_placed _ _ _ _ _ Hrun)) as Hmiss.
      destruct (decide (i ∈ (pending sm1).*2)) as [Hi|Hi].
      * specialize (Hmiss (Hopen i (or_intror Hi))). naive_solver.
      * pose proof (missed_standby _ _ _ i (r_placed _ _ _ _ _ Hrun)). naive_solver.
    + intros i Hi Hni. destruct (decide (i ∈ w_open w2)) as [Hi2|Hi2]; [by apply Hz4|].
      destruct (Hz2 i Hi Hi2) as (? & p & Ep & Hp). exists p. split; [|done]. by rewrite Hk4.
  - intros sm3 w3 Hr3. destruct (runs_keep _ _ Hr3) as (_ & Ho3 & _). cbn [fst snd] in Ho3.
    assert (running master (pending sm1) (w_open w0) sm3 w3) as Hrun3.
    { apply (runs_inv mstep (fun s => running master (pending sm1) (w_open w0) s.1 s.2) (sm2, w2) (sm3, w3)); [|done|done].
      intros ? ? ? ?. by eapply mstep_running. }
    destruct (close_rest_running _ _ _ _ _ order Hord Hrun3 Hdis) as (w4 & E4 & Ho4 & HO & _).
    exists w4. split; [done|]. split; [|intros s Hs; by destruct (runs_keep _ _ Hs) as (_ & ? & _)].
    intros i. rewrite Ho4, Ho3, Ho2. naive_solver.
Qed.

(** The pools of a manager accept only servers of their kind and carry its settings:
    the connections of the primary must reach a primary; those of a standby a read-only
    server, and their transactions are made read-only; both have the application name,
    the tracer and the numbers of connections that are configured and fit 32 bits. *)
Theorem pools_configured options w m w' : numbered w ->
  NewPoolManager IntN open_error answers options w = Ret (Created m, w') ->
  let c := config m in
  (exists master cfg, m_master m = Some master /\ w_cfgs w' !! master = Some cfg /\
     configured c (pr_DSN (c_Primary c)) SessionPrimary None (pr_MaxConns (c_Primary c)) (pr_MinConns (c_Primary c)) cfg) /\
  (exists sm, standbys m = Some sm /\ forall k i, (k, i) ∈ pending sm -> exists cfg, w_cfgs w' !! i = Some cfg /\
     configured c k SessionReadOnly (Some read_only) (sb_MaxConns (c_Standby c)) (sb_MinConns (c_Standby c)) cfg).
Proof.
  intros Hn E. destruct (new_manager_cases options w Hn) as (r & w1 & E' & Hcase). rewrite E in E'. simplify_eq.
  destruct Hcase as (master & sm & -> & _ & _ & _ & _ & _ & _ & (cfg & ? & ?) & Hsb). simpl. split; [by exists master, cfg|by exists sm].
Qed.

End Laws.

(** ** The migration verifier (verifier/goose/verifier.go) *)

Definition goose_query (fromTable : string) : string :=
  "SELECT true FROM " +:+ fromTable +:+ " WHERE version_id = $1 AND is_applied = true".

(** The verifier is given what executes a query with one argument: the rows affected
    or an error. *)
Definition NewGooseMigrationVerifier (fromTable minVersionRequired : string)
  : res string ((string -> string -> res string Z) -> option string) :=
  if decide (fromTable = "") then Err "versioning table required during verification of goose migration"
  else if decide (minVersionRequired = "") then
    Err "min version parameter required during verification of goose migration"
  else Ok (fun exec =>
    match exec (goose_query fromTable) minVersionRequired with
    | Err e => Some e
    | Ok rows => if rows =? 0 then Some "goose migration verification failed: no matching version found" else None
    end).

(** On a server that counts the matching rows of the table, the verifier accepts exactly
    the databases in which the required version itself is applied. *)
Theorem goose_accepts_iff fromTable version verify exec (rows : list (string * bool)) :
  NewGooseMigrationVerifier fromTable version = Ok verify ->
  (forall v, exec (goose_query fromTable) v =
     Ok (Z.of_nat (length (filter (fun r => r.1 = v /\ r.2 = true) rows)))) ->
  verify exec = None <-> (version, true) ∈ rows.
Proof.
  unfold NewGooseMigrationVerifier. do 2 (case_decide; [done|]). intros [= <-] Hexec. rewrite Hexec.
  destruct (filter _ rows) as [|[v b] l] eqn:Ef; simpl.
  - split; [done|]. intros Hin. exfalso. apply (not_elem_of_nil (version, true)).
    rewrite <- Ef. by apply list_elem_of_filter.
  - split; [|done]. intros _. assert ((v, b) ∈ filter (fun r => r.1 = version /\ r.2 = true) rows) as Hin by (rewrite Ef; set_solver).
    apply list_elem_of_filter in Hin as [[? ?] Hin]. simpl in *. by subst.
Qed.

(** ** Witnesses and examples *)

Definition demo_parse : Pgx := fun dsn =>
  if decide (dsn = "bad") then Err "cannot parse" else Ok (mkPgx dsn ∅ false 4 0 None None).

Lemma demo_parse_laws : PgxLaws demo_parse.
Proof. intros dsn cfg. unfold ParseConfig, demo_parse. case_decide; [done|]. by intros [= <-]. Qed.

Definition demo_standby (dsns : list string) : StandbyConfig := mkStandby dsns 8 0 0 0 1 None 0 None 0.
Definition demo_options (dsns : list string) : list ConfigOption :=
  [WithApplicationName "app"; WithPrimaryConfig (mkPrimary "primary" 16 0 0 0 1 0 None 0);
   WithStandbyConfig (demo_standby dsns)].
Definition up : nat -> Z -> attempt := fun _ _ => mkAttempt None None None.
Definition no_world : world := mkWorld 0 ∅ ∅ ∅.
Definition demo_new (dsns : list string) : outcome (created * world) :=
  NewPoolManager (Px := demo_parse) (fun _ => 0%nat) (fun _ => None) up (demo_options dsns) no_world.
Definition demo_order : gmap string nat -> list (string * nat) := map_to_list.

(** The value of a call that does not panic; the values hold functions, so that only parts
    of them are evaluated. *)
Definition get {A} (d : A) (o : outcome A) : A := match o with Ret a => a | Panic _ => d end.
Definition returns {A} (o : outcome A) : bool := match o with Ret _ => true | Panic _ => false end.

Lemma get_ret {A} (d : A) o : returns o = true -> o = Ret (get d o).
Proof. by destruct o. Qed.

Definition demo_manager (dsns : list string) : PoolManager :=
  match get (Failed "" None, no_world) (demo_new dsns) with
  | (Created m, _) => m
  | _ => mkManager (effective_config (fun _ => 0%nat) []) None None false
  end.
Definition demo_world (dsns : list string) : world := (get (Failed "" None, no_world) (demo_new dsns)).2.
Definition demo_sm (dsns : list string) : standbyManager :=
  default (newStandbyManager (fun _ => 0%nat) (mkSM None 0 0 None 0 0 0) false) (standbys (demo_manager dsns)).

Lemma demo_created dsns : match demo_new dsns with Ret (Created m, _) => bool_decide (is_Some (standbys m)) | _ => false end = true ->
  demo_new dsns = Ret (Created (demo_manager dsns), demo_world dsns) /\ standbys (demo_manager dsns) = Some (demo_sm dsns).
Proof.
  unfold demo_sm, demo_manager, demo_world. destruct (demo_new dsns) as [[[m|] w]|]; try done. simpl.
  intros Hm%bool_decide_eq_true. split; [done|]. by destruct Hm as [sm ->].
Qed.

Lemma new_manager_open_witness : exists r w', demo_new ["a"; "bad"] = Ret (r, w') /\ w_open w' = {[1%nat]}.
Proof.
  destruct (new_manager_open (PxL := demo_parse_laws) (fun _ => 0%nat) (fun _ => None) up (demo_options ["a"; "bad"]) no_world)
    as (r & w' & E & Hr).
  - intros i Hi. vm_compute in Hi. discriminate.
  - exists r, w'. split; [exact E|].
    assert (w_open (demo_world ["a"; "bad"]) = {[1%nat]}) as Ho by (vm_compute; reflexivity).
    unfold demo_world, demo_new in Ho. rewrite E in Ho. exact Ho.
Defined.

(** One standby has connected, the goroutine of the other still runs. *)
Definition demo_step (i : nat) (s : standbyManager * world) : outcome (standbyManager * world) :=
  add_done "a" i (up i) s.1 s.2.
Definition demo_run (i : nat) (s : standbyManager * world) : standbyManager * world := get s (demo_step i s).
Definition demo_start (dsns : list string) : standbyManager * world := (demo_sm dsns, demo_world dsns).

Lemma close_releases_witness :
  let s := demo_run 1 (demo_start ["a"; "b"]) in let m := demo_manager ["a"; "b"] in
  exists sm' w',
    Close demo_order (mkManager (config m) (m_master m) (Some s.1) (m_closed m)) s.2 =
      Ret (mkManager (config m) (m_master m) (Some sm') true, w') /\ w_open w' = {[2%nat]}.
Proof.
  intros s m. destruct (demo_created ["a"; "b"]) as [Hnew Hsm]; [vm_compute; reflexivity|].
  destruct (close_releases (PxL := demo_parse_laws) (fun _ => 0%nat) (fun _ => None) up (demo_options ["a"; "b"]) no_world
              m (demo_world ["a"; "b"]) (demo_sm ["a"; "b"]) s.1 s.2 demo_order) as (sm' & w2 & _ & (w' & E & Ho & _) & _).
  - intros i Hi. vm_compute in Hi. discriminate.
  - intros x. reflexivity.
  - exact Hnew.
  - vm_compute. repeat constructor; set_solver.
  - exact Hsm.
  - eapply runs_step; [apply runs_refl|]. apply (step_added "a" 1 (up 1)).
    + assert (pending (demo_sm ["a"; "b"]) = [("a", 1%nat); ("b", 2%nat)]) as -> by (vm_compute; reflexivity). set_solver.
    + change (demo_step 1 (demo_start ["a"; "b"]) = Ret (s.1, s.2)). rewrite <- surjective_pairing.
      apply get_ret. vm_compute. reflexivity.
  - exists sm', w'. split; [exact E|]. rewrite Ho. vm_compute. reflexivity.
Defined.

Lemma pools_configured_witness : exists sm, standbys (demo_manager ["a"]) = Some sm /\
  forall k i, (k, i) ∈ pending sm -> exists cfg, w_cfgs (demo_world ["a"]) !! i = Some cfg /\ AfterConnect cfg = Some read_only.
Proof.
  destruct (demo_created ["a"]) as [Hnew _]; [vm_compute; reflexivity|].
  destruct (pools_configured (PxL := demo_parse_laws) (fun _ => 0%nat) (fun _ => None) up (demo_options ["a"]) no_world
              (demo_manager ["a"]) (demo_world ["a"])) as (_ & sm & E & Hsb).
  - intros i Hi. vm_compute in Hi. discriminate.
  - exact Hnew.
  - exists sm. split; [exact E|]. intros k i Hin. destruct (Hsb k i Hin) as (cfg & Ec & _ & _ & Ha & _).
    exists cfg. split; [exact Ec|]. apply Ha. reflexivity.
Defined.

(** Two standbys with the same address share a key: the second replaces the first in the store, and [Close]
    leaves the first one open. *)
Theorem duplicate_address_leaks :
  let s1 := demo_run 1 (demo_start ["a"; "a"]) in let s2 := demo_run 2 s1 in let m := demo_manager ["a"; "a"] in
  demo_step 1 (demo_start ["a"; "a"]) = Ret s1 /\ demo_step 2 s1 = Ret s2 /\ pending s2.1 = [] /\
  exists m' w', Close demo_order (mkManager (config m) (m_master m) (Some s2.1) (m_closed m)) s2.2 = Ret (m', w') /\
    w_open w' = {[1%nat]}.
Proof.
  intros s1 s2 m. split; [apply get_ret; vm_compute; reflexivity|]. split; [apply get_ret; vm_compute; reflexivity|].
  split; [vm_compute; reflexivity|].
  set (o := Close _ _ _). exists (get (m, no_world) o).1, (get (m, no_world) o).2. rewrite <- surjective_pairing.
  split; [apply get_ret|]; vm_compute; reflexivity.
Qed.

(** A standby that fails is in neither store for a moment: a [Close] at that moment returns and leaves it open. *)
Definition demo_leaving (s : standbyManager * world) : standbyManager * world := (moveToUnhealthy "a" s.1, s.2).
Definition demo_left (s : standbyManager * world) : standbyManager * world :=
  (with_moving [Left "a" 1] (store_Remove "a" s.1), s.2).

Theorem close_during_move_leaks :
  let s0 := demo_start ["a"] in let s1 := demo_run 1 s0 in let s := demo_left (demo_leaving s1) in let m := demo_manager ["a"] in
  runs mstep s0 s /\ in_hand s.1 = [1%nat] /\
  exists m' w', Close demo_order (mkManager (config m) (m_master m) (Some s.1) (m_closed m)) s.2 = Ret (m', w') /\ w_open w' = {[1%nat]}.
Proof.
  intros s0 s1 s m. split; [|split; [vm_compute; reflexivity|]].
  - eapply runs_step; [eapply runs_step; [eapply runs_step; [apply runs_refl|]|]|].
    + apply (step_added "a" 1 (up 1) _ _ s1.1 s1.2).
      * assert (pending (demo_sm ["a"]) = [("a", 1%nat)]) as -> by (vm_compute; reflexivity). set_solver.
      * change (demo_step 1 s0 = Ret (s1.1, s1.2)). rewrite <- surjective_pairing. apply get_ret. vm_compute. reflexivity.
    + apply (step_unhealthy "a" s1.1 s1.2).
    + apply (step_move 0 (Leaving "a" 1) (up 1) (demo_leaving s1).1 s1.2 (Some (Left "a" 1)) _ s1.2).
      * vm_compute. reflexivity.
      * reflexivity.
  - set (o := Close _ _ _). exists (get (m, no_world) o).1, (get (m, no_world) o).2. rewrite <- surjective_pairing.
    split; [apply get_ret|]; vm_compute; reflexivity.
Qed.

Lemma goose_accepts_iff_witness : exists verify, NewGooseMigrationVerifier "goose_db_version" "3" = Ok verify /\
  verify (fun q v => Ok (Z.of_nat (length (filter (fun r => r.1 = v /\ r.2 = true) [("3", true)])))) = None.
Proof.
  eexists. split; [reflexivity|].
  apply (goose_accepts_iff "goose_db_version" "3" _ _ [("3", true)]); [reflexivity|reflexivity|set_solver].
Defined.
End PgwSetup.
