(* ===== verification/PgwTracer.v ===== *)
(** * The tracer adapter of the PostgreSQL wrapper: src/infra/pgw/tracer.go

    The functions that finish a trace travel in the context, one key per kind of call.
    Contexts are the linked lists of the package context; the user's tracer is a class. *)
From stdpp Require Import prelude strings list.
From Stdlib Require Import ZArith Lia.
From S2P Require Import Prelude.

Module PgwTracer.

(** The keys [ctxKeyQueryEnd] and so on. *)
Inductive kind := Query | Batch | CopyFrom | Prepare.

#[export] Instance kind_eq : EqDecision kind.
Proof. solve_decision. Defined.

(** A context: values of the adapter's keys (the number of a finishing function) and values of
    other packages over a parent. *)
Inductive ctx :=
| Background (id : nat)
| WithEnd (k : kind) (fin : nat) (parent : ctx)
| WithOther (v : nat) (parent : ctx).

(** [ctx.Value(key).(func(error))] *)
Fixpoint Value (k : kind) (c : ctx) : option nat :=
  match c with
  | Background _ => None
  | WithEnd k' fin parent => if decide (k = k') then Some fin else Value k parent
  | WithOther _ parent => Value k parent
  end.

(** The interface Tracer: [StartTrace] returns a context and a finishing function; the
    number tells the calls apart. *)
Class Tracer (A : Type) := {
  ShouldTrace : ctx -> bool;
  StartTrace : nat -> ctx -> string -> string -> list A -> ctx * nat
}.

Section Adapter.
Context {A : Type} {T : Tracer A}.

(** The body that the start handlers share. *)
Definition start (k : kind) (n : nat) (c : ctx) (m sql : string) (args : list A) : ctx :=
  if negb (ShouldTrace c) then c
  else let '(c, fin) := StartTrace n c m sql args in WithEnd k fin c.

(** The calls of finishing functions, each with its error. *)
Definition finish (k : kind) (c : ctx) (err : option string) : list (nat * option string) :=
  match Value k c with Some fin => [(fin, err)] | None => [] end.

Definition TraceQueryStart (n : nat) (c : ctx) (SQL : string) (Args : list A) : ctx :=
  start Query n c "db.Query" SQL Args.
Definition TraceQueryEnd := finish Query.

Definition TraceBatchStart (n : nat) (c : ctx) : ctx := start Batch n c "db.Batch" "" [].
Definition TraceBatchQuery (c : ctx) : list (nat * option string) := [].
Definition TraceBatchEnd := finish Batch.

Definition TraceCopyFromStart (n : nat) (c : ctx) (table : string) : ctx := start CopyFrom n c "db.CopyFrom" table [].
Definition TraceCopyFromEnd := finish CopyFrom.

Definition TracePrepareStart (n : nat) (c : ctx) (SQL : string) : ctx := start Prepare n c "db.Prepare" SQL [].
Definition TracePrepareEnd := finish Prepare.

(** A call of pgx and the calls it makes in its context: [Call k body err] starts, runs the body and
    ends with the error. *)
Inductive call := Call (k : kind) (m sql : string) (args : list A) (body : list call) (err : option string).

(** Runs a call; the numbers of the calls of [StartTrace] are given out in order. *)
Fixpoint run (c : ctx) (n : nat) (x : call) : list (nat * option string) * nat :=
  match x with
  | Call k m sql args body err =>
      let c' := start k n c m sql args in
      let fix go (l : list call) (n : nat) : list (nat * option string) * nat :=
        match l with
        | [] => ([], n)
        | y :: l => let '(e1, n) := run c' n y in let '(e2, n) := go l n in (e1 ++ e2, n)
        end in
      let '(inner, n') := go body (if ShouldTrace c then S n else n) in
      (inner ++ finish k c' err, n')
  end.

(** The calls of a body, one after the other. *)
Fixpoint run_body (c : ctx) (l : list call) (n : nat) : list (nat * option string) * nat :=
  match l with
  | [] => ([], n)
  | y :: l => let '(e1, n) := run c n y in let '(e2, n) := run_body c l n in (e1 ++ e2, n)
  end.

Fixpoint calls (x : call) : nat :=
  match x with Call _ _ _ _ body _ => S (foldr (fun y s => calls y + s) 0 body) end.

(** ** Theorems *)

Lemma run_call c n k m sql args body err :
  run c n (Call k m sql args body err) =
  let c' := start k n c m sql args in
  let '(inner, n') := run_body c' body (if ShouldTrace c then S n else n) in
  (inner ++ finish k c' err, n').
Proof.
  cbn [run]. cbv zeta. generalize (if ShouldTrace c then S n else n) as n0. generalize (start k n c m sql args) as c'.
  intros c' n0. match goal with |- (let '(_, _) := ?f body n0 in _) = _ => assert (forall l n, f l n = run_body c' l n) as -> end; [|done].
  induction l as [|y l IH]; intros n1; simpl; [done|]. destruct (run c' n1 y) as [e1 n2]. by rewrite IH.
Qed.

Lemma start_traced k n c m sql args : ShouldTrace c = true ->
  finish k (start k n c m sql args) = fun err => [((StartTrace n c m sql args).2, err)].
Proof.
  intros Hs. unfold start, finish. rewrite Hs. cbn [negb]. destruct (StartTrace n c m sql args) as [c1 fin].
  cbn [Value]. by rewrite decide_True.
Qed.

(** With a tracer that traces every call, each call, however calls are nested, is finished exactly once,
    after those it contains and by the function that its own start returned, with its own error. *)
Theorem every_call_finished c n k m sql args body err : (forall c, ShouldTrace c = true) ->
  exists inner, (run c n (Call k m sql args body err)).1 = inner ++ [((StartTrace n c m sql args).2, err)] /\
    length inner = foldr (fun y s => calls y + s) 0 body.
Proof.
  intros Hs. assert (forall x c n, length (run c n x).1 = calls x) as Hlen.
  { fix IH 1. intros [k0 m0 sql0 args0 body0 err0] c0 n0. rewrite run_call. cbv zeta. rewrite Hs.
    destruct (run_body _ body0 (S n0)) as [inner n'] eqn:E. rewrite start_traced by done. cbn [fst]. rewrite length_app.
    cbn [calls length]. rewrite Nat.add_1_r. f_equal.
    revert E. generalize (S n0) as n1. generalize (start k0 n0 c0 m0 sql0 args0) as c1. intros c1.
    revert inner n'. induction body0 as [|y l IHl]; intros inner n' n1; cbn [run_body foldr]; [by intros [= <- <-]|].
    pose proof (IH y c1 n1) as Hy. destruct (run c1 n1 y) as [e1 n2]. destruct (run_body c1 l n2) as [e2 n3] eqn:E2.
    intros [= <- <-]. rewrite length_app, (IHl _ _ _ E2). simpl in Hy. by rewrite Hy. }
  specialize (Hlen (Call k m sql args body err) c n). rewrite run_call in Hlen |- *. cbv zeta in Hlen |- *.
  destruct (run_body _ body _) as [inner n']. rewrite start_traced in Hlen |- * by done. exists inner. split; [done|].
  cbn [fst calls] in Hlen. rewrite length_app in Hlen. simpl in Hlen. lia.
Qed.

(** A call that is not traced, inside a traced call of its kind, finishes the trace of the outer call
    with its own error; the outer call finishes it again. *)
Theorem untraced_call_finishes_outer c n k m sql args fin err err' m' sql' args' :
  ShouldTrace c = true -> StartTrace n c m sql args = (c, fin) -> ShouldTrace (WithEnd k fin c) = false ->
  (run c n (Call k m sql args [Call k m' sql' args' [] err'] err)).1 = [(fin, err'); (fin, err)].
Proof.
  intros Hs E Hns. rewrite run_call. cbv zeta. rewrite start_traced, Hs by done. unfold start. rewrite Hs, E. cbn [negb run_body].
  rewrite run_call. cbv zeta. unfold start. rewrite Hns. cbn [negb run_body]. unfold finish. cbn [Value].
  by rewrite decide_True.
Qed.

End Adapter.

(** ** Witnesses *)

(** Traces are numbered by the calls; the context is kept. *)
#[local] Instance demo_all : Tracer string := {| ShouldTrace _ := true; StartTrace n c _ _ _ := (c, n) |}.
#[local] Instance demo_roots : Tracer string :=
  {| ShouldTrace c := match c with WithEnd _ _ _ => false | _ => true end; StartTrace n c _ _ _ := (c, n) |}.

Lemma every_call_finished_witness : exists inner,
  (run (T := demo_all) (Background 0) 7 (Call Query "db.Query" "SELECT 1" [] [Call Prepare "db.Prepare" "SELECT 1" [] [] None] (Some "boom"))).1
  = inner ++ [(7, Some "boom")] /\ length inner = 1.
Proof.
  apply (every_call_finished (T := demo_all) (Background 0) 7 Query "db.Query" "SELECT 1" [] [Call Prepare "db.Prepare" "SELECT 1" [] [] None] (Some "boom")).
  reflexivity.
Defined.

Lemma untraced_call_finishes_outer_witness :
  (run (T := demo_roots) (Background 0) 7 (Call Query "db.Query" "SELECT 1" [] [Call Query "db.Query" "SELECT 2" [] [] None] (Some "boom"))).1
  = [(7, None); (7, Some "boom")].
Proof. apply (untraced_call_finishes_outer (T := demo_roots)); reflexivity. Defined.

End PgwTracer.
