(* ===== verification/Consul.v ===== *)
(** * Consul client: src/infra/discovery/consul/client.go, src/infra/discovery (factory.go, abstraction.go)

    Registration of a service, resolution of the entries of the catalogue; the
    heartbeats are in ConsulHeartbeat.v.  The Consul agent, url.Parse and the order of a map range are
    parameters. *)
From stdpp Require Import prelude strings list gmap.
From Stdlib Require Import ZArith Lia Ascii.
From S2P Require Import Prelude NetAddr Resolver.

Local Open Scope go_scope.
Local Open Scope Z_scope.

Module Consul.
Import NetAddr.

(** [strconv.ParseUint] in base 10 at 16 bits with the error dropped: the value is 0 on
    a syntax error and the largest one when out of range. *)
Definition parse_port (s : string) : Z :=
  match parse_nat s with
  | None => 0
  | Some n => if n <? 65536 then n else 65535
  end.

(** ** Data of the Consul API *)

Record ServiceAddress := mkAddress { Address_ : string; Port_ : Z }.

Record AgentServiceCheck := mkCheck {
  CheckID : string; TCP : string; TTL : string; Interval : string; Timeout : string;
  DeregisterCriticalServiceAfter : string
}.

Record AgentServiceRegistration := mkASR {
  asr_ID : string; asr_Name : string; asr_Meta : option (gmap string string); asr_Tags : list string;
  asr_TaggedAddresses : gmap string ServiceAddress; asr_Address : string; asr_Port : Z;
  asr_Checks : list AgentServiceCheck
}.

(** The service of an entry of the catalogue. *)
Record AgentService := mkService {
  svc_ID : string; svc_Service : string; svc_Tags : list string; svc_Meta : option (gmap string string);
  svc_TaggedAddresses : gmap string ServiceAddress; svc_Address : string; svc_Port : Z
}.

(** discovery.ServiceInstance with a metadata map that may be nil. *)
Record instance := mkInstance {
  i_Id : string; i_Name : string; i_Version : string; i_Metadata : option (gmap string string);
  i_Endpoints : list string
}.

(** What the packages that read instances see. *)
Definition to_resolver (i : instance) : Resolver.ServiceInstance :=
  Resolver.mkInst (i_Id i) (i_Name i) (i_Version i) (default ∅ (i_Metadata i)) (i_Endpoints i).

Inductive Datacenter := SingleDatacenter | MultiDataCenter.

(** The settings of a client; the resolver is the default one. *)
Record Client := mkClient {
  dc : Datacenter;
  healthCheckInterval : Z;
  heartbeat : bool;
  deregisterCriticalServiceAfter : Z;
  serviceChecks : list AgentServiceCheck;
  tags : list string
}.

(** ** The default resolver *)

(** [strings.SplitN(tag, "=", 2)] when there are two parts. *)
Definition split_tag (tag : string) : option (string * string) :=
  match index_byte "=" tag with
  | Some i => Some (str_take i tag, str_drop (S i) tag)
  | None => None
  end.

Definition versionBuilder (tags : list string) : string :=
  fold_left (fun version tag =>
    match split_tag tag with
    | Some (k, v) => if decide (k = "version") then v else version
    | None => version
    end) tags "".

Definition EndpointSchemes : list string := ["lan_ipv4"; "wan_ipv4"; "lan_ipv6"; "wan_ipv6"].

Section Order.
(** The order in which a map is ranged over. *)
Context (order : gmap string ServiceAddress -> list (string * ServiceAddress)).

Definition grpcEndpointsBuilder (taggedAddresses : gmap string ServiceAddress) (address : string) (port : Z)
  : list string :=
  let endpoints := omap (fun '(scheme, addr) =>
    if decide (scheme ∈ EndpointSchemes) then None else Some (Address_ addr)) (order taggedAddresses) in
  if (length endpoints =? 0)%nat && negb (bool_decide (address = "")) && negb (port =? 0)
  then endpoints ++ ["grpc://" +:+ address +:+ ":" +:+ FormatInt port]
  else endpoints.

Definition defaultResolver (entries : list AgentService) : list instance :=
  (fun s => mkInstance (svc_ID s) (svc_Service s) (versionBuilder (svc_Tags s)) (svc_Meta s)
              (grpcEndpointsBuilder (svc_TaggedAddresses s) (svc_Address s) (svc_Port s))) <$> entries.

(** ** Queries *)

(** An instance without metadata gets its datacenter. *)
Definition tag_dc (d : string) (i : instance) : instance :=
  match i_Metadata i with
  | None => mkInstance (i_Id i) (i_Name i) (i_Version i) (Some {["dc" := d]}) (i_Endpoints i)
  | Some _ => i
  end.

Section Query.
(** Health().Service for a datacenter ("" is the local one) and an index, and
    Catalog().Datacenters. *)
Context (Health : string -> string -> Z -> bool -> res string (list AgentService * Z))
        (Datacenters : res string (list string)).

(** The loop of [multiDCService]: the instances so far and the wait index, which the next
    query uses. *)
Fixpoint multi_loop (service : string) (passingOnly : bool) (dcs : list string) (instances : list instance)
    (waitIndex : Z) : res string (list instance * Z) :=
  match dcs with
  | [] => Ok (instances, waitIndex)
  | d :: dcs =>
      let? (e, lastIndex) := Health d service waitIndex passingOnly in
      let inst := tag_dc d <$> defaultResolver e in
      multi_loop service passingOnly dcs (instances ++ inst)
        (if (length inst =? 0)%nat then waitIndex else lastIndex)
  end.

Definition multiDCService (service : string) (index : Z) (passingOnly : bool) : res string (list instance * Z) :=
  let? dcs := Datacenters in
  multi_loop service passingOnly dcs [] index.

Definition Client_GetService (c : Client) (service : string) (index : Z) (passingOnly : bool)
  : res string (list instance * Z) :=
  match dc c with
  | MultiDataCenter => multiDCService service index passingOnly
  | SingleDatacenter =>
      let? (entries, lastIndex) := Health "" service index passingOnly in
      Ok (defaultResolver entries, lastIndex)
  end.
End Query.
End Order.

(** ** Registration *)

Section Register.
(** url.Parse: the scheme, the host name and the port of a URL. *)
Context (url_parse : string -> res string (string * string * string)).

(** The loop of [buildRegistration] over the endpoints. *)
Fixpoint endpoint_loop (endpoints : list string) (addresses : gmap string ServiceAddress)
    (checkAddresses : list string) : res string (gmap string ServiceAddress * list string) :=
  match endpoints with
  | [] => Ok (addresses, checkAddresses)
  | endpoint :: rest =>
      let? (scheme, addr, port_raw) := url_parse endpoint in
      let port := parse_port port_raw in
      endpoint_loop rest (<[scheme := mkAddress endpoint port]> addresses)
        (checkAddresses ++ [JoinHostPort addr (FormatInt port)])
  end.

Definition buildRegistration (c : Client) (svc : instance) : res string (AgentServiceRegistration * list string) :=
  let? (addresses, checkAddresses) := endpoint_loop (i_Endpoints svc) ∅ [] in
  let '(host, port) :=
    match checkAddresses with
    | [] => ("", 0)
    | a :: _ => let '(host, portRaw) := SplitHostPort a in (host, default 0 (ParseInt 32 portRaw))
    end in
  Ok (mkASR (i_Id svc) (i_Name svc) (i_Metadata svc) (tags c) addresses host port [], checkAddresses).

Definition seconds (z : Z) : string := FormatInt z +:+ "s".

Definition tcpCheck (c : Client) (addr : string) : AgentServiceCheck :=
  mkCheck "" addr "" (seconds (healthCheckInterval c)) "5s" (seconds (deregisterCriticalServiceAfter c)).

Definition ServiceStr : string := "service:".

Definition ttlCheck (c : Client) (svc : instance) : AgentServiceCheck :=
  mkCheck (ServiceStr +:+ i_Id svc +:+ ":ttl:1") "" (seconds (i64 (healthCheckInterval c * 2))) "" ""
    (seconds (deregisterCriticalServiceAfter c)).

Definition applyChecks (c : Client) (asr : AgentServiceRegistration) (svc : instance) (addresses : list string)
    (enableHealthChecks : bool) : AgentServiceRegistration :=
  let checks := asr_Checks asr in
  let checks := if enableHealthChecks then checks ++ (tcpCheck c <$> addresses) ++ serviceChecks c else checks in
  let checks := if heartbeat c then checks ++ [ttlCheck c svc] else checks in
  mkASR (asr_ID asr) (asr_Name asr) (asr_Meta asr) (asr_Tags asr) (asr_TaggedAddresses asr) (asr_Address asr)
    (asr_Port asr) checks.

(** The registration that [Register] sends to the agent. *)
Definition registration (c : Client) (svc : instance) (enableHealthChecks : bool)
  : res string AgentServiceRegistration :=
  let? (asr, checkAddresses) := buildRegistration c svc in
  Ok (applyChecks c asr svc checkAddresses enableHealthChecks).

End Register.

(** ** Providers (factory.go) *)

Section Factory.
Context {T : Type}.

Definition ProviderFactory := string -> list (T -> T) -> res string T.
Definition Factory := gmap string ProviderFactory.
Definition NewFactory : Factory := ∅.
Definition Factory_Register (providerType : string) (f : ProviderFactory) (fs : Factory) : Factory :=
  <[providerType := f]> fs.
Definition CreateProvider (fs : Factory) (providerType address : string) (options : list (T -> T)) : res string T :=
  match fs !! providerType with
  | None => Err ("unsupported discovery provider: " +:+ providerType)
  | Some factory => factory address options
  end.
End Factory.

(** ** Lemmas on host and port *)

Lemma dec_value_nonneg s : forall acc n, 0 <= acc -> dec_value s acc = Some n -> 0 <= n.
Proof.
  induction s as [|c s IH]; intros acc n Ha; simpl; [by intros [= <-]|].
  destruct (is_digit c) eqn:Hc; [|done]. apply IH.
  unfold is_digit, in_range, digit_val in *. apply andb_prop in Hc as [H1%Z.leb_le H2%Z.leb_le].
  change (byte_val "0") with 48 in H1. lia.
Qed.

Lemma parse_nat_nonneg s n : parse_nat s = Some n -> 0 <= n.
Proof. destruct s; [done|]. apply dec_value_nonneg. lia. Qed.

Lemma digits_no_byte c s : is_digit c = false -> all_bytes is_digit s = true -> no_byte c s = true.
Proof.
  intros Hc. unfold no_byte. induction s as [|b s IH]; simpl; [done|]. intros [Hb Hs]%andb_prop.
  rewrite IH by done. rewrite bool_decide_false; [done|]. intros ->. by rewrite Hb in Hc.
Qed.

(** Joining a host and a port and splitting them again. *)
Lemma split_join host port :
  no_byte "[" host = true -> no_byte "]" host = true ->
  no_byte ":" port = true -> no_byte "[" port = true -> no_byte "]" port = true ->
  SplitHostPort (JoinHostPort host port) = (host, port).
Proof.
  intros Hh1 Hh2 Hp0 Hp1 Hp2. unfold JoinHostPort. destruct (has_byte ":" host) eqn:Hc.
  - change ("]:" +:+ port) with (String "]" (String ":" port)).
    assert ("[" +:+ host +:+ String "]" (String ":" port) = ("[" +:+ host +:+ "]") +:+ String ":" port) as ->.
    { by rewrite !append_assoc. }
    unfold SplitHostPort, split_host_port. rewrite last_index_app by done. rewrite str_drop_app1.
    change (("[" +:+ host +:+ "]") +:+ String ":" port) with (String "[" ((host +:+ "]") +:+ String ":" port)).
    rewrite append_assoc. change ("]" +:+ String ":" port) with (String "]" (String ":" port)).
    assert (index_byte "]" (String "[" (host +:+ String "]" (String ":" port))) = Some (S (String.length host))) as ->.
    { simpl. by rewrite index_byte_app. }
    assert (String.length ("[" +:+ host +:+ "]") = S (S (String.length host))) as ->.
    { rewrite !str_length_app. simpl. lia. }
    rewrite Nat.eqb_refl. cbn [Nat.sub]. rewrite Nat.sub_0_r, str_take_app.
    change (str_drop (S (S (String.length host))) (String "[" ?s)) with (str_drop (S (String.length host)) s).
    rewrite str_drop_app1, !has_byte_no, no_byte_app, Hh1.
    unfold no_byte in *. simpl. by rewrite Hp1, Hp2.
  - rewrite has_byte_no in Hc. apply negb_false_iff in Hc.
    change (":" +:+ port) with (String ":" port). unfold SplitHostPort, split_host_port. rewrite last_index_app by done.
    rewrite str_drop_app1, str_take_app.
    assert (forall rest, host +:+ String ":" port <> String "[" rest) as Hne.
    { intros rest. destruct host as [|b h]; simpl; [done|]. intros [= -> _].
      unfold no_byte in Hh1. simpl in Hh1. done. }
    rewrite !has_byte_no, !no_byte_app, Hc, Hh1, Hh2. unfold no_byte in *. simpl. rewrite Hp1, Hp2. simpl.
    destruct (host +:+ String ":" port) as [|b s]; [done|]. destruct (decide (b = "["%char)) as [->|Hb].
    + by destruct (Hne s).
    + destruct b as [[] [] [] [] [] [] [] []]; done.
Qed.

(** ** Registration and resolution *)

(** What a Consul agent makes of a registration: it stores what it is given, takes the name for a missing id, and adds
    tagged addresses of its own under [EndpointSchemes]. *)
Definition agent_stores (publish : AgentServiceRegistration -> AgentService) : Prop := forall r,
  svc_ID (publish r) = (if decide (asr_ID r = "") then asr_Name r else asr_ID r) /\
  svc_Service (publish r) = asr_Name r /\ svc_Tags (publish r) = asr_Tags r /\
  svc_Meta (publish r) = asr_Meta r /\
  (forall scheme, scheme ∉ EndpointSchemes -> svc_TaggedAddresses (publish r) !! scheme = asr_TaggedAddresses r !! scheme) /\
  svc_Address (publish r) = asr_Address r /\ svc_Port (publish r) = asr_Port r.

Section Agent.
Context (url_parse : string -> res string (string * string * string)).
Context (order : gmap string ServiceAddress -> list (string * ServiceAddress)).
Hypothesis order_fair : forall m, order m ≡ₚ map_to_list m.

(** The entry of the catalogue for a registration. *)
Context (publish : AgentServiceRegistration -> AgentService).
Hypothesis publish_keeps : agent_stores publish.

(** The parts of a URL that parses. *)
Definition scheme_of (e : string) : string := match url_parse e with Ok (s, _, _) => s | Err _ => "" end.
Definition host_of (e : string) : string := match url_parse e with Ok (_, h, _) => h | Err _ => "" end.
Definition port_of (e : string) : Z := match url_parse e with Ok (_, _, p) => parse_port p | Err _ => 0 end.

Definition addresses_of (es : list string) : list (string * ServiceAddress) :=
  (fun e => (scheme_of e, mkAddress e (port_of e))) <$> es.

Lemma endpoint_loop_ok es : Forall (fun e => is_Ok (url_parse e)) es -> forall m cs,
  endpoint_loop url_parse es m cs =
    Ok (fold_left (fun m '(k, v) => <[k := v]> m) (addresses_of es) m,
        cs ++ ((fun e => JoinHostPort (host_of e) (FormatInt (port_of e))) <$> es)).
Proof.
  induction 1 as [|e es [[[s h] pr] He] _ IH]; intros m cs; simpl; [by rewrite app_nil_r|].
  rewrite He. cbn [res_bind]. rewrite IH.
  assert (scheme_of e = s /\ host_of e = h /\ port_of e = parse_port pr) as (-> & -> & ->).
  { unfold scheme_of, host_of, port_of. by rewrite He. }
  by rewrite <- app_assoc.
Qed.

Lemma fold_insert_list (l : list (string * ServiceAddress)) : forall m,
  NoDup l.*1 -> (forall k, k ∈ l.*1 -> m !! k = None) ->
  map_to_list (fold_left (fun m '(k, v) => <[k := v]> m) l m : gmap string ServiceAddress) ≡ₚ map_to_list m ++ l.
Proof.
  induction l as [|[k v] l IH]; intros m Hnd Hm; simpl in *; [by rewrite app_nil_r|].
  apply NoDup_cons in Hnd as [Hk Hnd]. rewrite IH; [|done|].
  - rewrite map_to_list_insert by (apply Hm; set_solver). by rewrite <- Permutation_middle.
  - intros k' Hk'. rewrite lookup_insert_ne by set_solver. apply Hm. set_solver.
Qed.

(** The addresses under the names of the agent are skipped, whatever they are. *)
Lemma skipped_schemes (m m' : gmap string ServiceAddress) :
  (forall scheme, scheme ∉ EndpointSchemes -> m' !! scheme = m !! scheme) ->
  let f := fun '(scheme, addr) => if decide (scheme ∈ EndpointSchemes) then None else Some (Address_ addr) in
  omap f (order m') ≡ₚ omap f (order m).
Proof.
  intros Hm f. set (P := fun x : string * ServiceAddress => x.1 ∉ EndpointSchemes).
  assert (forall l : list (string * ServiceAddress), omap f (filter P l) = omap f l) as Hf.
  { induction l as [|[k a] l IH]; [done|]. destruct (decide (k ∈ EndpointSchemes)) as [Hin|Hin].
    - rewrite (filter_cons_False P) by (unfold P; tauto). rewrite IH. cbn. by rewrite decide_True.
    - rewrite (filter_cons_True P) by done. cbn. rewrite decide_False by done. f_equal. exact IH. }
  assert (filter P m' = filter P m) as E.
  { apply map_eq. intros k. rewrite !map_lookup_filter. destruct (decide (k ∈ EndpointSchemes)) as [Hin|Hin].
    - destruct (m' !! k), (m !! k); simpl; rewrite ?option_guard_False by (unfold P; simpl; tauto); done.
    - by rewrite Hm. }
  assert (forall x : gmap string ServiceAddress, filter P (map_to_list x) ≡ₚ map_to_list (filter P x)) as Hl.
  { intros x. apply NoDup_Permutation; [apply NoDup_filter, NoDup_map_to_list|apply NoDup_map_to_list|].
    intros [k v]. rewrite list_elem_of_filter, !elem_of_map_to_list, map_lookup_filter_Some. tauto. }
  rewrite !order_fair, <- (Hf (map_to_list m')), <- (Hf (map_to_list m)), !Hl. by rewrite E.
Qed.

(** The endpoints that the resolver reads from distinct tagged addresses. *)
Lemma resolved_endpoints es m' address port :
  es <> [] -> NoDup (scheme_of <$> es) -> (forall e, e ∈ es -> scheme_of e ∉ EndpointSchemes) ->
  (forall scheme, scheme ∉ EndpointSchemes ->
     m' !! scheme = (fold_left (fun m '(k, v) => <[k := v]> m) (addresses_of es) ∅ : gmap string ServiceAddress) !! scheme) ->
  grpcEndpointsBuilder order m' address port ≡ₚ es.
Proof.
  intros Hne Hnd Hs Hm. unfold grpcEndpointsBuilder. set (m := fold_left _ _ _) in Hm.
  pose proof (skipped_schemes m m' Hm) as Hskip. cbv zeta in Hskip.
  set (f := fun '(scheme, addr) => if decide (scheme ∈ EndpointSchemes) then None else Some (Address_ addr)) in *.
  assert (order m ≡ₚ addresses_of es) as Hperm.
  { rewrite order_fair. unfold m. rewrite fold_insert_list.
    - by rewrite map_to_list_empty.
    - unfold addresses_of. by rewrite <- list_fmap_compose.
    - done. }
  assert (omap f (addresses_of es) = es) as Hes.
  { clear Hperm Hskip Hm m Hne Hnd. induction es as [|e es IH]; simpl; [done|].
    rewrite decide_False by (apply Hs; set_solver). simpl. f_equal. apply IH. intros. apply Hs. set_solver. }
  assert (omap f (order m') ≡ₚ es) as Ho by (by rewrite Hskip, Hperm, Hes).
  destruct (Nat.eqb_spec (length (omap f (order m'))) 0) as [E|E]; [|done].
  rewrite Ho in E. by destruct es.
Qed.

(** What is discovered for a service that was registered: the same id, name and metadata
    and the same endpoints up to order, when each endpoint has a scheme of its own.
    The version is the one in the tags of the client, not that of the instance. *)
Theorem register_then_resolve c svc checks r :
  i_Id svc <> "" -> i_Endpoints svc <> [] -> Forall (fun e => is_Ok (url_parse e)) (i_Endpoints svc) ->
  NoDup (scheme_of <$> i_Endpoints svc) ->
  (forall e, e ∈ i_Endpoints svc -> scheme_of e ∉ EndpointSchemes) ->
  registration url_parse c svc checks = Ok r ->
  exists i, defaultResolver order [publish r] = [i] /\
    i_Id i = i_Id svc /\ i_Name i = i_Name svc /\ i_Metadata i = i_Metadata svc /\
    i_Endpoints i ≡ₚ i_Endpoints svc /\ i_Version i = versionBuilder (tags c).
Proof.
  intros Hid Hne Hok Hnd Hs. unfold registration, buildRegistration.
  rewrite endpoint_loop_ok by done. cbn [res_bind].
  destruct (match _ ++ _ with [] => _ | _ => _ end) as [host port]. cbn [res_bind]. intros [= <-].
  match goal with |- context [publish ?r] => destruct (publish_keeps r) as (H1 & H2 & H3 & H4 & H5 & H6 & H7) end.
  eexists. split; [reflexivity|]. cbn [i_Id i_Name i_Metadata i_Endpoints i_Version].
  rewrite H1, H2, H3, H4, H6, H7. simpl. rewrite decide_False by done. repeat split. by apply resolved_endpoints.
Qed.

(** The address and the port of a registration are those of the first endpoint. *)
Theorem registration_address c svc checks r e es :
  i_Endpoints svc = e :: es -> Forall (fun e => is_Ok (url_parse e)) (e :: es) ->
  no_byte "[" (host_of e) = true -> no_byte "]" (host_of e) = true ->
  registration url_parse c svc checks = Ok r ->
  asr_Address r = host_of e /\ asr_Port r = port_of e.
Proof.
  intros He Hok Hh1 Hh2. unfold registration, buildRegistration. rewrite He, endpoint_loop_ok by done.
  cbn [res_bind app fmap list_fmap].
  assert (0 <= port_of e < 65536) as Hp.
  { unfold port_of, parse_port. destruct (url_parse e) as [[[? ?] pr]|]; [|lia].
    destruct (parse_nat pr) as [n|] eqn:En; [|lia]. destruct (Z.ltb_spec n 65536); [|lia].
    split; [|done]. by eapply parse_nat_nonneg. }
  assert (FormatInt (port_of e) = format_nat (port_of e)) as Hf.
  { unfold FormatInt. by destruct (Z.ltb_spec (port_of e) 0); [lia|]. }
  assert (forall c, is_digit c = false -> no_byte c (FormatInt (port_of e)) = true) as Hd.
  { intros b Hb. rewrite Hf. apply digits_no_byte; [done|]. apply all_bytes_format_nat. lia. }
  rewrite (split_join _ _ Hh1 Hh2 (Hd ":"%char eq_refl) (Hd "["%char eq_refl) (Hd "]"%char eq_refl)).
  rewrite ParseInt_FormatInt by lia. intros [= <-]. by split.
Qed.

End Agent.

Definition with_version (v : string) (svc : instance) : instance :=
  mkInstance (i_Id svc) (i_Name svc) v (i_Metadata svc) (i_Endpoints svc).

(** The version of an instance is not registered: instances that differ in the version
    alone have the same registration, although the resolver reads a version tag. *)
Theorem version_not_registered url_parse c svc v checks :
  registration url_parse c (with_version v svc) checks = registration url_parse c svc checks /\
  versionBuilder ["version=" +:+ v] = v.
Proof. split; [done|]. unfold versionBuilder, split_tag. simpl. by destruct v. Qed.

(** Across datacenters the index that one answered with is the wait index of the query to
    the next, and the index returned is that of the last one with instances. *)
Theorem multi_index_crosses order Health Datacenters service index passing d1 d2 e1 es1 l1 :
  Datacenters = Ok [d1; d2] -> Health d1 service index passing = Ok (e1 :: es1, l1) ->
  multiDCService order Health Datacenters service index passing =
    res_bind (Health d2 service l1 passing) (fun '(es2, l2) =>
      Ok ((tag_dc d1 <$> defaultResolver order (e1 :: es1)) ++ (tag_dc d2 <$> defaultResolver order es2),
          if (length es2 =? 0)%nat then l1 else l2)).
Proof.
  intros -> E1. unfold multiDCService. cbn [res_bind multi_loop]. rewrite E1. cbn [res_bind].
  assert (forall d es, length (tag_dc d <$> defaultResolver order es) = length es) as Hl.
  { intros. unfold defaultResolver. by rewrite !length_fmap. }
  rewrite !Hl. cbn [length Nat.eqb app]. destruct (Health d2 service l1 passing) as [[es2 l2]|]; [|done].
  cbn [res_bind]. by rewrite Hl.
Qed.

(** *** Witnesses *)

(** A parser of URLs of the form scheme://host:port. *)
Definition demo_parse (s : string) : res string (string * string * string) :=
  match index_byte ":" s with
  | None => Err "missing scheme"
  | Some i => let '(h, p) := SplitHostPort (str_drop (i + 3) s) in Ok (str_take i s, h, p)
  end.

Definition demo_publish (r : AgentServiceRegistration) : AgentService :=
  mkService (if decide (asr_ID r = "") then asr_Name r else asr_ID r) (asr_Name r) (asr_Tags r) (asr_Meta r)
    (<["lan_ipv4" := mkAddress (asr_Address r) (asr_Port r)]> (asr_TaggedAddresses r)) (asr_Address r) (asr_Port r).

Lemma demo_publish_stores : agent_stores demo_publish.
Proof.
  intros r. repeat split. intros scheme Hs. simpl. apply lookup_insert_ne. intros <-. apply Hs. left.
Qed.

Definition demo_client : Client := mkClient SingleDatacenter 10 true 600 [] ["env=prod"].
Definition demo_instance : instance :=
  mkInstance "a@host" "accounts" "v1.2" None ["grpc://10.0.0.5:8080"; "http://10.0.0.5:80"].

Definition demo_registration : AgentServiceRegistration :=
  match registration demo_parse demo_client demo_instance true with
  | Ok r => r
  | Err _ => mkASR "" "" None [] ∅ "" 0 []
  end.

Lemma register_then_resolve_witness :
  exists i, defaultResolver map_to_list [demo_publish demo_registration] = [i] /\
    i_Endpoints i ≡ₚ i_Endpoints demo_instance /\ i_Version i = "".
Proof.
  destruct (register_then_resolve demo_parse map_to_list (fun m => Permutation_refl _) demo_publish
              demo_publish_stores demo_client demo_instance true demo_registration) as (i & H1 & _ & _ & _ & H2 & H3).
  - discriminate.
  - discriminate.
  - repeat constructor; eexists; reflexivity.
  - by apply (bool_decide_unpack _).
  - intros e He. apply (bool_decide_unpack _). repeat (apply elem_of_cons in He as [->|He]; [reflexivity|]).
    by apply elem_of_nil in He.
  - reflexivity.
  - exists i. split; [exact H1|]. split; [exact H2|]. exact H3.
Defined.

Lemma registration_address_witness :
  asr_Address demo_registration = "10.0.0.5" /\ asr_Port demo_registration = 8080.
Proof.
  apply (registration_address demo_parse demo_client demo_instance true demo_registration
           "grpc://10.0.0.5:8080" ["http://10.0.0.5:80"]); try reflexivity.
  repeat constructor; eexists; reflexivity.
Defined.

End Consul.
