(* ===== verification/ConsulRegistry.v ===== *)
(** * Consul registry: src/infra/discovery/consul (registry.go, service.go, watcher.go, kv_client.go, kv_watcher.go)

    The sets of watchers that share the instances of a service: creation with the first
    watcher, reference counts, broadcasts and removal.  Here every call is one step, so what is shown here is about calls
    that do not overlap; RegistryCalls.v takes the calls apart at their locks.  The answers of the Consul client are arguments. *)
From stdpp Require Import prelude strings list gmap.
From Stdlib Require Import ZArith Lia.
From S2P Require Import Prelude Resolver Consul.

Local Open Scope Z_scope.

Module ConsulRegistry.
Import Consul.

(** A set of watchers.  [ss_services] is [None] before the first store;
    [ss_watching] is the last index of the goroutine that watches for changes, if it runs. *)
Record serviceSet := mkSet {
  ss_name : string;
  ss_watcher : gset nat;
  ss_ref : Z;
  ss_services : option (list instance);
  ss_cancelled : bool;
  ss_watching : option Z
}.

(** [w_event] is the channel of capacity one; [w_stopped] is [cancel == nil]. *)
Record watcher := mkW { w_event : bool; w_set : nat; w_stopped : bool }.

(** Sets and watchers are objects with an identity. *)
Record Registry := mkRegistry {
  registry : gmap string nat;
  sets : gmap nat serviceSet;
  watchers : gmap nat watcher;
  next_id : nat;
  client : Client;
  enableHealthCheck : bool;
  timeout : Z
}.

Definition set_all (reg : gmap string nat) (ss : gmap nat serviceSet) (ws : gmap nat watcher) (n : nat)
    (r : Registry) : Registry :=
  mkRegistry reg ss ws n (client r) (enableHealthCheck r) (timeout r).

Definition NewConsulRegistry : Registry :=
  mkRegistry ∅ ∅ ∅ 0 (mkClient SingleDatacenter 10 true 600 [] []) true 10000000000.

(** ** Settings *)

Definition with_client (c : Client) (r : Registry) : Registry :=
  mkRegistry (registry r) (sets r) (watchers r) (next_id r) c (enableHealthCheck r) (timeout r).

Definition SetHealthCheck (v : bool) (r : Registry) : Registry :=
  mkRegistry (registry r) (sets r) (watchers r) (next_id r) (client r) v (timeout r).
Definition SetTimeout (d : Z) (r : Registry) : Registry :=
  mkRegistry (registry r) (sets r) (watchers r) (next_id r) (client r) (enableHealthCheck r) d.

Definition SetDatacenter (d : string) (r : Registry) : Registry :=
  let c := client r in
  let parsed := if decide (d = "MULTI") then MultiDataCenter else SingleDatacenter in
  with_client (mkClient parsed (healthCheckInterval c) (heartbeat c) (deregisterCriticalServiceAfter c)
                 (serviceChecks c) (tags c)) r.
Definition SetHeartbeatEnabled (v : bool) (r : Registry) : Registry :=
  let c := client r in
  with_client (mkClient (dc c) (healthCheckInterval c) v (deregisterCriticalServiceAfter c)
                 (serviceChecks c) (tags c)) r.
Definition SetHealthCheckInterval (v : Z) (r : Registry) : Registry :=
  let c := client r in
  with_client (mkClient (dc c) v (heartbeat c) (deregisterCriticalServiceAfter c) (serviceChecks c) (tags c)) r.
Definition SetDeregisterCriticalServiceAfter (v : Z) (r : Registry) : Registry :=
  let c := client r in
  with_client (mkClient (dc c) (healthCheckInterval c) (heartbeat c) v (serviceChecks c) (tags c)) r.
Definition SetTags (v : list string) (r : Registry) : Registry :=
  let c := client r in
  with_client (mkClient (dc c) (healthCheckInterval c) (heartbeat c) (deregisterCriticalServiceAfter c)
                 (serviceChecks c) v) r.

(** ** Service sets *)

Definition signal (w : watcher) : watcher := mkW true (w_set w) (w_stopped w).

(** The loop of [broadcast]: a non-blocking send to each watcher of the set. *)
Definition signal_all (ws : gset nat) (m : gmap nat watcher) : gmap nat watcher :=
  map_imap (fun i w => Some (if decide (i ∈ ws) then signal w else w)) m.

Definition store_services (si : list instance) (ss : serviceSet) : serviceSet :=
  mkSet (ss_name ss) (ss_watcher ss) (ss_ref ss) (Some si) (ss_cancelled ss) (ss_watching ss).

Definition broadcast (sid : nat) (si : list instance) (r : Registry) : Registry :=
  match sets r !! sid with
  | None => r
  | Some ss =>
      set_all (registry r) (<[sid := store_services si ss]> (sets r))
        (signal_all (ss_watcher ss) (watchers r)) (next_id r) r
  end.

Definition set_watching (i : option Z) (ss : serviceSet) : serviceSet :=
  mkSet (ss_name ss) (ss_watcher ss) (ss_ref ss) (ss_services ss) (ss_cancelled ss) i.

Definition start_watch (sid : nat) (idx : Z) (r : Registry) : Registry :=
  set_all (registry r) (alter (set_watching (Some idx)) sid (sets r)) (watchers r) (next_id r) r.

Definition nonempty {A} (l : list A) : bool := match l with [] => false | _ => true end.

(** [resolve]; [answer] is what the client lists for index 0. *)
Definition resolve (sid : nat) (answer : res string (list instance * Z)) (r : Registry) : option string * Registry :=
  match answer with
  | Err e => (Some e, r)
  | Ok (services, idx) =>
      let r := if nonempty services then broadcast sid services r else r in
      (None, start_watch sid idx r)
  end.

Definition add_watcher (wid : nat) (ss : serviceSet) : serviceSet :=
  mkSet (ss_name ss) ({[ wid ]} ∪ ss_watcher ss) (ss_ref ss) (ss_services ss) (ss_cancelled ss) (ss_watching ss).
Definition add_ref (d : Z) (ss : serviceSet) : serviceSet :=
  mkSet (ss_name ss) (ss_watcher ss) (ss_ref ss + d) (ss_services ss) (ss_cancelled ss) (ss_watching ss).

(** The part of [GetWatcher] under the lock of the registry: the set of the name, made if
    there is none, with one more reference. *)
Definition enter_set (name : string) (r : Registry) : bool * nat * Registry :=
  match registry r !! name with
  | Some sid => (true, sid, set_all (registry r) (alter (add_ref 1) sid (sets r)) (watchers r) (next_id r) r)
  | None =>
      let sid := next_id r in
      (false, sid, set_all (<[name := sid]> (registry r)) (<[sid := mkSet name ∅ 1 None false None]> (sets r))
                     (watchers r) (S sid) r)
  end.

(** The new watcher, attached to the set and signalled if the set has instances. *)
Definition attach (sid : nat) (r : Registry) : nat * Registry :=
  let wid := next_id r in
  let ready := match sets r !! sid with
               | Some ss => nonempty (default [] (ss_services ss))
               | None => false
               end in
  (wid, set_all (registry r) (alter (add_watcher wid) sid (sets r)) (<[wid := mkW ready sid false]> (watchers r))
          (S wid) r).

Definition GetWatcher (ctx_err : option string) (name : string) (answer : res string (list instance * Z))
    (r : Registry) : res string nat * Registry :=
  match ctx_err with
  | Some e => (Err e, r)
  | None =>
      let '(ok, sid, r) := enter_set name r in
      let '(wid, r) := attach sid r in
      if (ok : bool) then (Ok wid, r)
      else match resolve sid answer r with
           | (Some e, r) => (Err e, r)
           | (None, r) => (Ok wid, r)
           end
  end.

(** [Next] when the event channel has a signal: the instances of the set.  Without a signal
    it blocks, and once the context of the watcher is cancelled its select may also return
    the error of the context, which changes nothing. *)
Definition Next (wid : nat) (r : Registry) : option (list instance * Registry) :=
  match watchers r !! wid with
  | Some w =>
      if w_event w then
        Some (match sets r !! w_set w with Some ss => default [] (ss_services ss) | None => [] end,
              set_all (registry r) (sets r) (<[wid := mkW false (w_set w) (w_stopped w)]> (watchers r)) (next_id r) r)
      else None
  | None => None
  end.

(** [tryDelete] *)
Definition tryDelete (sid : nat) (r : Registry) : Registry :=
  match sets r !! sid with
  | None => r
  | Some ss =>
      let ss := add_ref (-1) ss in
      if ss_ref ss =? 0 then
        set_all (delete (ss_name ss) (registry r))
          (<[sid := mkSet (ss_name ss) (ss_watcher ss) 0 (ss_services ss) true (ss_watching ss)]> (sets r))
          (watchers r) (next_id r) r
      else set_all (registry r) (<[sid := ss]> (sets r)) (watchers r) (next_id r) r
  end.

Definition del_watcher (wid : nat) (ss : serviceSet) : serviceSet :=
  mkSet (ss_name ss) (ss_watcher ss ∖ {[ wid ]}) (ss_ref ss) (ss_services ss) (ss_cancelled ss) (ss_watching ss).

(** [serviceSet.delete] *)
Definition set_delete (sid wid : nat) (r : Registry) : Registry :=
  tryDelete sid (set_all (registry r) (alter (del_watcher wid) sid (sets r)) (watchers r) (next_id r) r).

(** [watcher.Stop] *)
Definition Stop (wid : nat) (r : Registry) : Registry :=
  match watchers r !! wid with
  | None => r
  | Some w =>
      if w_stopped w then r
      else set_delete (w_set w) wid
             (set_all (registry r) (sets r) (<[wid := mkW (w_event w) (w_set w) true]> (watchers r)) (next_id r) r)
  end.

(** One turn of [watchServiceChange] on a tick. *)
Definition watch_tick (sid : nat) (answer : res string (list instance * Z)) (r : Registry) : Registry :=
  match sets r !! sid with
  | None => r
  | Some ss =>
      match ss_watching ss, answer with
      | Some lastIndex, Ok (services, idx) =>
          let r := if nonempty services && negb (idx =? lastIndex) then broadcast sid services r else r in
          start_watch sid idx r
      | _, _ => r
      end
  end.

(** The end of the goroutine when the context of the set is cancelled. *)
Definition watch_end (sid : nat) (r : Registry) : Registry :=
  set_all (registry r) (alter (fun ss => if ss_cancelled ss then set_watching None ss else ss) sid (sets r))
    (watchers r) (next_id r) r.

(** [GetService]: the instances of the set, or those of a query of the client. *)
Definition GetService (name : string) (remote : res string (list instance * Z)) (r : Registry)
  : res string (list instance) :=
  let fallback :=
    match remote with
    | Ok (s, _) => if nonempty s then Ok s else Err ("service " +:+ name +:+ " not resolved in registry")
    | Err _ => Err ("service " +:+ name +:+ " not resolved in registry")
    end in
  match registry r !! name with
  | None => fallback
  | Some sid =>
      match sets r !! sid with
      | Some ss => match ss_services ss with Some s => Ok s | None => fallback end
      | None => fallback
      end
  end.

Definition ListServices (r : Registry) : gmap string (list instance) :=
  omap (fun sid => sets r !! sid ≫= ss_services) (registry r).

(** ** Steps *)

(** [handles] are the watchers that [GetWatcher] has returned; only these can be stopped. *)
Inductive rstep : Registry * gset nat -> Registry * gset nat -> Prop :=
| r_watch name answer r hs :
    rstep (r, hs) (let '(x, r) := GetWatcher None name answer r in
                   (r, match x with Ok wid => {[ wid ]} ∪ hs | Err _ => hs end))
| r_next wid l r r' hs : Next wid r = Some (l, r') -> rstep (r, hs) (r', hs)
| r_stop wid r hs : wid ∈ hs -> rstep (r, hs) (Stop wid r, hs)
| r_tick sid answer r hs : rstep (r, hs) (watch_tick sid answer r, hs)
| r_end sid r hs : rstep (r, hs) (watch_end sid r, hs).

Inductive rreach (x0 : Registry * gset nat) : Registry * gset nat -> Prop :=
| rr_start : rreach x0 x0
| rr_next x x' : rreach x0 x -> rstep x x' -> rreach x0 x'.

(** ** The invariant *)

(** What the reference counts depend on. *)
Record acore := mkCore { a_name : string; a_watcher : gset nat; a_ref : Z; a_cancelled : bool }.
Definition core (ss : serviceSet) : acore := mkCore (ss_name ss) (ss_watcher ss) (ss_ref ss) (ss_cancelled ss).
Definition wcore (w : watcher) : nat * bool := (w_set w, w_stopped w).

Definition counted (reg : gmap string nat) (S : gmap nat acore) (W : gmap nat (nat * bool)) (n : nat) : Prop :=
  (forall name sid, reg !! name = Some sid ->
     exists a, S !! sid = Some a /\ a_name a = name /\ a_cancelled a = false) /\
  (forall sid a, S !! sid = Some a -> (sid < n)%nat /\ a_ref a = Z.of_nat (size (a_watcher a)) /\
     if a_cancelled a then a_ref a = 0 else reg !! a_name a = Some sid /\ 0 < a_ref a) /\
  (forall sid a w, S !! sid = Some a -> w ∈ a_watcher a -> W !! w = Some (sid, false)) /\
  (forall w sid st, W !! w = Some (sid, st) ->
     (w < n /\ sid < n)%nat /\ (st = false -> exists a, S !! sid = Some a /\ w ∈ a_watcher a)).

Definition rinv (r : Registry) : Prop :=
  counted (registry r) (core <$> sets r) (wcore <$> watchers r) (next_id r).

Lemma fmap_alter_id {A B} (f : A -> B) g (k : nat) (m : gmap nat A) :
  (forall x, f (g x) = f x) -> f <$> alter g k m = f <$> m.
Proof.
  intros H. apply map_eq. intros i. rewrite !lookup_fmap. destruct (decide (i = k)) as [->|].
  - rewrite lookup_alter_eq. destruct (m !! k); simpl; [by rewrite H|done].
  - by rewrite lookup_alter_ne.
Qed.

Lemma signal_all_core ws m : wcore <$> signal_all ws m = wcore <$> m.
Proof.
  apply map_eq. intros i. rewrite !lookup_fmap. unfold signal_all. rewrite map_lookup_imap.
  destruct (m !! i); simpl; [|done]. by case_decide.
Qed.

Lemma rinv_frame r r' : registry r' = registry r -> core <$> sets r' = core <$> sets r ->
  wcore <$> watchers r' = wcore <$> watchers r -> next_id r' = next_id r -> rinv r -> rinv r'.
Proof. unfold rinv. by intros -> -> -> ->. Qed.

Lemma broadcast_rinv sid si r : rinv r -> rinv (broadcast sid si r).
Proof.
  unfold broadcast. destruct (sets r !! sid) as [ss|] eqn:E; [|done]. apply rinv_frame; simpl; try done.
  - rewrite fmap_insert. apply insert_id. by rewrite lookup_fmap, E.
  - apply signal_all_core.
Qed.

Lemma start_watch_rinv sid idx r : rinv r -> rinv (start_watch sid idx r).
Proof. apply rinv_frame; simpl; try done. by apply fmap_alter_id. Qed.

Lemma watch_tick_rinv sid answer r : rinv r -> rinv (watch_tick sid answer r).
Proof.
  intros H. unfold watch_tick. repeat case_match; subst; try done; apply start_watch_rinv; try done.
  by apply broadcast_rinv.
Qed.

Lemma watch_end_rinv sid r : rinv r -> rinv (watch_end sid r).
Proof. apply rinv_frame; simpl; try done. apply fmap_alter_id. intros ss. by destruct (ss_cancelled ss). Qed.

Lemma Next_rinv wid l r r' : rinv r -> Next wid r = Some (l, r') -> rinv r'.
Proof.
  intros H. unfold Next. destruct (watchers r !! wid) as [w|] eqn:E; [|done].
  case_match; [|done]. intros [= <- <-]. revert H. apply rinv_frame; simpl; try done.
  rewrite fmap_insert. apply insert_id. by rewrite lookup_fmap, E.
Qed.

(** A new watcher of a set that is in the registry. *)
Lemma counted_join reg S W n sid a name :
  counted reg S W n -> reg !! name = Some sid -> S !! sid = Some a ->
  counted reg (<[sid := mkCore (a_name a) ({[ n ]} ∪ a_watcher a) (a_ref a + 1) (a_cancelled a)]> S)
    (<[n := (sid, false)]> W) (Datatypes.S n).
Proof.
  intros (HA & HB & HC & HD) Hreg Ha.
  destruct (HA _ _ Hreg) as (a' & Ha' & Hn & Hc). simplify_eq. destruct (HB _ _ Ha) as (Hlt & Href & Hcan).
  rewrite Hc in Hcan. destruct Hcan as [_ Hpos].
  assert (n ∉ a_watcher a) as Hfresh by (intros Hin; destruct (HD _ _ _ (HC _ _ _ Ha Hin)); lia).
  split; [|split; [|split]].
  - intros name' sid' Hr. destruct (decide (sid' = sid)) as [->|Hne].
    + rewrite lookup_insert_eq. eexists. split; [done|]. split; [|done].
      destruct (HA _ _ Hr) as (a2 & Ha2 & <- & _). by simplify_eq.
    + rewrite lookup_insert_ne by done. by apply HA.
  - intros sid' a' [[<- <-]|[Hne Ha']]%lookup_insert_Some; cbn [a_ref a_watcher a_name a_cancelled].
    + split; [lia|]. rewrite size_union by set_solver. rewrite size_singleton, Hc, Href. split; [lia|]. split; [done|lia].
    + destruct (HB _ _ Ha') as (? & ? & ?). split; [lia|done].
  - intros sid' a' w [[<- <-]|[Hne Ha']]%lookup_insert_Some; simpl.
    + intros [->%elem_of_singleton|Hin]%elem_of_union; [by rewrite lookup_insert_eq|].
      rewrite lookup_insert_ne by set_solver. by eapply HC.
    + intros Hin. pose proof (HC _ _ _ Ha' Hin) as Hw. destruct (HD _ _ _ Hw). by rewrite lookup_insert_ne by lia.
  - intros w sid' st [[<- [= <- <-]]|[Hne Hw]]%lookup_insert_Some.
    + split; [lia|]. intros _. rewrite lookup_insert_eq. eexists. split; [done|]. simpl. set_solver.
    + destruct (HD _ _ _ Hw) as [Hlw Hex]. split; [lia|]. intros Hst. destruct (Hex Hst) as (a' & Ha' & Hin).
      destruct (decide (sid' = sid)) as [->|]; [|rewrite lookup_insert_ne by done; by exists a'].
      rewrite lookup_insert_eq. simplify_eq. eexists. split; [done|]. simpl. set_solver.
Qed.

(** A set with no watcher yet, which its first watcher joins next. *)
Lemma counted_new reg S W n name :
  counted reg S W n -> reg !! name = None ->
  counted (<[name := n]> reg) (<[n := mkCore name {[ Datatypes.S n ]} 1 false]> S)
    (<[Datatypes.S n := (n, false)]> W) (Datatypes.S (Datatypes.S n)).
Proof.
  intros (HA & HB & HC & HD) Hreg.
  assert (S !! n = None) as HSn. { destruct (S !! n) eqn:E; [|done]. destruct (HB _ _ E). lia. }
  split; [|split; [|split]].
  - intros name' sid' [[<- <-]|[Hne Hr]]%lookup_insert_Some; [rewrite lookup_insert_eq; by eexists|].
    destruct (HA _ _ Hr) as (a & Ha & ? & ?). rewrite lookup_insert_ne by congruence. by exists a.
  - intros sid' a' [[<- <-]|[Hne Ha']]%lookup_insert_Some; cbn [a_ref a_watcher a_name a_cancelled].
    + split; [lia|]. rewrite size_singleton. split; [done|]. by rewrite lookup_insert_eq.
    + destruct (HB _ _ Ha') as (? & ? & Hc). split; [lia|]. split; [done|].
      destruct (a_cancelled a'); [done|]. rewrite lookup_insert_ne; [done|]. intros Heq. destruct Hc as [Hc _]. congruence.
  - intros sid' a' w [[<- <-]|[Hne Ha']]%lookup_insert_Some; simpl.
    + intros ->%elem_of_singleton. by rewrite lookup_insert_eq.
    + intros Hin. pose proof (HC _ _ _ Ha' Hin) as Hw. destruct (HD _ _ _ Hw). by rewrite lookup_insert_ne by lia.
  - intros w sid' st [[<- [= <- <-]]|[Hne Hw]]%lookup_insert_Some.
    + split; [lia|]. intros _. rewrite lookup_insert_eq. eexists. split; [done|]. simpl. set_solver.
    + destruct (HD _ _ _ Hw) as [Hlw Hex]. split; [lia|]. intros Hst. destruct (Hex Hst) as (a' & Ha' & Hin).
      rewrite lookup_insert_ne by congruence. by exists a'.
Qed.

Lemma counted_leave reg S W n wid sid a :
  counted reg S W n -> W !! wid = Some (sid, false) -> S !! sid = Some a ->
  let last := a_ref a - 1 =? 0 in
  counted (if last then delete (a_name a) reg else reg)
    (<[sid := mkCore (a_name a) (a_watcher a ∖ {[ wid ]}) (a_ref a - 1) last]> S)
    (<[wid := (sid, true)]> W) n.
Proof.
  intros (HA & HB & HC & HD) Hw Ha last.
  destruct (HD _ _ _ Hw) as [Hlw Hex]. destruct (Hex eq_refl) as (a0 & Ha0 & Hin). simplify_eq.
  destruct (HB _ _ Ha) as (Hlt & Href & Hcan).
  assert (size (a_watcher a) = Datatypes.S (size (a_watcher a ∖ {[ wid ]}))) as Hsz.
  { rewrite (union_difference_L {[ wid ]} (a_watcher a)) at 1 by set_solver.
    rewrite size_union, size_singleton by set_solver. done. }
  assert (a_cancelled a = false) as Hc. { destruct (a_cancelled a); [lia|done]. }
  rewrite Hc in Hcan. destruct Hcan as [Hreg Hpos].
  assert (Hlast : last = true <-> a_ref a = 1). { subst last. rewrite Z.eqb_eq. lia. }
  split; [|split; [|split]].
  - intros name sid' Hr. assert (reg !! name = Some sid' /\ (last = true -> name <> a_name a)) as [Hr' Hnm].
    { destruct last; [|done]. apply lookup_delete_Some in Hr as [? ?]. done. }
    destruct (HA _ _ Hr') as (a' & Ha' & Hn' & Hc'). destruct (decide (sid' = sid)) as [->|Hne].
    + simplify_eq. rewrite lookup_insert_eq. eexists. split; [done|]. split; [done|]. simpl.
      destruct last; [by destruct (Hnm eq_refl)|done].
    + rewrite lookup_insert_ne by done. by exists a'.
  - intros sid' a' [[<- <-]|[Hne Ha']]%lookup_insert_Some; cbn [a_ref a_watcher a_name a_cancelled].
    + split; [done|]. split; [lia|]. destruct last eqn:El; [by apply Z.eqb_eq in El|]. split; [done|].
      apply Z.eqb_neq in El. lia.
    + destruct (HB _ _ Ha') as (? & ? & Hc'). split; [done|]. split; [done|].
      destruct (a_cancelled a') eqn:Ec; [done|]. destruct Hc' as [Hr' ?]. split; [|done].
      destruct last; [|done]. rewrite lookup_delete_ne; [done|]. congruence.
  - intros sid' a' w [[<- <-]|[Hne Ha']]%lookup_insert_Some; cbn [a_watcher].
    + intros [Hin' Hne']%elem_of_difference. rewrite lookup_insert_ne by set_solver. by eapply HC.
    + intros Hin'. pose proof (HC _ _ _ Ha' Hin') as Hw'. rewrite lookup_insert_ne by congruence. done.
  - intros w sid' st [[<- [= <- <-]]|[Hne Hw']]%lookup_insert_Some; [done|].
    destruct (HD _ _ _ Hw') as [Hlw' Hex']. split; [done|]. intros Hst. destruct (Hex' Hst) as (a' & Ha' & Hin').
    destruct (decide (sid' = sid)) as [->|]; [|rewrite lookup_insert_ne by done; by exists a'].
    rewrite lookup_insert_eq. simplify_eq. eexists. split; [done|]. simpl. set_solver.
Qed.

Lemma resolve_rinv sid answer r : rinv r -> rinv (resolve sid answer r).2.
Proof.
  intros H. unfold resolve. destruct answer as [[s i]|]; [|done]. apply start_watch_rinv.
  destruct (nonempty s); [by apply broadcast_rinv|done].
Qed.

Lemma enter_attach_rinv name r ok sid r1 wid r2 : rinv r ->
  enter_set name r = (ok, sid, r1) -> attach sid r1 = (wid, r2) -> rinv r2.
Proof.
  intros H. unfold enter_set, attach. destruct (registry r !! name) as [s|] eqn:E; intros [= <- <- <-] [= <- <-].
  - pose proof H as (HA & _). destruct (HA _ _ E) as (a & Ha & _ & _).
    pose proof (counted_join _ _ _ _ _ _ _ H E Ha) as Hj. unfold rinv. simpl. rewrite fmap_insert.
    match goal with |- counted _ ?M _ _ => assert (M = <[s := mkCore (a_name a) ({[ next_id r ]} ∪ a_watcher a) (a_ref a + 1) (a_cancelled a)]> (core <$> sets r)) as -> end; [|done].
    apply map_eq. intros i. rewrite lookup_fmap. rewrite lookup_fmap in Ha.
    destruct (sets r !! s) as [ss|] eqn:Es; [|done]. simpl in Ha. simplify_eq.
    destruct (decide (i = s)) as [->|Hne].
    + by rewrite !lookup_alter_eq, Es, lookup_insert_eq.
    + by rewrite !lookup_alter_ne, lookup_insert_ne, lookup_fmap by done.
  - pose proof (counted_new _ _ _ _ _ H E) as Hn. unfold rinv. simpl. rewrite fmap_insert.
    match goal with |- counted _ ?M _ _ => assert (M = <[next_id r := mkCore name {[ S (next_id r) ]} 1 false]> (core <$> sets r)) as -> end; [|done].
    apply map_eq. intros i. rewrite lookup_fmap. destruct (decide (i = next_id r)) as [->|Hne].
    + rewrite lookup_alter_eq, !lookup_insert_eq. simpl. unfold core, add_watcher. simpl. by rewrite union_empty_r_L.
    + by rewrite lookup_alter_ne, !lookup_insert_ne, lookup_fmap by done.
Qed.

Lemma GetWatcher_rinv ctx name answer r : rinv r -> rinv (GetWatcher ctx name answer r).2.
Proof.
  intros H. unfold GetWatcher. destruct ctx; [done|].
  destruct (enter_set name r) as [[ok sid] r1] eqn:E1. destruct (attach sid r1) as [wid r2] eqn:E2.
  pose proof (enter_attach_rinv _ _ _ _ _ _ _ H E1 E2) as H2. destruct ok; [done|].
  pose proof (resolve_rinv sid answer r2 H2). by destruct (resolve sid answer r2) as [[e|] r3].
Qed.

(** The set of a watcher that is not stopped. *)
Lemma live_watcher r wid v : rinv r -> watchers r !! wid = Some v -> w_stopped v = false ->
  exists ss, sets r !! w_set v = Some ss /\ wid ∈ ss_watcher ss /\ ss_cancelled ss = false /\
    registry r !! ss_name ss = Some (w_set v) /\ ss_ref ss = Z.of_nat (size (ss_watcher ss)).
Proof.
  intros (HA & HB & HC & HD) Ev Est.
  destruct (HD wid (w_set v) false) as [_ Hex]; [rewrite lookup_fmap, Ev; unfold wcore; simpl; by rewrite Est|].
  destruct (Hex eq_refl) as (a & Ha & Hin). rewrite lookup_fmap in Ha.
  destruct (sets r !! w_set v) as [ss|] eqn:Es; [|done]. simpl in Ha. simplify_eq. exists ss.
  destruct (HB (w_set v) (core ss)) as (_ & Href & Hc); [by rewrite lookup_fmap, Es|]. simpl in *.
  destruct (ss_cancelled ss) eqn:Ec.
  - assert (size (ss_watcher ss) <> 0%nat); [|lia]. apply size_non_empty_iff. set_solver.
  - by destruct Hc.
Qed.

(** The set after one of its watchers has left. *)
Definition left_set (wid : nat) (ss : serviceSet) : serviceSet :=
  mkSet (ss_name ss) (ss_watcher ss ∖ {[ wid ]}) (ss_ref ss - 1) (ss_services ss) (ss_ref ss - 1 =? 0) (ss_watching ss).

(** [Stop] of a live watcher in one piece. *)
Lemma Stop_eq r wid v ss : watchers r !! wid = Some v -> w_stopped v = false ->
  sets r !! w_set v = Some ss -> ss_cancelled ss = false ->
  Stop wid r = set_all (if ss_ref ss - 1 =? 0 then delete (ss_name ss) (registry r) else registry r)
    (<[w_set v := left_set wid ss]> (sets r)) (<[wid := mkW (w_event v) (w_set v) true]> (watchers r)) (next_id r) r.
Proof.
  intros Ev Est Es Ec. unfold Stop. rewrite Ev, Est. unfold set_delete, tryDelete. simpl.
  rewrite lookup_alter_eq, Es. simpl. change (ss_ref ss + -1) with (ss_ref ss - 1).
  assert (forall x, <[w_set v := x]> (alter (del_watcher wid) (w_set v) (sets r)) = <[w_set v := x]> (sets r)) as Hins.
  { intros x. apply map_eq. intros i. destruct (decide (i = w_set v)) as [->|].
    - by rewrite !lookup_insert_eq.
    - by rewrite !lookup_insert_ne, lookup_alter_ne. }
  unfold left_set. destruct (Z.eqb_spec (ss_ref ss - 1) 0) as [E0|E0]; rewrite Hins; [by rewrite E0|].
  unfold add_ref, del_watcher. simpl. by rewrite Ec.
Qed.

Lemma Stop_rinv wid r : rinv r -> rinv (Stop wid r).
Proof.
  intros H. destruct (watchers r !! wid) as [v|] eqn:Ev; [|unfold Stop; by rewrite Ev].
  destruct (w_stopped v) eqn:Est; [unfold Stop; by rewrite Ev, Est|].
  destruct (live_watcher _ _ _ H Ev Est) as (ss & Es & _ & Ec & _ & _).
  rewrite (Stop_eq _ _ _ _ Ev Est Es Ec). unfold rinv. simpl. rewrite !fmap_insert.
  apply (counted_leave _ _ _ _ _ _ (core ss) H).
  - rewrite lookup_fmap, Ev. unfold wcore. simpl. by rewrite Est.
  - by rewrite lookup_fmap, Es.
Qed.

Lemma rstep_rinv x x' : rinv x.1 -> rstep x x' -> rinv x'.1.
Proof.
  intros H Hs. destruct Hs as [name answer r hs|wid l r r' hs E|wid r hs Hin|sid answer r hs|sid r hs]; cbn [fst] in *.
  - pose proof (GetWatcher_rinv None name answer r H) as Hg. revert Hg. by destruct (GetWatcher None name answer r).
  - by eapply Next_rinv.
  - by apply Stop_rinv.
  - by apply watch_tick_rinv.
  - by apply watch_end_rinv.
Qed.

Lemma new_rinv : rinv NewConsulRegistry.
Proof. split; [|split; [|split]]; intros *; simpl; rewrite ?fmap_empty, lookup_empty; by intros. Qed.

Lemma rreach_rinv x : rreach (NewConsulRegistry, ∅) x -> rinv x.1.
Proof. induction 1; [apply new_rinv|by eapply rstep_rinv]. Qed.

(** ** A set whose first query failed *)

(** The set of [name] has a watcher that nobody can stop, no goroutine and no instances,
    and none of its watchers has a signal. *)
Definition poisoned (name : string) (sid leaked : nat) (x : Registry * gset nat) : Prop :=
  rinv x.1 /\ registry (fst x) !! name = Some sid /\ (leaked ∉ x.2) /\
  (forall w, w ∈ x.2 -> (w < next_id x.1)%nat) /\ (leaked < next_id x.1)%nat /\
  (exists ss, sets (fst x) !! sid = Some ss /\ leaked ∈ ss_watcher ss /\ ss_watching ss = None /\ ss_services ss = None) /\
  (forall w v, watchers (fst x) !! w = Some v -> w_set v = sid -> w_event v = false).

(** Operations on another set leave a set and its watchers alone. *)
Definition same_set (sid : nat) (r r' : Registry) : Prop :=
  sets r' !! sid = sets r !! sid /\
  (forall w v, watchers r' !! w = Some v -> w_set v = sid ->
     exists v0, watchers r !! w = Some v0 /\ w_set v0 = sid /\ w_event v0 = w_event v).

Lemma broadcast_other sid sid' si r : sid <> sid' -> rinv r -> same_set sid r (broadcast sid' si r).
Proof.
  intros Hne (_ & _ & HC & _). unfold broadcast. destruct (sets r !! sid') as [ss|] eqn:E; [|split; naive_solver].
  split; simpl; [by rewrite lookup_insert_ne|]. intros w v. unfold signal_all. rewrite map_lookup_imap.
  destruct (watchers r !! w) as [v0|] eqn:Ev; [|done]. simpl. intros [= <-] Hset. exists v0.
  case_decide as Hin; [|done]. simpl in Hset.
  assert ((wcore <$> watchers r) !! w = Some (sid', false)) as Hw.
  { eapply (HC sid' (core ss)); [by rewrite lookup_fmap, E|done]. }
  rewrite lookup_fmap, Ev in Hw. simpl in Hw. unfold wcore in Hw. congruence.
Qed.

Lemma start_watch_other sid sid' idx r : sid <> sid' -> same_set sid r (start_watch sid' idx r).
Proof. intros Hne. split; simpl; [by rewrite lookup_alter_ne|naive_solver]. Qed.

Lemma same_set_trans sid r1 r2 r3 : same_set sid r1 r2 -> same_set sid r2 r3 -> same_set sid r1 r3.
Proof.
  intros [H1 H2] [H3 H4]. split; [congruence|]. intros w v Hw Hs.
  destruct (H4 w v Hw Hs) as (v1 & Hw1 & Hs1 & He1). destruct (H2 w v1 Hw1 Hs1) as (v0 & ? & ? & ?).
  exists v0. repeat split; congruence.
Qed.

Lemma same_set_refl sid r : same_set sid r r.
Proof. split; naive_solver. Qed.

Lemma tick_other sid sid' answer r : rinv r -> sid <> sid' -> same_set sid r (watch_tick sid' answer r).
Proof.
  intros H Hne. unfold watch_tick. destruct (sets r !! sid') as [ss|]; [|apply same_set_refl].
  destruct (ss_watching ss); [|apply same_set_refl]. destruct answer as [[s i]|]; [|apply same_set_refl].
  destruct (_ && _); [|by apply start_watch_other].
  eapply same_set_trans; [by apply broadcast_other|by apply start_watch_other].
Qed.

Lemma tick_frame sid answer r : registry (watch_tick sid answer r) = registry r /\
  next_id (watch_tick sid answer r) = next_id r.
Proof. unfold watch_tick, broadcast. repeat case_match; simplify_eq; done. Qed.

Lemma poisoned_grow name sid leaked r r' hs hs' : poisoned name sid leaked (r, hs) -> rinv r' ->
  registry r' !! name = registry r !! name -> (next_id r <= next_id r')%nat -> same_set sid r r' ->
  (forall w, w ∈ hs' -> w ∈ hs \/ (next_id r <= w < next_id r')%nat) -> poisoned name sid leaked (r', hs').
Proof.
  intros (_ & Hreg & Hnl & Hhs & Hlt & (ss & Hss & Hrest) & Hev) Hinv Hr Hn [Hs Hw] Hnew.
  unfold poisoned. simpl in *. rewrite Hr, Hs.
  split; [done|]. split; [done|]. split; [intros Hin; destruct (Hnew _ Hin); [done|lia]|].
  split; [intros w Hin; destruct (Hnew _ Hin) as [Hold|]; [specialize (Hhs _ Hold); lia|lia]|].
  split; [lia|]. split; [by exists ss|].
  intros w v Hwv Hsv. destruct (Hw w v Hwv Hsv) as (v0 & Hv0 & Hs0 & <-). by eapply Hev.
Qed.

Lemma poisoned_same name sid leaked r r' hs : poisoned name sid leaked (r, hs) -> rinv r' ->
  registry r' = registry r -> next_id r' = next_id r -> same_set sid r r' -> poisoned name sid leaked (r', hs).
Proof.
  intros Hp Hinv Hr Hn Hs. apply (poisoned_grow _ _ _ _ _ _ _ Hp Hinv); [by rewrite Hr|lia|done|by left].
Qed.

Lemma Next_poisoned name sid leaked r hs wid l r' :
  poisoned name sid leaked (r, hs) -> Next wid r = Some (l, r') -> poisoned name sid leaked (r', hs).
Proof.
  intros Hp E. pose proof Hp as (Hi & _). cbn [fst] in Hi. pose proof (Next_rinv _ _ _ _ Hi E) as Hi'. unfold Next in E.
  destruct (watchers r !! wid) as [v|] eqn:Ev; [|done]. destruct (w_event v) eqn:Eb; [|done]. simplify_eq.
  apply (poisoned_same _ _ _ _ _ _ Hp Hi'); try done. split; [done|]. simpl.
  intros w x [[<- <-]|[Hne Hw]]%lookup_insert_Some Hset; [|by exists x].
  exists v. simpl in *. split; [done|]. split; [done|].
  pose proof Hp as (_ & _ & _ & _ & _ & _ & Hev). simpl in Hev. by rewrite (Hev wid v).
Qed.

Lemma watch_end_poisoned name sid leaked r hs sid' :
  poisoned name sid leaked (r, hs) -> poisoned name sid leaked (watch_end sid' r, hs).
Proof.
  intros Hp. pose proof Hp as (Hi & Hreg & Hnl & Hhs & Hlt & (ss & Hss & Hin & Hwt & Hsv) & Hev).
  pose proof (watch_end_rinv sid' r Hi) as Hi'. unfold poisoned. simpl in *.
  do 5 (split; [done|]). split; [|done].
  destruct (decide (sid = sid')) as [->|Hne]; [|rewrite lookup_alter_ne by done; by exists ss].
  rewrite lookup_alter_eq, Hss. simpl. eexists. split; [done|]. by destruct (ss_cancelled ss).
Qed.

Lemma tick_poisoned name sid leaked r hs sid' answer :
  poisoned name sid leaked (r, hs) -> poisoned name sid leaked (watch_tick sid' answer r, hs).
Proof.
  intros Hp. pose proof Hp as (Hi & _ & _ & _ & _ & (ss & Hss & _ & Hwt & _) & _). simpl in *.
  destruct (decide (sid = sid')) as [->|Hne].
  - unfold watch_tick. by rewrite Hss, Hwt.
  - destruct (tick_frame sid' answer r) as [Hr Hn].
    apply (poisoned_same _ _ _ _ _ _ Hp); [by apply watch_tick_rinv|done|done|by apply tick_other].
Qed.

Lemma Stop_poisoned name sid leaked r hs wid :
  poisoned name sid leaked (r, hs) -> wid ∈ hs -> poisoned name sid leaked (Stop wid r, hs).
Proof.
  intros Hp Hwid. pose proof Hp as (Hi & Hreg & Hnl & Hhs & Hlt & (ss & Hss & Hin & Hwt & Hsv) & Hev). simpl in *.
  pose proof (Stop_rinv wid r Hi) as Hi'.
  destruct (watchers r !! wid) as [v|] eqn:Ev; [|unfold Stop in *; by rewrite Ev in *].
  destruct (w_stopped v) eqn:Est; [unfold Stop in *; by rewrite Ev, Est in *|].
  destruct (live_watcher _ _ _ Hi Ev Est) as (ss' & Es & Hin' & Ec & Hreg' & Href).
  rewrite (Stop_eq _ _ _ _ Ev Est Es Ec) in *. unfold poisoned. simpl.
  split; [done|]. split.
  { destruct (Z.eqb_spec (ss_ref ss' - 1) 0) as [E0|]; [|done]. rewrite lookup_delete_ne; [done|].
    intros Hn. rewrite Hn in Hreg'. simplify_eq.
    assert (2 <= size (ss_watcher ss))%nat; [|lia].
    replace 2%nat with (size ({[ wid; leaked ]} : gset nat)); [apply subseteq_size; set_solver|].
    rewrite size_union, !size_singleton by set_solver. done. }
  do 3 (split; [done|]). split.
  - destruct (decide (w_set v = sid)) as [<-|Hne]; [|rewrite lookup_insert_ne by done; by exists ss].
    rewrite lookup_insert_eq. simplify_eq. eexists. split; [done|]. simpl. split; [set_solver|done].
  - intros w x [[<- <-]|[Hne Hw]]%lookup_insert_Some Hset; simpl in *; [by apply (Hev _ _ Ev)|by apply (Hev _ _ Hw)].
Qed.

(** Entering another set, existing or new. *)
Lemma enter_attach_other name r ok sid' r1 wid r2 sid name' : rinv r ->
  registry r !! name = Some sid -> name' <> name ->
  enter_set name' r = (ok, sid', r1) -> attach sid' r1 = (wid, r2) ->
  sid' <> sid /\ same_set sid r r2 /\ registry r2 !! name = registry r !! name /\
  (next_id r <= wid < next_id r2)%nat.
Proof.
  intros (HA & HB & _ & _) Hreg Hne. destruct (HA _ _ Hreg) as (a & Ha & Hn & _).
  unfold enter_set, attach. destruct (registry r !! name') as [s|] eqn:E; intros [= <- <- <-] [= <- <-].
  - assert (s <> sid) as Hss. { intros ->. destruct (HA _ _ E) as (a' & Ha' & Hn' & _). congruence. }
    split; [done|]. split; [|by simpl; repeat split; lia].
    split; simpl; [by rewrite !lookup_alter_ne|].
    intros w v [[<- <-]|[? Hw]]%lookup_insert_Some Hset; [done|by exists v].
  - destruct (HB _ _ Ha) as [Hlt _].
    split; [lia|]. split; [|simpl; rewrite lookup_insert_ne by done; by repeat split; lia].
    split; simpl; [by rewrite lookup_alter_ne, lookup_insert_ne by lia|].
    intros w v [[<- <-]|[? Hw]]%lookup_insert_Some Hset; [simpl in *; lia|by exists v].
Qed.

Lemma resolve_other sid sid' answer r : rinv r -> sid <> sid' ->
  same_set sid r (resolve sid' answer r).2 /\ registry (resolve sid' answer r).2 = registry r /\
  next_id (resolve sid' answer r).2 = next_id r.
Proof.
  intros Hi Hne. unfold resolve. destruct answer as [[s i]|]; [|by split; [apply same_set_refl|]].
  destruct (nonempty s); simpl; [|by split; [apply start_watch_other|]]. split.
  - eapply same_set_trans; [by apply broadcast_other|by apply start_watch_other].
  - unfold broadcast. by destruct (sets r !! sid').
Qed.

Lemma GetWatcher_poisoned name sid leaked r hs name' answer :
  poisoned name sid leaked (r, hs) ->
  let '(x, r') := GetWatcher None name' answer r in
  poisoned name sid leaked (r', match x with Ok wid => {[ wid ]} ∪ hs | Err _ => hs end).
Proof.
  intros Hp. pose proof Hp as (Hi & Hreg & Hnl & Hhs & Hlt & (ss & Hss & Hin & Hwt & Hsv) & Hev). cbn [fst snd] in *.
  destruct (decide (name' = name)) as [->|Hne].
  - pose proof (GetWatcher_rinv None name answer r Hi) as Hi'. unfold GetWatcher, enter_set in *.
    rewrite Hreg in *. unfold attach in *. simpl in *. rewrite lookup_alter_eq, Hss in *. simpl in *. rewrite Hsv in *. simpl in *.
    unfold poisoned. simpl. split; [done|]. split; [done|]. split; [set_solver by lia|].
    split; [intros w [->%elem_of_singleton|Hw]%elem_of_union; [lia|specialize (Hhs w Hw); lia]|].
    split; [lia|]. split.
    + rewrite !lookup_alter_eq, Hss. simpl. eexists. split; [done|]. simpl. split; [set_solver|done].
    + intros w x [[<- <-]|[Hnew Hw]]%lookup_insert_Some Hset; [done|]. by apply (Hev _ _ Hw).
  - unfold GetWatcher. destruct (enter_set name' r) as [[ok sid'] r1] eqn:E1.
    destruct (attach sid' r1) as [wid r2] eqn:E2.
    pose proof (enter_attach_rinv _ _ _ _ _ _ _ Hi E1 E2) as Hi2.
    destruct (enter_attach_other _ _ _ _ _ _ _ _ _ Hi Hreg Hne E1 E2) as (Hsid & Hsame & Hr2 & Hn2).
    destruct ok.
    + cbn beta iota. apply (poisoned_grow name sid leaked r r2 hs ({[ wid ]} ∪ hs) Hp Hi2); [done|lia|done|].
      intros w Hw. apply elem_of_union in Hw as [Hw|Hw]; [apply elem_of_singleton in Hw as ->; by right|by left].
    + destruct (resolve_other sid sid' answer r2 Hi2) as (Hs3 & Hr3 & Hn3); [done|].
      pose proof (resolve_rinv sid' answer r2 Hi2) as Hi3.
      assert (forall hs', (forall w, w ∈ hs' -> w ∈ hs \/ w = wid) -> poisoned name sid leaked ((resolve sid' answer r2).2, hs')) as Hall.
      { intros hs' Hhs'. apply (poisoned_grow _ _ _ _ _ _ _ Hp Hi3); [by rewrite Hr3|lia|by eapply same_set_trans|].
        intros w Hw. destruct (Hhs' w Hw) as [Hold | ->]; [by left|right; lia]. }
      destruct (resolve sid' answer r2) as [[e|] r3]; apply Hall; set_solver.
Qed.

Lemma poisoned_step name sid leaked x x' : poisoned name sid leaked x -> rstep x x' -> poisoned name sid leaked x'.
Proof.
  intros Hp Hs. destruct Hs as [name' answer r hs|wid l r r' hs E|wid r hs Hin|sid' answer r hs|sid' r hs].
  - pose proof (GetWatcher_poisoned _ _ _ _ _ name' answer Hp) as Hg. revert Hg. by destruct (GetWatcher None name' answer r).
  - by eapply Next_poisoned.
  - by apply Stop_poisoned.
  - by apply tick_poisoned.
  - by apply watch_end_poisoned.
Qed.

(** A failed first query poisons the name. *)
Lemma failed_first_poisons name e r hs : rinv r -> registry r !! name = None ->
  (forall w, w ∈ hs -> (w < next_id r)%nat) ->
  exists r', GetWatcher None name (Err e) r = (Err e, r') /\ poisoned name (next_id r) (S (next_id r)) (r', hs).
Proof.
  intros Hi Hreg Hhs. pose proof (GetWatcher_rinv None name (Err e) r Hi) as Hi'.
  unfold GetWatcher, enter_set in *. rewrite Hreg in *. simpl in *. eexists. split; [done|].
  unfold poisoned. simpl. rewrite lookup_insert_eq in *. simpl in *.
  split; [done|]. split; [by rewrite lookup_insert_eq|]. split; [intros Hin; specialize (Hhs _ Hin); lia|].
  split; [intros w Hw; specialize (Hhs w Hw); lia|]. split; [lia|]. split.
  - rewrite lookup_alter_eq, lookup_insert_eq. simpl. eexists. split; [done|]. simpl. split; [set_solver|done].
  - intros w v [[<- <-]|[Hne Hw]]%lookup_insert_Some Hset; [done|].
    destruct Hi as (_ & _ & _ & HD). destruct (HD w (w_set v) (w_stopped v)) as [Hlw _]; [by rewrite lookup_fmap, Hw|]. lia.
Qed.

Lemma GetWatcher_handles name answer r (hs : gset nat) : (forall w, w ∈ hs -> (w < next_id r)%nat) ->
  let '(x, r') := GetWatcher None name answer r in
  forall w, w ∈ (match x with Ok wid => {[ wid ]} ∪ hs | Err _ => hs end : gset nat) -> (w < next_id r')%nat.
Proof.
  intros Hhs. unfold GetWatcher. destruct (enter_set name r) as [[ok sid] r1] eqn:E1.
  assert (next_id r <= next_id r1)%nat as Hle.
  { revert E1. unfold enter_set. destruct (registry r !! name); intros [= <- <- <-]; simpl; lia. }
  unfold attach. set (r2 := set_all _ _ _ _ _).
  assert (forall r3 w, next_id r3 = S (next_id r1) -> w ∈ ({[ next_id r1 ]} ∪ hs) -> (w < next_id r3)%nat) as Hall.
  { intros r3 w -> Hw. apply elem_of_union in Hw as [->%elem_of_singleton|Hw]; [lia|]. specialize (Hhs w Hw). lia. }
  destruct ok; [intros w; by apply Hall|]. unfold resolve, broadcast.
  destruct answer as [[s i]|]; [destruct (nonempty s)|]; intros w Hw; (apply Hall; [simpl; try case_match; done|set_solver]).
Qed.

Lemma rreach_handles x : rreach (NewConsulRegistry, ∅) x -> forall w, w ∈ x.2 -> (w < next_id x.1)%nat.
Proof.
  induction 1 as [|x x' Hr IH Hs]; [set_solver|].
  destruct Hs as [name answer r hs|wid l r r' hs E|wid r hs Hin|sid answer r hs|sid r hs]; cbn [fst snd] in *.
  - pose proof (GetWatcher_handles name answer r hs IH) as Hg. revert Hg. by destruct (GetWatcher None name answer r).
  - revert E. unfold Next. destruct (watchers r !! wid) as [v|]; [|done]. destruct (w_event v); [|done]. intros [= _ <-]. exact IH.
  - unfold Stop, set_delete, tryDelete. repeat case_match; simplify_eq; exact IH.
  - by destruct (tick_frame sid answer r) as [_ ->].
  - exact IH.
Qed.

Lemma poisoned_reach name sid leaked x z : poisoned name sid leaked x -> rreach x z -> poisoned name sid leaked z.
Proof. intros Hp. induction 1; [done|]. by eapply poisoned_step. Qed.

Lemma poisoned_next name sid leaked z wid v : poisoned name sid leaked z ->
  watchers z.1 !! wid = Some v -> registry z.1 !! name = Some (w_set v) -> Next wid z.1 = None.
Proof.
  intros (_ & Hreg & _ & _ & _ & _ & Hev) Hw Hn. unfold Next. rewrite Hw. rewrite Hreg in Hn. simplify_eq.
  by rewrite (Hev wid v Hw eq_refl).
Qed.

(** ** Key-value store *)

Record consulKVWatcher := mkKV { kv_key : string; kv_cancelled : bool; kv_lastIndex : Z }.

(** An answer of the store: the value of the key, if it has one, and the index. *)
Definition kv_answer : Type := res string (option string * Z).

(** [answer] is that of the unconditional query; its error is ignored. *)
Definition GetKVWatcher (key : string) (answer : kv_answer) : consulKVWatcher :=
  mkKV key false (match answer with Ok (_, i) => i | Err _ => 0 end).

(** [Next] over the answers its loop receives; [None] while it still waits.  The context is
    looked at before each query. *)
Fixpoint KV_Next (ctx_err : string) (answers : list kv_answer) (w : consulKVWatcher)
  : option (res string (option string) * consulKVWatcher) :=
  if kv_cancelled w then Some (Err ctx_err, w)
  else match answers with
       | [] => None
       | Err e :: _ => Some (Err e, w)
       | Ok (value, i) :: rest =>
           if kv_lastIndex w <? i then Some (Ok value, mkKV (kv_key w) (kv_cancelled w) i)
           else KV_Next ctx_err rest w
       end.

Definition KV_Stop (w : consulKVWatcher) : consulKVWatcher := mkKV (kv_key w) true (kv_lastIndex w).

Definition GetFromKV (key : string) (answer : kv_answer) : res string string :=
  match answer with
  | Err e => Err ("consul kv get error: " +:+ e)
  | Ok (None, _) => Err ("key '" +:+ key +:+ "' not found in consul kv")
  | Ok (Some v, _) => Ok v
  end.
Definition PutToKV (answer : option string) : option string :=
  match answer with Some e => Some ("consul kv put error: " +:+ e) | None => None end.
Definition DeleteFromKV (key : string) (answer : option string) : option string :=
  match answer with Some e => Some ("consul kv delete error (key: " +:+ key +:+ "): " +:+ e) | None => None end.

(** The indices of the changes a key-value watcher reports increase, and it reports the
    first answer newer than what it has seen. *)
Lemma kv_next_newer ctx_err answers w x w' : KV_Next ctx_err answers w = Some (Ok x, w') ->
  kv_lastIndex w < kv_lastIndex w' /\
  exists older rest, answers = older ++ Ok (x, kv_lastIndex w') :: rest /\
    Forall (fun a => exists p i, a = Ok (p, i) /\ i <= kv_lastIndex w) older.
Proof.
  induction answers as [|[[p i]|e] answers IH]; simpl; destruct (kv_cancelled w); try done.
  destruct (Z.ltb_spec (kv_lastIndex w) i).
  - intros [= <- <-]. split; [done|]. by exists [], answers.
  - intros (Hlt & older & rest & -> & Hall)%IH. split; [done|]. exists (Ok (p, i) :: older), rest.
    split; [done|]. constructor; [|done]. by exists p, i.
Qed.

(** ** Properties *)

(** Calls that do not overlap: when the goroutine of a set receives a new, nonempty list of instances, every
    watcher of the set that has not been stopped returns that list from its next [Next]. *)
Theorem update_delivered x sid ss last services idx wid v :
  rreach (NewConsulRegistry, ∅) x ->
  sets (fst x) !! sid = Some ss -> ss_watching ss = Some last ->
  services <> [] -> idx <> last ->
  watchers (fst x) !! wid = Some v -> w_set v = sid -> w_stopped v = false ->
  exists r', Next wid (watch_tick sid (Ok (services, idx)) x.1) = Some (services, r').
Proof.
  intros Hi%rreach_rinv Hss Hwt Hne Hidx Hw Hset Hst.
  destruct (live_watcher _ _ _ Hi Hw Hst) as (ss' & Hss' & Hin & _). rewrite Hset, Hss in Hss'. simplify_eq.
  unfold watch_tick. rewrite Hss, Hwt. rewrite (proj2 (Z.eqb_neq _ _) Hidx). destruct services as [|s l]; [done|].
  cbn [nonempty andb negb]. unfold Next, broadcast. rewrite Hss. simpl. unfold signal_all.
  rewrite map_lookup_imap, Hw. simpl. rewrite decide_True by done. simpl.
  rewrite lookup_alter_eq, lookup_insert_eq. simpl. by eexists.
Qed.

(** Calls that do not overlap: when the first query for a name fails, [GetWatcher] returns the error and leaves its
    watcher, which nobody can stop, in a set without a goroutine: whatever happens after,
    the name stays registered, every later [GetWatcher] of the name succeeds without
    asking Consul, and no watcher of the name ever has instances to return. *)
Theorem failed_query_poisons x name e : rreach (NewConsulRegistry, ∅) x -> registry x.1 !! name = None ->
  exists r', GetWatcher None name (Err e) x.1 = (Err e, r') /\
    forall z, rreach (r', x.2) z ->
      (forall wid v, watchers z.1 !! wid = Some v -> registry z.1 !! name = Some (w_set v) -> Next wid z.1 = None) /\
      (exists wid r'', forall answer, GetWatcher None name answer z.1 = (Ok wid, r'')).
Proof.
  intros Hr Hreg. destruct x as [r hs]. cbn [fst snd] in *.
  destruct (failed_first_poisons name e r hs (rreach_rinv _ Hr) Hreg (rreach_handles _ Hr)) as (r' & Hg & Hp).
  exists r'. split; [done|]. intros z Hz. pose proof (poisoned_reach _ _ _ _ _ Hp Hz) as Hpz. split.
  - intros wid v. by apply (poisoned_next _ _ _ _ _ _ Hpz).
  - destruct Hpz as (_ & Hn & _). unfold GetWatcher, enter_set. rewrite Hn. by do 2 eexists.
Qed.

(** ** Witnesses *)

Definition ex_instance : instance := mkInstance "a" "svc" "v" None [].

(** One watcher of a service whose first query succeeds. *)
Definition ex_watched : Registry * gset nat :=
  let '(x, r) := GetWatcher None "svc" (Ok ([ex_instance], 1)) NewConsulRegistry in
  (r, match x with Ok wid => {[ wid ]} ∪ ∅ | Err _ => ∅ end).

Lemma ex_watched_reach : rreach (NewConsulRegistry, ∅) ex_watched.
Proof. eapply rr_next; [apply rr_start|]. apply (r_watch "svc" (Ok ([ex_instance], 1)) NewConsulRegistry ∅). Qed.

Lemma update_delivered_witness : exists r',
  Next 1%nat (watch_tick 0%nat (Ok ([ex_instance; ex_instance], 2)) ex_watched.1) = Some ([ex_instance; ex_instance], r').
Proof.
  eapply (update_delivered ex_watched 0%nat _ 1 [ex_instance; ex_instance] 2 1%nat);
    [apply ex_watched_reach|reflexivity|reflexivity|discriminate|discriminate|reflexivity|reflexivity|reflexivity].
Defined.

Lemma failed_query_poisons_witness : exists r',
  GetWatcher None "svc" (Err "timeout") NewConsulRegistry = (Err "timeout", r') /\
  forall z, rreach (r', ∅) z ->
    (forall wid v, watchers z.1 !! wid = Some v -> registry z.1 !! "svc" = Some (w_set v) -> Next wid z.1 = None) /\
    (exists wid r'', forall answer, GetWatcher None "svc" answer z.1 = (Ok wid, r'')).
Proof.
  apply (failed_query_poisons (NewConsulRegistry, ∅) "svc" "timeout"); [apply rr_start|reflexivity].
Defined.

End ConsulRegistry.
