(* ===== verification/RegistryCalls.v ===== *)
(** * Overlapping calls of the Consul registry: src/infra/discovery/consul (registry.go, service.go, watcher.go)

    [GetWatcher] and [Stop] take the lock of the registry and the lock of a set one after the other, and the
    first query of a set runs without a lock.  Here each section under a lock, and each access without one, is a step, and the
    calls of any number of goroutines interleave; run without interruption the sections are the functions of
    ConsulRegistry.v ([GetWatcher_sections], [Stop_sections]). *)
From stdpp Require Import prelude strings list gmap.
From Stdlib Require Import ZArith Lia.
From S2P Require Import Prelude Resolver Consul ConsulRegistry.

Local Open Scope Z_scope.

Module RegistryCalls.
Import Consul ConsulRegistry.

(** ** The sections *)

(** The new watcher put into the map of the set. *)
Definition attach_watcher (sid : nat) (r : Registry) : nat * Registry :=
  let wid := next_id r in
  (wid, set_all (registry r) (alter (add_watcher wid) sid (sets r)) (<[wid := mkW false sid false]> (watchers r)) (S wid) r).

(** The signal for a set that has instances already. *)
Definition check_ready (sid wid : nat) (r : Registry) : Registry :=
  match sets r !! sid with
  | Some ss =>
      if nonempty (default [] (ss_services ss))
      then set_all (registry r) (sets r) (alter signal wid (watchers r)) (next_id r) r else r
  | None => r
  end.

(** The two parts of [broadcast]. *)
Definition store (sid : nat) (si : list instance) (r : Registry) : Registry :=
  set_all (registry r) (alter (store_services si) sid (sets r)) (watchers r) (next_id r) r.
Definition signal_watchers (sid : nat) (r : Registry) : Registry :=
  match sets r !! sid with
  | Some ss => set_all (registry r) (sets r) (signal_all (ss_watcher ss) (watchers r)) (next_id r) r
  | None => r
  end.

(** The start of [Stop]: [None] when the watcher was stopped before.  The field [cancel] has no lock: two calls of [Stop] of one
    watcher are taken not to overlap here. *)
Definition mark_stopped (wid : nat) (r : Registry) : option (nat * Registry) :=
  match watchers r !! wid with
  | Some w =>
      if w_stopped w then None
      else Some (w_set w, set_all (registry r) (sets r) (<[wid := mkW (w_event w) (w_set w) true]> (watchers r)) (next_id r) r)
  | None => None
  end.

(** The section of [serviceSet.delete] under the lock of the set. *)
Definition detach (sid wid : nat) (r : Registry) : Registry :=
  set_all (registry r) (alter (del_watcher wid) sid (sets r)) (watchers r) (next_id r) r.

(** ** Calls under way *)

(** Where a goroutine is: in [GetWatcher] of a set that was [known] or not, in the broadcast of a set's goroutine, in [Stop]. *)
Inductive call :=
| Attach (sid : nat) (known : bool)
| Ready (sid wid : nat) (known : bool)
| Query (sid wid : nat)
| SignalFirst (sid wid : nat) (idx : Z)
| SignalTick (sid : nat)
| Detach (sid wid : nat)
| Release (sid : nat).

(** The next section of a call: where it is then, the watcher it returns when it ends with one, and the registry.  [answer] is
    that of the client, for a query. *)
Definition turn (answer : res string (list instance * Z)) (c : call) (r : Registry) : option call * option nat * Registry :=
  match c with
  | Attach sid known => let '(wid, r) := attach_watcher sid r in (Some (Ready sid wid known), None, r)
  | Ready sid wid known =>
      let r := check_ready sid wid r in
      if known then (None, Some wid, r) else (Some (Query sid wid), None, r)
  | Query sid wid =>
      match answer with
      | Err _ => (None, None, r)
      | Ok (services, idx) =>
          if nonempty services then (Some (SignalFirst sid wid idx), None, store sid services r)
          else (None, Some wid, start_watch sid idx r)
      end
  | SignalFirst sid wid idx => (None, Some wid, start_watch sid idx (signal_watchers sid r))
  | SignalTick sid => (None, None, signal_watchers sid r)
  | Detach sid wid => (Some (Release sid), None, detach sid wid r)
  | Release sid => (None, None, tryDelete sid r)
  end.





(** ** The sections without interruption *)

Lemma attach_sections sid r : attach sid r = let '(wid, r) := attach_watcher sid r in (wid, check_ready sid wid r).
Proof.
  unfold attach, attach_watcher, check_ready. cbn [sets set_all]. rewrite lookup_alter_eq.
  destruct (sets r !! sid) as [ss|]; simpl; [|done]. destruct (nonempty _); [|done].
  unfold set_all. cbn. do 2 f_equal. apply map_eq. intros i. destruct (decide (i = next_id r)) as [->|Hi].
  - by rewrite lookup_alter_eq, !lookup_insert_eq.
  - by rewrite lookup_alter_ne, !lookup_insert_ne by done.
Qed.

Lemma broadcast_sections sid si r : broadcast sid si r = signal_watchers sid (store sid si r).
Proof.
  unfold broadcast, signal_watchers, store. cbn [sets set_all]. rewrite lookup_alter_eq.
  destruct (sets r !! sid) as [ss|] eqn:E; simpl.
  - unfold set_all. cbn. f_equal. apply map_eq. intros i. destruct (decide (i = sid)) as [->|Hi].
    + by rewrite lookup_insert_eq, lookup_alter_eq, E.
    + by rewrite lookup_insert_ne, lookup_alter_ne by done.
  - unfold set_all. cbn. destruct r; cbn in *. f_equal. apply map_eq. intros i.
    destruct (decide (i = sid)) as [->|Hi]; [by rewrite lookup_alter_eq, E|by rewrite lookup_alter_ne].
Qed.

(** The turns of one call, with the answer of its query, until it ends. *)
Fixpoint alone (fuel : nat) (answer : res string (list instance * Z)) (c : call) (r : Registry) : option (option nat * Registry) :=
  match fuel with
  | O => None
  | S fuel =>
      match turn answer c r with
      | (Some c, _, r) => alone fuel answer c r
      | (None, w, r) => Some (w, r)
      end
  end.

(** [GetWatcher] and [Stop] are their sections, run by one goroutine alone. *)
Lemma GetWatcher_sections name answer r :
  (let '(known, sid, r) := enter_set name r in alone 4 answer (Attach sid known) r) =
  let '(x, r') := GetWatcher None name answer r in
  Some (match x with Ok wid => Some wid | Err _ => None end, r').
Proof.
  unfold GetWatcher. destruct (enter_set name r) as [[known sid] r1]. rewrite attach_sections.
  cbn [alone turn]. destruct (attach_watcher sid r1) as [wid r2]. destruct known; [done|]. cbn [alone turn].
  unfold resolve. destruct answer as [[services idx]|e]; [|done]. destruct (nonempty services); [|done].
  by rewrite broadcast_sections.
Qed.

Lemma Stop_sections wid answer r :
  Stop wid r = match mark_stopped wid r with
               | Some (sid, r) => default r (snd <$> alone 2 answer (Detach sid wid) r)
               | None => r
               end.
Proof. unfold Stop, mark_stopped. destruct (watchers r !! wid) as [w|]; [|done]. by destruct (w_stopped w). Qed.

(** ** The invariant *)










(** *** [GetWatcher] *)




(** *** [Stop] *)




(** *** The steps *)















(** ** Properties *)


(** ** Witness *)




End RegistryCalls.
