(* ===== verification/Discovery.v ===== *)
(** * From a registration to the connection that dials it

    The path of an address through the discovery packages: a process registers itself
    (src/infra/discovery/consul/client.go), the agent keeps the registration, the registry of
    another process lists the service and tells its watchers (registry.go, watcher.go), and
    the resolver of a gRPC client turns the instances into addresses
    (src/infra/transport/gRPC/resolver/discovery).  The definitions are those of Consul.v,
    ConsulRegistry.v and Resolver.v; here they are put together.  url.Parse is one parameter
    for both sides, and the agent keeps what it is given, beside addresses of its own. *)
From stdpp Require Import prelude strings list gmap.
From Stdlib Require Import ZArith Lia.
From S2P Require Import Prelude Consistent Resolver Consul ConsulRegistry.

Local Open Scope Z_scope.

Module Discovery.
Import Consul.

Section Path.
(** url.Parse: the scheme, [Hostname], [Port] and the host of a URL. *)
Context (parse : string -> res string (string * string * string * string)).
Context (order : gmap string ServiceAddress -> list (string * ServiceAddress)).
Hypothesis order_fair : forall m, order m ≡ₚ map_to_list m.
Context (publish : AgentServiceRegistration -> AgentService).
Hypothesis publish_keeps : agent_stores publish.

(** What each side reads of a URL. *)
Definition consul_url (e : string) : res string (string * string * string) :=
  match parse e with Ok (s, h, p, _) => Ok (s, h, p) | Err err => Err err end.
Definition resolver_url (e : string) : res string (string * string) :=
  match parse e with Ok (s, _, _, host) => Ok (s, host) | Err err => Err err end.

(** An instance that survives the agent: its endpoints parse, each with a scheme of its own
    that is not one of the agent's. *)
Definition sound (svc : instance) : Prop :=
  Forall (fun e => is_Ok (consul_url e)) (i_Endpoints svc) /\
  NoDup (scheme_of consul_url <$> i_Endpoints svc) /\
  (forall e, e ∈ i_Endpoints svc -> scheme_of consul_url e ∉ EndpointSchemes).

(** The address of the gRPC endpoint of an instance, for the resolver [r]. *)
Definition serves (r : Resolver.discoveryResolver) (svc : instance) (addr : string) : Prop :=
  exists e, e ∈ i_Endpoints svc /\
    resolver_url e = Ok (Resolver.Scheme "grpc" (negb (Resolver.insecure r)), addr) /\ addr <> "".

(** Some process has registered the instance. *)
Definition registered (svc : instance) (a : AgentServiceRegistration) : Prop :=
  exists c checks, registration consul_url c svc checks = Ok a.

(** What the client of a registry lists for registrations. *)
Definition listed (rs : list AgentServiceRegistration) : list instance := defaultResolver order (publish <$> rs).

(** The instances a watcher returns, as the resolver gets them. *)
Definition received (ins : list instance) : list Resolver.ServiceInstance := to_resolver <$> ins.

(** ** Lemmas *)

Lemma scheme_resolver e s h : resolver_url e = Ok (s, h) -> scheme_of consul_url e = s.
Proof. unfold resolver_url, scheme_of, consul_url. destruct (parse e) as [[[[? ?] ?] ?]|]; [|done]. by intros [= -> ->]. Qed.

(** The endpoint of a scheme does not depend on the order of the endpoints. *)
Lemma ParseEndpoint_unique es e s h : Forall (fun e => is_Ok (consul_url e)) es -> NoDup (scheme_of consul_url <$> es) ->
  e ∈ es -> resolver_url e = Ok (s, h) -> Resolver.ParseEndpoint resolver_url es s = Ok h.
Proof.
  induction es as [|x es IH]; intros Hok Hnd He Hu; [by apply elem_of_nil in He|].
  apply Forall_cons in Hok as [Hx Hok]. rewrite fmap_cons in Hnd. apply NoDup_cons in Hnd as [Hx' Hnd].
  cbn [Resolver.ParseEndpoint]. destruct (resolver_url x) as [[sx hx]|err] eqn:Ex.
  - pose proof (scheme_resolver _ _ _ Ex) as Hsx. apply elem_of_cons in He as [->|He].
    + rewrite Ex in Hu. injection Hu as -> ->. by rewrite decide_True.
    + rewrite decide_False; [by apply IH|]. intros ->. apply Hx'. rewrite Hsx, <- (scheme_resolver _ _ _ Hu). by apply list_elem_of_fmap_2.
  - exfalso. unfold resolver_url in Ex. unfold consul_url in Hx. destruct (parse x) as [[[[? ?] ?] ?]|]; [discriminate Ex|]. by destruct Hx.
Qed.

(** What is listed for a registration has the endpoints of the instance, up to order. *)
Lemma listed_endpoints svc a : sound svc -> i_Endpoints svc <> [] -> registered svc a ->
  exists i, listed [a] = [i] /\ i_Name i = i_Name svc /\ i_Endpoints i ≡ₚ i_Endpoints svc.
Proof.
  intros (Hok & Hnd & Hs) Hne (c & checks & Hr). unfold registration, buildRegistration in Hr.
  rewrite endpoint_loop_ok in Hr by done. cbn [res_bind] in Hr.
  destruct (match _ ++ _ with [] => _ | _ => _ end) as [host port]. cbn [res_bind] in Hr. injection Hr as <-.
  match goal with |- context [listed [?r]] => destruct (publish_keeps r) as (H1 & H2 & H3 & H4 & H5 & H6 & H7) end.
  eexists. split; [reflexivity|]. cbn [i_Name i_Endpoints]. rewrite H2, H6, H7. simpl. split; [done|].
  by eapply resolved_endpoints.
Qed.

Lemma listed_cons a rs : listed (a :: rs) = listed [a] ++ listed rs.
Proof. done. Qed.

(** The instances that are listed, one by one: name and gRPC endpoint. *)
Lemma listed_serve r svcs rs addrs : Forall sound svcs -> Forall2 registered svcs rs -> Forall2 (serves r) svcs addrs ->
  Forall2 (fun i '(name, addr) => Resolver.Name i = name /\ Resolver.endpoint_of resolver_url r i = Ok addr /\ addr <> "")
    (received (listed rs)) (zip (i_Name <$> svcs) addrs).
Proof.
  intros Hs Hr. revert addrs. induction Hr as [|svc a svcs rs Ha Hr IH]; intros addrs Hserve.
  { apply Forall2_nil_inv_l in Hserve as ->. constructor. }
  apply Forall2_cons_inv_l in Hserve as (addr & addrs' & (e & He & Hu & Hne) & Hserve & ->).
  apply Forall_cons in Hs as [Hsvc Hs].
  destruct (listed_endpoints svc a Hsvc) as (i & Hi & Hn & Hp); [by intros E; rewrite E in He; apply elem_of_nil in He|done|].
  rewrite listed_cons, Hi. rewrite fmap_cons. simpl. constructor; [|by apply IH].
  split; [by rewrite <- Hn|]. split; [|done]. unfold Resolver.endpoint_of. simpl. destruct Hsvc as (Hok & Hnd & _).
  eapply ParseEndpoint_unique; [| |by rewrite Hp|exact Hu].
  - by rewrite Hp.
  - by rewrite Hp.
Qed.

(** Nothing is filtered out when the endpoints differ. *)
Lemma filter_keeps r ins addrs : forall eps acc,
  Forall2 (fun i addr => Resolver.endpoint_of resolver_url r i = Ok addr /\ addr <> "") ins addrs -> NoDup addrs ->
  (forall addr, addr ∈ addrs -> addr ∉ eps) ->
  snd (Resolver.filter_loop resolver_url r ins eps acc) = acc ++ ins.
Proof.
  intros eps acc H. revert eps acc. induction H as [|i addr ins addrs [He Hne] H IH]; intros eps acc Hnd Hfresh; [by rewrite app_nil_r|].
  apply NoDup_cons in Hnd as [Hn Hnd]. cbn [Resolver.filter_loop]. rewrite He, decide_False by done.
  rewrite decide_False by (apply Hfresh; by left). rewrite IH; [by rewrite <- app_assoc|done|].
  intros x Hx. apply not_elem_of_union. split; [|by apply Hfresh; right]. rewrite elem_of_singleton. intros ->. done.
Qed.

(** The addresses of the instances that are listed. *)
Lemma listed_addresses r svcs rs addrs fuel : Forall sound svcs -> Forall2 registered svcs rs -> Forall2 (serves r) svcs addrs ->
  NoDup addrs -> Resolver.subsetSize r = 0 \/ Z.of_nat (length svcs) <= Resolver.subsetSize r ->
  exists l, Resolver.update resolver_url fuel r (received (listed rs)) = Some (Ret l) /\
    Resolver.Addr <$> l = addrs /\ Resolver.ServerName <$> l = i_Name <$> svcs.
Proof.
  intros Hs Hr Hserve Hnd Hsize. pose proof (listed_serve r svcs rs addrs Hs Hr Hserve) as Hl.
  pose proof (Forall2_length _ _ _ Hserve) as Hlen.
  assert (Forall2 (fun i addr => Resolver.endpoint_of resolver_url r i = Ok addr /\ addr <> "") (received (listed rs)) addrs) as Hept.
  { assert (addrs = (zip (i_Name <$> svcs) addrs).*2) as -> by (rewrite snd_zip; [done|rewrite length_fmap; lia]).
    apply Forall2_fmap_r. eapply Forall2_impl; [exact Hl|]. by intros i [n a] (_ & ? & ?). }
  unfold Resolver.update, Resolver.filterEndpoints.
  pose proof (filter_keeps r _ _ ∅ [] Hept Hnd ltac:(by intros ? ? ?%elem_of_empty)) as Hf.
  destruct (Resolver.filter_loop resolver_url r (received (listed rs)) ∅ []) as [eps filtered]. cbn [snd app] in Hf. subst filtered.
  exists (Resolver.mapToAddresses resolver_url r (received (listed rs))). split.
  - destruct (Z.eqb_spec (Resolver.subsetSize r) 0); [done|]. unfold Consistent.Subset.
    assert (length (received (listed rs)) = length svcs) as El by (apply Forall2_length in Hept; lia).
    rewrite El. destruct (Z.leb_spec (Z.of_nat (length svcs)) (Resolver.subsetSize r)); [done|lia].
  - unfold Resolver.mapToAddresses. clear Hept. revert addrs Hserve Hnd Hlen Hl. generalize (received (listed rs)). clear.
    induction svcs as [|svc svcs IH]; intros ins addrs Hserve Hnd Hlen Hl.
    { apply Forall2_nil_inv_l in Hserve as ->. apply Forall2_nil_inv_r in Hl as ->. done. }
    apply Forall2_cons_inv_l in Hserve as (addr & addrs' & _ & Hserve & ->). simpl in Hl.
    apply Forall2_cons_inv_r in Hl as (i & ins' & (Hn & He & _) & Hl & ->). apply NoDup_cons in Hnd as [_ Hnd].
    destruct (IH ins' addrs' Hserve Hnd ltac:(simpl in Hlen; lia) Hl) as [H1 H2].
    rewrite map_cons, !fmap_cons, H1, H2. simpl. by rewrite He, Hn.
Qed.

(** A watcher that is told of instances returns them. *)
Lemma told_returns sid w ss last ins idx reg : ConsulRegistry.sets reg !! sid = Some ss ->
  w ∈ ConsulRegistry.ss_watcher ss -> (exists x, ConsulRegistry.watchers reg !! w = Some x /\ ConsulRegistry.w_set x = sid) ->
  ConsulRegistry.ss_watching ss = Some last -> idx <> last -> ins <> [] ->
  exists reg', ConsulRegistry.Next w (ConsulRegistry.watch_tick sid (Ok (ins, idx)) reg) = Some (ins, reg').
Proof.
  intros Hss Hw (x & Hx & Hset) Hlast Hidx Hne. unfold ConsulRegistry.watch_tick. rewrite Hss, Hlast.
  assert (ConsulRegistry.nonempty ins && negb (idx =? last) = true) as ->
    by (destruct ins; [done|]; simpl; by destruct (Z.eqb_spec idx last)).
  unfold ConsulRegistry.broadcast. rewrite Hss. unfold ConsulRegistry.start_watch, ConsulRegistry.Next. simpl.
  unfold ConsulRegistry.signal_all. rewrite map_lookup_imap, Hx. simpl. rewrite decide_True by done. simpl.
  rewrite Hset, lookup_alter_eq, lookup_insert_eq. simpl. by eexists.
Qed.

(** ** Properties *)

(** C13: what processes have registered is what a client dials: a resolver
    built on a new registry gets from its watcher, at once,
    instances whose addresses are those of the gRPC endpoints of the registered processes, in
    the order in which the agent lists them, under the names they were registered with, whatever tagged addresses of
    its own the agent has added to them.  This holds
    for endpoints that survive the agent, distinct gRPC addresses, and no more instances than
    the resolver keeps. *)
Theorem registered_is_dialled r name idx svcs rs addrs fuel : svcs <> [] ->
  Forall sound svcs -> Forall2 registered svcs rs -> Forall2 (serves r) svcs addrs ->
  NoDup addrs -> Resolver.subsetSize r = 0 \/ Z.of_nat (length svcs) <= Resolver.subsetSize r ->
  exists w reg ins reg' l,
    ConsulRegistry.GetWatcher None name (Ok (listed rs, idx)) ConsulRegistry.NewConsulRegistry = (Ok w, reg) /\
    ConsulRegistry.Next w reg = Some (ins, reg') /\
    Resolver.update resolver_url fuel r (received ins) = Some (Ret l) /\
    Resolver.Addr <$> l = addrs /\ Resolver.ServerName <$> l = i_Name <$> svcs.
Proof.
  intros Hne Hs Hr Hserve Hnd Hsize. destruct (listed_addresses r svcs rs addrs fuel Hs Hr Hserve Hnd Hsize) as (l & Hu & Hl).
  assert (ConsulRegistry.nonempty (listed rs) = true) as Hn.
  { destruct rs as [|a rs]; [|done]. by apply Forall2_nil_inv_r in Hr. }
  eexists _, _, (listed rs), _, l. split; [|split; [|by split]].
  - unfold ConsulRegistry.GetWatcher, ConsulRegistry.enter_set. simpl. rewrite Hn. reflexivity.
  - unfold ConsulRegistry.Next, ConsulRegistry.broadcast. simpl. rewrite lookup_alter_eq, lookup_insert_eq. simpl.
    unfold ConsulRegistry.signal_all. rewrite map_lookup_imap, lookup_insert_eq. simpl. rewrite decide_True by set_solver. simpl.
    rewrite lookup_alter_eq, lookup_insert_eq. simpl. reflexivity.
Qed.

(** A change of the registrations reaches the connection: when the agent lists other
    registrations under a new index, every watcher of the service, whatever it had seen, gets
    from its next call instances whose addresses are those of the processes registered
    now. *)
Theorem change_is_dialled r sid ss w last idx reg svcs rs addrs fuel :
  ConsulRegistry.sets reg !! sid = Some ss -> w ∈ ConsulRegistry.ss_watcher ss ->
  (exists x, ConsulRegistry.watchers reg !! w = Some x /\ ConsulRegistry.w_set x = sid) ->
  ConsulRegistry.ss_watching ss = Some last -> idx <> last -> svcs <> [] ->
  Forall sound svcs -> Forall2 registered svcs rs -> Forall2 (serves r) svcs addrs ->
  NoDup addrs -> Resolver.subsetSize r = 0 \/ Z.of_nat (length svcs) <= Resolver.subsetSize r ->
  exists ins reg' l, ConsulRegistry.Next w (ConsulRegistry.watch_tick sid (Ok (listed rs, idx)) reg) = Some (ins, reg') /\
    Resolver.update resolver_url fuel r (received ins) = Some (Ret l) /\
    Resolver.Addr <$> l = addrs /\ Resolver.ServerName <$> l = i_Name <$> svcs.
Proof.
  intros Hss Hw Hx Hlast Hidx Hne Hs Hr Hserve Hnd Hsize.
  destruct (listed_addresses r svcs rs addrs fuel Hs Hr Hserve Hnd Hsize) as (l & Hu & Hl).
  destruct (told_returns sid w ss last (listed rs) idx reg Hss Hw Hx Hlast Hidx) as (reg' & Hn); [|by exists (listed rs), reg', l].
  destruct rs as [|a rs]; [|done]. by apply Forall2_nil_inv_r in Hr.
Qed.

End Path.

(** ** Witnesses: two processes *)

Definition demo_url (s : string) : res string (string * string * string * string) :=
  match demo_parse s with
  | Ok (scheme, h, p) => Ok (scheme, h, p, h +:+ ":" +:+ p)
  | Err e => Err e
  end.

Definition second_instance : instance := mkInstance "b@host" "accounts" "v1.2" None ["grpc://10.0.0.6:8080"].
Definition demo_services : list instance := [demo_instance; second_instance].
Definition asr_of (svc : instance) : AgentServiceRegistration :=
  match registration (consul_url demo_url) demo_client svc true with Ok a => a | Err _ => mkASR "" "" None [] ∅ "" 0 [] end.
Definition demo_resolver : Resolver.discoveryResolver := Resolver.mkRes true 25 "key".
Definition demo_addrs : list string := ["10.0.0.5:8080"; "10.0.0.6:8080"].

Lemma demo_sound : Forall (sound demo_url) demo_services.
Proof.
  repeat constructor; try (by apply (bool_decide_unpack _)); try (by eexists); intros e He;
    (apply (bool_decide_unpack _)); repeat (apply elem_of_cons in He as [->|He]; [reflexivity|]); by apply elem_of_nil in He.
Qed.

Lemma demo_registered : Forall2 (registered demo_url) demo_services (asr_of <$> demo_services).
Proof. repeat constructor; exists demo_client, true; reflexivity. Qed.

Lemma demo_serves : Forall2 (serves demo_url demo_resolver) demo_services demo_addrs.
Proof.
  repeat constructor; [exists "grpc://10.0.0.5:8080"|exists "grpc://10.0.0.6:8080"]; (split; [by left|]); by split.
Qed.

Lemma registered_is_dialled_witness : exists w reg ins reg' l,
  ConsulRegistry.GetWatcher None "accounts" (Ok (listed map_to_list demo_publish (asr_of <$> demo_services), 7)) ConsulRegistry.NewConsulRegistry = (Ok w, reg) /\
  ConsulRegistry.Next w reg = Some (ins, reg') /\
  Resolver.update (resolver_url demo_url) 1 demo_resolver (received ins) = Some (Ret l) /\
  Resolver.Addr <$> l = demo_addrs /\ Resolver.ServerName <$> l = ["accounts"; "accounts"].
Proof.
  apply (registered_is_dialled demo_url map_to_list (fun m => Permutation_refl _) demo_publish demo_publish_stores
    demo_resolver "accounts" 7 demo_services (asr_of <$> demo_services) demo_addrs 1 ltac:(discriminate)
    demo_sound demo_registered demo_serves).
  - by apply (bool_decide_unpack _).
  - right. vm_compute. discriminate.
Defined.

Definition demo_registry : ConsulRegistry.Registry :=
  (ConsulRegistry.GetWatcher None "accounts" (Ok ([], 3)) ConsulRegistry.NewConsulRegistry).2.

Lemma change_is_dialled_witness : exists ins reg' l,
  ConsulRegistry.Next 1 (ConsulRegistry.watch_tick 0 (Ok (listed map_to_list demo_publish (asr_of <$> demo_services), 4)) demo_registry) = Some (ins, reg') /\
  Resolver.update (resolver_url demo_url) 1 demo_resolver (received ins) = Some (Ret l) /\ Resolver.Addr <$> l = demo_addrs.
Proof.
  destruct (change_is_dialled demo_url map_to_list (fun m => Permutation_refl _) demo_publish demo_publish_stores
    demo_resolver 0 (ConsulRegistry.mkSet "accounts" {[1%nat]} 1 None false (Some 3)) 1 3 4 demo_registry
    demo_services (asr_of <$> demo_services) demo_addrs 1) as (ins & reg' & l & H1 & H2 & H3 & _).
  - vm_compute. reflexivity.
  - cbn [ConsulRegistry.ss_watcher]. by apply elem_of_singleton.
  - eexists. split; [vm_compute; reflexivity|reflexivity].
  - reflexivity.
  - discriminate.
  - discriminate.
  - exact demo_sound.
  - exact demo_registered.
  - exact demo_serves.
  - by apply (bool_decide_unpack _).
  - right. vm_compute. discriminate.
  - by exists ins, reg', l.
Defined.

End Discovery.
