(* ===== verification/ResolverBuild.v ===== *)
(** * Building and running a resolver: src/infra/transport/gRPC/resolver/discovery
    (builder.go, resolver.go)

    [Build] races the call of [GetWatcher] against a timer; [watch] is the goroutine that turns
    the instances of the watcher into addresses until [Close].  Both are step relations
    over the registry of [ConsulRegistry], which provides the watchers. *)
From stdpp Require Import prelude strings list gmap.
From Stdlib Require Import ZArith Lia Ascii.
From S2P Require Import Prelude Consistent Resolver Consul ConsulRegistry.

Local Open Scope Z_scope.

Module ResolverBuild.
Import Resolver.

(** ** The builder *)

Record builder := mkBuilder {
  b_timeout : Z;
  b_insecure : bool;
  b_subsetSize : Z;
  b_debugLog : bool
}.

Definition Option_ := builder -> builder.
Definition WithTimeout (t : Z) : Option_ := fun b => mkBuilder t (b_insecure b) (b_subsetSize b) (b_debugLog b).
Definition WithInsecure (v : bool) : Option_ := fun b => mkBuilder (b_timeout b) v (b_subsetSize b) (b_debugLog b).
Definition WithSubset (size : Z) : Option_ := fun b => mkBuilder (b_timeout b) (b_insecure b) size (b_debugLog b).
Definition PrintDebugLog (p : bool) : Option_ := fun b => mkBuilder (b_timeout b) (b_insecure b) (b_subsetSize b) p.

Definition NewBuilder (options : list Option_) : builder :=
  foldl (fun b (o : Option_) => o b) (mkBuilder 10000000000 false 25 true) options.

Definition Scheme : string := "discovery".
Definition ErrWatcherCreateTimeout : string := "discovery create watcher overtime".

(** [strings.TrimPrefix(path, "/")] *)
Definition service_of (path : string) : string :=
  match path with String "/"%char s => s | _ => path end.

(** A call of [Build]: whether the goroutine has called [GetWatcher] and what it returned,
    whether the timer has fired, whether the context is cancelled, and the result. *)
Record building := mkBuild {
  answer : option (res string nat);
  fired : bool;
  cancelled : bool;
  result : option (res string (discoveryResolver * nat))
}.

Definition build_start : building := mkBuild None false false None.

(** What follows the select of [Build]; [key] is the new uuid. *)
Definition finish (b : builder) (key : string) (r : res string nat) (s : building) : building :=
  match r with
  | Err e => mkBuild (answer s) (fired s) true (Some (Err e))
  | Ok w => mkBuild (answer s) (fired s) (cancelled s) (Some (Ok (mkRes (b_insecure b) (b_subsetSize b) key, w)))
  end.

(** The goroutine calls [GetWatcher], which looks at the context only when it
    is entered; the select takes a channel that is ready; without a timeout there is no timer. *)
Inductive bstep (b : builder) (key name : string) :
    building * ConsulRegistry.Registry -> building * ConsulRegistry.Registry -> Prop :=
| step_answer s ans reg r reg' : answer s = None ->
    ConsulRegistry.GetWatcher (if cancelled s then Some "context canceled" else None) name ans reg = (r, reg') ->
    bstep b key name (s, reg) (mkBuild (Some r) (fired s) (cancelled s) (result s), reg')
| step_fire s reg : 0 < b_timeout b -> bstep b key name (s, reg) (mkBuild (answer s) true (cancelled s) (result s), reg)
| step_done s r reg : result s = None -> answer s = Some r -> bstep b key name (s, reg) (finish b key r s, reg)
| step_timeout s reg : result s = None -> fired s = true -> 0 < b_timeout b ->
    bstep b key name (s, reg) (finish b key (Err ErrWatcherCreateTimeout) s, reg).

(** ** The resolver goroutine *)

(** Where [watch] is. *)
Inductive point := AtTop | InNext | Sleeping | Done.

(** [updates] are the lists of addresses given to the connection. *)
Record running := mkRunning {
  pc : point;
  ctx_done : bool;
  updates : list (list Address)
}.

(** What [Next] returns. *)
Inductive next_result := Instances (ins : list ServiceInstance) | Canceled | Failed (err : string).

Section Watch.
Context (url_parse : string -> res string (string * string)) (fuel : nat) (r : discoveryResolver).

(** The steps of the goroutine; [update] that panics or does not end has no step. *)
Inductive wstep : running -> running -> Prop :=
| watch_top s : pc s = AtTop -> wstep s (mkRunning (if ctx_done s then Done else InNext) (ctx_done s) (updates s))
| watch_update s ins addrs : pc s = InNext -> update url_parse fuel r ins = Some (Ret addrs) ->
    wstep s (mkRunning AtTop (ctx_done s) (updates s ++ [addrs]))
| watch_cancel s : pc s = InNext -> wstep s (mkRunning Done (ctx_done s) (updates s))
| watch_error s : pc s = InNext -> wstep s (mkRunning Sleeping (ctx_done s) (updates s))
| watch_wake s : pc s = Sleeping -> wstep s (mkRunning AtTop (ctx_done s) (updates s)).

(** [Close] cancels the context and stops the watcher. *)
Definition Close (w : nat) (s : running) (reg : ConsulRegistry.Registry) : running * ConsulRegistry.Registry :=
  (mkRunning (pc s) true (updates s), ConsulRegistry.Stop w reg).

(** The goroutine on a list of answers of [Next], as long as the resolver is open. *)
Fixpoint watch_run (answers : list next_result) (ups : list (list Address)) : option (point * list (list Address)) :=
  match answers with
  | [] => Some (InNext, ups)
  | Instances ins :: rest =>
      match update url_parse fuel r ins with
      | Some (Ret addrs) => watch_run rest (ups ++ [addrs])
      | _ => None
      end
  | Canceled :: _ => Some (Done, ups)
  | Failed _ :: rest => watch_run rest ups
  end.

(** How many steps a goroutine makes at most once its context is cancelled. *)
Definition steps_left (s : running) : nat :=
  match pc s with Done => 0 | AtTop => 1 | Sleeping => 2 | InNext => 3 end.

(** ** Lemmas *)

Lemma wstep_done s s' : wstep s s' -> ctx_done s' = ctx_done s /\
  (updates s' = updates s \/ pc s = InNext /\ pc s' = AtTop /\ exists a, updates s' = updates s ++ [a]).
Proof. destruct 1; simpl; split; try done; eauto 10. Qed.

(** ** Theorems *)

(** After [Close] the goroutine makes at most three more steps, at most one of them a
    last update of the connection, and it is never stuck except in [Next]. *)
Theorem watch_ends s s' : ctx_done s = true -> wstep s s' ->
  ctx_done s' = true /\ (steps_left s' < steps_left s)%nat /\
  (updates s' <> updates s -> steps_left s' = 1%nat).
Proof.
  intros Hd Hs. destruct Hs as [s Hp|s ins addrs Hp E|s Hp|s Hp|s Hp]; unfold steps_left; simpl; rewrite Hp, ?Hd; simpl;
    split; try done; split; try lia; done.
Qed.

(** The connection is given the addresses of every list of instances, in the order in which
    the watcher returned them; errors other than cancellation are skipped. *)
Theorem watch_updates answers ups : forall lists,
  Forall (fun a => match a with Canceled => False | _ => True end) answers ->
  omap (fun a => match a with Instances ins => Some ins | _ => None end) answers = lists ->
  Forall (fun ins => exists addrs, update url_parse fuel r ins = Some (Ret addrs)) lists ->
  exists new, watch_run answers ups = Some (InNext, ups ++ new) /\
    Forall2 (fun ins addrs => update url_parse fuel r ins = Some (Ret addrs)) lists new.
Proof.
  revert ups. induction answers as [|a answers IH]; intros ups lists Hc <- Hok.
  { exists []. rewrite app_nil_r. split; [done|constructor]. }
  apply Forall_cons in Hc as [Ha Hc]. destruct a as [ins| |e]; simpl in *; [|done|by apply IH].
  apply Forall_cons in Hok as [(addrs & E) Hok]. rewrite E.
  destruct (IH (ups ++ [addrs]) _ Hc eq_refl Hok) as (new & Hr & H2). exists (addrs :: new).
  rewrite Hr, <- app_assoc. split; [done|by constructor].
Qed.

End Watch.

(** What [Build] returns is the answer of [GetWatcher] or the timeout, and with an error
    the context is cancelled. *)
Definition build_inv (b : builder) (s : building) : Prop :=
  match result s with
  | None => True
  | Some (Ok (_, w)) => answer s = Some (Ok w)
  | Some (Err e) => cancelled s = true /\
      (answer s = Some (Err e) \/ e = ErrWatcherCreateTimeout /\ fired s = true /\ 0 < b_timeout b)
  end.

Lemma bstep_inv b key name x y : build_inv b x.1 -> bstep b key name x y -> build_inv b y.1.
Proof.
  intros Hi Hs. destruct Hs as [s ans reg r reg' Hn E|s reg Ht|s r reg Hn Ha|s reg Hn Hf Ht]; unfold build_inv in *; simpl in *.
  - destruct (result s) as [[[? w]|e]|]; [congruence| |done]. destruct Hi as [Hc [Ha|Ha]]; [congruence|]. auto.
  - destruct (result s) as [[[? w]|e]|]; [done| |done]. destruct Hi as [Hc [Ha|(-> & _ & _)]]; auto.
  - destruct r as [w|e]; simpl; [done|]. auto.
  - simpl. auto.
Qed.

(** [Build] returns the watcher that discovery gave it, the error of discovery, or, only
    with a timeout and only once it has elapsed, the timeout error; every error cancels the context.
    As long as it has not returned, an answer or an elapsed timeout lets it return. *)
Theorem build_returns b key name reg s reg' : runs (bstep b key name) (build_start, reg) (s, reg') ->
  (forall res w, result s = Some (Ok (res, w)) -> answer s = Some (Ok w)) /\
  (forall e, result s = Some (Err e) -> cancelled s = true /\
     (answer s = Some (Err e) \/ e = ErrWatcherCreateTimeout /\ fired s = true /\ 0 < b_timeout b)) /\
  (result s = None -> is_Some (answer s) \/ fired s = true /\ 0 < b_timeout b ->
     exists y, bstep b key name (s, reg') y /\ is_Some (result y.1)).
Proof.
  intros Hr. assert (build_inv b s) as Hi.
  { apply (runs_inv (bstep b key name) (fun x => build_inv b x.1) (build_start, reg) (s, reg')); [|done|done].
    intros x y. apply bstep_inv. }
  unfold build_inv in Hi. split; [intros res w E; by rewrite E in Hi|]. split; [intros e E; by rewrite E in Hi|].
  intros Hn [[a Ha]|[Hf Ht]].
  - exists (finish b key a s, reg'). split; [by apply step_done|]. destruct a; simpl; eauto.
  - exists (finish b key (Err ErrWatcherCreateTimeout) s, reg'). split; [by apply step_timeout|]. simpl. eauto.
Qed.

(** A watcher that is handed out is attached to a set of the registry. *)
Lemma handed_out name ans reg w reg' : ConsulRegistry.GetWatcher None name ans reg = (Ok w, reg') ->
  is_Some (ConsulRegistry.registry reg' !! name) /\
  exists x, ConsulRegistry.watchers reg' !! w = Some x /\ ConsulRegistry.w_stopped x = false.
Proof.
  unfold ConsulRegistry.GetWatcher. destruct (ConsulRegistry.enter_set name reg) as [[ok sid] r1] eqn:E1.
  assert (is_Some (ConsulRegistry.registry r1 !! name)) as Hreg.
  { unfold ConsulRegistry.enter_set in E1. destruct (ConsulRegistry.registry reg !! name) eqn:E; simplify_eq; simpl; [eauto|].
    rewrite lookup_insert_eq. eauto. }
  destruct (ConsulRegistry.attach sid r1) as [wid r2] eqn:E2. unfold ConsulRegistry.attach in E2. simplify_eq.
  set (r2 := ConsulRegistry.set_all _ _ _ _ _).
  assert (exists x, ConsulRegistry.watchers r2 !! ConsulRegistry.next_id r1 = Some x /\ ConsulRegistry.w_stopped x = false) as Hw.
  { simpl. rewrite lookup_insert_eq. eauto. }
  destruct ok; [intros [= <- <-]; by split|].
  destruct ans as [[services idx]|e]; simpl; [|done]. intros [= <- <-]. simpl.
  destruct (ConsulRegistry.nonempty services); [|by split].
  unfold ConsulRegistry.broadcast. destruct (ConsulRegistry.sets r2 !! sid) as [ss|]; [|by split]. simpl. split; [done|].
  destruct Hw as (x & Hx & Hst). unfold ConsulRegistry.signal_all. rewrite map_lookup_imap.
  change (<[_ := _]> (ConsulRegistry.watchers r1)) with (ConsulRegistry.watchers r2). rewrite Hx. simpl.
  eexists. split; [done|]. by case_decide.
Qed.

(** A watcher that discovery hands out after the timeout is lost: [Build] has returned an error,
    the watcher is attached to its set, which it keeps in the registry, and no later step of the
    call stops it. *)
Theorem late_watcher_lost b key path reg ans w reg' :
  0 < b_timeout b -> ConsulRegistry.GetWatcher None (service_of path) ans reg = (Ok w, reg') ->
  exists s, runs (bstep b key (service_of path)) (build_start, reg) (s, reg') /\
    result s = Some (Err ErrWatcherCreateTimeout) /\
    forall y, runs (bstep b key (service_of path)) (s, reg') y ->
      result y.1 = result s /\ is_Some (ConsulRegistry.registry y.2 !! service_of path) /\
      exists x, ConsulRegistry.watchers y.2 !! w = Some x /\ ConsulRegistry.w_stopped x = false.
Proof.
  intros Ht E. set (name := service_of path) in *. pose proof (handed_out _ _ _ _ _ E) as Hout.
  exists (mkBuild (Some (Ok w)) true true (Some (Err ErrWatcherCreateTimeout))). split; [|split; [done|]].
  - eapply runs_step; [|apply (step_timeout b key name (mkBuild (Some (Ok w)) true false None)); done].
    eapply runs_step; [|apply (step_answer b key name (mkBuild None true false None) ans reg (Ok w) reg'); done].
    eapply runs_step; [apply runs_refl|apply (step_fire b key name build_start); done].
  - intros y Hy.
    apply (runs_inv (bstep b key name) (fun y => y.2 = reg' /\ result y.1 = Some (Err ErrWatcherCreateTimeout) /\ is_Some (answer y.1))
             (mkBuild (Some (Ok w)) true true (Some (Err ErrWatcherCreateTimeout)), reg') y) in Hy as (-> & ? & _); [by split| |by eauto].
    intros x z (Hx & Hr & [a Ha]) Hs. destruct Hs as [s ans' r0 r1 r2 Hn _|s r0 _|s r0 r1 Hn _|s r0 Hn _ _]; simpl in *; try congruence. eauto.
Qed.

(** ** Witnesses *)

Definition demo_resolver : discoveryResolver := mkRes true 0 "key".
Definition demo_parse (s : string) : res string (string * string) := Ok ("grpc", s).

Lemma watch_ends_witness :
  let s := mkRunning InNext true [] in
  exists s', wstep demo_parse 1 demo_resolver s s' /\ (steps_left s' < steps_left s)%nat.
Proof.
  intros s. exists (mkRunning AtTop true [[]]). assert (wstep demo_parse 1 demo_resolver s (mkRunning AtTop true [[]])) as Hs.
  { apply (watch_update demo_parse 1 demo_resolver s [] []); reflexivity. }
  split; [exact Hs|]. apply (watch_ends demo_parse 1 demo_resolver s _ eq_refl Hs).
Defined.

Lemma watch_updates_witness : exists new,
  watch_run demo_parse 1 demo_resolver [Failed "timeout"; Instances []] [] = Some (InNext, [] ++ new) /\ length new = 1%nat.
Proof.
  destruct (watch_updates demo_parse 1 demo_resolver [Failed "timeout"; Instances []] [] [[]]) as (new & H & H2).
  - repeat constructor.
  - reflexivity.
  - repeat constructor. exists []. reflexivity.
  - exists new. split; [exact H|]. apply Forall2_length in H2. simpl in H2. congruence.
Defined.

Lemma build_returns_witness :
  let b := NewBuilder [WithTimeout 5] in
  let s := mkBuild None true false None in
  exists y, bstep b "key" "svc" (s, ConsulRegistry.NewConsulRegistry) y /\ is_Some (result y.1).
Proof.
  intros b s. destruct (build_returns b "key" "svc" ConsulRegistry.NewConsulRegistry s ConsulRegistry.NewConsulRegistry) as (_ & _ & H).
  - eapply runs_step; [apply runs_refl|]. apply (step_fire b "key" "svc" build_start). reflexivity.
  - apply H; [reflexivity|]. right. split; reflexivity.
Defined.

Lemma late_watcher_lost_witness :
  let b := NewBuilder [] in
  let '(_, reg') := ConsulRegistry.GetWatcher None "svc" (Ok ([], 3)) ConsulRegistry.NewConsulRegistry in
  exists s, runs (bstep b "key" (service_of "/svc")) (build_start, ConsulRegistry.NewConsulRegistry) (s, reg') /\
    result s = Some (Err ErrWatcherCreateTimeout).
Proof.
  destruct (ConsulRegistry.GetWatcher None "svc" (Ok ([], 3)) ConsulRegistry.NewConsulRegistry) as [r reg'] eqn:E.
  destruct (late_watcher_lost (NewBuilder []) "key" "/svc" ConsulRegistry.NewConsulRegistry (Ok ([], 3)) 1%nat reg') as (s & H1 & H2 & _).
  - reflexivity.
  - change (service_of "/svc") with "svc". rewrite E. f_equal. vm_compute in E. congruence.
  - exists s. split; [exact H1|exact H2].
Defined.

End ResolverBuild.
