(* ===== verification/ConsulHeartbeat.v ===== *)
(** * Consul heartbeats: src/infra/discovery/consul/client.go (Register, Deregister)

    A registered service has a goroutine that refreshes its TTL check and registers it
    again when that fails; a canceler per service stops it.  The calls of the client, the
    heartbeats and the goroutines that remove cancelers are interleaved at the accesses to
    the table of cancelers, at the waits and at the requests to the agent. *)
From stdpp Require Import prelude strings list gmap.
From Stdlib Require Import Lia.
From S2P Require Import Prelude.

Module ConsulHeartbeat.

(** A canceler: whether it has been cancelled, whether its channel [done] is closed and
    whether the goroutine of [startHeartbeat] runs. *)
Record canceler := mkCC { cc_id : string; cc_cancelled : bool; cc_done : bool; beating : bool }.

(** The table of the client, the cancelers made so far and the services the agent has. *)
Record client := mkClient { cancelers : gmap string nat; ccs : list canceler; agent : gset string }.

(** Where a call of [Register] or [Deregister] is. *)
Inductive pc :=
| R_prepare (id : string) | R_wait (id : string) (k : nat) | R_store (id : string)
| R_register (id : string) (k : nat) | R_beat (id : string) (k : nat)
| D_start (id : string) | D_wait (id : string) (k : nat) | D_call (id : string).

Definition pc_id (p : pc) : string :=
  match p with
  | R_prepare id | R_wait id _ | R_store id | R_register id _ | R_beat id _
  | D_start id | D_wait id _ | D_call id => id
  end.

Definition set_cc (f : canceler -> canceler) (k : nat) (s : client) : client :=
  mkClient (cancelers s) (alter f k (ccs s)) (agent s).

Definition cancelled (c : canceler) : canceler := mkCC (cc_id c) true (cc_done c) (beating c).
Definition finished (c : canceler) : canceler := mkCC (cc_id c) (cc_cancelled c) true false.
Definition started (c : canceler) : canceler := mkCC (cc_id c) (cc_cancelled c) (cc_done c) true.

Definition is_done (k : nat) (s : client) : bool := match ccs s !! k with Some c => cc_done c | None => false end.

Definition set_agent (a : gset string) (s : client) : client := mkClient (cancelers s) (ccs s) a.

(** ** The calls *)

(** [prepareHeartbeat]: the previous canceler is cancelled; it is waited for. *)
Definition prepare_lookup (id : string) (s : client) : pc * client :=
  match cancelers s !! id with
  | Some k => (R_wait id k, set_cc cancelled k s)
  | None => (R_store id, s)
  end.

(** [prepareHeartbeat]: the new canceler. *)
Definition prepare_store (id : string) (s : client) : pc * client :=
  let k := length (ccs s) in
  (R_register id k, mkClient (<[id := k]> (cancelers s)) (ccs s ++ [mkCC id false false false]) (agent s)).

(** [registerService]; [ok] tells whether the agent took the registration. *)
Definition registerService (id : string) (k : nat) (ok : bool) (s : client) : option pc * client :=
  if ok then (Some (R_beat id k), set_agent ({[ id ]} ∪ agent s) s)
  else (None, set_cc finished k s).

(** [startHeartbeat] *)
Definition startHeartbeat (k : nat) (s : client) : client := set_cc started k s.

(** [Deregister]: cancelling, and the call of the agent. *)
Definition deregister_lookup (id : string) (s : client) : pc * client :=
  match cancelers s !! id with
  | Some k => (D_wait id k, set_cc cancelled k s)
  | None => (D_call id, s)
  end.
Definition deregister_call (id : string) (ok : bool) (s : client) : client :=
  if ok then set_agent (agent s ∖ {[ id ]}) s else s.

(** One step of a call: what is left of it, [None] at its end.  The whole is [None] while
    the call waits. *)
Definition turn (p : pc) (ok : bool) (s : client) : option (option pc * client) :=
  match p with
  | R_prepare id => let '(p, s) := prepare_lookup id s in Some (Some p, s)
  | R_wait id k => if is_done k s then Some (Some (R_store id), s) else None
  | R_store id => let '(p, s) := prepare_store id s in Some (Some p, s)
  | R_register id k => Some (registerService id k ok s)
  | R_beat id k => Some (None, startHeartbeat k s)
  | D_start id => let '(p, s) := deregister_lookup id s in Some (Some p, s)
  | D_wait id k => if is_done k s then Some (Some (D_call id), s) else None
  | D_call id => Some (None, deregister_call id ok s)
  end.

(** ** The goroutines *)

(** A failed TTL update of heartbeat [k]: [retryRegister], which registers again, or,
    cancelled while it sleeps, deregisters; either request can fail. *)
Definition retryRegister (k : nat) (again ok : bool) (s : client) : option client :=
  match ccs s !! k with
  | Some c =>
      if beating c && (again || cc_cancelled c)
      then Some (if ok then set_agent (if again then {[ cc_id c ]} ∪ agent s else agent s ∖ {[ cc_id c ]}) s else s)
      else None
  | None => None
  end.

(** The heartbeat sees its cancellation, in the loop or in [sendTTL], or a request of
    [sendTTL] times out: the service is deregistered and [done] closed. *)
Definition stop_beat (k : nat) (timeout ok : bool) (s : client) : option client :=
  match ccs s !! k with
  | Some c =>
      if beating c && (cc_cancelled c || timeout)
      then Some (set_cc finished k (if ok then set_agent (agent s ∖ {[ cc_id c ]}) s else s))
      else None
  | None => None
  end.

(** What the agent's answer to a TTL update is: an error of the context of the heartbeat, a
    request that timed out, another error. *)
Inductive ttl_answer := TTL_ok | TTL_canceled | TTL_deadline | TTL_failed (e : string).

Inductive ttl_result := Sent | TTLContextCanceledErr | Failed (e : string).

(** [sendTTL]: an error of either context kind deregisters the service. *)
Definition sendTTL (id : string) (answer : ttl_answer) (ok : bool) (s : client) : ttl_result * client :=
  match answer with
  | TTL_ok => (Sent, s)
  | TTL_canceled | TTL_deadline => (TTLContextCanceledErr, if ok then set_agent (agent s ∖ {[ id ]}) s else s)
  | TTL_failed e => (Failed e, s)
  end.

(** [sleepCtx], with what the select picks when the context is done and the timer has fired:
    [None] when it cannot return that way. *)
Definition sleepCtx (fired done : bool) : option bool :=
  if fired then Some true else if done then Some false else None.

(** A turn of the loop of [startHeartbeat] on a tick: [again] tells how the sleep of
    [retryRegister] ends, [ok] whether the request that follows succeeds.  The context is
    [Canceled] only once it has been cancelled. *)
Definition beat_tick (k : nat) (answer : ttl_answer) (again ok : bool) (s : client) : option client :=
  match ccs s !! k with
  | Some c =>
      if negb (beating c) then None
      else if match answer with TTL_canceled => negb (cc_cancelled c) | _ => false end then None
      else match sendTTL (cc_id c) answer ok s with
           | (Sent, s) => Some s
           | (TTLContextCanceledErr, s) => Some (set_cc finished k s)
           | (Failed _, s) =>
               match sleepCtx again (cc_cancelled c) with
               | Some again => retryRegister k again ok s
               | None => None
               end
           end
  | None => None
  end.

(** The goroutine of [prepareHeartbeat] once [done] is closed. *)
Definition clean (k : nat) (s : client) : option client :=
  match ccs s !! k with
  | Some c =>
      if cc_done c then
        let s := set_cc cancelled k s in
        Some (if decide (cancelers s !! cc_id c = Some k)
              then mkClient (delete (cc_id c) (cancelers s)) (ccs s) (agent s) else s)
      else None
  | None => None
  end.

(** ** Interleavings *)

Record node := mkNode { cl : client; calls : list pc }.

Inductive action :=
| Call (p : pc) | Turn (i : nat) (ok : bool) | Retry (k : nat) (again ok : bool) | StopBeat (k : nat) (timeout ok : bool)
| Clean (k : nat).

Definition is_entry (p : pc) : bool := match p with R_prepare _ | D_start _ => true | _ => false end.

Definition exec (a : action) (n : node) : option node :=
  match a with
  | Call p => if is_entry p then Some (mkNode (cl n) (calls n ++ [p])) else None
  | Turn i ok =>
      p ← calls n !! i;
      x ← turn p ok (cl n);
      Some (mkNode x.2 (match x.1 with Some p' => <[i := p']> (calls n) | None => delete i (calls n) end))
  | Retry k again ok => s ← retryRegister k again ok (cl n); Some (mkNode s (calls n))
  | StopBeat k timeout ok => s ← stop_beat k timeout ok (cl n); Some (mkNode s (calls n))
  | Clean k => s ← clean k (cl n); Some (mkNode s (calls n))
  end.

Definition hstep (n n' : node) : Prop := exists a, exec a n = Some n'.

(** Steps in which no call is made for a service while another call for it is under way. *)
Definition orderly (n n' : node) : Prop :=
  exists a, exec a n = Some n' /\ (forall p, a = Call p -> pc_id p ∉ pc_id <$> calls n).

(** Orderly steps that do not register service [id]. *)
Definition orderly_without (id : string) (n n' : node) : Prop :=
  exists a, exec a n = Some n' /\ (forall p, a = Call p -> pc_id p ∉ pc_id <$> calls n) /\ a <> Call (R_prepare id).

Definition start : node := mkNode (mkClient ∅ [] ∅) [].

Fixpoint exec_all (l : list action) (n : node) : option node :=
  match l with [] => Some n | a :: l => n' ← exec a n; exec_all l n' end.

(** ** The invariant *)

(** What it says of a service depends on the table and, for each canceler, on its service,
    whether it is done and whether its heartbeat runs. *)
Definition core (c : canceler) : string * bool * bool := (cc_id c, cc_done c, beating c).
Definition cores (s : client) : list (string * bool * bool) := core <$> ccs s.

Implicit Types (T : gmap string nat) (C : list (string * bool * bool)).

(** A heartbeat that runs is that of the canceler in the table. *)
Definition service_ok T C (id : string) : Prop :=
  (forall k d, C !! k = Some (id, d, true) -> T !! id = Some k /\ d = false) /\
  (forall k, T !! id = Some k -> exists d b, C !! k = Some (id, d, b)).

Definition idle C (id : string) : Prop := forall k d, C !! k <> Some (id, d, true).

Definition call_ok T C (p : pc) : Prop :=
  match p with
  | R_prepare _ | D_start _ => True
  | R_store id | D_call id => idle C id
  | R_register id k | R_beat id k => T !! id = Some k /\ C !! k = Some (id, false, false)
  | R_wait id k | D_wait id k => (T !! id = Some k \/ T !! id = None) /\ exists d b, C !! k = Some (id, d, b)
  end.

Definition hinv (n : node) : Prop :=
  NoDup (pc_id <$> calls n) /\
  (forall id, service_ok (cancelers (cl n)) (cores (cl n)) id) /\
  (forall p, p ∈ calls n -> call_ok (cancelers (cl n)) (cores (cl n)) p).

(** Changes that concern service [id] only. *)
Definition touch (id : string) T C T' C' : Prop :=
  (forall id', id' <> id -> T' !! id' = T !! id') /\
  (forall k id' d b, id' <> id -> C' !! k = Some (id', d, b) <-> C !! k = Some (id', d, b)).

Lemma touch_service id T C T' C' id' : touch id T C T' C' -> id' <> id -> service_ok T C id' -> service_ok T' C' id'.
Proof.
  intros [HT HC] Hne [H1 H2]. split.
  - intros k d Hk. rewrite HT by done. eapply H1, HC; [done|exact Hk].
  - intros k. rewrite HT by done. intros Hk. destruct (H2 k Hk) as (d & b & ?). exists d, b. by apply HC.
Qed.

Lemma touch_call id T C T' C' p : touch id T C T' C' -> pc_id p <> id -> call_ok T C p -> call_ok T' C' p.
Proof.
  intros [HT HC] Hne. destruct p; simpl in *; rewrite ?HT by done; try done.
  - intros [Hs (d & b & Hk)]. split; [done|]. exists d, b. by apply HC.
  - intros Hi k d Hk. eapply Hi, HC; [done|exact Hk].
  - intros [Hs Hk]. split; [done|]. by apply HC.
  - intros [Hs Hk]. split; [done|]. by apply HC.
  - intros [Hs (d & b & Hk)]. split; [done|]. exists d, b. by apply HC.
  - intros Hi k d Hk. eapply Hi, HC; [done|exact Hk].
Qed.

Lemma insert_touch id T C k x d b d' b' : C !! k = Some (id, d, b) -> x = (id, d', b') -> touch id T C T (<[k := x]> C).
Proof.
  intros Hk ->. split; [done|]. intros k' id' d0 b0 Hne. rewrite list_lookup_insert_Some. split.
  - intros [(<- & E & _)|[_ ?]]; [congruence|done].
  - intros E. right. split; [|done]. intros <-. congruence.
Qed.

Lemma cores_cancelled k s : cores (set_cc cancelled k s) = cores s.
Proof.
  unfold cores, set_cc. simpl. apply list_eq. intros i. rewrite !list_lookup_fmap.
  destruct (decide (i = k)) as [->|]; [rewrite list_lookup_alter_eq|rewrite list_lookup_alter_ne by done]; [|done].
  by destruct (ccs s !! k).
Qed.

Lemma cores_set f k s c : ccs s !! k = Some c -> cores (set_cc f k s) = <[k := core (f c)]> (cores s).
Proof.
  intros Hk. unfold cores, set_cc. simpl. apply list_eq. intros i. rewrite list_lookup_fmap.
  destruct (decide (i = k)) as [->|].
  - rewrite list_lookup_alter_eq, Hk, list_lookup_insert_eq; [done|]. rewrite length_fmap. by eapply lookup_lt_Some.
  - by rewrite list_lookup_alter_ne, list_lookup_insert_ne, list_lookup_fmap by done.
Qed.

Lemma cores_lookup s k c : ccs s !! k = Some c -> cores s !! k = Some (core c).
Proof. intros Hk. unfold cores. by rewrite list_lookup_fmap, Hk. Qed.

Lemma cores_inv s k x : cores s !! k = Some x -> exists c, ccs s !! k = Some c /\ core c = x.
Proof. unfold cores. rewrite list_lookup_fmap. destruct (ccs s !! k) as [c|]; [|done]. intros [= <-]. by exists c. Qed.

(** A call of service [id] makes a step. *)
Lemma turn_hinv n i p s' o : hinv n -> calls n !! i = Some p ->
  touch (pc_id p) (cancelers (cl n)) (cores (cl n)) (cancelers s') (cores s') ->
  service_ok (cancelers s') (cores s') (pc_id p) ->
  (forall p', o = Some p' -> pc_id p' = pc_id p /\ call_ok (cancelers s') (cores s') p') ->
  hinv (mkNode s' (match o with Some p' => <[i := p']> (calls n) | None => delete i (calls n) end)).
Proof.
  intros (Hnd & Hs & Hc) Hi Ht Hok Ho.
  assert (forall q j, calls n !! j = Some q -> j <> i -> pc_id q <> pc_id p) as Huniq.
  { intros q j Hj Hne E. apply Hne. eapply (NoDup_lookup _ j i (pc_id p) Hnd); rewrite list_lookup_fmap; [by rewrite Hj, <- E|by rewrite Hi]. }
  split; [|split]; simpl.
  - destruct o as [p'|].
    + destruct (Ho p' eq_refl) as [E _]. rewrite list_fmap_insert, E, list_insert_id; [done|]. by rewrite list_lookup_fmap, Hi.
    + eapply sublist_NoDup; [exact Hnd|]. apply fmap_sublist, sublist_delete.
  - intros id'. destruct (decide (id' = pc_id p)) as [->|Hne]; [done|]. by eapply touch_service.
  - intros q Hq. apply list_elem_of_lookup in Hq as [j Hj].
    assert (exists j', calls n !! j' = Some q /\ j' <> i \/ o = Some q) as (j' & [[Hj' Hne]|E]).
    { destruct o as [p'|].
      - apply list_lookup_insert_Some in Hj as [(<- & <- & _)|[Hne Hj]]; [exists 0%nat; by right|exists j; left; auto].
      - destruct (decide (j < i)%nat) as [Hlt|Hge].
        + rewrite list_lookup_delete_lt in Hj by done. exists j. left. split; [done|lia].
        + rewrite list_lookup_delete_ge in Hj by lia. exists (S j). left. split; [done|lia]. }
    + eapply touch_call; [exact Ht|by eapply Huniq|]. apply Hc. by eapply list_elem_of_lookup_2.
    + by apply Ho.
Qed.

Lemma touch_refl id T C : touch id T C T C.
Proof. by split. Qed.

(** A goroutine of service [id] makes a step. *)
Lemma go_hinv n s' id : hinv n -> touch id (cancelers (cl n)) (cores (cl n)) (cancelers s') (cores s') ->
  service_ok (cancelers s') (cores s') id ->
  (forall p, p ∈ calls n -> pc_id p = id -> call_ok (cancelers s') (cores s') p) -> hinv (mkNode s' (calls n)).
Proof.
  intros (Hnd & Hs & Hc) Ht Hok Hcalls. split; [done|]. split; simpl.
  - intros id'. destruct (decide (id' = id)) as [->|]; [done|]. by eapply touch_service.
  - intros p Hp. destruct (decide (pc_id p = id)); [by apply Hcalls|]. eapply touch_call; [exact Ht|done|by apply Hc].
Qed.

(** Nothing of a service beats when the table has no canceler for it, or one that does not
    beat. *)
Lemma service_idle T C id : service_ok T C id ->
  (forall k d, T !! id = Some k -> C !! k <> Some (id, d, true)) -> idle C id.
Proof. intros [H1 _] Hn k d Hk. destruct (H1 k d Hk) as [Hs _]. by apply (Hn k d Hs). Qed.

Lemma waited_idle s id k : service_ok (cancelers s) (cores s) id -> is_done k s = true ->
  (cancelers s !! id = Some k \/ cancelers s !! id = None) -> idle (cores s) id.
Proof.
  intros Hs Hd Hk. apply (service_idle _ _ _ Hs). intros k' d Hs' Hb.
  destruct Hk as [Hk|Hk]; rewrite Hk in Hs'; [|done]. injection Hs' as <-.
  destruct (proj1 Hs k d Hb) as [_ ->]. destruct (cores_inv _ _ _ Hb) as (c & Hc & E).
  unfold is_done in Hd. rewrite Hc in Hd. unfold core in E. congruence.
Qed.

(** Replacing the canceler of the table. *)
Lemma service_insert T C id k d' b' : service_ok T C id -> T !! id = Some k ->
  (b' = true -> d' = false) -> service_ok T (<[k := (id, d', b')]> C) id.
Proof.
  intros [H1 H2] Hk Hb. destruct (H2 k Hk) as (d & b & Hc). split.
  - intros k' d0 [(<- & E & _)|[Hne Hk']]%list_lookup_insert_Some; [injection E as -> ->; split; [done|by apply Hb]|by apply H1].
  - intros k' Hk'. rewrite Hk in Hk'. injection Hk' as <-. exists d', b'. rewrite list_lookup_insert_eq; [done|]. by eapply lookup_lt_Some.
Qed.

Lemma lookup_hinv n i p p1 p2 : hinv n -> calls n !! i = Some p -> pc_id p1 = pc_id p -> pc_id p2 = pc_id p ->
  (forall k, cancelers (cl n) !! pc_id p = Some k -> call_ok (cancelers (cl n)) (cores (cl n)) p1) ->
  (idle (cores (cl n)) (pc_id p) -> call_ok (cancelers (cl n)) (cores (cl n)) p2) ->
  hinv (mkNode (match cancelers (cl n) !! pc_id p with Some k => set_cc cancelled k (cl n) | None => cl n end)
          (<[i := match cancelers (cl n) !! pc_id p with Some _ => p1 | None => p2 end]> (calls n))).
Proof.
  intros Hi Hp E1 E2 H1 H2. pose proof Hi as (_ & Hs & _).
  destruct (cancelers (cl n) !! pc_id p) as [k|] eqn:E.
  - apply (turn_hinv n i p (set_cc cancelled k (cl n)) (Some p1) Hi Hp); rewrite cores_cancelled; simpl.
    + apply touch_refl.
    + apply Hs.
    + intros p' [= <-]. split; [done|]. by apply (H1 k).
  - apply (turn_hinv n i p (cl n) (Some p2) Hi Hp); [apply touch_refl|apply Hs|].
    intros p' [= <-]. split; [done|]. apply H2, (service_idle _ _ _ (Hs _)). congruence.
Qed.

Lemma wait_hinv n i p k p1 : hinv n -> calls n !! i = Some p -> pc_id p1 = pc_id p -> is_done k (cl n) = true ->
  (cancelers (cl n) !! pc_id p = Some k \/ cancelers (cl n) !! pc_id p = None) ->
  (idle (cores (cl n)) (pc_id p) -> call_ok (cancelers (cl n)) (cores (cl n)) p1) ->
  hinv (mkNode (cl n) (<[i := p1]> (calls n))).
Proof.
  intros Hi Hp E1 Hd Hk H1. pose proof Hi as (_ & Hs & _).
  apply (turn_hinv n i p (cl n) (Some p1) Hi Hp); [apply touch_refl|apply Hs|].
  intros p' [= <-]. split; [done|]. by apply H1, (waited_idle _ _ k).
Qed.

Lemma store_hinv n i id : hinv n -> calls n !! i = Some (R_store id) ->
  hinv (mkNode (prepare_store id (cl n)).2 (<[i := (prepare_store id (cl n)).1]> (calls n))).
Proof.
  intros Hi Hp. pose proof Hi as (_ & Hs & Hc). specialize (Hc _ (list_elem_of_lookup_2 _ _ _ Hp)). simpl in Hc.
  set (s := cl n) in *. set (k := length (ccs s)). set (s' := (prepare_store id s).2).
  assert (cores s' = cores s ++ [(id, false, false)]) as EC by (unfold s', prepare_store, cores; simpl; by rewrite fmap_app).
  assert (length (cores s) = k) as Hlen by apply length_fmap.
  assert (forall j x, cores s' !! j = Some x -> cores s !! j = Some x \/ j = k /\ x = (id, false, false)) as Hl.
  { intros j x. rewrite EC, lookup_app_Some, Hlen. intros [?|[Hj Hx]]; [by left|]. right.
    apply list_lookup_singleton_Some in Hx as [? <-]. split; [lia|done]. }
  assert (cores s' !! k = Some (id, false, false)) as Hk by (rewrite EC, lookup_app_r, Hlen, Nat.sub_diag by lia; done).
  apply (turn_hinv n i (R_store id) s' (Some (R_register id k)) Hi Hp); simpl.
  - split; [intros id' Hne; by rewrite lookup_insert_ne|]. intros j id' d b Hne. split.
    + intros [?|[_ E]]%Hl; [done|congruence].
    + intros Hj. rewrite EC. by apply lookup_app_l_Some.
  - split.
    + intros j d [Hj|[_ E]]%Hl; [by destruct (Hc j d)|congruence].
    + intros j. rewrite lookup_insert_eq. intros [= <-]. eauto.
  - intros p' [= <-]. split; [done|]. simpl. by rewrite lookup_insert_eq.
Qed.

(** [finished] or [started] for the canceler of a call. *)
Lemma set_hinv n i p k f : hinv n -> calls n !! i = Some p ->
  cancelers (cl n) !! pc_id p = Some k -> cores (cl n) !! k = Some (pc_id p, false, false) ->
  (forall c, core c = (pc_id p, false, false) -> exists d b, core (f c) = (pc_id p, d, b) /\ (b = true -> d = false)) ->
  hinv (mkNode (set_cc f k (cl n)) (delete i (calls n))).
Proof.
  intros Hi Hp Hk Hc Hf. pose proof Hi as (_ & Hs & _). destruct (cores_inv _ _ _ Hc) as (c & Hck & Ec).
  destruct (Hf c Ec) as (d & b & Ef & Hbd).
  apply (turn_hinv n i p (set_cc f k (cl n)) None Hi Hp); rewrite ?(cores_set f k _ c Hck); simpl; [| |done].
  - by eapply insert_touch.
  - rewrite Ef. apply service_insert; [apply Hs|done|done].
Qed.

Lemma exec_turn_hinv n i ok n' : hinv n -> exec (Turn i ok) n = Some n' -> hinv n'.
Proof.
  intros Hi E. simpl in E. destruct (calls n !! i) as [p|] eqn:Hp; [|done]. simpl in E.
  pose proof Hi as (_ & Hs & Hc). specialize (Hc _ (list_elem_of_lookup_2 _ _ _ Hp)).
  destruct p as [id|id k|id|id k|id k|id|id k|id]; simpl in E, Hc.
  - pose proof (lookup_hinv n i _ (R_wait id (default 0 (cancelers (cl n) !! id))) (R_store id) Hi Hp eq_refl eq_refl) as Hl.
    unfold prepare_lookup in E. simpl in Hl. destruct (cancelers (cl n) !! id) as [k|] eqn:Es; injection E as <-; apply Hl; try done.
    intros k' [= <-]. simpl. split; [by left|]. by apply Hs.
  - destruct (is_done k (cl n)) eqn:Ed; [|done]. injection E as <-. by apply (wait_hinv n i _ k (R_store id) Hi Hp eq_refl Ed (proj1 Hc)).
  - injection E as <-. by apply store_hinv.
  - unfold registerService in E. destruct ok; injection E as <-; simpl.
    + apply (turn_hinv n i _ (set_agent _ (cl n)) (Some (R_beat id k)) Hi Hp); [apply touch_refl|apply Hs|].
      by intros p' [= <-].
    + apply (set_hinv n i _ k finished Hi Hp); [apply Hc|apply Hc|]. intros c [= E1 E2 E3]. exists true, false. unfold core. simpl. by rewrite E1.
  - injection E as <-. apply (set_hinv n i _ k started Hi Hp); [apply Hc|apply Hc|]. intros c [= E1 E2 E3]. exists false, true. unfold core. simpl. by rewrite E1, E2.
  - pose proof (lookup_hinv n i _ (D_wait id (default 0 (cancelers (cl n) !! id))) (D_call id) Hi Hp eq_refl eq_refl) as Hl.
    unfold deregister_lookup in E. simpl in Hl. destruct (cancelers (cl n) !! id) as [k|] eqn:Es; injection E as <-; apply Hl; try done.
    intros k' [= <-]. simpl. split; [by left|]. by apply Hs.
  - destruct (is_done k (cl n)) eqn:Ed; [|done]. injection E as <-. by apply (wait_hinv n i _ k (D_call id) Hi Hp eq_refl Ed (proj1 Hc)).
  - injection E as <-. apply (turn_hinv n i _ (deregister_call id ok (cl n)) None Hi Hp); [| |done]; unfold deregister_call;
      destruct ok; try apply touch_refl; apply Hs.
Qed.

Lemma stop_hinv n k timeout ok n' : hinv n -> exec (StopBeat k timeout ok) n = Some n' -> hinv n'.
Proof.
  intros Hi E. simpl in E. unfold stop_beat in E. destruct (ccs (cl n) !! k) as [c|] eqn:Hk; [|done]. simpl in E.
  destruct (beating c && (cc_cancelled c || timeout)) eqn:Eb; [|done]. apply andb_prop in Eb as [Eb _]. injection E as <-.
  pose proof Hi as (_ & Hs & Hc). pose proof (cores_lookup _ _ _ Hk) as Hck. unfold core in Hck. rewrite Eb in Hck.
  destruct (proj1 (Hs (cc_id c)) k _ Hck) as [Hslot Hd].
  set (s := if ok then set_agent (agent (cl n) ∖ {[cc_id c]}) (cl n) else cl n).
  assert (ccs s = ccs (cl n)) as Es by by destruct ok. assert (cancelers s = cancelers (cl n)) as Et by by destruct ok.
  assert (cores s = cores (cl n)) as Ec by (unfold cores; by rewrite Es).
  assert (cores (set_cc finished k s) = <[k := (cc_id c, true, false)]> (cores (cl n))) as E1
    by (rewrite (cores_set _ _ _ c), Ec by (by rewrite Es); done).
  apply (go_hinv n (set_cc finished k s) (cc_id c) Hi); simpl; rewrite ?E1, ?Et.
  - by eapply insert_touch.
  - by apply service_insert.
  - intros p Hp Eid. specialize (Hc p Hp).
    assert (forall k' d b, cores (cl n) !! k' = Some (cc_id c, d, b) -> exists d' b', <[k := (cc_id c, true, false)]> (cores (cl n)) !! k' = Some (cc_id c, d', b')) as Hex.
    { intros k' d b Hk'. destruct (decide (k' = k)) as [->|]; [|exists d, b; by rewrite list_lookup_insert_ne].
      exists true, false. rewrite list_lookup_insert_eq; [done|]. by eapply lookup_lt_Some. }
    assert (forall id, idle (cores (cl n)) id -> idle (<[k := (cc_id c, true, false)]> (cores (cl n))) id) as Hidle.
    { intros id Hid k' d [(_ & E & _)|[_ Hk']]%list_lookup_insert_Some; [done|by apply (Hid k' d)]. }
    assert (forall k', cores (cl n) !! k' = Some (cc_id c, false, false) -> cancelers (cl n) !! cc_id c = Some k' -> False) as Hno.
    { intros k' Hk' Hs'. rewrite Hslot in Hs'. injection Hs' as <-. congruence. }
    destruct p; simpl in *; subst; try done; try (destruct Hc as [Hc1 Hc2]); try (split; [done|]); eauto;
      try (by destruct (Hno k0)); destruct Hc2 as (d & b & Hc2); by eapply Hex.
Qed.

Lemma clean_hinv n k n' : hinv n -> exec (Clean k) n = Some n' -> hinv n'.
Proof.
  intros Hi E. simpl in E. unfold clean in E. destruct (ccs (cl n) !! k) as [c|] eqn:Hk; [|done]. simpl in E.
  destruct (cc_done c) eqn:Ed; [|done]. injection E as <-.
  pose proof Hi as (_ & Hs & Hc). pose proof (cores_lookup _ _ _ Hk) as Hck. unfold core in Hck. rewrite Ed in Hck.
  destruct (decide (cancelers (cl n) !! cc_id c = Some k)) as [Hslot|Hns].
  2:{ apply (go_hinv n _ (cc_id c) Hi); rewrite cores_cancelled; simpl; [apply touch_refl|apply Hs|].
      intros p Hp _. by apply Hc. }
  set (s' := mkClient _ _ _).
  assert (cores s' = cores (cl n)) as Ec by apply (cores_cancelled k (cl n)).
  assert (idle (cores (cl n)) (cc_id c)) as Hidle.
  { apply (service_idle _ _ _ (Hs _)). intros k' d Hk' Hb. destruct (proj1 (Hs _) k' d Hb) as [_ ->]. congruence. }
  apply (go_hinv n s' (cc_id c) Hi); rewrite ?Ec; simpl.
  - split; [|done]. intros id' Hne. by rewrite lookup_delete_ne.
  - split; [intros k' d Hb; by destruct (Hidle k' d)|]. intros k'. by rewrite lookup_delete_eq.
  - intros p Hp Eid. specialize (Hc p Hp).
    assert (forall k', cancelers (cl n) !! cc_id c = Some k' -> cores (cl n) !! k' = Some (cc_id c, false, false) -> False) as Hno by congruence.
    destruct p; simpl in *; subst; rewrite ?lookup_delete_eq; try done; try (destruct Hc as [Hc1 Hc2]); try (by destruct (Hno k0)); split; auto.
Qed.

Lemma exec_hinv a n n' : hinv n -> exec a n = Some n' ->
  (forall p, a = Call p -> pc_id p ∉ pc_id <$> calls n) -> hinv n'.
Proof.
  intros Hi E Ho. destruct a as [p|i ok|k again ok|k timeout ok|k]; [|by eapply exec_turn_hinv| |by eapply stop_hinv|by eapply clean_hinv].
  - simpl in E. destruct (is_entry p) eqn:Ep; [|done]. injection E as <-. destruct Hi as (Hnd & Hs & Hc).
    split; [|split; [done|]]; simpl.
    + rewrite fmap_app. apply NoDup_app. split; [done|]. split; [|by apply NoDup_singleton].
      intros x Hx ->%list_elem_of_singleton. by apply (Ho p).
    + intros q [Hq | ->%list_elem_of_singleton]%elem_of_app; [by apply Hc|]. by destruct p.
  - simpl in E. unfold retryRegister in E. destruct (ccs (cl n) !! k) as [c|]; [|done]. simpl in E.
    destruct (beating c && (again || cc_cancelled c)); [|done]. injection E as <-. by destruct ok, again.
Qed.

Lemma orderly_hinv n n' : hinv n -> orderly n n' -> hinv n'.
Proof. intros Hi (a & E & Ho). by eapply exec_hinv. Qed.

Lemma start_hinv : hinv start.
Proof.
  split; [constructor|]. split; [|by intros p ?%elem_of_nil]. intros id. split.
  - by intros k d.
  - intros k. simpl. by rewrite lookup_empty.
Qed.

(** ** After [Deregister] *)

Definition is_deregister (p : pc) : bool :=
  match p with D_start _ | D_wait _ _ | D_call _ => true | _ => false end.

(** The next point of a call. *)
Lemma turn_next p ok s p' s' : turn p ok s = Some (Some p', s') -> pc_id p' = pc_id p /\ is_deregister p' = is_deregister p.
Proof.
  destruct p; simpl; unfold prepare_lookup, prepare_store, deregister_lookup, registerService; repeat case_match; intros; by simplify_eq.
Qed.

(** What a step can make beat, and what it can put into the agent. *)
Lemma set_cc_beats f k s j x : cores (set_cc f k s) !! j = Some x ->
  cores s !! j = Some x \/ j = k /\ exists c, ccs s !! k = Some c /\ x = core (f c).
Proof.
  destruct (ccs s !! k) as [c|] eqn:Hk.
  - rewrite (cores_set f k s c Hk). intros [(<- & <- & _)|[_ ?]]%list_lookup_insert_Some; [right; eauto|by left].
  - unfold cores, set_cc. simpl. rewrite !list_lookup_fmap. destruct (decide (j = k)) as [->|].
    + rewrite list_lookup_alter_eq, Hk. done.
    + rewrite list_lookup_alter_ne by done. by left.
Qed.

Lemma turn_beats p ok s o s' k id d : turn p ok s = Some (o, s') -> cores s' !! k = Some (id, d, true) ->
  cores s !! k = Some (id, d, true) \/ exists id', p = R_beat id' k /\ exists c, ccs s !! k = Some c /\ cc_id c = id.
Proof.
  assert (forall k0 s0, cores (set_cc cancelled k0 s0) !! k = Some (id, d, true) -> cores s0 !! k = Some (id, d, true)) as Hcan
    by (intros k0 s0; by rewrite cores_cancelled).
  destruct p as [id0|id0 k0|id0|id0 k0|id0 k0|id0|id0 k0|id0]; simpl; unfold prepare_lookup, deregister_lookup, registerService, deregister_call.
  - destruct (cancelers s !! id0); intros [= <- <-] Hb; left; eauto.
  - destruct (is_done k0 s); [|done]. intros [= <- <-]. by left.
  - intros [= <- <-]. unfold cores. simpl. rewrite fmap_app, lookup_app_Some. intros [?|[_ Hx]]; [by left|].
    simpl in Hx. by apply list_lookup_singleton_Some in Hx as [_ ?].
  - destruct ok; intros [= <- <-]; [by left|]. intros [?|(-> & c & _ & ?)]%set_cc_beats; by left.
  - intros [= <- <-]. intros [?|(-> & c & Hc & E)]%set_cc_beats; [by left|]. right. exists id0. split; [done|]. exists c. split; [done|].
    unfold core in E. simpl in E. congruence.
  - destruct (cancelers s !! id0); intros [= <- <-] Hb; left; eauto.
  - destruct (is_done k0 s); [|done]. intros [= <- <-]. by left.
  - intros [= <- <-]. destruct ok; by left.
Qed.

Lemma turn_agent p ok s o s' id : turn p ok s = Some (o, s') -> id ∈ agent s' ->
  id ∈ agent s \/ exists k, p = R_register id k.
Proof.
  destruct p; simpl; unfold prepare_lookup, prepare_store, deregister_lookup, registerService, deregister_call, set_cc;
    repeat case_match; intros; simplify_eq; simpl in *; try (by left); set_solver.
Qed.

(** Service [id] has been deregistered and nothing registers it. *)
Definition gone (id : string) (n : node) : Prop :=
  hinv n /\ (forall p, p ∈ calls n -> pc_id p = id -> is_deregister p = true) /\
  idle (cores (cl n)) id /\ id ∉ agent (cl n).

Lemma exec_gone id a n n' : gone id n -> hinv n' -> exec a n = Some n' -> a <> Call (R_prepare id) -> gone id n'.
Proof.
  intros (Hi & Hcalls & Hidle & Hag) Hi' E Hne. split; [done|].
  assert (forall k c, ccs (cl n) !! k = Some c -> beating c = true -> cc_id c <> id) as Hother.
  { intros k c Hk Hb Eid. apply (Hidle k (cc_done c)). rewrite (cores_lookup _ _ _ Hk). unfold core. by rewrite Hb, Eid. }
  destruct a as [p|i ok|k again ok|k timeout ok|k]; simpl in E.
  - destruct (is_entry p) eqn:Ep; [|done]. injection E as <-. split; [|done]. simpl.
    intros q [Hq | ->%list_elem_of_singleton]%elem_of_app Eid; [by apply Hcalls|]. destruct p; simpl in *; congruence.
  - destruct (calls n !! i) as [p|] eqn:Hp; [|done]. simpl in E. destruct (turn p ok (cl n)) as [[o s']|] eqn:Et; [|done].
    injection E as <-. simpl. pose proof (list_elem_of_lookup_2 _ _ _ Hp) as Hpin. split; [|split].
    + intros q Hq Eid. destruct o as [p'|].
      * apply list_elem_of_lookup in Hq as [j [(<- & <- & _)|[_ Hj]]%list_lookup_insert_Some]; [|by apply Hcalls; [eapply list_elem_of_lookup_2|]].
        destruct (turn_next _ _ _ _ _ Et) as [E1 E2]. rewrite E2. apply Hcalls; [done|congruence].
      * apply Hcalls; [|done]. eapply elem_of_submseteq; [exact Hq|apply sublist_submseteq, sublist_delete].
    + intros k d Hb. destruct (turn_beats _ _ _ _ _ _ _ _ Et Hb) as [Hb'|(id' & -> & c & Hc & Eid)]; [by apply (Hidle k d)|].
      destruct Hi as (_ & _ & Hok). destruct (Hok _ Hpin) as [_ Hck]. destruct (cores_inv _ _ _ Hck) as (c' & Hc' & Ec').
      rewrite Hc in Hc'. injection Hc' as <-. assert (id' = id) as -> by (unfold core in Ec'; congruence).
      by specialize (Hcalls _ Hpin eq_refl).
    + intros Hin. destruct (turn_agent _ _ _ _ _ _ Et Hin) as [?|[k ->]]; [done|]. by specialize (Hcalls _ Hpin eq_refl).
  - unfold retryRegister in E. destruct (ccs (cl n) !! k) as [c|] eqn:Hk; [|done]. simpl in E.
    destruct (beating c) eqn:Eb; [|done]. pose proof (Hother k c Hk Eb). simpl in E.
    destruct (again || cc_cancelled c); [|done]. injection E as <-.
    destruct ok, again; (split; [done|split; [done|]]); simpl; set_solver.
  - unfold stop_beat in E. destruct (ccs (cl n) !! k) as [c|] eqn:Hk; [|done]. simpl in E.
    destruct (beating c && (cc_cancelled c || timeout)) eqn:Eb; [|done]. injection E as <-. split; [done|]. split; simpl.
    + intros j d [Hj|(_ & c' & _ & ?)]%set_cc_beats; [|done]. apply (Hidle j d). by destruct ok.
    + destruct ok; simpl; set_solver.
  - unfold clean in E. destruct (ccs (cl n) !! k) as [c|] eqn:Hk; [|done]. simpl in E. destruct (cc_done c); [|done].
    injection E as <-. assert (forall s0, cores s0 = cores (set_cc cancelled k (cl n)) -> idle (cores s0) id) as Hx
      by (intros s0 ->; by rewrite cores_cancelled).
    split; [done|]. destruct (decide _); (split; [by apply Hx|done]).
Qed.

Lemma orderly_without_gone id n n' : gone id n -> orderly_without id n n' -> gone id n'.
Proof. intros Hg (a & E & Ho & Hne). apply (exec_gone id a n n' Hg); [|done|done]. by eapply exec_hinv; [apply Hg| |]. Qed.

Lemma deregistered_gone n i id n1 : hinv n -> calls n !! i = Some (D_call id) -> exec (Turn i true) n = Some n1 -> gone id n1.
Proof.
  intros Hi Hp E. pose proof (exec_turn_hinv _ _ _ _ Hi E) as Hi1. split; [done|].
  simpl in E. rewrite Hp in E. injection E as <-. simpl. pose proof Hi as (Hnd & _ & Hc).
  split; [|split; [apply (Hc _ (list_elem_of_lookup_2 _ _ _ Hp))|set_solver]].
  intros q [j Hj]%list_elem_of_lookup Eid. exfalso.
  assert (exists j', calls n !! j' = Some q /\ j' <> i) as (j' & Hj' & Hne).
  { destruct (decide (j < i)%nat) as [Hlt|Hge].
    - rewrite list_lookup_delete_lt in Hj by done. exists j. split; [done|lia].
    - rewrite list_lookup_delete_ge in Hj by lia. exists (S j). split; [done|lia]. }
  apply Hne. eapply (NoDup_lookup _ j' i id Hnd); rewrite list_lookup_fmap; [by rewrite Hj', <- Eid|by rewrite Hp].
Qed.

Lemma idle_beating s id : idle (cores s) id -> forall c, c ∈ ccs s -> cc_id c = id -> beating c = false.
Proof.
  intros Hidle c [k Hk]%list_elem_of_lookup Eid. destruct (beating c) eqn:Eb; [|done].
  destruct (Hidle k (cc_done c)). rewrite (cores_lookup _ _ _ Hk). unfold core. by rewrite Eb, Eid.
Qed.

(** A tick of a heartbeat is one of the steps of its goroutine, or changes nothing. *)
Lemma beat_tick_exec k answer again ok s s' p : beat_tick k answer again ok s = Some s' ->
  s' = s \/ exec (Retry k again ok) (mkNode s p) = Some (mkNode s' p) \/
  exists timeout, exec (StopBeat k timeout ok) (mkNode s p) = Some (mkNode s' p).
Proof.
  unfold beat_tick. simpl. unfold stop_beat, retryRegister. destruct (ccs s !! k) as [c|] eqn:Hk; [|done].
  destruct (beating c) eqn:Eb; [|done]. destruct answer as [| | |e]; simpl.
  - intros [= <-]. by left.
  - destruct (cc_cancelled c) eqn:Ec; [|done]. simpl. intros [= <-]. right; right. by exists false.
  - intros [= <-]. right; right. exists true. by rewrite orb_true_r.
  - unfold sleepCtx. destruct again; simpl.
    + rewrite Hk, Eb. simpl. intros [= <-]. by right; left.
    + destruct (cc_cancelled c) eqn:Ec; [|done]. rewrite Hk, Eb, Ec. simpl. intros [= <-]. by right; left.
Qed.

Lemma stopped_gone n k c timeout n1 : hinv n -> ccs (cl n) !! k = Some c -> cc_id c ∉ pc_id <$> calls n ->
  exec (StopBeat k timeout true) n = Some n1 -> gone (cc_id c) n1.
Proof.
  intros Hi Hk Hcalls E. pose proof (stop_hinv _ _ _ _ _ Hi E) as Hi1. split; [done|].
  simpl in E. unfold stop_beat in E. rewrite Hk in E. simpl in E.
  destruct (beating c && (cc_cancelled c || timeout)) eqn:Eb; [|done]. injection E as <-. apply andb_prop in Eb as [Eb _].
  split; [|split].
  - intros p Hp Eid. destruct Hcalls. rewrite <- Eid. by apply list_elem_of_fmap_2.
  - pose proof (cores_lookup _ _ _ Hk) as Hck. unfold core in Hck. rewrite Eb in Hck.
    destruct (proj1 (proj1 (proj2 Hi) (cc_id c)) k _ Hck) as [Hslot _].
    assert (cores (set_cc finished k (set_agent (agent (cl n) ∖ {[cc_id c]}) (cl n))) = <[k := (cc_id c, true, false)]> (cores (cl n))) as E1
      by (by rewrite (cores_set _ _ _ c)).
    intros j d. cbn [cl]. rewrite E1. intros [(_ & E & _)|[Hne Hj]]%list_lookup_insert_Some; [discriminate E|].
    destruct (proj1 (proj1 (proj2 Hi) (cc_id c)) j d Hj) as [Hslot' _]. congruence.
  - simpl. set_solver.
Qed.

(** ** Properties *)

(** C11: When the calls for a service do not overlap, a [Deregister] that succeeds is final:
    the heartbeats of the service have ended, and until it is registered again the agent
    does not get it back. *)
Theorem deregister_final n i id n1 n2 : runs orderly start n -> calls n !! i = Some (D_call id) ->
  exec (Turn i true) n = Some n1 -> runs (orderly_without id) n1 n2 ->
  (id ∉ agent (cl n2)) /\ forall c, c ∈ ccs (cl n2) -> cc_id c = id -> beating c = false.
Proof.
  intros Hr Hp E Hr2. pose proof (runs_inv _ _ _ _ orderly_hinv start_hinv Hr) as Hi.
  pose proof (runs_inv _ _ _ _ (orderly_without_gone id) (deregistered_gone _ _ _ _ Hi Hp E) Hr2) as (_ & _ & Hidle & Hag).
  split; [done|]. by apply idle_beating.
Qed.

(** Two overlapping [Register] calls for a service leave a heartbeat that nothing can
    stop: after a [Deregister] that succeeded has returned and no call is under way, that
    heartbeat registers the service again. *)
Theorem overlapping_registers_leak : exists n,
  exec_all [Call (R_prepare "svc"); Call (R_prepare "svc"); Turn 0 true; Turn 1 true; Turn 0 true; Turn 1 true;
            Turn 0 true; Turn 1 true; Turn 0 true; Turn 0 true;
            Call (D_start "svc"); Turn 0 true; StopBeat 1 false true; Turn 0 true; Turn 0 true; Clean 1;
            Retry 0 true true] start = Some n /\
  calls n = [] /\ "svc" ∈ agent (cl n) /\ cancelers (cl n) !! "svc" = None /\
  ccs (cl n) !! 0%nat = Some (mkCC "svc" false false true).
Proof. eexists. split; [vm_compute; reflexivity|]. split; [reflexivity|]. split; [by vm_compute|]. split; reflexivity. Qed.

(** One TTL update that times out takes a service out of the agent for good, though nobody has
    deregistered it: the heartbeat ends, and until the service is registered again nothing
    brings it back. *)
Theorem timeout_ends_heartbeat n k c again s n2 : runs orderly start n -> ccs (cl n) !! k = Some c ->
  (cc_id c ∉ pc_id <$> calls n) -> beat_tick k TTL_deadline again true (cl n) = Some s ->
  runs (orderly_without (cc_id c)) (mkNode s (calls n)) n2 ->
  (cc_id c ∉ agent (cl n2)) /\ forall c', c' ∈ ccs (cl n2) -> cc_id c' = cc_id c -> beating c' = false.
Proof.
  intros Hr Hk Hcalls Ht Hr2. pose proof (runs_inv _ _ _ _ orderly_hinv start_hinv Hr) as Hi.
  assert (exec (StopBeat k true true) n = Some (mkNode s (calls n))) as E.
  { unfold beat_tick in Ht. simpl. unfold stop_beat. rewrite Hk in Ht |- *. destruct (beating c); [|done]. simpl in *.
    injection Ht as <-. by rewrite orb_true_r. }
  pose proof (runs_inv _ _ _ _ (orderly_without_gone (cc_id c)) (stopped_gone _ _ _ _ _ Hi Hk Hcalls E) Hr2) as (_ & _ & Hidle & Hag).
  split; [done|]. by apply idle_beating.
Qed.

(** ** Witness *)

(** One call that registers and one that deregisters. *)
Definition demo_actions : list action :=
  [Call (R_prepare "svc"); Turn 0 true; Turn 0 true; Turn 0 true; Turn 0 true;
   Call (D_start "svc"); Turn 0 true; StopBeat 0 false true; Turn 0 true].

Definition demo_node : node := default start (exec_all demo_actions start).

Lemma exec_all_runs l : forall n n', exec_all l n = Some n' ->
  (forall l1 p l2 m, l = l1 ++ Call p :: l2 -> exec_all l1 n = Some m -> calls m = []) -> runs orderly n n'.
Proof.
  induction l as [|a l IH]; intros n n' E Hall; simpl in E; [injection E as <-; apply runs_refl|].
  destruct (exec a n) as [m|] eqn:Ea; [|done]. simpl in E.
  eapply (runs_trans _ n m n'); [eapply runs_step; [apply runs_refl|]|apply IH; [done|]].
  - exists a. split; [done|]. intros p ->. rewrite (Hall [] p l n) by done. simpl. apply not_elem_of_nil.
  - intros l1 p l2 m' -> Em. apply (Hall (a :: l1) p l2 m'); [done|]. simpl. by rewrite Ea.
Qed.

Lemma demo_runs : runs orderly start demo_node.
Proof.
  apply (exec_all_runs demo_actions); [vm_compute; reflexivity|]. intros l1 p l2 m El Em.
  unfold demo_actions in El. do 9 (destruct l1 as [|a l1]; [try discriminate El; vm_compute in Em; injection Em as <-; reflexivity|injection El as <- El]).
  destruct l1; discriminate El.
Qed.

Definition demo_deregistered : node := mkNode (deregister_call "svc" true (cl demo_node)) [].

Lemma deregister_final_witness : ("svc" ∉ agent (cl demo_deregistered)) /\
  forall c, c ∈ ccs (cl demo_deregistered) -> cc_id c = "svc" -> beating c = false.
Proof.
  apply (deregister_final demo_node 0 "svc" demo_deregistered demo_deregistered); [exact demo_runs|reflexivity|reflexivity|apply runs_refl].
Defined.

Definition beating_actions : list action := take 5 demo_actions.
Definition beating_node : node := default start (exec_all beating_actions start).
Definition timed_out : node := default start (exec (StopBeat 0 true true) beating_node).

Lemma beating_runs : runs orderly start beating_node.
Proof.
  apply (exec_all_runs beating_actions); [vm_compute; reflexivity|]. intros l1 p l2 m El Em.
  unfold beating_actions, demo_actions in El. simpl in El.
  do 5 (destruct l1 as [|a l1]; [try discriminate El; vm_compute in Em; injection Em as <-; reflexivity|injection El as <- El]).
  destruct l1; discriminate El.
Qed.

Lemma timeout_ends_heartbeat_witness : "svc" ∉ agent (cl timed_out).
Proof.
  refine (proj1 (timeout_ends_heartbeat beating_node 0 (mkCC "svc" false false true) false (cl timed_out) timed_out
    beating_runs eq_refl _ eq_refl (runs_refl _ _))). apply not_elem_of_nil.
Defined.

End ConsulHeartbeat.
