(* ===== verification/DiscoveryOptions.v ===== *)
(** * Options of discovery providers: src/infra/discovery (generic_options.go, abstraction.go, consul/registry_options.go,
    consul/init.go)

    The options are written against the interface of a provider that can be configured, and the Consul registry
    implements it; a provider is made by the factory of its type and then given the options in order. *)
From stdpp Require Import prelude strings list gmap.
From Stdlib Require Import ZArith Lia.
From S2P Require Import Prelude Consul ConsulRegistry.

Local Open Scope Z_scope.

Module DiscoveryOptions.
Import Consul.

(** ** The interface (abstraction.go) *)

(** [DefaultOptionConfigurable] *)
Class DefaultOptionConfigurable (T : Type) := {
  SetHealthCheck : bool -> T -> T;
  SetTimeout : Z -> T -> T;
  SetDatacenter : string -> T -> T;
  SetHeartbeatEnabled : bool -> T -> T;
  SetHealthCheckInterval : Z -> T -> T;
  SetDeregisterCriticalServiceAfter : Z -> T -> T;
  SetTags : list string -> T -> T
}.

(** ** Options (generic_options.go) *)

Section Options.
Context {T : Type} `{DefaultOptionConfigurable T}.

Definition Option_ := T -> T.
Definition WithHealthCheck (enable : bool) : Option_ := fun r => SetHealthCheck enable r.
Definition WithTimeout (timeout : Z) : Option_ := fun r => SetTimeout timeout r.
Definition WithDatacenter (dc : string) : Option_ := fun r => SetDatacenter dc r.
Definition WithHeartbeat (heartbeat : bool) : Option_ := fun r => SetHeartbeatEnabled heartbeat r.
Definition WithHealthCheckInterval (interval : Z) : Option_ := fun r => SetHealthCheckInterval interval r.
Definition WithDeregisterCriticalServiceAfter (interval : Z) : Option_ := fun r => SetDeregisterCriticalServiceAfter interval r.
Definition WithTags (tags : list string) : Option_ := fun r => SetTags tags r.

End Options.
Arguments Option_ T : clear implicits.

(** ** What the interface promises *)

(** The settings of a provider. *)
Record settings := mkSettings {
  s_healthCheck : bool;
  s_timeout : Z;
  s_multi : bool;
  s_heartbeat : bool;
  s_interval : Z;
  s_deregister : Z;
  s_tags : list string
}.

(** Each method changes its own setting and no other; a datacenter other than MULTI is the single one. *)
Class ConfigurableLaws (T : Type) `{DefaultOptionConfigurable T} := {
  view : T -> settings;
  view_healthCheck v r : let s := view r in view (SetHealthCheck v r) =
    mkSettings v (s_timeout s) (s_multi s) (s_heartbeat s) (s_interval s) (s_deregister s) (s_tags s);
  view_timeout v r : let s := view r in view (SetTimeout v r) =
    mkSettings (s_healthCheck s) v (s_multi s) (s_heartbeat s) (s_interval s) (s_deregister s) (s_tags s);
  view_datacenter v r : let s := view r in view (SetDatacenter v r) =
    mkSettings (s_healthCheck s) (s_timeout s) (bool_decide (v = "MULTI")) (s_heartbeat s) (s_interval s) (s_deregister s) (s_tags s);
  view_heartbeat v r : let s := view r in view (SetHeartbeatEnabled v r) =
    mkSettings (s_healthCheck s) (s_timeout s) (s_multi s) v (s_interval s) (s_deregister s) (s_tags s);
  view_interval v r : let s := view r in view (SetHealthCheckInterval v r) =
    mkSettings (s_healthCheck s) (s_timeout s) (s_multi s) (s_heartbeat s) v (s_deregister s) (s_tags s);
  view_deregister v r : let s := view r in view (SetDeregisterCriticalServiceAfter v r) =
    mkSettings (s_healthCheck s) (s_timeout s) (s_multi s) (s_heartbeat s) (s_interval s) v (s_tags s);
  view_tags v r : let s := view r in view (SetTags v r) =
    mkSettings (s_healthCheck s) (s_timeout s) (s_multi s) (s_heartbeat s) (s_interval s) (s_deregister s) v
}.

(** ** Clients of the interface *)

(** An option as data. *)
Inductive setting :=
| HealthCheck (v : bool) | Timeout (v : Z) | DC (v : string) | Heartbeat (v : bool) | Interval (v : Z) | Deregister (v : Z)
| Tags (v : list string).

Definition option_of {T} `{DefaultOptionConfigurable T} (s : setting) : Option_ T :=
  match s with
  | HealthCheck v => WithHealthCheck v | Timeout v => WithTimeout v | DC v => WithDatacenter v
  | Heartbeat v => WithHeartbeat v | Interval v => WithHealthCheckInterval v
  | Deregister v => WithDeregisterCriticalServiceAfter v | Tags v => WithTags v
  end.

(** The last value a list of options gives to a setting. *)
Definition last_of {A} (f : setting -> option A) (opts : list setting) (d : A) : A := foldl (fun a o => default a (f o)) d opts.

(** What a list of options asks for, from what there is. *)
Definition asked (opts : list setting) (s : settings) : settings :=
  mkSettings
    (last_of (fun o => match o with HealthCheck v => Some v | _ => None end) opts (s_healthCheck s))
    (last_of (fun o => match o with Timeout v => Some v | _ => None end) opts (s_timeout s))
    (last_of (fun o => match o with DC v => Some (bool_decide (v = "MULTI")) | _ => None end) opts (s_multi s))
    (last_of (fun o => match o with Heartbeat v => Some v | _ => None end) opts (s_heartbeat s))
    (last_of (fun o => match o with Interval v => Some v | _ => None end) opts (s_interval s))
    (last_of (fun o => match o with Deregister v => Some v | _ => None end) opts (s_deregister s))
    (last_of (fun o => match o with Tags v => Some v | _ => None end) opts (s_tags s)).

(** For any provider: after a list of options each setting has the last value given for it, or the one it had. *)
Lemma options_view {T} `{ConfigurableLaws T} (opts : list setting) : forall r : T,
  view (foldl (fun r o => o r) r (option_of <$> opts)) = asked opts (view r).
Proof.
  induction opts as [|o opts IH]; intros r; [cbn [fmap list_fmap foldl]; destruct (view r); reflexivity|]. cbn [fmap list_fmap foldl]. rewrite IH.
  destruct o; cbn [option_of];
    unfold WithHealthCheck, WithTimeout, WithDatacenter, WithHeartbeat, WithHealthCheckInterval, WithDeregisterCriticalServiceAfter, WithTags;
    by rewrite ?view_healthCheck, ?view_timeout, ?view_datacenter, ?view_heartbeat, ?view_interval, ?view_deregister, ?view_tags.
Qed.

(** ** The Consul registry (consul/registry.go, consul/registry_options.go, consul/init.go) *)

(** A registry with the resolver of its client, known by a number; the default one is 0. *)
Record provider := mkProvider { reg : ConsulRegistry.Registry; resolver : nat }.

Definition on_registry (f : ConsulRegistry.Registry -> ConsulRegistry.Registry) (p : provider) : provider := mkProvider (f (reg p)) (resolver p).

#[global] Instance registry_configurable : DefaultOptionConfigurable provider := {
  SetHealthCheck v := on_registry (ConsulRegistry.SetHealthCheck v);
  SetTimeout v := on_registry (ConsulRegistry.SetTimeout v);
  SetDatacenter v := on_registry (ConsulRegistry.SetDatacenter v);
  SetHeartbeatEnabled v := on_registry (ConsulRegistry.SetHeartbeatEnabled v);
  SetHealthCheckInterval v := on_registry (ConsulRegistry.SetHealthCheckInterval v);
  SetDeregisterCriticalServiceAfter v := on_registry (ConsulRegistry.SetDeregisterCriticalServiceAfter v);
  SetTags v := on_registry (ConsulRegistry.SetTags v)
}.

Definition registry_view (p : provider) : settings :=
  let r := reg p in let c := ConsulRegistry.client r in
  mkSettings (ConsulRegistry.enableHealthCheck r) (ConsulRegistry.timeout r)
    (match dc c with MultiDataCenter => true | SingleDatacenter => false end) (heartbeat c) (healthCheckInterval c)
    (deregisterCriticalServiceAfter c) (tags c).

#[global] Instance registry_laws : ConfigurableLaws provider.
Proof.
  split with registry_view; intros v [r n]; try reflexivity.
  unfold registry_view, SetDatacenter, registry_configurable, on_registry, ConsulRegistry.SetDatacenter. cbn.
  case_decide as D; [by rewrite bool_decide_eq_true_2|by rewrite bool_decide_eq_false_2].
Defined.

Definition WithServiceResolver (fn : nat) : Option_ provider := fun p => mkProvider (reg p) fn.

Definition WithServiceChecks (checks : list AgentServiceCheck) : Option_ provider := fun p =>
  let c := ConsulRegistry.client (reg p) in
  mkProvider (ConsulRegistry.with_client (mkClient (dc c) (healthCheckInterval c) (heartbeat c) (deregisterCriticalServiceAfter c) checks (tags c)) (reg p))
    (resolver p).

(** The factory of the Consul provider; [connect] is the error of making the API client or of asking the agent for its name. *)
Definition consul_factory (connect : string -> option string) : ProviderFactory (T := provider) := fun address options =>
  match connect address with
  | Some e => Err e
  | None => Ok (foldl (fun r o => o r) (mkProvider ConsulRegistry.NewConsulRegistry 0) options)
  end.

(** [DefaultFactory] after the init functions. *)
Definition DefaultFactory (connect : string -> option string) : Factory := Factory_Register "consul" (consul_factory connect) NewFactory.

(** ** The ticker of a heartbeat (consul/client.go) *)

(** [time.NewTicker(time.Second * time.Duration(interval))] panics when the period is not positive. *)
Definition heartbeat_ticker (p : provider) : outcome Z :=
  let period := i64 (1000000000 * healthCheckInterval (ConsulRegistry.client (reg p))) in
  if period <=? 0 then Panic "non-positive interval for NewTicker" else Ret period.

(** ** Theorems *)

Lemma create_consul connect address opts :
  CreateProvider (DefaultFactory connect) "consul" address opts = consul_factory connect address opts.
Proof. reflexivity. Qed.

(** A provider made by the factory has, for each setting, the last value its options give, or the default: health checks and
    heartbeats on, ten seconds of timeout, one datacenter, an interval of ten and a removal after 600 seconds, no tags. *)
Theorem provider_settings connect address opts p :
  CreateProvider (DefaultFactory connect) "consul" address (option_of <$> opts) = Ok p ->
  view p = asked opts (mkSettings true 10000000000 false true 10 600 []) /\ resolver p = 0%nat.
Proof.
  rewrite !create_consul. unfold consul_factory.
  destruct (connect address); [done|]. intros [= <-]. split.
  - by rewrite options_view.
  - assert (forall l (q : provider), resolver (foldl (fun r o => o r) q (option_of <$> l)) = resolver q) as Hr.
    { induction l as [|o l IH]; intros q; [done|]. cbn [fmap list_fmap foldl]. rewrite IH. by destruct o. }
    by rewrite Hr.
Qed.

(** Every other type of provider is refused. *)
Theorem only_consul connect ty address opts : ty <> "consul" ->
  CreateProvider (DefaultFactory connect) ty address opts = Err ("unsupported discovery provider: " +:+ ty).
Proof. intros Hne. unfold CreateProvider.
  destruct (_ !! ty) as [f|] eqn:E; [|done]. discriminate (eq_trans (eq_sym E)
    (eq_trans (lookup_insert_ne (∅ : gmap string ProviderFactory) "consul" ty (consul_factory connect) (not_eq_sym Hne)) (lookup_empty ty))).
Qed.

(** An interval of zero, documented as the default, or a negative one, documented as turning it off, makes the heartbeat panic; without
    that option the heartbeat ticks every ten seconds. *)
Theorem heartbeat_interval_panics connect address p :
  (forall v, v <= 0 -> - 2 ^ 33 < v -> CreateProvider (DefaultFactory connect) "consul" address [option_of (Interval v)] = Ok p ->
    heartbeat_ticker p = Panic "non-positive interval for NewTicker") /\
  (CreateProvider (DefaultFactory connect) "consul" address [] = Ok p -> heartbeat_ticker p = Ret 10000000000).
Proof.
  setoid_rewrite create_consul. unfold consul_factory.
  destruct (connect address); [done|]. split; [|by intros [= <-]].
  intros v Hv Hlo [= <-]. unfold heartbeat_ticker. cbn. rewrite wrap_signed_small by (cbn; lia). by destruct (Z.leb_spec (1000000000 * v) 0); [|lia].
Qed.

(** ** Witnesses *)

Definition demo_opts : list setting := [Timeout 5; DC "MULTI"; Interval 0; Timeout 7].
Definition demo_provider : provider :=
  foldl (fun r o => o r) (mkProvider ConsulRegistry.NewConsulRegistry 0) (option_of <$> demo_opts).

Lemma provider_settings_witness : view demo_provider = mkSettings true 7 true true 0 600 [].
Proof.
  destruct (provider_settings (fun _ => None) "localhost:8500" demo_opts demo_provider) as [H _]; [|exact H].
  rewrite create_consul. reflexivity.
Defined.

Lemma only_consul_witness : CreateProvider (DefaultFactory (fun _ => None)) "etcd" "" [] = Err "unsupported discovery provider: etcd".
Proof. apply (only_consul (fun _ => None) "etcd" ""). discriminate. Defined.

Lemma heartbeat_interval_panics_witness :
  heartbeat_ticker (option_of (Interval 0) (mkProvider ConsulRegistry.NewConsulRegistry 0)) = Panic "non-positive interval for NewTicker".
Proof.
  apply (proj1 (heartbeat_interval_panics (fun _ => None) "localhost:8500" _) 0); [lia|lia|].
  rewrite create_consul. reflexivity.
Defined.

End DiscoveryOptions.
