(* ===== verification/RabbitBroker.v ===== *)
(** * RabbitMQ connection: src/infra/pubsub/rabbitmq (broker.go, config.go)

    The broker keeps one connection with one channel and, when the connection closes,
    makes new ones.  The AMQP library is a class over an abstract state of the network;
    the goroutines that watch the connection and that reconnect are interleaved. *)
From stdpp Require Import prelude strings list gmap.
From Stdlib Require Import ZArith Lia.
From S2P Require Import Prelude.

Local Open Scope Z_scope.

(** What the broker uses of amqp091-go.  Connections and channels are numbered;
    [used_conn] and [used_chan] tell which numbers have been given out. *)
Class AMQP := {
  world : Type;
  conn_open : world -> nat -> bool;
  used_conn : world -> nat -> bool;
  chan_open : world -> nat -> bool;
  used_chan : world -> nat -> bool;
  DialConfig : string -> Z -> world -> res string nat * world;
  conn_Channel : nat -> world -> res string nat * world;
  conn_Close : nat -> world -> option string * world;
  chan_Close : nat -> world -> option string * world
}.

(** Later states of the network: a connection or channel that has been made stays known
    and does not reopen.  The server, the network and other users move the state only
    that way. *)
Definition later `{AMQP} (w w' : world) : Prop :=
  (forall k, used_conn w k = true ->
     used_conn w' k = true /\ (conn_open w' k = true -> conn_open w k = true)) /\
  (forall c, used_chan w c = true ->
     used_chan w' c = true /\ (chan_open w' c = true -> chan_open w c = true)).

Class AMQPLaws `{AMQP} : Prop := {
  dial_later url timeout w : later w (DialConfig url timeout w).2;
  dial_new url timeout w k w' : DialConfig url timeout w = (Ok k, w') -> used_conn w k = false /\ used_conn w' k = true;
  channel_later k w : later w (conn_Channel k w).2;
  channel_new k w c w' : conn_Channel k w = (Ok c, w') -> used_chan w' c = true;
  close_later k w : later w (conn_Close k w).2;
  close_closes k w : conn_open (conn_Close k w).2 k = false;
  chan_close_later c w : later w (chan_Close c w).2
}.

Module RabbitBroker.

Definition Second : Z := 1000000000.

(** ** Configurations (config.go) *)

Record Config := mkConfig { URL : string; ConnectTimeout : Z }.

Definition NewConfig (url : string) (opts : list (Config -> Config)) : res string Config :=
  if decide (url = "") then Err "rabbitmq config URL is required"
  else Ok (foldl (fun c o => o c) (mkConfig url (10 * Second)) opts).

Definition WithConnectTimeout (t : Z) : Config -> Config := fun c => mkConfig (URL c) t.

Record ExchangeConfig := mkExchange { x_Name : string; x_Type : string; x_Durable : bool; x_AutoDelete : bool }.

Definition NewExchangeConfig (name exchangeType : string) (opts : list (ExchangeConfig -> ExchangeConfig))
  : res string ExchangeConfig :=
  if decide (name = "") then Err "rabbitmq config exchange name is required"
  else if decide (exchangeType = "") then Err "rabbitmq config exchange type is required"
  else Ok (foldl (fun c o => o c) (mkExchange name exchangeType true false) opts).

Definition WithDurable (v : bool) : ExchangeConfig -> ExchangeConfig :=
  fun c => mkExchange (x_Name c) (x_Type c) v (x_AutoDelete c).
Definition WithAutoDelete (v : bool) : ExchangeConfig -> ExchangeConfig :=
  fun c => mkExchange (x_Name c) (x_Type c) (x_Durable c) v.

(** Arguments of a queue; [None] is the nil table. *)
Record QueueConfig := mkQueue {
  q_Name : string; q_Durable : bool; q_AutoDelete : bool; q_Exclusive : bool;
  q_Arguments : option (gmap string string)
}.

Definition NewQueueConfig (name : string) (opts : list (QueueConfig -> QueueConfig)) : res string QueueConfig :=
  if decide (name = "") then Err "rabbitmq config queue name is required"
  else Ok (foldl (fun c o => o c) (mkQueue name true false false (Some ∅)) opts).

Definition WithQueueDurable (v : bool) : QueueConfig -> QueueConfig :=
  fun c => mkQueue (q_Name c) v (q_AutoDelete c) (q_Exclusive c) (q_Arguments c).
Definition WithQueueAutoDelete (v : bool) : QueueConfig -> QueueConfig :=
  fun c => mkQueue (q_Name c) (q_Durable c) v (q_Exclusive c) (q_Arguments c).
Definition WithQueueExclusive (v : bool) : QueueConfig -> QueueConfig :=
  fun c => mkQueue (q_Name c) (q_Durable c) (q_AutoDelete c) v (q_Arguments c).
Definition WithQueueArgument (key value : string) : QueueConfig -> QueueConfig :=
  fun c => mkQueue (q_Name c) (q_Durable c) (q_AutoDelete c) (q_Exclusive c)
             (Some (<[key := value]> (default ∅ (q_Arguments c)))).
Definition WithQueueTypeQuorum : QueueConfig -> QueueConfig := WithQueueArgument "x-queue-type" "quorum".

Section Broker.
Context `{L : AMQPLaws} (cfg : Config).

(** ** The broker (broker.go) *)

Definition ErrConnectionNotAvailable : string := "rabbitmq connection not available".
Definition ErrConnectionFailed : string := "rabbitmq connection failed".
Definition ErrDeclarationFailed : string := "rabbitmq AMQP entity declaration failed".

(** [done] is the closed state of the channel of that name. *)
Record Connection := mkConn { conn : option nat; ch : option nat; done : bool; reconnecting : bool }.

Definition is_open (f : world -> nat -> bool) (o : option nat) (w : world) : bool :=
  match o with Some k => f w k | None => false end.

(** Closing what is not nil and not closed. *)
Definition close_open (f : world -> nat -> bool) (close : nat -> world -> option string * world)
    (o : option nat) (w : world) : option string * world :=
  match o with Some k => if f w k then close k w else (None, w) | None => (None, w) end.

(** [connect]; the goroutine that watches the new connection is started by the step. *)
Definition connect (b : Connection) (w : world) : option string * Connection * world :=
  match DialConfig (URL cfg) (ConnectTimeout cfg) w with
  | (Err e, w) => (Some (ErrConnectionFailed +:+ ": " +:+ e), b, w)
  | (Ok k, w) =>
      match conn_Channel k w with
      | (Err e, w) => (Some ("open channel: " +:+ e), b, (conn_Close k w).2)
      | (Ok c, w) =>
          let w := (close_open chan_open chan_Close (ch b) w).2 in
          let w := (close_open conn_open conn_Close (conn b) w).2 in
          (None, mkConn (Some k) (Some c) (done b) (reconnecting b), w)
      end
  end.

(** [Channel]; [ctx_err] is the error of the context when it is done. *)
Definition Channel (ctx_err : option string) (b : Connection) (w : world) : res string nat :=
  match ctx_err with
  | Some e => Err e
  | None =>
      if is_open conn_open (conn b) w && is_open chan_open (ch b) w
      then match ch b with Some c => Ok c | None => Err ErrConnectionNotAvailable end
      else Err ErrConnectionNotAvailable
  end.

Definition Close (b : Connection) (w : world) : option string * Connection * world :=
  if done b then (Some "broker already closed", b, w)
  else
    let b := mkConn (conn b) (ch b) true (reconnecting b) in
    let w := (close_open chan_open chan_Close (ch b) w).2 in
    let '(e, w) := close_open conn_open conn_Close (conn b) w in
    (e, b, w).

Definition minDuration (a b : Z) : Z := if a <? b then a else b.

Definition maxRetry : Z := 30 * Second.

(** A goroutine inside [reconnect]: before it looks at [done], after, with the delay of
    the next retry, and after a successful connection, before the flag is reset. *)
Inductive phase := Checking (retry : Z) | Connecting (retry : Z) | Returning.

(** The broker, the connections with a [watchConn] goroutine, the goroutines inside
    [reconnect], the connections it has dialled and the network. *)
Record node := mkNode {
  broker : Connection; watching : list nat; loops : list phase; dialled : list nat; net : world
}.

(** [connect] with its goroutine. *)
Definition node_connect (n : node) : option string * node :=
  let dialled' := match DialConfig (URL cfg) (ConnectTimeout cfg) (net n) with
                  | (Ok k, _) => k :: dialled n
                  | (Err _, _) => dialled n
                  end in
  match connect (broker n) (net n) with
  | (Some e, b, w) => (Some e, mkNode b (watching n) (loops n) dialled' w)
  | (None, b, w) =>
      (None, mkNode b (match conn b with Some k => k :: watching n | None => watching n end)
               (loops n) dialled' w)
  end.

(** [NewConnection] *)
Definition NewConnection (w : world) : res string node :=
  match node_connect (mkNode (mkConn None None false false) [] [] [] w) with
  | (Some e, _) => Err ("broker creation: " +:+ e)
  | (None, n) => Ok n
  end.

Definition set_flag (v : bool) (b : Connection) : Connection := mkConn (conn b) (ch b) (done b) v.
Definition with_loops (l : list phase) (n : node) : node :=
  mkNode (broker n) (watching n) l (dialled n) (net n).

(** [watchConn] when the connection has closed: the goroutine goes on into [reconnect],
    which returns at once when another one is inside. *)
Definition watch_fire (ws : list nat) (n : node) : node :=
  if reconnecting (broker n) then mkNode (broker n) ws (loops n) (dialled n) (net n)
  else mkNode (set_flag true (broker n)) ws (Checking Second :: loops n) (dialled n) (net n).

(** The end of [reconnect]. *)
Definition leave (ls : list phase) (n : node) : node :=
  mkNode (set_flag false (broker n)) (watching n) ls (dialled n) (net n).

Inductive bstep : node -> node -> Prop :=
| b_net n w : later (net n) w ->
    bstep n (mkNode (broker n) (watching n) (loops n) (dialled n) w)
| b_fire n l1 k l2 : watching n = l1 ++ k :: l2 -> conn_open (net n) k = false -> bstep n (watch_fire (l1 ++ l2) n)
| b_unwatch n l1 k l2 : watching n = l1 ++ k :: l2 -> done (broker n) = true ->
    bstep n (mkNode (broker n) (l1 ++ l2) (loops n) (dialled n) (net n))
| b_stop n l1 r l2 : loops n = l1 ++ Checking r :: l2 -> done (broker n) = true -> bstep n (leave (l1 ++ l2) n)
| b_go n l1 r l2 : loops n = l1 ++ Checking r :: l2 -> done (broker n) = false ->
    bstep n (with_loops (l1 ++ Connecting r :: l2) n)
| b_failed n l1 r l2 e n' : loops n = l1 ++ Connecting r :: l2 -> node_connect n = (Some e, n') ->
    bstep n (with_loops (l1 ++ Checking (minDuration (r * 2) maxRetry) :: l2) n')
| b_connected n l1 r l2 n' : loops n = l1 ++ Connecting r :: l2 -> node_connect n = (None, n') ->
    bstep n (with_loops (l1 ++ Returning :: l2) n')
| b_leave n l1 l2 : loops n = l1 ++ Returning :: l2 -> bstep n (leave (l1 ++ l2) n)
| b_close n e b w : Close (broker n) (net n) = (e, b, w) ->
    bstep n (mkNode b (watching n) (loops n) (dialled n) w).

(** Steps in which the watcher of a new connection does not fire before the goroutine that
    made it has left [reconnect]. *)
Definition patient (n n' : node) : Prop :=
  bstep n n' /\ (Returning ∈ loops n -> done (broker n) = false -> watching n' = watching n).

(** Steps during which connection [k] stays open. *)
Definition quiet (k : nat) (n n' : node) : Prop := bstep n n' /\ conn_open (net n') k = true.

(** ** Declarations *)

(** The calls on the channel; [answer] is what the library returns for one. *)
Inductive call :=
| ExchangeDeclare (name kind : string) (durable autoDelete internal noWait : bool)
| ExchangeBind (destination key source : string) (noWait : bool)
| QueueDeclare (name : string) (durable autoDelete exclusive noWait : bool) (args : option (gmap string string))
| QueueBind (name key exchange : string) (noWait : bool).

Definition wrapped (prefix : string) (e : option string) : option string :=
  match e with Some e => Some (prefix +:+ ": " +:+ e) | None => None end.

Definition DeclareExchange (ctx_err : option string) (answer : nat -> call -> option string)
    (x : ExchangeConfig) (b : Connection) (w : world) : option string :=
  match Channel ctx_err b w with
  | Err e => Some e
  | Ok c => wrapped ErrDeclarationFailed
              (answer c (ExchangeDeclare (x_Name x) (x_Type x) (x_Durable x) (x_AutoDelete x) false false))
  end.

Definition BindExchange (ctx_err : option string) (answer : nat -> call -> option string)
    (destination source routingKey : string) (noWait : bool) (b : Connection) (w : world) : option string :=
  match Channel ctx_err b w with
  | Err e => Some e
  | Ok c => wrapped "bind exchange" (answer c (ExchangeBind destination routingKey source noWait))
  end.

Definition DeclareQueue (ctx_err : option string) (answer : nat -> call -> option string)
    (q : QueueConfig) (exchange : option ExchangeConfig) (routingKey : string)
    (b : Connection) (w : world) : option string :=
  match Channel ctx_err b w with
  | Err e => Some e
  | Ok c =>
      match answer c (QueueDeclare (q_Name q) (q_Durable q) (q_AutoDelete q) (q_Exclusive q) false (q_Arguments q)) with
      | Some e => Some (ErrDeclarationFailed +:+ ": " +:+ e)
      | None =>
          match exchange with
          | Some x => if decide (routingKey = "") then None
                      else wrapped "bind queue" (answer c (QueueBind (q_Name q) routingKey (x_Name x) false))
          | None => None
          end
      end
  end.

Definition BindQueue (answer : nat -> call -> option string) (queueName rk exchange : string) (noWait : bool)
    (b : Connection) (w : world) : option string :=
  match Channel None b w with
  | Err e => Some ("get channel for exchange declaration: " +:+ e)
  | Ok c => wrapped ErrDeclarationFailed (answer c (QueueBind queueName rk exchange noWait))
  end.

(** ** The invariant *)

Lemma later_refl w : later w w.
Proof. split; done. Qed.

Lemma later_trans w1 w2 w3 : later w1 w2 -> later w2 w3 -> later w1 w3.
Proof.
  intros [H1 H1'] [H2 H2']. split.
  - intros k Hk. destruct (H1 k Hk) as [Hk2 ?]. destruct (H2 k Hk2). split; auto.
  - intros c Hc. destruct (H1' c Hc) as [Hc2 ?]. destruct (H2' c Hc2). split; auto.
Qed.

Lemma later_closed w w' k : later w w' -> used_conn w k = true -> conn_open w k = false -> conn_open w' k = false.
Proof. intros [Hl _] Hu Hc. destruct (conn_open w' k) eqn:E; [|done]. destruct (Hl k Hu) as [_ Ho]. rewrite Ho in Hc by done. done. Qed.

Lemma later_chan_closed w w' c : later w w' -> used_chan w c = true -> chan_open w c = false -> chan_open w' c = false.
Proof. intros [_ Hl] Hu Hc. destruct (chan_open w' c) eqn:E; [|done]. destruct (Hl c Hu) as [_ Ho]. rewrite Ho in Hc by done. done. Qed.

Lemma close_chan_later o w : later w (close_open chan_open chan_Close o w).2.
Proof. unfold close_open. destruct o; [|apply later_refl]. destruct (chan_open w n); [apply chan_close_later|apply later_refl]. Qed.

Lemma close_conn_spec o w : later w (close_open conn_open conn_Close o w).2 /\
  forall k, o = Some k -> conn_open (close_open conn_open conn_Close o w).2 k = false.
Proof.
  unfold close_open. destruct o as [k|]; [|by split; [apply later_refl|]].
  destruct (conn_open w k) eqn:E; split; try apply later_refl; try apply close_later; intros ? [= <-]; [apply close_closes|done].
Qed.

(** What the broker holds: one connection it has dialled, the only one that may be open. *)
Definition holds (conn_ ch_ : option nat) (ds : list nat) (w : world) : Prop :=
  (forall k, k ∈ ds -> used_conn w k = true /\ (conn_open w k = true -> conn_ = Some k)) /\
  (exists k, conn_ = Some k /\ k ∈ ds) /\ (exists c, ch_ = Some c /\ used_chan w c = true).

Lemma holds_later conn_ ch_ ds w w' : later w w' -> holds conn_ ch_ ds w -> holds conn_ ch_ ds w'.
Proof.
  intros Hl (Hd & Hk & c & Hc & Hu). split; [|split; [done|]].
  - intros k Hin. destruct (Hd k Hin) as [Hu' Ho]. destruct Hl as [Hl _]. destruct (Hl k Hu'). split; auto.
  - exists c. split; [done|]. by apply Hl.
Qed.

(** What [connect] does to the broker, on every branch. *)
Lemma node_connect_spec n x n' : node_connect n = (x, n') ->
  (forall k, k ∈ dialled n -> used_conn (net n) k = true /\ (conn_open (net n) k = true -> conn (broker n) = Some k)) ->
  later (net n) (net n') /\ loops n' = loops n /\
  done (broker n') = done (broker n) /\ reconnecting (broker n') = reconnecting (broker n) /\
  match x with
  | None => (exists k, conn (broker n') = Some k /\ watching n' = k :: watching n) /\
            holds (conn (broker n')) (ch (broker n')) (dialled n') (net n')
  | Some _ => broker n' = broker n /\ watching n' = watching n /\
      (holds (conn (broker n)) (ch (broker n)) (dialled n) (net n) ->
       holds (conn (broker n)) (ch (broker n)) (dialled n') (net n'))
  end.
Proof.
  intros E Hd. unfold node_connect, connect in E.
  destruct (DialConfig (URL cfg) (ConnectTimeout cfg) (net n)) as [[k|e] w1] eqn:Ed.
  2:{ simplify_eq. simpl. pose proof (dial_later (URL cfg) (ConnectTimeout cfg) (net n)) as Hl. rewrite Ed in Hl. simpl in Hl.
      do 4 (split; [done|]). split; [done|]. split; [done|]. intros Hh. by eapply holds_later. }
  pose proof (dial_later (URL cfg) (ConnectTimeout cfg) (net n)) as Hl1. rewrite Ed in Hl1. simpl in Hl1.
  destruct (dial_new _ _ _ _ _ Ed) as [Hnew Hused].
  pose proof (channel_later k w1) as Hl2. destruct (conn_Channel k w1) as [[c|e] w2] eqn:Ec; simpl in Hl2.
  - pose proof (close_chan_later (ch (broker n)) w2) as Hl3. set (w3 := (close_open chan_open chan_Close _ w2).2) in *.
    destruct (close_conn_spec (conn (broker n)) w3) as [Hl4 Hc4]. set (w4 := (close_open conn_open conn_Close _ w3).2) in *.
    simplify_eq. simpl.
    assert (later w1 w4) as H14 by (eapply later_trans; [exact Hl2|]; eapply later_trans; [exact Hl3|exact Hl4]).
    assert (later (net n) w4) as H04 by (eapply later_trans; [exact Hl1|exact H14]).
    do 4 (split; [done|]). split; [by eexists|]. split; [|split].
    + intros k' [-> | Hin]%elem_of_cons; [split; [by apply H14|done]|].
      destruct (Hd k' Hin) as [Hu Ho]. split; [by apply H04|]. intros Hop.
      assert (conn_open w4 k' = false) as Hcl; [|congruence]. apply Hc4, Ho. by apply (proj1 H04 k' Hu).
    + exists k. split; [done|]. apply elem_of_cons. by left.
    + exists c. split; [done|]. apply (later_trans _ _ _ Hl3 Hl4). by eapply channel_new.
  - simplify_eq. simpl. pose proof (close_later k w2) as Hl3. pose proof (close_closes k w2) as Hcl.
    assert (later w1 (conn_Close k w2).2) as H13 by by eapply later_trans.
    assert (later (net n) (conn_Close k w2).2) as H03 by by eapply later_trans.
    do 4 (split; [done|]). split; [done|]. split; [done|]. intros Hh.
    apply (holds_later _ _ _ _ _ H03) in Hh as (Hd' & (k0 & Hk0 & Hin0) & Hch). split; [|split; [|done]].
    + intros k' [-> | Hin]%elem_of_cons; [|by apply Hd']. split; [by apply H13|congruence].
    + exists k0. split; [done|]. apply elem_of_cons. by right.
Qed.

Definition dialing (p : phase) : option Z :=
  match p with Checking r | Connecting r => Some r | Returning => None end.

Definition binv (n : node) : Prop :=
  holds (conn (broker n)) (ch (broker n)) (dialled n) (net n) /\
  (if reconnecting (broker n) then exists p, loops n = [p] else loops n = []) /\
  (watching n = [] \/ exists k, conn (broker n) = Some k /\ watching n = [k]) /\
  (forall p r, p ∈ loops n -> dialing p = Some r ->
     watching n = [] /\ Second <= r <= maxRetry /\ is_open conn_open (conn (broker n)) (net n) = false).

Lemma holds_closed conn_ ch_ ds w w' : holds conn_ ch_ ds w -> later w w' ->
  is_open conn_open conn_ w = false -> is_open conn_open conn_ w' = false.
Proof.
  intros (Hd & (k & -> & Hin) & _) Hl. simpl. apply later_closed; [done|]. by apply Hd.
Qed.

Lemma app_single {A} (l1 l2 : list A) x y : l1 ++ x :: l2 = [y] -> l1 = [] /\ l2 = [] /\ x = y.
Proof. destruct l1 as [|? [|]]; intros [=]; by subst. Qed.

(** The single goroutine inside [reconnect]. *)
Lemma binv_loop n l1 p l2 : binv n -> loops n = l1 ++ p :: l2 ->
  l1 = [] /\ l2 = [] /\ loops n = [p] /\ reconnecting (broker n) = true.
Proof.
  intros (_ & Hf & _) E. destruct (reconnecting (broker n)).
  - destruct Hf as [q Hq]. rewrite Hq in E. destruct (app_single l1 l2 p q) as (-> & -> & ->); [done|]. done.
  - rewrite Hf in E. by destruct l1.
Qed.

(** The single goroutine that watches. *)
Lemma binv_watch n l1 k l2 : binv n -> watching n = l1 ++ k :: l2 ->
  l1 = [] /\ l2 = [] /\ watching n = [k] /\ conn (broker n) = Some k.
Proof.
  intros (_ & _ & [Hw|(k' & Hk & Hw)] & _) E; rewrite Hw in E; [by destruct l1|].
  destruct (app_single l1 l2 k k') as (-> & -> & ->); [done|]. done.
Qed.

Lemma Close_spec b w e b' w' : Close b w = (e, b', w') ->
  later w w' /\ conn b' = conn b /\ ch b' = ch b /\ reconnecting b' = reconnecting b.
Proof.
  unfold Close. destruct (done b); [intros [= <- <- <-]; by split; [apply later_refl|]|]. simpl.
  pose proof (close_chan_later (ch b) w) as H1. set (w1 := (close_open _ _ (ch b) w).2) in *.
  destruct (close_conn_spec (conn b) w1) as [H2 _]. destruct (close_open conn_open conn_Close (conn b) w1) as [e' w2].
  intros [= <- <- <-]. split; [by eapply later_trans|done].
Qed.

Lemma bstep_binv n n' : binv n -> bstep n n' -> binv n'.
Proof.
  intros Hi Hs. pose proof Hi as (Hh & Hf & Hw & Hp).
  destruct Hs as [n w Hl|n l1 k l2 E Hc|n l1 k l2 E Hdn|n l1 r l2 E Hdn|n l1 r l2 E Hdn|n l1 r l2 e n' E Hn|n l1 r l2 n' E Hn|n l1 l2 E|n e b w E].
  - split; [by eapply holds_later|]. split; [done|]. split; [done|].
    intros p r Hin Hr. destruct (Hp p r Hin Hr) as (? & ? & ?). do 2 (split; [done|]). by eapply holds_closed.
  - destruct (binv_watch _ _ _ _ Hi E) as (-> & -> & Hw' & Hk). unfold watch_fire.
    destruct (reconnecting (broker n)) eqn:Er.
    + split; [done|]. simpl. rewrite Er. split; [done|]. split; [by left|].
      intros p r Hin Hr. destruct (Hp p r Hin Hr) as (? & ?). congruence.
    + split; [done|]. simpl. rewrite Hf. split; [by eexists|]. split; [by left|].
      intros p r ->%list_elem_of_singleton [= <-]. split; [done|]. split; [done|]. by rewrite Hk.
  - destruct (binv_watch _ _ _ _ Hi E) as (-> & -> & Hw' & Hk). split; [done|]. split; [done|]. split; [by left|].
    intros p r Hin Hr. destruct (Hp p r Hin Hr) as (? & ?). congruence.
  - destruct (binv_loop _ _ _ _ Hi E) as (-> & -> & _ & _). split; [done|]. split; [done|]. split; [done|].
    by intros p r0 ?%elem_of_nil.
  - destruct (binv_loop _ _ _ _ Hi E) as (-> & -> & El & Er). destruct (Hp (Checking r) r) as (? & ? & ?); [rewrite El; set_solver|done|].
    split; [done|]. simpl. rewrite Er. split; [by eexists|]. split; [done|].
    by intros p r' ->%list_elem_of_singleton [= <-].
  - destruct (binv_loop _ _ _ _ Hi E) as (-> & -> & El & Er). destruct (Hp (Connecting r) r) as (Hwn & Hb & Hcl); [rewrite El; set_solver|done|].
    destruct (node_connect_spec _ _ _ Hn (proj1 Hh)) as (Hl & Hlo & Hdn & Hrc & Hbr & Hwt & Hh').
    split; [simpl; rewrite Hbr; by apply Hh'|]. simpl. rewrite Hrc, Er, Hwt, Hbr. split; [by eexists|]. split; [by left|].
    intros p r' ->%list_elem_of_singleton [= <-]. split; [done|]. split; [|by eapply holds_closed].
    unfold minDuration, maxRetry, Second in *. destruct (Z.ltb_spec (r * 2) (30 * 1000000000)); lia.
  - destruct (binv_loop _ _ _ _ Hi E) as (-> & -> & El & Er). destruct (Hp (Connecting r) r) as (Hwn & _ & _); [rewrite El; set_solver|done|].
    destruct (node_connect_spec _ _ _ Hn (proj1 Hh)) as (Hl & Hlo & Hdn & Hrc & (k & Hk & Hwt) & Hh').
    split; [done|]. simpl. rewrite Hrc, Er, Hwt, Hwn. split; [by eexists|]. split; [right; by exists k|].
    by intros p r' ->%list_elem_of_singleton.
  - destruct (binv_loop _ _ _ _ Hi E) as (-> & -> & _ & _). split; [done|]. split; [done|]. split; [done|].
    by intros p r0 ?%elem_of_nil.
  - destruct (Close_spec _ _ _ _ _ E) as (Hl & Hc & Hch & Hr). unfold binv. simpl. rewrite Hc, Hch, Hr.
    split; [by eapply holds_later|]. split; [done|]. split; [done|].
    intros p r Hin Hpr. destruct (Hp p r Hin Hpr) as (? & ? & ?). do 2 (split; [done|]). by eapply holds_closed.
Qed.

Lemma new_binv w n : NewConnection w = Ok n -> binv n /\ loops n = [] /\ done (broker n) = false /\ watching n <> [].
Proof.
  unfold NewConnection. destruct (node_connect _) as [[e|] n0] eqn:E; [done|]. intros [= <-].
  destruct (node_connect_spec _ _ _ E) as (_ & Hlo & Hdn & Hrc & (k & Hk & Hwt) & Hh); [by intros k0 ?%elem_of_nil|].
  simpl in *. split; [|by rewrite Hlo, Hdn, Hwt]. split; [done|]. rewrite Hrc, Hlo. split; [done|]. split; [right; by exists k|].
  by intros p r0 ?%elem_of_nil.
Qed.

Definition reaches (n : node) : Prop := exists w n0, NewConnection w = Ok n0 /\ runs bstep n0 n.

Lemma reaches_binv n : reaches n -> binv n.
Proof. intros (w & n0 & E & Hr). eapply runs_inv; [apply bstep_binv| |exact Hr]. by apply (new_binv _ _ E). Qed.

(** ** Supervision *)

Definition supervised (n : node) : Prop :=
  done (broker n) = false -> watching n <> [] \/ exists p r, loops n = [p] /\ dialing p = Some r.

Lemma patient_supervised n n' : binv n /\ supervised n -> patient n n' -> binv n' /\ supervised n'.
Proof.
  intros [Hi Hsup] [Hs Hpat]. split; [by eapply bstep_binv|]. intros Hd'.
  destruct Hs as [n w Hl|n l1 k l2 E Hc|n l1 k l2 E Hdn|n l1 r l2 E Hdn|n l1 r l2 E Hdn|n l1 r l2 e n' E Hn|n l1 r l2 n' E Hn|n l1 l2 E|n e b w E]; simpl in *.
  - by apply Hsup.
  - unfold watch_fire in *. destruct (reconnecting (broker n)) eqn:Er; simpl in *.
    + destruct Hi as (_ & Hf & _ & Hp). rewrite Er in Hf. destruct Hf as [p Hlp]. destruct (dialing p) as [r|] eqn:Epd.
      * right. by exists p, r.
      * destruct p; try done. left. rewrite Hpat; [by rewrite E; destruct l1|rewrite Hlp; set_solver|done].
    + destruct Hi as (_ & Hf & _ & _). rewrite Er in Hf. rewrite Hf. right. by do 2 eexists.
  - congruence.
  - congruence.
  - destruct (binv_loop _ _ _ _ Hi E) as (-> & -> & _ & _). right. by do 2 eexists.
  - destruct (binv_loop _ _ _ _ Hi E) as (-> & -> & _ & _). right. by do 2 eexists.
  - destruct Hi as ((Hd & _) & _). destruct (node_connect_spec _ _ _ Hn Hd) as (_ & _ & _ & _ & (k & _ & ->) & _). by left.
  - destruct (binv_loop _ _ _ _ Hi E) as (-> & -> & El & Er). destruct (Hsup Hd') as [?|(p & r & Hp & Hr)]; [by left|].
    rewrite El in Hp. by simplify_eq.
  - unfold Close in E. destruct (done (broker n)) eqn:Ed; [by simplify_eq; congruence|].
    destruct (close_open conn_open conn_Close _ _) as [e' w'] in E. by simplify_eq.
Qed.

(** What [connect] makes does not depend on the flag. *)
Lemma connect_flag v b w : connect (set_flag v b) w =
  let '(e, b', w') := connect b w in (e, match e with None => set_flag v b' | Some _ => set_flag v b end, w').
Proof. unfold connect. repeat case_match; by simplify_eq. Qed.

(** A node that differs from [n] in its goroutines and the flag only. *)
Definition same_net (n n' : node) : Prop :=
  net n' = net n /\ exists v, broker n' = set_flag v (broker n).

Lemma set_flag_same b : exists v, b = set_flag v b.
Proof. exists (reconnecting b). by destruct b. Qed.

(** A closed connection leads a supervised broker to a new attempt. *)
Lemma supervised_dials n : binv n -> supervised n -> done (broker n) = false ->
  is_open conn_open (conn (broker n)) (net n) = false ->
  exists n' r, runs bstep n n' /\ same_net n n' /\ loops n' = [Connecting r].
Proof.
  intros Hi Hsup Hd Hcl.
  assert (forall n1 r, runs bstep n n1 -> same_net n n1 -> loops n1 = [Checking r] ->
            exists n' r, runs bstep n n' /\ same_net n n' /\ loops n' = [Connecting r]) as Hgo.
  { intros n1 r Hr [Hn (v & Hb)] Hl. exists (with_loops [Connecting r] n1), r. split; [|by split; [split; [|exists v]|]].
    eapply runs_step; [exact Hr|]. apply (b_go n1 [] r []); [done|by rewrite Hb]. }
  assert (forall n1, runs bstep n n1 -> same_net n n1 -> watching n1 = watching n -> watching n <> [] ->
            reconnecting (broker n1) = false -> loops n1 = [] ->
            exists n' r, runs bstep n n' /\ same_net n n' /\ loops n' = [Connecting r]) as Hfire.
  { intros n1 Hr [Hn (v & Hb)] Hw Hne Hrc Hl. destruct Hi as (_ & _ & [?|(k & Hk & Hwk)] & _); [done|].
    apply (Hgo (watch_fire [] n1) Second).
    - eapply runs_step; [exact Hr|]. apply (b_fire n1 [] k []); [by rewrite Hw|]. rewrite Hn. by rewrite Hk in Hcl.
    - unfold watch_fire. rewrite Hrc. split; [done|]. exists true. simpl. by rewrite Hb.
    - unfold watch_fire. rewrite Hrc. simpl. by rewrite Hl. }
  destruct (Hsup Hd) as [Hw|(p & r & Hl & Hp)].
  - pose proof Hi as (_ & Hf & _ & Hdial). destruct (reconnecting (broker n)) eqn:Er.
    + destruct Hf as [p Hl]. destruct (dialing p) as [r|] eqn:Ep.
      { destruct (Hdial p r) as [? _]; [rewrite Hl; set_solver|done|done]. }
      destruct p; try done. apply (Hfire (leave [] n)); try done.
      * eapply runs_step; [apply runs_refl|]. by apply (b_leave n [] []).
      * split; [done|]. by exists false.
    + apply (Hfire n); try done; [apply runs_refl|]. split; [done|]. apply set_flag_same.
  - destruct p as [r'|r'|]; try done.
    + apply (Hgo n r'); [apply runs_refl| |done]. split; [done|]. apply set_flag_same.
    + exists n, r'. split; [apply runs_refl|]. split; [|done]. split; [done|]. apply set_flag_same.
Qed.

Lemma node_connect_ok n b w : connect (broker n) (net n) = (None, b, w) ->
  exists n', node_connect n = (None, n') /\ broker n' = b /\ net n' = w.
Proof. intros E. unfold node_connect. rewrite E. by eexists. Qed.

(** ** A broker that nobody supervises *)

Definition abandoned (n : node) : Prop :=
  binv n /\ watching n = [] /\ loops n = [] /\ is_open conn_open (conn (broker n)) (net n) = false.

Lemma abandoned_step n n' : abandoned n -> bstep n n' -> abandoned n'.
Proof.
  intros (Hi & Hw & Hl & Hc) Hs. pose proof (bstep_binv _ _ Hi Hs) as Hi'. split; [done|].
  pose proof Hi as (Hh & _).
  destruct Hs as [n w Hlt|n l1 k l2 E Hcl|n l1 k l2 E Hdn|n l1 r l2 E Hdn|n l1 r l2 E Hdn|n l1 r l2 e n' E Hn|n l1 r l2 n' E Hn|n l1 l2 E|n e b w E];
    try (rewrite ?Hw, ?Hl in E; by destruct l1).
  - split; [done|]. split; [done|]. by eapply holds_closed.
  - destruct (Close_spec _ _ _ _ _ E) as (Hlt & Hcb & _ & _). split; [done|]. split; [done|]. simpl. rewrite Hcb. by eapply holds_closed.
Qed.

Lemma closed_unavailable b w : is_open conn_open (conn b) w && is_open chan_open (ch b) w = false ->
  Channel None b w = Err ErrConnectionNotAvailable.
Proof. unfold Channel. by intros ->. Qed.

(** ** A closed channel on an open connection *)

Definition stuck (k c : nat) (n : node) : Prop :=
  binv n /\ conn (broker n) = Some k /\ conn_open (net n) k = true /\
  ch (broker n) = Some c /\ chan_open (net n) c = false.

Lemma stuck_step k c n n' : stuck k c n -> quiet k n n' -> stuck k c n'.
Proof.
  intros (Hi & Hk & Ho & Hc & Hcl) [Hs Ho']. pose proof (bstep_binv _ _ Hi Hs) as Hi'.
  pose proof Hi as ((_ & _ & c' & Hc' & Hu) & _ & _ & Hdial). rewrite Hc in Hc'. simplify_eq.
  assert (forall r l1 l2, loops n = l1 ++ Connecting r :: l2 -> False) as Hnot.
  { intros r l1 l2 E. destruct (Hdial (Connecting r) r) as (_ & _ & Hf); [rewrite E; set_solver|done|].
    rewrite Hk in Hf. simpl in Hf. congruence. }
  destruct Hs as [n w Hlt|n l1 k' l2 E Hcl'|n l1 k' l2 E Hdn|n l1 r l2 E Hdn|n l1 r l2 E Hdn|n l1 r l2 e n' E Hn|n l1 r l2 n' E Hn|n l1 l2 E|n e b w E];
    try (by destruct (Hnot _ _ _ E)); split; try done.
  - do 3 (split; [done|]). by eapply later_chan_closed.
  - unfold watch_fire. by destruct (reconnecting (broker n)).
  - destruct (Close_spec _ _ _ _ _ E) as (Hlt & Hcb & Hchb & _). simpl. rewrite Hcb, Hchb. do 3 (split; [done|]).
    by eapply later_chan_closed.
Qed.

(** ** Properties *)

(** C9: In every state the broker reaches, under every interleaving of its goroutines, the
    network, [Close] and failed attempts, the only connection of those it has dialled that
    can be open is the one it holds; at most one goroutine reconnects, and its delay is
    between one second and thirty. *)
Theorem broker_one_connection n : reaches n ->
  (forall k, k ∈ dialled n -> conn_open (net n) k = true -> conn (broker n) = Some k) /\
  (length (loops n) <= 1)%nat /\
  (forall p r, p ∈ loops n -> dialing p = Some r -> Second <= r <= maxRetry).
Proof.
  intros ((Hd & _) & Hf & _ & Hp)%reaches_binv. split; [intros k Hk; by apply Hd|]. split.
  - destruct (reconnecting (broker n)); [destruct Hf as [p ->]|rewrite Hf]; simpl; lia.
  - intros p r Hin Hr. by destruct (Hp p r Hin Hr) as (_ & ? & _).
Qed.

(** C10: As long as no new connection closes before the goroutine that made it has left
    [reconnect], the broker recovers: whenever its connection has closed and it has not
    been closed itself, and the server accepts a connection and a channel, some run of its
    goroutines makes that connection and channel its own. *)
Theorem broker_recovers w0 n0 n b w : NewConnection w0 = Ok n0 -> runs patient n0 n ->
  done (broker n) = false -> is_open conn_open (conn (broker n)) (net n) = false ->
  connect (broker n) (net n) = (None, b, w) ->
  exists n', runs bstep n n' /\ conn (broker n') = conn b /\ ch (broker n') = ch b /\ net n' = w.
Proof.
  intros E0 Hr Hd Hcl Hc. destruct (new_binv _ _ E0) as (Hi0 & _ & _ & Hw0).
  assert (binv n /\ supervised n) as [Hi Hsup].
  { apply (runs_inv patient (fun n => binv n /\ supervised n) n0 n patient_supervised); [|done]. split; [done|]. by left. }
  destruct (supervised_dials n Hi Hsup Hd Hcl) as (n1 & r & Hr1 & [Hn (v & Hb)] & Hl).
  assert (connect (broker n1) (net n1) = (None, set_flag v b, w)) as Hc1 by (rewrite Hn, Hb, connect_flag, Hc; done).
  destruct (node_connect_ok _ _ _ Hc1) as (n2 & Hn2 & Hb2 & Hw2).
  exists (with_loops [Returning] n2). split; [|simpl; by rewrite Hb2].
  eapply runs_step; [exact Hr1|]. by apply (b_connected n1 [] r []).
Qed.

(** When the new connection closes before the goroutine that made it has reset the
    reconnecting flag, the goroutine that watches it finds the flag set and gives up:
    nobody watches or reconnects, and whatever the server does afterwards [Channel]
    returns an error for ever. *)
Theorem reconnect_lost n k : reaches n -> loops n = [Returning] -> watching n = [k] -> conn_open (net n) k = false ->
  exists n', runs bstep n n' /\
    forall n'', runs bstep n' n'' -> Channel None (broker n'') (net n'') = Err ErrConnectionNotAvailable.
Proof.
  intros Hi%reaches_binv Hl Hw Hc. destruct (binv_watch n [] k [] Hi) as (_ & _ & _ & Hk); [done|].
  destruct (binv_loop n [] Returning [] Hi) as (_ & _ & _ & Hr); [done|].
  set (n1 := watch_fire [] n). assert (bstep n n1) as H1 by by apply (b_fire n [] k []).
  assert (n1 = mkNode (broker n) [] (loops n) (dialled n) (net n)) as E1 by (unfold n1, watch_fire; by rewrite Hr).
  assert (bstep n1 (leave [] n1)) as H2 by (apply (b_leave n1 [] []); by rewrite E1).
  exists (leave [] n1). split; [by eapply runs_step; [eapply runs_step; [apply runs_refl|]|]|].
  intros n'' Hrun. assert (abandoned n'') as (_ & _ & _ & Hcl).
  { eapply (runs_inv bstep abandoned); [apply abandoned_step| |exact Hrun]. split; [by eapply bstep_binv; [eapply bstep_binv|]|].
    rewrite E1. simpl. by rewrite Hk. }
  apply closed_unavailable. by rewrite Hcl.
Qed.

(** When the channel of the broker has been closed (a consumer that failed, a
    publisher that was closed, a refused declaration), nothing opens another one while the
    connection lives: [Channel] returns an error in every state reached before the
    connection closes. *)
Theorem closed_channel_stuck n k c n' : reaches n -> conn (broker n) = Some k -> conn_open (net n) k = true ->
  ch (broker n) = Some c -> chan_open (net n) c = false -> runs (quiet k) n n' ->
  Channel None (broker n') (net n') = Err ErrConnectionNotAvailable.
Proof.
  intros Hi%reaches_binv Hk Ho Hc Hcl Hr.
  assert (stuck k c n') as (_ & _ & _ & Hc' & Hcl').
  { eapply (runs_inv (quiet k) (stuck k c)); [apply stuck_step| |exact Hr]. by split. }
  apply closed_unavailable. rewrite Hc'. simpl. rewrite Hcl'. apply andb_false_r.
Qed.

(** When [Close] runs between the check of [done] and [connect], the new connection stays
    open: the broker is closed, no goroutine of it reconnects, and a second [Close] is
    refused. *)
Theorem close_during_reconnect n r e b1 w1 b w : reaches n -> done (broker n) = false -> loops n = [Connecting r] ->
  Close (broker n) (net n) = (e, b1, w1) -> connect b1 w1 = (None, b, w) -> is_open conn_open (conn b) w = true ->
  exists n', runs bstep n n' /\ done (broker n') = true /\ loops n' = [] /\
    is_open conn_open (conn (broker n')) (net n') = true /\
    forall w', Close (broker n') w' = (Some "broker already closed", broker n', w').
Proof.
  intros Hi%reaches_binv Hd Hl Ecl Ec Ho.
  set (n1 := mkNode b1 (watching n) (loops n) (dialled n) w1).
  assert (bstep n n1) as H1 by by eapply b_close.
  assert (done b1 = true) as Hd1.
  { unfold Close in Ecl. rewrite Hd in Ecl. destruct (close_open conn_open conn_Close _ _) in Ecl. by simplify_eq. }
  destruct (node_connect_ok n1 b w Ec) as (n2 & Hn2 & Hb2 & Hw2).
  assert (done b = true) as Hdb.
  { pose proof (bstep_binv _ _ Hi H1) as ((Hd' & _) & _).
    destruct (node_connect_spec _ _ _ Hn2 Hd') as (_ & _ & Hdn & _). simpl in Hdn. congruence. }
  exists (leave [] (with_loops [Returning] n2)). simpl. rewrite Hb2, Hw2. split.
  - eapply runs_step; [eapply runs_step; [eapply runs_step; [apply runs_refl|exact H1]|]|].
    + by apply (b_connected n1 [] r []).
    + by apply (b_leave _ [] []).
  - do 3 (split; [done|]). intros w'. unfold Close. simpl. by rewrite Hdb.
Qed.

End Broker.

(** ** A server that accepts everything *)

(** Connections and channels are numbered in turn; the lists hold the closed ones. *)
Record demo_world := mkDemo { conns_made : nat; conns_closed : list nat; chans_made : nat; chans_closed : list nat }.

Definition demo_open (made : nat) (closed : list nat) (i : nat) : bool :=
  bool_decide (i < made)%nat && bool_decide (i ∉ closed).

#[local] Instance demo_amqp : AMQP := {
  world := demo_world;
  conn_open w k := demo_open (conns_made w) (conns_closed w) k;
  used_conn w k := bool_decide (k < conns_made w)%nat;
  chan_open w c := demo_open (chans_made w) (chans_closed w) c;
  used_chan w c := bool_decide (c < chans_made w)%nat;
  DialConfig _ _ w := (Ok (conns_made w), mkDemo (S (conns_made w)) (conns_closed w) (chans_made w) (chans_closed w));
  conn_Channel _ w := (Ok (chans_made w), mkDemo (conns_made w) (conns_closed w) (S (chans_made w)) (chans_closed w));
  conn_Close k w := (None, mkDemo (conns_made w) (k :: conns_closed w) (chans_made w) (chans_closed w));
  chan_Close c w := (None, mkDemo (conns_made w) (conns_closed w) (chans_made w) (c :: chans_closed w))
}.

Lemma demo_later w w' : (conns_made w <= conns_made w')%nat -> conns_closed w ⊆ conns_closed w' ->
  (chans_made w <= chans_made w')%nat -> chans_closed w ⊆ chans_closed w' -> later w w'.
Proof.
  intros H1 H2 H3 H4. unfold later, demo_open. simpl. unfold demo_open.
  split; intros k Hk; rewrite ?bool_decide_eq_true, ?andb_true_iff, ?bool_decide_eq_true in *; (split; [lia|]);
    intros [_ Hn]; (split; [done|]); set_solver.
Qed.

#[local] Instance demo_laws : AMQPLaws.
Proof.
  split; intros; try (apply demo_later; simpl; (lia || set_solver)); simpl in *; simplify_eq; simpl.
  - rewrite bool_decide_eq_false, bool_decide_eq_true. lia.
  - apply bool_decide_eq_true. lia.
  - unfold demo_open. rewrite andb_false_iff, !bool_decide_eq_false. right. set_solver.
Qed.

Definition demo_cfg : Config := mkConfig "amqp://localhost" (10 * Second).

(** The broker after [NewConnection], after its connection has dropped and after the new
    connection has dropped too, before the goroutine has left [reconnect]. *)
Definition demo_n0 : node := mkNode (mkConn (Some 0%nat) (Some 0%nat) false false) [0%nat] [] [0%nat] (mkDemo 1 [] 1 []).
Definition demo_drop (ks : list nat) (cs : list nat) (n : node) : node :=
  mkNode (broker n) (watching n) (loops n) (dialled n)
    (mkDemo (conns_made (net n)) (ks ++ conns_closed (net n)) (chans_made (net n)) (cs ++ chans_closed (net n))).

Lemma demo_drop_step ks cs n : bstep demo_cfg n (demo_drop ks cs n).
Proof. apply b_net, demo_later; simpl; (lia || set_solver). Qed.

Lemma demo_new : NewConnection demo_cfg (mkDemo 0 [] 0 []) = Ok demo_n0.
Proof. reflexivity. Qed.

Definition demo_dropped : node := demo_drop [0%nat] [] demo_n0.
Definition demo_dialing : node := with_loops [Connecting Second] (watch_fire [] demo_dropped).
Definition demo_returning : node := with_loops [Returning] (node_connect demo_cfg demo_dialing).2.

Lemma demo_dropped_runs : runs (patient demo_cfg) demo_n0 demo_dropped.
Proof. eapply runs_step; [apply runs_refl|]. split; [apply demo_drop_step|]. by intros ?%elem_of_nil. Qed.

Lemma demo_reaches n : runs (bstep demo_cfg) demo_n0 n -> reaches demo_cfg n.
Proof. intros Hr. eexists _, demo_n0. split; [apply demo_new|exact Hr]. Qed.

Lemma demo_dialing_runs : runs (bstep demo_cfg) demo_n0 demo_dialing.
Proof.
  eapply runs_step; [eapply runs_step; [eapply runs_step; [apply runs_refl|apply (demo_drop_step [0%nat] [])]|]|].
  - apply (b_fire demo_cfg demo_dropped [] 0%nat []); reflexivity.
  - apply (b_go demo_cfg (watch_fire [] demo_dropped) [] Second []); reflexivity.
Qed.

Lemma demo_lost_runs : runs (bstep demo_cfg) demo_n0 (demo_drop [1%nat] [] demo_returning).
Proof.
  eapply runs_step; [eapply runs_step; [apply demo_dialing_runs|]|apply demo_drop_step].
  apply (b_connected demo_cfg demo_dialing [] Second [] (node_connect demo_cfg demo_dialing).2); reflexivity.
Qed.

Lemma broker_one_connection_witness : (length (loops (demo_drop [1%nat] [] demo_returning)) <= 1)%nat.
Proof. exact (proj1 (proj2 (broker_one_connection demo_cfg _ (demo_reaches _ demo_lost_runs)))). Defined.

Lemma broker_recovers_witness : exists n', runs (bstep demo_cfg) demo_dropped n' /\
  conn (broker n') = Some 1%nat /\ ch (broker n') = Some 1%nat /\ net n' = mkDemo 2 [0%nat] 2 [0%nat].
Proof.
  apply (@broker_recovers demo_amqp demo_laws demo_cfg (mkDemo 0 [] 0 []) demo_n0 demo_dropped
           (mkConn (Some 1%nat) (Some 1%nat) false false) (mkDemo 2 [0%nat] 2 [0%nat]));
    [exact demo_new|exact demo_dropped_runs|reflexivity|reflexivity|reflexivity].
Defined.

Lemma reconnect_lost_witness : exists n', runs (bstep demo_cfg) (demo_drop [1%nat] [] demo_returning) n' /\
  forall n'', runs (bstep demo_cfg) n' n'' -> Channel None (broker n'') (net n'') = Err ErrConnectionNotAvailable.
Proof.
  apply (reconnect_lost demo_cfg _ 1%nat (demo_reaches _ demo_lost_runs)); reflexivity.
Defined.

Lemma closed_channel_stuck_witness :
  Channel None (broker (demo_drop [] [0%nat] demo_n0)) (net (demo_drop [] [0%nat] demo_n0)) = Err ErrConnectionNotAvailable.
Proof.
  apply (closed_channel_stuck demo_cfg (demo_drop [] [0%nat] demo_n0) 0%nat 0%nat (demo_drop [] [0%nat] demo_n0)).
  - apply demo_reaches. eapply runs_step; [apply runs_refl|apply demo_drop_step].
  - reflexivity.
  - reflexivity.
  - reflexivity.
  - reflexivity.
  - apply runs_refl.
Defined.

End RabbitBroker.
