(* ===== verification/RabbitClients.v ===== *)
(** * RabbitMQ publisher and consumer: src/infra/pubsub/rabbitmq (publisher.go, consumer.go)

    Both use the one channel of the broker.  The publisher reads confirmations from a
    listener on that channel; of the consumer, the settings, the answer to a delivery and the delays of its loop are here,
    its goroutines are in RabbitConsumer.v. *)
From stdpp Require Import prelude strings list gmap.
From Stdlib Require Import ZArith Lia.
From S2P Require Import Prelude RabbitBroker.

Local Open Scope Z_scope.

Module RabbitClients.
Import RabbitBroker.

(** ** Configurations *)

Record PublisherConfig := mkPC { MaxRetries : Z; ConfirmationTimeout : Z; Confirmation : bool }.

Definition NewPublisherConfig (opts : list (PublisherConfig -> PublisherConfig)) : res string PublisherConfig :=
  let cfg := foldl (fun c o => o c) (mkPC 3 (5 * Second) true) opts in
  if MaxRetries cfg <=? 0 then Err "publisher max retries must be > 0"
  else if ConfirmationTimeout cfg <=? 0 then Err "publisher confirmation timeout must be > 0"
  else Ok cfg.

Definition WithPublisherMaxRetries (n : Z) : PublisherConfig -> PublisherConfig :=
  fun c => mkPC n (ConfirmationTimeout c) (Confirmation c).
Definition WithPublisherConfirmationTimeout (t : Z) : PublisherConfig -> PublisherConfig :=
  fun c => mkPC (MaxRetries c) t (Confirmation c).
Definition WithConfirmation (v : bool) : PublisherConfig -> PublisherConfig :=
  fun c => mkPC (MaxRetries c) (ConfirmationTimeout c) v.

Record ConsumerConfig := mkCC { Tag : string; MaxWorkers : Z; ReconnectDelay : Z; ProcessingTimeout : Z }.

Definition NewConsumerConfig (tag : string) (opts : list (ConsumerConfig -> ConsumerConfig)) : res string ConsumerConfig :=
  if decide (tag = "") then Err "tag is required"
  else
    let cfg := foldl (fun c o => o c) (mkCC tag 1 (5 * Second) (30 * Second)) opts in
    if MaxWorkers cfg <=? 0 then Err "max workers must be > 0"
    else if ReconnectDelay cfg <=? 0 then Err "reconnect delay must be > 0"
    else if ProcessingTimeout cfg <=? 0 then Err "processing timeout must be > 0"
    else Ok cfg.

Definition WithConsumerMaxWorkers (n : Z) : ConsumerConfig -> ConsumerConfig :=
  fun c => mkCC (Tag c) n (ReconnectDelay c) (ProcessingTimeout c).
Definition WithConsumerReconnectDelay (d : Z) : ConsumerConfig -> ConsumerConfig :=
  fun c => mkCC (Tag c) (MaxWorkers c) d (ProcessingTimeout c).
Definition WithConsumerProcessingTimeout (d : Z) : ConsumerConfig -> ConsumerConfig :=
  fun c => mkCC (Tag c) (MaxWorkers c) (ReconnectDelay c) d.

(** ** The publisher *)

Inductive perr :=
| EEnsure (e : string) | EPublish (e : string) | EConfirmClosed | ENacked | ETimeout | EContext (e : string)
| EExhausted.

(** [errors.Is(err, context.Canceled) || errors.Is(err, context.DeadlineExceeded)]: the
    errors of the library are wrapped with %v and are not seen through. *)
Definition is_context (e : perr) : bool := match e with EContext _ => true | _ => false end.

(** [confirmCh] is the tag of the last confirmation read from the listener. *)
Record MessagePublisher := mkPub { p_channel : option nat; p_confirm : option nat }.

(** Why the select of [doPublish] ends without a confirmation. *)
Inductive given_up := Timeout | CtxDone (e : string) | ConfirmClosed.

(** What an attempt meets: the answers of [Confirm] and [PublishWithContext], the number of
    confirmations that have arrived when the select ends, and how it ends without one. *)
Record attempt := mkAttempt {
  a_confirm : option string; a_publish : option string; a_arrived : nat; a_else : given_up
}.

Section Publisher.
Context `{L : AMQPLaws} (cfg : PublisherConfig).
(** The answer of the server for a tag of a channel: acknowledged or not.  A listener gets
    the confirmations of all tags published on its channel after its registration, in order. *)
Context (ack : nat -> nat -> bool).

(** The network and, for each channel, the number of messages published on it. *)
Record wire := mkWire { w_net : world; w_sent : gmap nat nat }.

Definition sent_on (c : nat) (x : wire) : nat := default 0%nat (w_sent x !! c).

Definition ensureChannel (confirm : option string) (b : Connection) (p : MessagePublisher) (x : wire)
  : option string * MessagePublisher * wire :=
  if is_open chan_open (p_channel p) (w_net x) then (None, p, x)
  else match Channel None b (w_net x) with
       | Err e => (Some ("recreate channel: " +:+ e), p, x)
       | Ok c =>
           if Confirmation cfg then
             match confirm with
             | Some e => (Some ("enable confirm mode: " +:+ e), p, mkWire (chan_Close c (w_net x)).2 (w_sent x))
             | None => (None, mkPub (Some c) (Some (sent_on c x)), x)
             end
           else (None, mkPub (Some c) None, x)
       end.

Definition NewPublisher (confirm : option string) (b : Connection) (x : wire)
  : res string MessagePublisher * wire :=
  match ensureChannel confirm b (mkPub None None) x with
  | (Some e, _, x) => (Err ("init channel: " +:+ e), x)
  | (None, p, x) => (Ok p, x)
  end.

(** The message handed to the library on channel [c]. *)
Definition publish_on (c : nat) (x : wire) : wire := mkWire (w_net x) (<[c := S (sent_on c x)]> (w_sent x)).

Definition doPublish (a : attempt) (b : Connection) (p : MessagePublisher) (x : wire)
  : option perr * MessagePublisher * wire :=
  match ensureChannel (a_confirm a) b p x with
  | (Some e, p, x) => (Some (EEnsure e), p, x)
  | (None, p, x) =>
      match a_publish a, p_channel p with
      | Some e, _ => (Some (EPublish e), p, x)
      | None, None => (None, p, x)
      | None, Some c =>
          let x := publish_on c x in
          if negb (Confirmation cfg) then (None, p, x)
          else
            let gave_up := (Some (match a_else a with
                                  | Timeout => ETimeout | CtxDone e => EContext e | ConfirmClosed => EConfirmClosed
                                  end), p, x) in
            match p_confirm p with
            | Some r =>
                if (r <? a_arrived a)%nat && (a_arrived a <=? sent_on c x)%nat
                then (if ack c (S r) then None else Some ENacked, mkPub (Some c) (Some (S r)), x)
                else gave_up
            | None => gave_up
            end
      end
  end.

(** The loop of [Publish]: [n] attempts are left, [i] have been made; [ctx_done i] is the
    error of the context when it ends during the wait after attempt [i]. *)
Fixpoint publish_loop (n : nat) (i : Z) (attempts : Z -> attempt) (ctx_done : Z -> option string)
    (b : Connection) (p : MessagePublisher) (x : wire) : option perr * list Z * MessagePublisher * wire :=
  match n with
  | 0%nat => (Some EExhausted, [], p, x)
  | S n =>
      match doPublish (attempts i) b p x with
      | (None, p, x) => (None, [], p, x)
      | (Some e, p, x) =>
          if is_context e then (Some e, [], p, x)
          else match ctx_done i with
               | Some e => (Some (EContext e), [], p, x)
               | None =>
                   let '(r, waits, p, x) := publish_loop n (i + 1) attempts ctx_done b p x in
                   (r, (i + 1) * Second :: waits, p, x)
               end
      end
  end.

Definition Publish (attempts : Z -> attempt) (ctx_done : Z -> option string)
    (b : Connection) (p : MessagePublisher) (x : wire) : option perr * list Z * MessagePublisher * wire :=
  publish_loop (Z.to_nat (MaxRetries cfg)) 0 attempts ctx_done b p x.

Definition Publisher_Close (p : MessagePublisher) (x : wire) : option string * wire :=
  match p_channel p with
  | Some c => if chan_open (w_net x) c
              then let '(e, w) := chan_Close c (w_net x) in (e, mkWire w (w_sent x))
              else (None, x)
  | None => (None, x)
  end.

End Publisher.

(** ** The consumer *)

Record delivery := mkDelivery { d_message : nat; Redelivered : bool }.

Inductive answer := Ack | Nack (requeue : bool).

(** [processMessage]: the answer to a delivery. *)
Definition processMessage (failed : bool) (d : delivery) : answer :=
  if failed then Nack (negb (Redelivered d)) else Ack.

(** What a turn of [consumeLoop] meets: no channel, a failure of [consumeMessages], or its
    return without an error, which happens when the context is done. *)
Inductive turn := NoChannel | ConsumeFailed | Finished.

(** The delays slept by the loop and the delay of the next sleep. *)
Fixpoint consume_loop (reconnectDelay : Z) (turns : list turn) (retryDelay : Z) : list Z * Z :=
  match turns with
  | [] => ([], retryDelay)
  | Finished :: _ => ([], Second)
  | (NoChannel | ConsumeFailed) :: turns =>
      let '(l, d) := consume_loop reconnectDelay turns (Z.min (wrap_signed 64 (retryDelay * 2)) reconnectDelay) in
      (retryDelay :: l, d)
  end.

(** ** Publishers that share a channel *)

Section Sharing.
Context `{L : AMQPLaws} (cfg : PublisherConfig) (ack : nat -> nat -> bool) (b : Connection).

(** Publisher [i] makes attempt [a]. *)
Definition share_step (s : gmap nat MessagePublisher * wire) (e : nat * attempt) : gmap nat MessagePublisher * wire :=
  match s.1 !! e.1 with
  | Some p => let '(_, p', x') := doPublish cfg ack e.2 b p s.2 in (<[e.1 := p']> s.1, x')
  | None => s
  end.

(** The attempt ends with a confirmation. *)
Definition reads (a : attempt) (c : nat) (p : MessagePublisher) (x : wire) : bool :=
  match p_confirm p with
  | Some r => (r <? a_arrived a)%nat && (a_arrived a <=? S (sent_on c x))%nat
  | None => false
  end.

(** The messages published on the channel whose confirmations publisher [i] has not read:
    those of others and its own attempts that gave up waiting. *)
Fixpoint misses (i c : nat) (l : list (nat * attempt)) (s : gmap nat MessagePublisher * wire) : nat :=
  match l with
  | [] => 0
  | (j, a) :: l =>
      ((match s.1 !! j with
        | Some p => if decide (j = i) then (if reads a c p s.2 then 0 else 1) else 1
        | None => 0
        end) + misses i c l (share_step s (j, a)))%nat
  end.

Definition verdict (v : bool) : option perr := if v then None else Some ENacked.

(** All publishers of [s] are in confirm mode on the open channel [c]. *)
Definition sharing (c : nat) (s : gmap nat MessagePublisher * wire) : Prop :=
  chan_open (w_net s.2) c = true /\ (forall j p, s.1 !! j = Some p -> exists r, p = mkPub (Some c) (Some r)).

Lemma publish_on_sent c x : sent_on c (publish_on c x) = S (sent_on c x).
Proof. unfold sent_on, publish_on. simpl. by rewrite lookup_insert_eq. Qed.

Lemma doPublish_open a c r x : Confirmation cfg = true -> chan_open (w_net x) c = true -> a_publish a = None ->
  exists e, doPublish cfg ack a b (mkPub (Some c) (Some r)) x =
    (e, mkPub (Some c) (Some (if reads a c (mkPub (Some c) (Some r)) x then S r else r)), publish_on c x) /\
    (reads a c (mkPub (Some c) (Some r)) x = true -> e = verdict (ack c (S r))).
Proof.
  intros Hc Ho Hp. unfold doPublish, ensureChannel, reads. simpl. rewrite Ho, Hp, Hc. simpl.
  rewrite publish_on_sent. destruct (_ && _); eexists; (split; [done|]); [done|discriminate].
Qed.

Lemma share_step_sharing c s e : Confirmation cfg = true -> sharing c s -> a_publish e.2 = None -> sharing c (share_step s e).
Proof.
  intros Hc [Ho Hall] Hp. unfold share_step. destruct (s.1 !! e.1) as [p|] eqn:E; [|done].
  destruct (Hall _ _ E) as [r ->]. destruct (doPublish_open e.2 c r s.2 Hc Ho Hp) as (x & -> & _).
  split; [done|]. simpl. intros j p [[<- <-]|[_ Hj]]%lookup_insert_Some; [by eexists|by eapply Hall].
Qed.

(** How far publisher [i] is behind after a session. *)
Lemma session_gap c i l : Confirmation cfg = true -> Forall (fun e => a_publish e.2 = None) l ->
  forall s r, sharing c s -> s.1 !! i = Some (mkPub (Some c) (Some r)) -> (r <= sent_on c s.2)%nat ->
  let s' := foldl share_step s l in
  sharing c s' /\ exists r', s'.1 !! i = Some (mkPub (Some c) (Some r')) /\
    (sent_on c s'.2 - r' = sent_on c s.2 - r + misses i c l s)%nat /\ (r' <= sent_on c s'.2)%nat.
Proof.
  intros Hc. induction l as [|[j a] l IH]; intros Hl s r Hsh Hi Hle; simpl.
  { split; [done|]. exists r. split; [done|]. lia. }
  apply Forall_cons in Hl as [Hp Hl]. simpl in Hp. pose proof (share_step_sharing c s (j, a) Hc Hsh Hp) as Hsh'.
  assert (exists r1, (share_step s (j, a)).1 !! i = Some (mkPub (Some c) (Some r1)) /\
    (r1 <= sent_on c (share_step s (j, a)).2)%nat /\
    (sent_on c (share_step s (j, a)).2 - r1 = sent_on c s.2 - r +
     match s.1 !! j with Some p => if decide (j = i) then if reads a c p s.2 then 0 else 1 else 1 | None => 0 end)%nat) as (r1 & Hi1 & Hle1 & Hgap).
  { unfold share_step. simpl. destruct (s.1 !! j) as [p|] eqn:E; [|exists r; split; [done|lia]].
    destruct Hsh as [Ho Hall]. destruct (Hall _ _ E) as [rj ->].
    destruct (doPublish_open a c rj s.2 Hc Ho Hp) as (x & -> & _). simpl. rewrite publish_on_sent.
    destruct (decide (j = i)) as [->|Hne].
    - rewrite E in Hi. simplify_eq. rewrite lookup_insert_eq.
      destruct (reads a c (mkPub (Some c) (Some r)) s.2); eexists; (split; [done|]); lia.
    - rewrite lookup_insert_ne by done. exists r. split; [done|]. lia. }
  destruct (IH Hl _ r1 Hsh' Hi1 Hle1) as (Hs' & r' & Hr' & Hg & Hle'). split; [done|]. exists r'. split; [done|]. lia.
Qed.

End Sharing.

(** ** Retries *)

Section Retries.
Context `{L : AMQPLaws} (cfg : PublisherConfig) (ack : nat -> nat -> bool).

Lemma doPublish_sent a b p x e p' x' c : doPublish cfg ack a b p x = (e, p', x') ->
  (sent_on c x <= sent_on c x' <= S (sent_on c x))%nat.
Proof.
  unfold doPublish. destruct (ensureChannel _ _ _ _ _) as [[e0 p0] x0] eqn:E.
  assert (sent_on c x0 = sent_on c x) as Hs.
  { revert E. unfold ensureChannel. repeat case_match; intros; by simplify_eq. }
  assert (forall c0, sent_on c x0 <= sent_on c (publish_on c0 x0) <= S (sent_on c x0))%nat as Hp.
  { intros c0. unfold sent_on, publish_on. simpl. destruct (decide (c0 = c)) as [->|]; [rewrite lookup_insert_eq|rewrite lookup_insert_ne by done]; simpl; [|lia].
    unfold sent_on. lia. }
  rewrite <- Hs. repeat case_match; intros; simplify_eq; try lia; apply Hp.
Qed.

(** The waits after attempts [i + 1], ..., [i + k]. *)
Definition waits_from (i : Z) (k : nat) : list Z := (fun j => j * Second) <$> seqZ (i + 1) (Z.of_nat k).

Lemma publish_loop_spec n : forall i attempts ctx_done b p x r waits p' x',
  publish_loop cfg ack n i attempts ctx_done b p x = (r, waits, p', x') ->
  exists k, waits = waits_from i k /\
    match r with
    | None => (k < n)%nat
    | Some EExhausted => k = n
    | Some e => is_context e = true /\ (k < n)%nat
    end /\ forall c, (sent_on c x <= sent_on c x' <= sent_on c x + n)%nat.
Proof.
  induction n as [|n IH]; intros i attempts ctx_done b p x r waits p' x'; simpl.
  { intros [= <- <- <- <-]. exists 0%nat. split; [done|]. split; [done|]. lia. }
  destruct (doPublish cfg ack (attempts i) b p x) as [[e p1] x1] eqn:E.
  assert (forall c, sent_on c x <= sent_on c x1 <= S (sent_on c x))%nat as Hs by (intros c; by eapply doPublish_sent).
  assert (forall c, sent_on c x <= sent_on c x1 <= sent_on c x + S n)%nat as Hs' by (intros c; specialize (Hs c); lia).
  destruct e as [e|]; [|intros [= <- <- <- <-]; exists 0%nat; split; [done|]; split; [lia|done]].
  destruct (is_context e) eqn:Ee.
  { intros [= <- <- <- <-]. exists 0%nat. split; [done|]. split; [|done]. destruct e; try done. split; [done|lia]. }
  destruct (ctx_done i) as [ce|]; [intros [= <- <- <- <-]; exists 0%nat; split; [done|]; split; [split; [done|lia]|done]|].
  destruct (publish_loop cfg ack n (i + 1) attempts ctx_done b p1 x1) as [[[r1 w1] p2] x2] eqn:E1.
  intros [= <- <- <- <-]. destruct (IH _ _ _ _ _ _ _ _ _ _ E1) as (k & -> & Hk & Hc).
  exists (S k). split; [|split].
  - unfold waits_from. rewrite Nat2Z.inj_succ, (seqZ_cons (i + 1)) by lia. simpl. do 2 f_equal; f_equal; lia.
  - destruct r1 as [[]|]; lia || (destruct Hk; split; [done|lia]).
  - intros c. specialize (Hs c). specialize (Hc c). lia.
Qed.

End Retries.

(** ** Delays *)

Lemma consume_loop_delays R turns : 0 < R < 2 ^ 62 -> Forall (fun t => t <> Finished) turns ->
  forall k d, d = (if k is 0%nat then Second else Z.min (2 ^ Z.of_nat k * Second) R) ->
  (consume_loop R turns d).1 =
    imap (fun j _ => if (k + j)%nat is 0%nat then Second else Z.min (2 ^ Z.of_nat (k + j) * Second) R) turns.
Proof.
  intros HR. induction turns as [|t turns IH]; intros Hall k d Hd; [done|]. apply Forall_cons in Hall as [Ht Hall].
  assert (Z.min (wrap_signed 64 (d * 2)) R = Z.min (2 ^ Z.of_nat (S k) * Second) R) as Hnext.
  { rewrite Nat2Z.inj_succ, Z.pow_succ_r by lia. destruct k; subst d; [reflexivity|].
    pose proof (Z.pow_pos_nonneg 2 (Z.of_nat (S k))). rewrite wrap_signed_small; unfold Second in *; simpl Z.pow in *; lia. }
  assert ((consume_loop R (t :: turns) d).1 = d :: (consume_loop R turns (Z.min (wrap_signed 64 (d * 2)) R)).1) as ->
    by (simpl; destruct t; try done; by destruct (consume_loop R turns _)).
  rewrite imap_cons. f_equal; [rewrite Nat.add_0_r; exact Hd|]. rewrite (IH Hall (S k) _ Hnext).
  apply imap_ext. intros j x _. simpl. by rewrite Nat.add_succ_r.
Qed.

(** ** Properties *)

(** Publishers that share the channel of the broker read each other's confirmations:
    when an attempt of publisher [i] ends with a confirmation, its result is the server's
    answer for the tag that lies [misses] before its own, where [misses] counts the
    messages of other publishers since [i] registered and the own attempts of [i] that
    ended without a confirmation.  It is its own answer exactly when there were none. *)
Theorem confirmation_offset `{L : AMQPLaws} cfg ack b c i ps x l a :
  Confirmation cfg = true -> sharing c (ps, x) ->
  ps !! i = Some (mkPub (Some c) (Some (sent_on c x))) ->
  Forall (fun e => a_publish e.2 = None) l -> a_publish a = None ->
  let s' := foldl (share_step cfg ack b) (ps, x) l in
  exists p, s'.1 !! i = Some p /\
    (reads a c p s'.2 = true ->
     exists p' x', doPublish cfg ack a b p s'.2 =
       (verdict (ack c (sent_on c x' - misses cfg ack b i c l (ps, x))%nat), p', x') /\
       sent_on c x' = S (sent_on c s'.2)).
Proof.
  intros Hc Hsh Hi Hl Ha s'. destruct (session_gap cfg ack b c i l Hc Hl _ _ Hsh Hi (le_n _)) as ([Ho _] & r & Hr & Hgap & Hle).
  exists (mkPub (Some c) (Some r)). split; [done|]. intros Hread.
  destruct (doPublish_open cfg ack b a c r s'.2 Hc Ho Ha) as (e & He & Hv). rewrite He, (Hv Hread).
  do 2 eexists. split; [|apply publish_on_sent]. rewrite publish_on_sent. do 4 f_equal. fold s' in Hgap, Hle. simpl in Hgap. lia.
Qed.

(** [Publish] makes at most [MaxRetries] attempts and hands the library at most as many
    messages; after the n-th failed attempt it waits n seconds; it gives up with the
    exhausted error exactly when all attempts have failed, and earlier only with an error
    of the context. *)
Theorem publish_bounded `{L : AMQPLaws} cfg ack attempts ctx_done b p x r waits p' x' : 0 < MaxRetries cfg ->
  Publish cfg ack attempts ctx_done b p x = (r, waits, p', x') ->
  exists k, waits = (fun j => j * Second) <$> seqZ 1 (Z.of_nat k) /\
    match r with
    | None => Z.of_nat k < MaxRetries cfg
    | Some EExhausted => Z.of_nat k = MaxRetries cfg
    | Some e => is_context e = true /\ Z.of_nat k < MaxRetries cfg
    end /\
    forall c, (sent_on c x <= sent_on c x')%nat /\ Z.of_nat (sent_on c x') <= Z.of_nat (sent_on c x) + MaxRetries cfg.
Proof.
  intros Hm E. destruct (publish_loop_spec cfg ack _ _ _ _ _ _ _ _ _ _ _ E) as (k & -> & Hk & Hs).
  exists k. split; [done|]. split.
  - destruct r as [[]|]; lia || (destruct Hk; split; [done|lia]).
  - intros c. specialize (Hs c). lia.
Qed.

(** The delay of the consumer loop doubles from one second up to the configured one over
    the whole life of the consumer: turns in which messages were consumed before the
    failure do not reset it. *)
Theorem retry_delay_not_reset R turns : 0 < R < 2 ^ 62 -> Forall (fun t => t <> Finished) turns ->
  (consume_loop R turns Second).1 =
    imap (fun j _ => if j is 0%nat then Second else Z.min (2 ^ Z.of_nat j * Second) R) turns.
Proof. intros HR Hall. by rewrite (consume_loop_delays R turns HR Hall 0 Second). Qed.

(** ** Witnesses *)

#[local] Existing Instance demo_amqp.
#[local] Existing Instance demo_laws.

(** Two publishers; the server acknowledges the first message and refuses the second. *)
Definition demo_ack (c t : nat) : bool := (t =? 1)%nat.
Definition demo_wire : wire := @mkWire demo_amqp (mkDemo 1 [] 1 []) ∅.
Definition demo_attempt (arrived : nat) : attempt := mkAttempt None None arrived Timeout.
Definition demo_pub : MessagePublisher := mkPub (Some 0%nat) (Some 0%nat).
Definition demo_pubs : gmap nat MessagePublisher := <[0%nat := demo_pub]> {[ 1%nat := demo_pub ]}.
Definition demo_cfg_pub : PublisherConfig := mkPC 3 (5 * Second) true.
Definition demo_conn : Connection := mkConn (Some 0%nat) (Some 0%nat) false false.

Lemma demo_sharing : sharing 0%nat (demo_pubs, demo_wire).
Proof.
  split; [reflexivity|]. simpl. unfold demo_pubs.
  intros j p [[<- <-]|[_ [<- <-]%lookup_singleton_Some]]%lookup_insert_Some; by eexists.
Qed.

Lemma demo_published : Forall (fun e : nat * attempt => a_publish e.2 = None) [(0%nat, demo_attempt 1)].
Proof. by repeat constructor. Qed.

(** The second publisher's message is refused, and its publish succeeds. *)
Lemma confirmation_offset_witness :
  demo_ack 0 2 = false /\
  exists p p' x', (foldl (share_step demo_cfg_pub demo_ack demo_conn) (demo_pubs, demo_wire) [(0%nat, demo_attempt 1)]).1 !! 1%nat = Some p /\
    doPublish demo_cfg_pub demo_ack (demo_attempt 1) demo_conn p
      (foldl (share_step demo_cfg_pub demo_ack demo_conn) (demo_pubs, demo_wire) [(0%nat, demo_attempt 1)]).2 = (None, p', x') /\
    sent_on 0 x' = 2%nat.
Proof.
  split; [reflexivity|].
  destruct (confirmation_offset demo_cfg_pub demo_ack demo_conn 0 1 demo_pubs demo_wire [(0%nat, demo_attempt 1)] (demo_attempt 1)
    eq_refl demo_sharing eq_refl demo_published eq_refl) as (p & Hp & H).
  vm_compute in Hp. injection Hp as <-. destruct (H eq_refl) as (p' & x' & Hd & Hs).
  exists (mkPub (Some 0%nat) (Some 0%nat)), p', x'. split; [reflexivity|]. split; [|exact Hs].
  assert (sent_on 0 x' = 2%nat) as E by exact Hs. rewrite E in Hd. exact Hd.
Defined.

Lemma publish_bounded_witness : exists k,
  (Publish demo_cfg_pub demo_ack (fun _ => demo_attempt 0) (fun _ => None) demo_conn demo_pub demo_wire).1.1.2 =
    (fun j => j * Second) <$> seqZ 1 (Z.of_nat k) /\ Z.of_nat k = 3.
Proof.
  destruct (publish_bounded demo_cfg_pub demo_ack (fun _ => demo_attempt 0) (fun _ => None) demo_conn demo_pub demo_wire
    (Some EExhausted) [Second; 2 * Second; 3 * Second] demo_pub
    (publish_on 0 (publish_on 0 (publish_on 0 demo_wire))) eq_refl eq_refl) as (k & Hw & Hk & _).
  exists k. split; [exact Hw|exact Hk].
Defined.

End RabbitClients.
