(* ===== verification/RabbitConsumer.v ===== *)
(** * The life of a RabbitMQ consumer: src/infra/pubsub/rabbitmq/consumer.go

    [Start], the goroutine of [consumeLoop] and [consumeMessages], the goroutines of [processMessage] with the semaphore and the
    wait group, and [Shutdown], as interleavings of steps: each send to or receive from the semaphore and each change of the
    wait group is a step.  What the broker answers is left open: every answer is a step. *)
From stdpp Require Import prelude strings list.
From Stdlib Require Import ZArith Lia.
From S2P Require Import Prelude.

Module RabbitConsumer.

(** Where a loop is: before its select, asleep after an error, waiting for a delivery, holding a delivery until there is a
    slot, having sent to the semaphore for it, or returned. *)
Inductive pc := Top | Sleeping | Reading | Holding | Acquired | Done.

#[global] Instance pc_eq_dec : EqDecision pc.
Proof. solve_decision. Defined.

(** A loop with the context it was started with; contexts are flags that tell whether they are cancelled.  [cancelFn]
    is [c.cancel], [workerSem] the number of values in the channel, [wg] the wait group; [handlers] counts the goroutines of
    [processMessage] whose handler runs, [answered] those that have answered and are about to receive from the semaphore, [released]
    those that have received from it; [subs] counts the subscriptions that are open at the broker, [unanswered] the deliveries
    that were taken and neither handled nor answered. *)
Record consumer := mkC {
  loops : list (pc * nat);
  ctxs : list bool;
  cancelFn : option nat;
  workerSem : nat;
  wg : nat;
  handlers : nat;
  answered : nat;
  released : nat;
  subs : nat;
  unanswered : nat
}.

Definition NewConsumer : consumer := mkC [] [] None 0 0 0 0 0 0 0.

(** [Start]: a new context, and a loop that the wait group counts. *)
Definition Start (c : consumer) : consumer :=
  mkC (loops c ++ [(Top, length (ctxs c))]) (ctxs c ++ [false]) (Some (length (ctxs c))) (workerSem c) (S (wg c)) (handlers c)
    (answered c) (released c) (subs c) (unanswered c).

(** The first part of [Shutdown]: [c.cancel()]. *)
Definition Shutdown_cancel (c : consumer) : outcome consumer :=
  match cancelFn c with
  | None => Panic "invalid memory address or nil pointer dereference"
  | Some x => Ret (mkC (loops c) (<[x := true]> (ctxs c)) (cancelFn c) (workerSem c) (wg c) (handlers c) (answered c) (released c)
                     (subs c) (unanswered c))
  end.

(** Its second part returns without an error when the wait group is at zero. *)
Definition Shutdown_done (c : consumer) : bool := (wg c =? 0)%nat.

Definition cancelled (x : nat) (c : consumer) : bool := default false (ctxs c !! x).

(** The loop [i] goes to [p], with [f] done to the open subscriptions. *)
Definition goto (i : nat) (p : pc) (x : nat) (f : nat -> nat) (c : consumer) : consumer :=
  mkC (<[i := (p, x)]> (loops c)) (ctxs c) (cancelFn c) (workerSem c) (wg c) (handlers c) (answered c) (released c) (f (subs c)) (unanswered c).

(** [defer c.wg.Done()] of the loop. *)
Definition return_loop (i x : nat) (c : consumer) : consumer :=
  mkC (<[i := (Done, x)]> (loops c)) (ctxs c) (cancelFn c) (workerSem c) (pred (wg c)) (handlers c) (answered c) (released c)
    (subs c) (unanswered c).

(** [c.workerSem <- struct{}{}] for the delivery the loop holds. *)
Definition acquire (i x : nat) (c : consumer) : consumer :=
  mkC (<[i := (Acquired, x)]> (loops c)) (ctxs c) (cancelFn c) (S (workerSem c)) (wg c) (handlers c) (answered c) (released c)
    (subs c) (unanswered c).

(** [c.wg.Add(1)] and the goroutine of [processMessage]. *)
Definition handle (i x : nat) (c : consumer) : consumer :=
  mkC (<[i := (Reading, x)]> (loops c)) (ctxs c) (cancelFn c) (workerSem c) (S (wg c)) (S (handlers c)) (answered c) (released c)
    (subs c) (unanswered c).

(** The delivery is given up: [consumeMessages] returns. *)
Definition drop_delivery (i x : nat) (c : consumer) : consumer :=
  mkC (<[i := (Top, x)]> (loops c)) (ctxs c) (cancelFn c) (workerSem c) (wg c) (handlers c) (answered c) (released c)
    (subs c) (S (unanswered c)).

(** The handler has returned and the delivery is answered. *)
Definition answer_delivery (c : consumer) : consumer :=
  mkC (loops c) (ctxs c) (cancelFn c) (workerSem c) (wg c) (pred (handlers c)) (S (answered c)) (released c) (subs c) (unanswered c).

(** The deferred function of [processMessage]: [<-c.workerSem], then [c.wg.Done()]. *)
Definition release (c : consumer) : consumer :=
  mkC (loops c) (ctxs c) (cancelFn c) (pred (workerSem c)) (wg c) (handlers c) (pred (answered c)) (S (released c)) (subs c) (unanswered c).
Definition finish (c : consumer) : consumer :=
  mkC (loops c) (ctxs c) (cancelFn c) (workerSem c) (pred (wg c)) (handlers c) (answered c) (pred (released c)) (subs c) (unanswered c).

Section Steps.
Context (MaxWorkers : nat).

(** Steps that the goroutines make by themselves, when the handlers return; answers of the broker; deliveries that a select takes. *)
Inductive source := Own | Broker | Delivery.

#[global] Instance source_eq_dec : EqDecision source.
Proof. solve_decision. Defined.

(** The steps of the goroutines.  A send to the semaphore waits while it is full, a receive while it is empty. *)
Inductive step : source -> consumer -> consumer -> Prop :=
| loop_return c i x : loops c !! i = Some (Top, x) -> cancelled x c = true -> step Own c (return_loop i x c)
| loop_error c i x : loops c !! i = Some (Top, x) -> cancelled x c = false -> step Broker c (goto i Sleeping x id c)
| loop_consume c i x : loops c !! i = Some (Top, x) -> cancelled x c = false -> step Broker c (goto i Reading x S c)
| loop_wake c i x : loops c !! i = Some (Sleeping, x) -> step Own c (goto i Top x id c)
| read_done c i x : loops c !! i = Some (Reading, x) -> cancelled x c = true -> step Own c (goto i Top x id c)
| read_closed c i x : loops c !! i = Some (Reading, x) -> step Broker c (goto i Sleeping x pred c)
| read_message c i x : loops c !! i = Some (Reading, x) -> step Delivery c (goto i Holding x id c)
| hold_acquire c i x : loops c !! i = Some (Holding, x) -> workerSem c < MaxWorkers -> step Own c (acquire i x c)
| hold_handle c i x : loops c !! i = Some (Acquired, x) -> step Own c (handle i x c)
| hold_done c i x : loops c !! i = Some (Holding, x) -> cancelled x c = true -> step Own c (drop_delivery i x c)
| handler_ends c : 0 < handlers c -> step Own c (answer_delivery c)
| handler_release c : 0 < answered c -> 0 < workerSem c -> step Own c (release c)
| handler_done c : 0 < released c -> step Own c (finish c).

(** Those and the calls of the user. *)
Inductive cstep : consumer -> consumer -> Prop :=
| c_step k c c' : step k c c' -> cstep c c'
| c_start c : cstep c (Start c)
| c_cancel c c' : Shutdown_cancel c = Ret c' -> cstep c c'.

(** A run of the goroutines, with the source of each step. *)
Inductive trace (c : consumer) : list source -> consumer -> Prop :=
| t_start : trace c [] c
| t_step ks k c1 c2 : trace c ks c1 -> step k c1 c2 -> trace c (k :: ks) c2.

(** ** Lemmas *)

(** Sums over the loops. *)
Definition total (f : pc -> nat) (l : list (pc * nat)) : nat := sum_list_with (fun x => f x.1) l.

Lemma total_insert f l i p q x : l !! i = Some (p, x) -> total f (<[i := (q, x)]> l) + f p = total f l + f q.
Proof.
  intros Hi. pose proof (lookup_lt_Some _ _ _ Hi) as Hlt. rewrite insert_take_drop by done.
  rewrite <- (take_drop_middle l i (p, x) Hi) at 3. unfold total. rewrite !sum_list_with_app. cbn. lia.
Qed.

Lemma total_app f l1 l2 : total f (l1 ++ l2) = total f l1 + total f l2.
Proof. apply sum_list_with_app. Qed.

Lemma total_in f l i p x : l !! i = Some (p, x) -> f p <= total f l.
Proof. intros Hi. rewrite <- (take_drop_middle l i (p, x) Hi). unfold total. rewrite sum_list_with_app. cbn. lia. Qed.

(** The loops that have not returned, and those that have sent to the semaphore for a goroutine that they have not started yet. *)
Definition alive : list (pc * nat) -> nat := total (fun p => match p with Done => 0 | _ => 1 end).
Definition acquired : list (pc * nat) -> nat := total (fun p => match p with Acquired => 1 | _ => 0 end).

(** The counts agree: the semaphore with the goroutines that have not given their slot back and those about to be started, the wait
    group with the loops and all goroutines. *)
Definition counts (c : consumer) : Prop :=
  workerSem c = handlers c + answered c + acquired (loops c) /\ workerSem c <= MaxWorkers /\
  wg c = alive (loops c) + handlers c + answered c + released c.

Ltac moved Hi := match goal with |- context [<[?i := (?q, ?x)]> ?l] =>
  pose proof (total_insert (fun p => match p with Done => 0 | _ => 1 end) l i _ q x Hi);
  pose proof (total_insert (fun p => match p with Acquired => 1 | _ => 0 end) l i _ q x Hi);
  pose proof (total_in (fun p => match p with Done => 0 | _ => 1 end) l i _ x Hi) end; cbn beta iota in *.

Lemma step_counts k c c' : counts c -> step k c c' -> counts c'.
Proof.
  intros Hc Hst. revert Hc.
  destruct Hst as [c i x Hi _|c i x Hi _|c i x Hi _|c i x Hi|c i x Hi _|c i x Hi|c i x Hi|c i x Hi Hlt|c i x Hi|c i x Hi _|c Hh|c Hh Hs|c Hh];
    intros (Hsem & Hm & Hw); unfold counts, goto, return_loop, acquire, handle, drop_delivery, answer_delivery, release, finish, alive, acquired in *;
    cbn [workerSem handlers answered released wg loops]; try moved Hi; lia.
Qed.

Lemma cstep_counts c c' : counts c -> cstep c c' -> counts c'.
Proof.
  intros Hc Hst. revert Hc. destruct Hst as [k c c' Hs|c|c c' Hs]; intros Hc.
  - by eapply step_counts.
  - destruct Hc as (Hs & Hm & Hw). unfold counts, Start, alive, acquired in *. cbn [workerSem handlers answered released wg loops].
    rewrite !total_app. cbn. lia.
  - unfold Shutdown_cancel in Hs. destruct (cancelFn c); [|done]. by injection Hs as <-.
Qed.

Lemma reach_counts c : runs cstep NewConsumer c -> counts c.
Proof.
  intros Hr. eapply (runs_inv cstep counts); [intros; by eapply cstep_counts| |exact Hr]. unfold counts, NewConsumer, alive, acquired. cbn. lia.
Qed.


(** Loop [i] runs with context [i], and the cancel function is that of the last one. *)
Definition indexed (c : consumer) : Prop :=
  length (ctxs c) = length (loops c) /\ (forall i p x, loops c !! i = Some (p, x) -> x = i) /\
  cancelFn c = match loops c with [] => None | _ => Some (pred (length (loops c))) end.

Lemma indexed_insert c i p q x ws w h an re sb u : indexed c -> loops c !! i = Some (p, x) ->
  indexed (mkC (<[i := (q, x)]> (loops c)) (ctxs c) (cancelFn c) ws w h an re sb u).
Proof.
  intros (Hl & Hx & Hf) Hi. unfold indexed. cbn. rewrite length_insert. split; [done|]. split.
  - intros j p' x' Hj. destruct (decide (i = j)) as [<-|Hne].
    + rewrite list_lookup_insert_eq in Hj by (by eapply lookup_lt_Some). injection Hj as <- <-. by eapply Hx.
    + rewrite list_lookup_insert_ne in Hj by done. by eapply Hx.
  - rewrite Hf. destruct (loops c) as [|l ls] eqn:E; [done|]. destruct i; cbn; by rewrite ?length_insert.
Qed.

Lemma step_indexed k c c' : indexed c -> step k c c' -> indexed c'.
Proof. intros Hc Hst. revert Hc. destruct Hst; intros Hc; try (by eapply indexed_insert); exact Hc. Qed.

Lemma cstep_indexed c c' : indexed c -> cstep c c' -> indexed c'.
Proof.
  intros Hc Hst. revert Hc. destruct Hst as [k c c' Hs|c|c c' Hs]; intros Hc.
  - by eapply step_indexed.
  - destruct Hc as (Hl & Hx & Hf). unfold indexed, Start. cbn. rewrite !length_app. cbn. split; [lia|]. split.
    + intros i p x Hi. apply lookup_app_Some in Hi as [Hi|[Hge Hi]]; [by eapply Hx|].
      apply list_lookup_singleton_Some in Hi as [? [= <- <-]]. lia.
    + destruct (loops c); cbn in *; [by rewrite Hl|]. rewrite Hl. f_equal. lia.
  - unfold Shutdown_cancel in Hs. destruct (cancelFn c) eqn:E; [|done]. injection Hs as <-.
    destruct Hc as (Hl & Hx & Hf). unfold indexed. cbn. rewrite length_insert. split; [done|]. split; [done|]. congruence.
Qed.

Lemma reach_indexed c : runs cstep NewConsumer c -> indexed c.
Proof.
  intros Hr. eapply (runs_inv cstep indexed); [intros; by eapply cstep_indexed| |exact Hr].
  split; [done|]. split; [|done]. intros i p x Hi. by destruct i.
Qed.









(** ** Theorems *)



(** Loop [i] runs with a context that nobody can cancel any more. *)
Definition orphan (i : nat) (c : consumer) : Prop :=
  counts c /\ indexed c /\ S i < length (loops c) /\ cancelled i c = false /\ exists p, loops c !! i = Some (p, i) /\ p <> Done.

Lemma orphan_insert i c j p q x ws w h an re sb u : orphan i c -> loops c !! j = Some (p, x) -> (j = i -> q <> Done) ->
  S i < length (<[j := (q, x)]> (loops c)) /\ cancelled i (mkC (<[j := (q, x)]> (loops c)) (ctxs c) (cancelFn c) ws w h an re sb u) = false /\
  exists p', <[j := (q, x)]> (loops c) !! i = Some (p', i) /\ p' <> Done.
Proof.
  intros (_ & (Hl & Hx & _) & Hlt & Hc & p0 & Hi & Hp) Hj Hq. rewrite length_insert. split; [done|]. split; [done|].
  destruct (decide (j = i)) as [->|Hne]; [|rewrite list_lookup_insert_ne by done; by exists p0].
  rewrite list_lookup_insert_eq by (by eapply lookup_lt_Some). exists q. split; [|by apply Hq]. by rewrite (Hx _ _ _ Hj).
Qed.

Lemma orphan_step i c c' : orphan i c -> cstep c c' -> orphan i c'.
Proof.
  intros Ho Hst. pose proof Ho as (Hct & Hix & Hlt & Hc & p0 & Hi & Hp).
  split; [by eapply cstep_counts|]. split; [by eapply cstep_indexed|]. revert Ho Hct Hix Hlt Hc Hi.
  destruct Hst as [k c c' Hs|c|c c' Hs]; intros Ho Hct Hix Hlt Hc Hi.
  - revert Ho Hct Hix Hlt Hc Hi. destruct Hs as [c j x Hj Hx|c j x Hj _|c j x Hj _|c j x Hj|c j x Hj _|c j x Hj|c j x Hj|c j x Hj _|c j x Hj|c j x Hj _|c Hh|c Hh Hsm|c Hh];
      intros Ho Hct Hix Hlt Hc Hi; try (by apply (orphan_insert i c j _ _ x _ _ _ _ _ _ _ Ho Hj)); try (cbn; by eauto).
    apply (orphan_insert i c j _ _ x _ _ _ _ _ _ _ Ho Hj). intros ->. destruct Hix as (_ & Hxi & _). rewrite (Hxi _ _ _ Hj) in Hx. congruence.
  - cbn. rewrite length_app. split; [cbn; lia|]. unfold cancelled in *. cbn. destruct Hix as (Hl & _). rewrite lookup_app_l by lia.
    split; [done|]. exists p0. split; [|done]. by apply lookup_app_l_Some.
  - unfold Shutdown_cancel in Hs. destruct Hix as (Hl & Hx & Hf). rewrite Hf in Hs. destruct (loops c) as [|l ls] eqn:El; [cbn in Hlt; lia|].
    injection Hs as <-. cbn [loops]. split; [done|]. split; [|by eauto]. unfold cancelled in *. cbn [ctxs].
    rewrite list_lookup_insert_ne; [done|]. cbn [length] in *. lia.
Qed.

(** A second [Start] replaces the cancel function: when the first loop is still running, no later shutdown ends without its timeout. *)
Theorem second_start_blocks_shutdown c c' i p : runs cstep NewConsumer c -> loops c !! i = Some (p, i) -> p <> Done ->
  cancelled i c = false -> runs cstep (Start c) c' -> Shutdown_done c' = false.
Proof.
  intros Hr Hi Hp Hc Hr'. assert (orphan i (Start c)) as Ho.
  { split; [eapply cstep_counts; [by apply reach_counts|apply c_start]|]. split; [eapply cstep_indexed; [by apply reach_indexed|apply c_start]|].
    pose proof (lookup_lt_Some _ _ _ Hi) as Hlt. destruct (reach_indexed c Hr) as (Hl & _ & _). cbn. rewrite length_app. cbn.
    split; [lia|]. unfold cancelled in *. cbn. rewrite lookup_app_l by lia. split; [done|]. exists p. split; [|done]. by apply lookup_app_l_Some. }
  assert (orphan i c') as ((_ & _ & Hw) & _ & _ & _ & q & Hq & Hqd).
  { eapply (runs_inv cstep (orphan i)); [intros; by eapply orphan_step|exact Ho|exact Hr']. }
  apply Nat.eqb_neq. pose proof (total_in (fun p => match p with Done => 0 | _ => 1 end) _ _ _ _ Hq) as Hin. unfold alive in Hw. destruct q; try done; lia.
Qed.

(** [Shutdown] before [Start] calls a nil function. *)
Theorem shutdown_before_start : Shutdown_cancel NewConsumer = Panic "invalid memory address or nil pointer dereference".
Proof. reflexivity. Qed.

(** Each loop that reads has a subscription. *)
Definition reading : list (pc * nat) -> nat := total (fun p => match p with Reading | Holding | Acquired => 1 | _ => 0 end).

Lemma cstep_subscribed c c' : reading (loops c) <= subs c -> cstep c c' -> reading (loops c') <= subs c'.
Proof.
  intros Hle Hst. revert Hle. destruct Hst as [k c c' Hs|c|c c' Hs]; intros Hle.
  - revert Hle. destruct Hs as [c j x Hj _|c j x Hj _|c j x Hj _|c j x Hj|c j x Hj _|c j x Hj|c j x Hj|c j x Hj _|c j x Hj|c j x Hj _|c Hh|c Hh _|c Hh]; intros Hle;
      cbn [goto return_loop acquire handle drop_delivery answer_delivery release finish loops subs id]; try exact Hle;
      match goal with |- context [<[j := (?q, x)]> ?l] =>
        pose proof (total_insert (fun p => match p with Reading | Holding | Acquired => 1 | _ => 0 end) l j _ q x Hj) as E end;
      unfold reading, id in *; cbn beta iota in E; lia.
  - cbn [Start loops subs]. unfold reading in *. rewrite total_app. cbn. lia.
  - unfold Shutdown_cancel in Hs. destruct (cancelFn c); [|done]. by injection Hs as <-.
Qed.

(** A shutdown leaves the subscription open: the loop of a consumer that waits for deliveries can return with the broker still
    sending to it, since neither the consumer tag is cancelled nor the channel closed. *)
Theorem shutdown_leaves_subscription c x c1 : runs cstep NewConsumer c -> loops c = [(Reading, x)] -> Shutdown_cancel c = Ret c1 ->
  exists c2, trace c1 [Own; Own] c2 /\ loops c2 = [(Done, x)] /\ subs c2 = subs c /\ 0 < subs c2.
Proof.
  intros Hr El Hs. assert (reading (loops c) <= subs c) as Hsub.
  { eapply (runs_inv cstep (fun c => reading (loops c) <= subs c)); [intros; by eapply cstep_subscribed| |exact Hr]. cbn. lia. }
  rewrite El in Hsub. cbn in Hsub. destruct (reach_indexed c Hr) as (Hl & Hx & Hf). assert (x = 0) as -> by (apply (Hx 0 Reading x); by rewrite El).
  unfold Shutdown_cancel in Hs. rewrite Hf, El in Hs. cbn in Hs. injection Hs as <-.
  assert (ctxs c = [default false (ctxs c !! 0)]) as Ec by (rewrite El in Hl; destruct (ctxs c) as [|b [|]]; done).
  set (c1 := mkC _ _ _ _ _ _ _ _ _ _). exists (return_loop 0 0 (goto 0 Top 0 id c1)). split; [|split; [cbn; by rewrite ?El|split; [done|cbn; unfold id; lia]]].
  eapply t_step; [eapply t_step; [constructor|apply (read_done c1 0 0)]|apply loop_return].
  - by cbn; rewrite ?El.
  - unfold cancelled. cbn. by rewrite Ec.
  - cbn. by rewrite ?El.
  - unfold cancelled. cbn. by rewrite Ec.
Qed.

End Steps.

(** ** Witnesses *)

Definition demo_started : consumer := Start NewConsumer.
Definition demo_reading : consumer := goto 0 Reading 0 S demo_started.

Lemma demo_reach : runs (cstep 2) NewConsumer demo_reading.
Proof.
  eapply runs_step; [eapply runs_step; [constructor|apply c_start]|]. eapply c_step, loop_consume; reflexivity.
Qed.




Lemma second_start_blocks_shutdown_witness : Shutdown_done (Start demo_reading) = false.
Proof.
  apply (second_start_blocks_shutdown 2 demo_reading (Start demo_reading) 0 Reading); [exact demo_reach|reflexivity|discriminate|reflexivity|constructor].
Defined.

Lemma shutdown_leaves_subscription_witness : exists c1, Shutdown_cancel demo_reading = Ret c1 /\
  exists c2, trace 2 c1 [Own; Own] c2 /\ 0 < subs c2.
Proof.
  eexists. split; [reflexivity|]. edestruct (shutdown_leaves_subscription 2 demo_reading 0) as (c2 & H1 & _ & _ & H2); [exact demo_reach|reflexivity|reflexivity|].
  exists c2. split; [exact H1|exact H2].
Defined.

End RabbitConsumer.
