(* ===== verification/HttpWatch.v ===== *)
(** * The watch of the settings file, whole: src/infra/httpproxy/filewatch.go ([WatchFile])

    The loop of HttpProxy.v inside the function that sets it up: the empty path, the errors of
    the set-up, the watcher that is closed on every return, the signals that end the loop.
    Next to it the snapshot of manager.go, that is, the function that picks the proxy of a
    request.  filepath, fsnotify and the proxy rules of x/net are parameters. *)
From stdpp Require Import prelude strings list.
From Stdlib Require Import ZArith Lia.
From S2P Require Import Prelude HttpProxy.

Local Open Scope Z_scope.

Module HttpWatch.
Import HttpProxy.

(** ** The proxy of a request (config.go, manager.go) *)

(** The settings of golang.org/x/net/http/httpproxy. *)
Record xConfig := mkX { x_HTTPProxy : string; x_HTTPSProxy : string; x_NoProxy : string; x_CGI : bool }.

Definition FromEnvironment (env : xConfig) : Config := mkConfig (x_HTTPProxy env) (x_HTTPSProxy env) (x_NoProxy env).

Section Proxy.
(** [Config.ProxyFunc] of that package, and the variable REQUEST_METHOD of the process. *)
Context (ProxyFunc : xConfig -> string -> res string (option string)) (request_method : string).

Definition proxyFunc (c : Config) : string -> res string (option string) :=
  ProxyFunc (mkX (HTTPProxy c) (HTTPSProxy c) (NoProxy c) (bool_decide (request_method <> ""))).

Record snapshot := mkSnapshot { cfg : Config; proxy : string -> res string (option string) }.

Definition newSnapshot (c : Config) : snapshot := mkSnapshot c (proxyFunc c).

(** The snapshot a manager holds is that of its settings. *)
Definition snap (m : Manager) : snapshot := newSnapshot (current m).

Definition Proxy (m : Manager) (url : string) : res string (option string) := proxy (snap m) url.

Definition Current (m : Manager) : Config := cfg (snap m).
End Proxy.

(** [default] is the transport behind http.DefaultTransport, when it is one the package
    knows; [typ] names its type otherwise. *)
Definition HookDefaultTransport (default : nat + string) (m : Manager) : option string * Manager :=
  match default with
  | inr typ => (Some ("httpproxy: http.DefaultTransport is " +:+ typ +:+ ", not *http.Transport"), m)
  | inl t => (None, Register t m)
  end.

(** ** The watch *)

(** A message of the log: an error or an information, with its text. *)
Inductive entry := LogError (msg : string) | LogInfo (msg : string).

Section Watch.
Context (url_parse : string -> res string URL) (Hostname : URL -> string) (quote : string -> string).
(** [filepath.Abs] with its error, [filepath.Dir] and [filepath.Clean]. *)
Context (Abs : string -> res string string) (Dir Clean : string -> string).

(** What the loop waits for: an event or an error of the watcher, one of its channels closed,
    the timer, the end of the context.  The timer comes with what the file holds then, whether
    the directory is still in the watch list, and the error of watching it again. *)
Inductive signal :=
| SEvent (op : fsop) (name : string)
| SEventsClosed
| SWatchError (e : string)
| SErrorsClosed
| STimer (x : contents) (listed : bool) (readd : option string)
| SDone.

(** The goroutine waits with this state, or has returned an error or nil. *)
Inductive state := Waiting (w : watch) | Returned (err : option string) (m : Manager).

(** The messages of the loop that are not about the settings. *)
Definition on_signal (path : string) (env : Config) (s : signal) (w : watch) : state * list entry :=
  match s with
  | SEvent op name => (Waiting (on_event op (bool_decide (Clean name = Dir path)) w), [])
  | SEventsClosed => (Returned None (mgr w), [])
  | SWatchError _ => (Waiting w, [LogError "httpproxy: watch error"])
  | SErrorsClosed => (Returned None (mgr w), [])
  | STimer x listed readd =>
      match timer w with
      | None => (Waiting w, []) (* a stopped timer sends nothing *)
      | Some _ =>
          let w' := on_reload url_parse Hostname quote path env x listed readd w in
          let settings := if bool_decide (logged w' = logged w) then [] else [LogError "httpproxy: keeping previous settings"] in
          (Waiting w',
           settings ++
           if dirStale w || negb listed then
             match readd with Some _ => [LogError "httpproxy: re-watch failed"] | None => [] end
           else [])
      end
  | SDone => (Returned None (mgr w), [])
  end.

Fixpoint loop (path : string) (env : Config) (sigs : list signal) (w : watch) (log : list entry) : state * list entry :=
  match sigs with
  | [] => (Waiting w, log)
  | s :: sigs =>
      match on_signal path env s w with
      | (Waiting w, l) => loop path env sigs w (log ++ l)
      | (ret, l) => (ret, log ++ l)
      end
  end.

(** What the set-up meets: the error of creating the watcher and that of watching the
    directory. *)
Record setup := mkSetup { NewWatcher : option string; Add : option string }.

(** The number of watchers open, which the deferred [Close] brings down on a return. *)
Record run := mkRun { st : state; log : list entry; open : nat }.

Definition closing (r : state * list entry) : run :=
  mkRun r.1 r.2 (match r.1 with Waiting _ => 1%nat | Returned _ _ => 0%nat end).

(** [path] is assigned by [Abs], which gives "" with its error. *)
Definition watchFile (s : setup) (env : Config) (x0 : contents) (path : string) (sigs : list signal) (m : Manager) : run :=
  if decide (path = "") then
    mkRun (Returned None m) [LogInfo "httpproxy: no settings file configured; using environment settings"] 0
  else
    match Abs path with
    | Err e => mkRun (Returned (Some ("httpproxy: resolve " +:+ quote "" +:+ ": " +:+ e)) m) [] 0
    | Ok path =>
        match NewWatcher s with
        | Some e => mkRun (Returned (Some ("httpproxy: start watcher: " +:+ e)) m) [] 0
        | None =>
            match Add s with
            | Some e => closing (Returned (Some ("httpproxy: watch " +:+ quote (Dir path) +:+ ": " +:+ e)) m, [])
            | None =>
                let w := start_watch url_parse Hostname quote path env x0 m in
                closing (loop path env sigs w
                  (LogInfo "httpproxy: watching settings file" ::
                   if bool_decide (logged w = []) then [] else [LogError "httpproxy: keeping previous settings"]))
            end
        end
    end.

Definition WatchFile (s : setup) (env : Config) (x0 : contents) (path : string) (sigs : list signal) (m : Manager) : run :=
  let r := watchFile s env x0 path sigs m in
  match st r with
  | Returned (Some _) _ => mkRun (st r) (log r ++ [LogError "httpproxy: settings file watch failed; hot reload disabled"]) (open r)
  | _ => r
  end.

(** ** What the loop does *)

Definition ends (s : signal) : bool := match s with SEventsClosed | SErrorsClosed | SDone => true | _ => false end.

(** The manager of a state. *)
Definition mgr_of (s : state) : Manager := match s with Waiting w => mgr w | Returned _ m => m end.

(** A signal is a step of the loop, or leaves it as it was, or ends it. *)
Lemma on_signal_step path env s w :
  match (on_signal path env s w).1 with
  | Waiting w' => ends s = false /\ (w' = w \/ wstep url_parse Hostname quote path env w w')
  | Returned e m => ends s = true /\ e = None /\ m = mgr w
  end.
Proof.
  destruct s as [op name| |e| |x listed readd|]; simpl; try done.
  - split; [done|]. right. apply w_event.
  - split; [done|by left].
  - destruct (timer w) eqn:E; simpl; split; try done; [|by left]. right. apply w_reload. by rewrite E.
Qed.

Lemma loop_spec path env sigs : forall w log,
  exists w', runs (wstep url_parse Hostname quote path env) w w' /\
    (loop path env sigs w log).1 = (if existsb ends sigs then Returned None (mgr w') else Waiting w').
Proof.
  induction sigs as [|s sigs IH]; intros w log; [by exists w; split; [apply runs_refl|]|].
  cbn [loop existsb]. pose proof (on_signal_step path env s w) as H. destruct (on_signal path env s w) as [[w'|e m] l]; simpl in H.
  - destruct H as [-> Hw]. destruct (IH w' (log ++ l)) as (w2 & Hr & He). exists w2. split; [|exact He].
    destruct Hw as [->|Hw]; [done|]. eapply runs_trans; [|exact Hr]. by eapply runs_step; [apply runs_refl|].
  - destruct H as (-> & -> & ->). exists w. split; [apply runs_refl|done].
Qed.

(** ** Properties *)

(** The watch of a file, over any sequence of signals.  No watcher stays open once it has
    returned.  It returns an error only for a set-up that failed: then the settings are those
    it found and the failure is the last line of the log.  After a set-up that works it
    returns, with nil, as soon as the context is done or a channel of the watcher is closed,
    and not before; and the settings it leaves, or has so far, are those of a state the loop
    reaches. *)
Theorem watch_file_total s env x0 path abs sigs m : path <> "" -> Abs path = Ok abs ->
  let r := WatchFile s env x0 path sigs m in
  match NewWatcher s, Add s with
  | None, None =>
      exists w, runs (wstep url_parse Hostname quote abs env) (start_watch url_parse Hostname quote abs env x0 m) w /\
        st r = (if existsb ends sigs then Returned None (mgr w) else Waiting w) /\
        open r = (if existsb ends sigs then 0%nat else 1%nat)
  | _, _ =>
      (exists e, st r = Returned (Some e) m) /\ open r = 0%nat /\
      last (log r) = Some (LogError "httpproxy: settings file watch failed; hot reload disabled")
  end.
Proof.
  intros Hp Ha r. subst r. unfold WatchFile, watchFile. rewrite decide_False, Ha by done.
  destruct (NewWatcher s) as [e|]; [by destruct (Add s); (split; [by eexists|done])|].
  destruct (Add s) as [e|]; [split; [by eexists|done]|].
  destruct (loop_spec abs env sigs (start_watch url_parse Hostname quote abs env x0 m)
    (LogInfo "httpproxy: watching settings file" ::
       if bool_decide (logged (start_watch url_parse Hostname quote abs env x0 m) = []) then [] else [LogError "httpproxy: keeping previous settings"]))
    as (w & Hr & He).
  exists w. split; [exact Hr|]. unfold closing. cbn [st]. rewrite He. by destruct (existsb ends sigs).
Qed.

(** A path that cannot be made absolute is not named by the error: the assignment that made
    it absolute has replaced it by the empty string. *)
Theorem resolve_error_names_nothing s env x0 path sigs m e : path <> "" -> Abs path = Err e ->
  st (WatchFile s env x0 path sigs m) = Returned (Some ("httpproxy: resolve " +:+ quote "" +:+ ": " +:+ e)) m.
Proof. intros Hp Ha. unfold WatchFile, watchFile. by rewrite decide_False, Ha. Qed.

(** Settings that pass validation decide the proxy of the next request, for the transports
    that exist and those to come; settings that do not leave the proxy of every request as it
    was. *)
Theorem proxy_follows_settings ProxyFunc rm c m url :
  Proxy ProxyFunc rm (Update url_parse Hostname quote c m).2 url =
    match (Update url_parse Hostname quote c m).1 with
    | None => ProxyFunc (mkX (HTTPProxy c) (HTTPSProxy c) (NoProxy c) (bool_decide (rm <> ""))) url
    | Some _ => Proxy ProxyFunc rm m url
    end.
Proof.
  unfold Proxy, snap, newSnapshot. cbn [proxy]. destruct (Update_current url_parse Hostname quote c m) as [-> _].
  unfold Update. destruct (Validate url_parse Hostname quote c); [done|]. by destruct (decide (current m = c)).
Qed.

End Watch.

(** ** Witnesses *)

Definition demo_ops : fsop := mkOp true false false false false.

Lemma watch_file_total_witness :
  let r := WatchFile demo_parse Host (fun s => s) (fun p => Ok p) (fun _ => "/etc") (fun p => p) (mkSetup None None) demo_env
             NotExist "/etc/proxy.yml" [SEvent demo_ops "/etc/proxy.yml"; STimer (Keys (mkFile (Some "proxy:3128") None None)) true None; SDone]
             (NewManager demo_env []) in
  open r = 0%nat /\ HTTPProxy (current (mgr_of (st r))) = "proxy:3128".
Proof.
  destruct (watch_file_total demo_parse Host (fun s => s) (fun p => Ok p) (fun _ => "/etc") (fun p => p) (mkSetup None None) demo_env
             NotExist "/etc/proxy.yml" "/etc/proxy.yml" [SEvent demo_ops "/etc/proxy.yml"; STimer (Keys (mkFile (Some "proxy:3128") None None)) true None; SDone]
             (NewManager demo_env []) ltac:(done) eq_refl) as (w & _ & _ & Ho).
  split; [exact Ho|]. vm_compute. reflexivity.
Defined.

Lemma resolve_error_names_nothing_witness :
  st (WatchFile demo_parse Host (fun s => s) (fun _ => Err "getwd: no such file") (fun _ => "/etc") (fun p => p) (mkSetup None None) demo_env
        NotExist "proxy.yml" [] (NewManager demo_env [])) =
    Returned (Some "httpproxy: resolve : getwd: no such file") (NewManager demo_env []).
Proof. apply (resolve_error_names_nothing demo_parse Host (fun s => s)); done. Defined.

End HttpWatch.
