(* ===== verification/SqlDriver.v ===== *)
(** * Instrumented SQL drivers: src/infra/sqldb/sql

    A wrapper around a database driver that calls a tracer before and after the methods of
    connections, statements, transactions and results.  The wrapped driver is a record of
    functions; what it does, and the tracer with it, is a list of events. *)
From stdpp Require Import prelude strings list.
From Stdlib Require Import ZArith Lia.
From S2P Require Import Prelude.

Local Open Scope Z_scope.

Module SqlDriver.

(** A context, as far as the wrapper uses it: the attached query and the tracers it has been
    through. *)
Record context := mkCtx { ctx_query : option string; ctx_spans : list nat }.
Definition Background : context := mkCtx None [].

Definition QueryFromContext (ctx : context) : string := default "" (ctx_query ctx).
Definition ContextWithQuery (ctx : context) (query : string) : context := mkCtx (Some query) (ctx_spans ctx).

(** The calls of a tracer, and those of the wrapped driver. *)
Inductive event :=
| Started (tracer : nat) (method query : string)
| Ended (tracer : nat) (method : string) (err : option string)
| Parent (what : string).

(** A Go call: it panics, or returns a value, with the events it causes. *)
Definition M (A : Type) : Type := outcome (A * list event).

Definition erase {A} (m : M A) : outcome A := match m with Ret (a, _) => Ret a | Panic p => Panic p end.
Definition ret {A} (a : A) : M A := Ret (a, []).
Definition bind {A B} (m : M A) (f : A -> M B) : M B :=
  match m with
  | Panic p => Panic p
  | Ret (a, l) => match f a with Panic p => Panic p | Ret (b, l') => Ret (b, l ++ l') end
  end.

(** A call between [StartTrace] and its end.  The argument of the deferred call is evaluated
    when the defer statement is, before the call: it is nil.  A nil tracer cannot be
    called. *)
Definition traced {A} (t : option nat) (method query : string) (ctx : context) (next : context -> M A) : M A :=
  match t with
  | None => Panic "invalid memory address or nil pointer dereference"
  | Some id =>
      match next (mkCtx (ctx_query ctx) (id :: ctx_spans ctx)) with
      | Panic p => Panic p
      | Ret (a, l) => Ret (a, Started id method query :: l ++ [Ended id method None])
      end
  end.

Section Driver.
(** Values of the driver and rows of a query. *)
Context {Value Rows : Type} (nil_rows : Rows).

Record NamedValue := mkNamed { Ordinal : Z; NValue : Value }.

Fixpoint number (i : Z) (l : list Value) : list NamedValue :=
  match l with [] => [] | v :: l => mkNamed (i + 1) v :: number (i + 1) l end.

(** A nil slice stays nil. *)
Definition valuesToNamedValues (values : option (list Value)) : option (list NamedValue) :=
  match values with Some l => Some (number 0 l) | None => None end.
Definition namedValuesToValues (l : option (list NamedValue)) : option (list Value) :=
  match l with Some l => Some (map NValue l) | None => None end.

(** [driver.Result] *)
Record Result := mkResult { LastInsertId : M (res string Z); RowsAffected : M (res string Z) }.

Definition nil_result : Result :=
  mkResult (Panic "invalid memory address or nil pointer dereference") (Panic "invalid memory address or nil pointer dereference").

Definition args := option (list NamedValue).
Definition execContextFunc := context -> string -> args -> M (res string Result).
Definition queryContextFunc := context -> string -> args -> M (res string Rows).

(** [driver.Stmt] with its optional interfaces. *)
Record Stmt := mkStmt {
  Exec : option (list Value) -> M (res string Result);
  Query : option (list Value) -> M (res string Rows);
  StmtExecContext : option (context -> args -> M (res string Result));
  StmtQueryContext : option (context -> args -> M (res string Rows));
  ColumnConverter : bool;
  NamedValueChecker : bool;
  Stmt_Close : M (option string);
  NumInput : Z
}.

Record Tx := mkTx { Commit : M (option string); Rollback : M (option string) }.

(** ** Chains (conn.go) *)

Definition chainMiddlewares {T} (middlewares : list (T -> T)) (last : T) : T :=
  match rev middlewares with
  | [] => last
  | m :: ms => foldl (fun h m => m h) (m last) ms
  end.

(** ** Options (options.go) *)

Record config := mkCfg {
  tracer : option nat; allowRoot : bool; ping : bool; rowsAffected : bool; lastInsertID : bool
}.

Definition WithTracer (t : option nat) (c : config) : config := mkCfg t (allowRoot c) (ping c) (rowsAffected c) (lastInsertID c).
Definition WithAllowRoot (v : bool) (c : config) : config := mkCfg (tracer c) v (ping c) (rowsAffected c) (lastInsertID c).
Definition TracePing (c : config) : config := mkCfg (tracer c) (allowRoot c) true (rowsAffected c) (lastInsertID c).
Definition TraceRowsAffected (c : config) : config := mkCfg (tracer c) (allowRoot c) (ping c) true (lastInsertID c).
Definition TraceLastInsertID (c : config) : config := mkCfg (tracer c) (allowRoot c) (ping c) (rowsAffected c) true.
Definition TraceAll (c : config) : config := mkCfg (tracer c) true true true true.

(** The tracer of [Wrap] that does nothing is tracer 0. *)
Definition Wrap_config (opts : list (config -> config)) : config :=
  foldl (fun c o => o c) (mkCfg (Some 0%nat) false false false false) opts.

Definition tracerOrNil (t : option nat) (shouldTrace : bool) : option nat := if shouldTrace then t else None.

(** ** Results (result.go) *)

Definition resultTrace (ctx : context) (t : option nat) (method : string) (f : M (res string Z)) : M (res string Z) :=
  traced t method "" ctx (fun _ => f).

Definition wrapResult (ctx : context) (parent : Result) (t : option nat) (traceLastInsertID traceRowsAffected : bool) : Result :=
  if negb traceLastInsertID && negb traceRowsAffected then parent
  else
    let ctx := mkCtx None (ctx_spans ctx) in
    mkResult
      (if traceLastInsertID then resultTrace ctx t "db.LastInsertId" (LastInsertId parent) else LastInsertId parent)
      (if traceRowsAffected then resultTrace ctx t "db.RowsAffected" (RowsAffected parent) else RowsAffected parent).

(** ** Queries (query.go) *)

Definition ErrSkip : string := "driver: skip fast-path; continue as if unimplemented".

Definition nopExecContext : execContextFunc := fun _ _ _ => ret (Ok nil_result).
Definition nopQueryContext : queryContextFunc := fun _ _ _ => ret (Ok nil_rows).
Definition skippedExecContext : execContextFunc := fun _ _ _ => ret (Err ErrSkip).
Definition skippedQueryContext : queryContextFunc := fun _ _ _ => ret (Err ErrSkip).

Definition execTrace (t : option nat) (method : string) (next : execContextFunc) : execContextFunc :=
  fun ctx query a => traced t method query (ContextWithQuery ctx query) (fun ctx => next ctx query a).

Definition execWrapResult (t : option nat) (li ra : bool) (next : execContextFunc) : execContextFunc :=
  fun ctx query a =>
    bind (next ctx query a)
      (fun r => ret (match r with Ok result => Ok (wrapResult ctx result t li ra) | Err e => Err e end)).

Definition queryTrace (t : option nat) (method : string) (next : queryContextFunc) : queryContextFunc :=
  fun ctx query a => traced t method query ctx (fun ctx => next ctx query a).

Definition makeExecContextFuncMiddlewares (t : option nat) (c : config) (method : string) : list (execContextFunc -> execContextFunc) :=
  execTrace t method ::
  (if lastInsertID c || rowsAffected c then [execWrapResult t (lastInsertID c) (rowsAffected c)] else []).

Definition makeQueryerContextMiddlewares (t : option nat) (method : string) : list (queryContextFunc -> queryContextFunc) :=
  match t with Some _ => [queryTrace t method] | None => [] end.

(** ** Statements (statement.go) *)

Record stmtConfig := mkStmtCfg {
  sc_query : string;
  sc_exec : list (execContextFunc -> execContextFunc);
  sc_execContext : list (execContextFunc -> execContextFunc);
  sc_queryF : list (queryContextFunc -> queryContextFunc);
  sc_queryContext : list (queryContextFunc -> queryContextFunc)
}.

Definition makeStmtExecFunc (parent : Stmt) (ms : list (execContextFunc -> execContextFunc)) : execContextFunc :=
  chainMiddlewares ms (fun _ _ a => Exec parent (namedValuesToValues a)).
Definition makeStmtExecContextFunc (parent : Stmt) (ms : list (execContextFunc -> execContextFunc)) : option execContextFunc :=
  match StmtExecContext parent with
  | None => None
  | Some execer => Some (chainMiddlewares ms (fun ctx _ a => execer ctx a))
  end.
Definition makeStmtQueryFunc (parent : Stmt) (ms : list (queryContextFunc -> queryContextFunc)) : queryContextFunc :=
  chainMiddlewares ms (fun _ _ a => Query parent (namedValuesToValues a)).
Definition makeStmtQueryContextFunc (parent : Stmt) (ms : list (queryContextFunc -> queryContextFunc)) : option queryContextFunc :=
  match StmtQueryContext parent with
  | None => None
  | Some queryer => Some (chainMiddlewares ms (fun ctx _ a => queryer ctx a))
  end.

(** The statement before its optional interfaces are chosen; a context method the parent
    does not have returns nil ([nopExecContext], [nopQueryContext]). *)
Definition makeStmt (parent : Stmt) (cfg : stmtConfig) (has_exec has_query has_conv has_check : bool) : Stmt :=
  mkStmt
    (fun vs => makeStmtExecFunc parent (sc_exec cfg) Background (sc_query cfg) (valuesToNamedValues vs))
    (fun vs => makeStmtQueryFunc parent (sc_queryF cfg) Background (sc_query cfg) (valuesToNamedValues vs))
    (if has_exec then Some (fun ctx a =>
       match makeStmtExecContextFunc parent (sc_execContext cfg) with
       | Some f => f ctx (sc_query cfg) a
       | None => nopExecContext ctx (sc_query cfg) a
       end) else None)
    (if has_query then Some (fun ctx a =>
       match makeStmtQueryContextFunc parent (sc_queryContext cfg) with
       | Some f => f ctx (sc_query cfg) a
       | None => nopQueryContext ctx (sc_query cfg) a
       end) else None)
    has_conv has_check (Stmt_Close parent) (NumInput parent).

Definition is_some {A} (o : option A) : bool := match o with Some _ => true | None => false end.

(** The cases of the switch, in the order of the source; the arguments of [makeStmt] are the
    embedded interfaces. *)
Definition wrapStmt (parent : Stmt) (cfg : stmtConfig) : Stmt :=
  let hasExeCtx := is_some (StmtExecContext parent) in
  let hasQryCtx := is_some (StmtQueryContext parent) in
  let hasColConv := ColumnConverter parent in
  let hasNamValChk := NamedValueChecker parent in
  let wrap := makeStmt parent cfg in
  if negb hasExeCtx && hasQryCtx && negb hasColConv && negb hasNamValChk then wrap false true false false
  else if hasExeCtx && negb hasQryCtx && negb hasColConv && negb hasNamValChk then wrap true false false false
  else if hasExeCtx && hasQryCtx && negb hasColConv && negb hasNamValChk then wrap true true false false
  else if negb hasExeCtx && negb hasQryCtx && hasColConv && negb hasNamValChk then wrap false false true false
  else if negb hasExeCtx && hasQryCtx && hasColConv && negb hasNamValChk then wrap false true true false
  else if hasExeCtx && negb hasQryCtx && hasColConv && negb hasNamValChk then wrap true false true false
  else if hasExeCtx && hasQryCtx && hasColConv && negb hasNamValChk then wrap true true true false
  else if negb hasExeCtx && negb hasQryCtx && negb hasColConv && hasNamValChk then wrap false false false true
  else if negb hasExeCtx && hasQryCtx && negb hasColConv && hasNamValChk then wrap false true false true
  else if hasExeCtx && negb hasQryCtx && negb hasColConv && hasNamValChk then wrap true false false true
  else if hasExeCtx && hasQryCtx && negb hasColConv && hasNamValChk then wrap true true false true
  else if negb hasExeCtx && negb hasQryCtx && hasColConv && hasNamValChk then wrap false false true true
  else if negb hasExeCtx && hasQryCtx && hasColConv && hasNamValChk then wrap false true true true
  else if hasExeCtx && negb hasQryCtx && hasColConv && hasNamValChk then wrap true false true true
  else if hasExeCtx && hasQryCtx && hasColConv && hasNamValChk then wrap true true true true
  else wrap false false false false.

(** ** Transactions (tx.go) *)

Definition txFunc := M (option string).

Definition txTrace (ctx : context) (t : option nat) (method : string) (next : txFunc) : txFunc :=
  traced t method "" ctx (fun _ => next).

Definition makeTxFuncMiddlewares (ctx : context) (t : option nat) (method : string) : list (txFunc -> txFunc) :=
  match t with Some _ => [txTrace ctx t method] | None => [] end.

Definition wrapTx (ctx : context) (parent : Tx) (t : option nat) : Tx :=
  let ctx := mkCtx None (ctx_spans ctx) in
  mkTx (chainMiddlewares (makeTxFuncMiddlewares ctx t "db.Commit") (Commit parent))
       (chainMiddlewares (makeTxFuncMiddlewares ctx t "db.Rollback") (Rollback parent)).

Definition beginFunc := context -> M (res string Tx).

Definition beginTrace (t : option nat) (next : beginFunc) : beginFunc :=
  fun ctx => traced t "db.Begin" "" ctx next.
Definition beginWrapTx (t : option nat) (next : beginFunc) : beginFunc :=
  fun ctx => bind (next ctx) (fun r => ret (match r with Ok tx => Ok (wrapTx ctx tx t) | Err e => Err e end)).
Definition makeBeginFuncMiddlewares (t : option nat) : list (beginFunc -> beginFunc) := [beginTrace t; beginWrapTx t].

(** ** Preparation (prepare.go) *)

Definition prepareContextFunc := context -> string -> M (res string Stmt).

Definition prepareTrace (t : option nat) (next : prepareContextFunc) : prepareContextFunc :=
  fun ctx query => traced t "db.Prepare" query ctx (fun ctx => next ctx query).
Definition prepareWrapResult (cfg : string -> stmtConfig) (next : prepareContextFunc) : prepareContextFunc :=
  fun ctx query => bind (next ctx query)
    (fun r => ret (match r with Ok stmt => Ok (wrapStmt stmt (cfg query)) | Err e => Err e end)).

Definition makePrepareContextFuncMiddlewares (t : option nat) (cfg : string -> stmtConfig)
  : list (prepareContextFunc -> prepareContextFunc) := [prepareTrace t; prepareWrapResult cfg].

(** ** Connections (conn.go, sql.go) *)

(** [driver.Conn] with its optional interfaces; [Begin] and [Prepare] stand for the variants
    with a context where the driver has them. *)
Record Conn := mkConn {
  Pinger : option (context -> M (option string));
  ExecerContext : option execContextFunc;
  QueryerContext : option queryContextFunc;
  Begin_ : beginFunc;
  Prepare : prepareContextFunc;
  Conn_Close : M (option string);
  ConnValueChecker : bool;
  SessionResetter : bool
}.

Definition stmt_config (c : config) (query : string) : stmtConfig :=
  mkStmtCfg query
    (makeExecContextFuncMiddlewares (tracerOrNil (tracer c) (allowRoot c)) c "db.Exec")
    (makeExecContextFuncMiddlewares (tracer c) c "db.Exec")
    (makeQueryerContextMiddlewares (tracerOrNil (tracer c) (allowRoot c)) "db.Query")
    (makeQueryerContextMiddlewares (tracer c) "db.Query").

(** [makeConn] and [wrapConn] with the middlewares of [newConnConfig]; those of a ping are
    none. *)
Definition wrapConn (parent : Conn) (c : config) : Conn :=
  let wrap :=
    mkConn (Some (match Pinger parent with Some p => chainMiddlewares [] p | None => fun _ => ret None end))
      (Some (match ExecerContext parent with
             | Some f => chainMiddlewares (makeExecContextFuncMiddlewares (tracer c) c "db.Exec") f
             | None => skippedExecContext
             end))
      (Some (match QueryerContext parent with
             | Some f => chainMiddlewares (makeQueryerContextMiddlewares (tracer c) "db.Query") f
             | None => skippedQueryContext
             end))
      (chainMiddlewares (makeBeginFuncMiddlewares (tracer c)) (Begin_ parent))
      (chainMiddlewares (makePrepareContextFuncMiddlewares (tracer c) (stmt_config c)) (Prepare parent))
      (Conn_Close parent) in
  let hasNameValueChecker := ConnValueChecker parent in
  let hasSessionResetter := SessionResetter parent in
  if hasNameValueChecker && negb hasSessionResetter then wrap true false
  else if negb hasNameValueChecker && hasSessionResetter then wrap false true
  else if hasNameValueChecker && hasSessionResetter then wrap true true
  else wrap false false.

End Driver.

(** ** Registration (sql.go) *)

Definition maxDriver : nat := 150.

(** The first free name among the numbered ones. *)
Fixpoint free_name (n : nat) (i : Z) (prefix : string) (drivers : list string) : option string :=
  match n with
  | 0%nat => None
  | S n =>
      let regName := prefix +:+ FormatInt i in
      if decide (regName ∈ drivers) then free_name n (i + 1) prefix drivers else Some regName
  end.

(** [RegisterWithSource]; [opened] is the error of opening and closing the database. *)
Definition RegisterWithSource (driverName : string) (opened : option string) (drivers : list string)
  : res string string * list string :=
  match opened with
  | Some e => (Err e, drivers)
  | None =>
      match free_name maxDriver 0 (driverName +:+ "-otelsql-") drivers with
      | Some name => (Ok name, name :: drivers)
      | None => (Err "unable to register driver, all slots have been taken", drivers)
      end
  end.

Definition Register (driverName : string) (opened : option string) (drivers : list string)
  : res string string * list string := RegisterWithSource driverName opened drivers.

(** ** Lemmas *)

(** The loop builds the chain from its end. *)
Lemma chain_foldr {T} (ms : list (T -> T)) (last : T) : chainMiddlewares ms last = foldr (fun m h => m h) last ms.
Proof.
  unfold chainMiddlewares. rewrite <- (rev_involutive ms) at 2. destruct (rev ms) as [|m l]; [done|].
  simpl. rewrite foldr_app. simpl. generalize (m last). clear. induction l as [|x l IH]; intros h; [done|].
  simpl. by rewrite IH, foldr_app.
Qed.

Section Facts.
Context {Value Rows : Type} (nil_rows : Rows).

Lemma values_roundtrip (vs : option (list Value)) : namedValuesToValues (valuesToNamedValues vs) = vs.
Proof.
  destruct vs as [l|]; [|done]. simpl. f_equal. generalize 0. induction l as [|v l IH]; intros i; [done|]. simpl. by rewrite IH.
Qed.

Lemma erase_traced {A} id method query ctx (next : context -> M A) :
  erase (traced (Some id) method query ctx next) = erase (next (mkCtx (ctx_query ctx) (id :: ctx_spans ctx))).
Proof. unfold traced. by destruct (next _) as [[a l]|]. Qed.

(** Two calls return the same error, or results whose methods return the same. *)
Definition result_same (m m' : M (res string Result)) : Prop :=
  match erase m, erase m' with
  | Panic p, Panic p' => p = p'
  | Ret (Err e), Ret (Err e') => e = e'
  | Ret (Ok r), Ret (Ok r') =>
      erase (LastInsertId r) = erase (LastInsertId r') /\ erase (RowsAffected r) = erase (RowsAffected r')
  | _, _ => False
  end.

Lemma result_same_refl m : result_same m m.
Proof. unfold result_same. by destruct (erase m) as [[]|]. Qed.

Lemma wrapResult_same ctx r id li ra :
  erase (LastInsertId (wrapResult ctx r (Some id) li ra)) = erase (LastInsertId r) /\
  erase (RowsAffected (wrapResult ctx r (Some id) li ra)) = erase (RowsAffected r).
Proof. unfold wrapResult, resultTrace. destruct li, ra; cbn [negb andb LastInsertId RowsAffected]; rewrite ?erase_traced; done. Qed.

(** An exec chain returns what its end returns. *)
Lemma exec_chain_same id c method (last : @execContextFunc Value) ctx query a :
  result_same (chainMiddlewares (makeExecContextFuncMiddlewares (Some id) c method) last ctx query a)
    (last (mkCtx (Some query) (id :: ctx_spans ctx)) query a).
Proof.
  rewrite chain_foldr. unfold makeExecContextFuncMiddlewares. cbn [foldr]. unfold execTrace, result_same. rewrite erase_traced. cbn [ctx_query ctx_spans ContextWithQuery].
  destruct (lastInsertID c || rowsAffected c); cbn [foldr]; [|apply result_same_refl].
  unfold execWrapResult, bind, ret. destruct (last _ query a) as [[[r|e] l]|p]; simpl; [|done|done]. apply wrapResult_same.
Qed.

Lemma query_chain_same id method (last : @queryContextFunc Value Rows) ctx query a :
  erase (chainMiddlewares (makeQueryerContextMiddlewares (Some id) method) last ctx query a) =
  erase (last (mkCtx (ctx_query ctx) (id :: ctx_spans ctx)) query a).
Proof. rewrite chain_foldr. cbn [foldr makeQueryerContextMiddlewares]. unfold queryTrace. apply erase_traced. Qed.

(** The switch chooses the interfaces of the parent. *)
Lemma wrapStmt_eq (parent : @Stmt Value Rows) cfg : wrapStmt nil_rows parent cfg =
  makeStmt nil_rows parent cfg (is_some (StmtExecContext parent)) (is_some (StmtQueryContext parent))
    (ColumnConverter parent) (NamedValueChecker parent).
Proof.
  unfold wrapStmt. by destruct (is_some (StmtExecContext parent)), (is_some (StmtQueryContext parent)),
    (ColumnConverter parent), (NamedValueChecker parent).
Qed.

(** ** Properties *)

(** C23: A wrapped statement is the statement it wraps: it has exactly the optional
    interfaces of its parent, all sixteen combinations included, and its methods hand the
    parent the same arguments and return what it returns, errors included; the results it
    gives out behave like those of the parent.  For the method without a context this
    holds when root spans are allowed. *)
Theorem wrapped_statement_transparent (parent : @Stmt Value Rows) c q id : tracer c = Some id ->
  let w := wrapStmt nil_rows parent (stmt_config c q) in
  (is_some (StmtExecContext w) = is_some (StmtExecContext parent) /\
   is_some (StmtQueryContext w) = is_some (StmtQueryContext parent) /\
   ColumnConverter w = ColumnConverter parent /\ NamedValueChecker w = NamedValueChecker parent /\
   Stmt_Close w = Stmt_Close parent /\ NumInput w = NumInput parent) /\
  (forall vs, erase (Query w vs) = erase (Query parent vs)) /\
  (allowRoot c = true -> forall vs, result_same (Exec w vs) (Exec parent vs)) /\
  (forall f g ctx a, StmtExecContext parent = Some f -> StmtExecContext w = Some g ->
     result_same (g ctx a) (f (mkCtx (Some q) (id :: ctx_spans ctx)) a)) /\
  (forall f g ctx a, StmtQueryContext parent = Some f -> StmtQueryContext w = Some g ->
     erase (g ctx a) = erase (f (mkCtx (ctx_query ctx) (id :: ctx_spans ctx)) a)).
Proof.
  intros Ht w. unfold w. rewrite wrapStmt_eq. split.
  { simpl. destruct (StmtExecContext parent), (StmtQueryContext parent); done. }
  simpl. unfold makeStmtQueryFunc, makeStmtExecFunc, makeStmtExecContextFunc, makeStmtQueryContextFunc. rewrite Ht. split; [|split; [|split]].
  - intros vs. unfold tracerOrNil. destruct (allowRoot c).
    + rewrite query_chain_same. by rewrite values_roundtrip.
    + rewrite chain_foldr. cbn [foldr makeQueryerContextMiddlewares]. by rewrite values_roundtrip.
  - intros -> vs. simpl. pose proof (exec_chain_same id c "db.Exec" (fun _ _ a => Exec parent (namedValuesToValues a)) Background q (valuesToNamedValues vs)) as H.
    cbn beta in H. by rewrite values_roundtrip in H.
  - intros f g ctx a -> [= <-]. apply (exec_chain_same id c "db.Exec" (fun ctx _ a => f ctx a)).
  - intros f g ctx a -> [= <-]. apply (query_chain_same id "db.Query" (fun ctx _ a => f ctx a)).
Qed.

(** No error is ever reported to the tracer: the end of the span of an execution is
    told that there was none, also when the driver returned one. *)
Theorem trace_errors_lost (parent : @Conn Value Rows) c id f ctx q a r l :
  tracer c = Some id -> ExecerContext parent = Some f ->
  forall g, ExecerContext (wrapConn nil_rows parent c) = Some g -> g ctx q a = Ret (r, l) ->
  exists l0 r0, f (mkCtx (Some q) (id :: ctx_spans ctx)) q a = Ret (r0, l0) /\
    l = Started id "db.Exec" q :: l0 ++ [Ended id "db.Exec" None] /\ (forall e, r0 = Err e <-> r = Err e).
Proof.
  intros Ht Hf g Hg Hr.
  assert (g = chainMiddlewares (makeExecContextFuncMiddlewares (Some id) c "db.Exec") f) as ->.
  { unfold wrapConn in Hg. rewrite Hf, Ht in Hg. destruct (ConnValueChecker parent), (SessionResetter parent); simpl in Hg; congruence. }
  rewrite chain_foldr in Hr. unfold makeExecContextFuncMiddlewares in Hr. simpl in Hr. unfold execTrace, traced in Hr. simpl in Hr.
  destruct (lastInsertID c || rowsAffected c); simpl in Hr.
  - unfold execWrapResult, bind, ret in Hr. destruct (f _ q a) as [[r0 l0]|p]; [|done]. simpl in Hr. injection Hr as <- <-.
    exists l0, r0. rewrite app_nil_r. split; [done|]. split; [done|]. intros e. destruct r0; split; congruence.
  - destruct (f _ q a) as [[r0 l0]|p]; [|done]. injection Hr as <- <-. exists l0, r0. done.
Qed.

(** With the default options, the method without a context of every wrapped statement
    panics: the tracer is nil when root spans are not allowed, and the chain of an
    execution, unlike that of a query, calls it all the same. *)
Theorem legacy_exec_panics (parent : @Stmt Value Rows) c q vs : allowRoot c = false ->
  Exec (wrapStmt nil_rows parent (stmt_config c q)) vs = Panic "invalid memory address or nil pointer dereference".
Proof.
  intros Ha. rewrite wrapStmt_eq. simpl. unfold makeStmtExecFunc. rewrite chain_foldr. unfold makeExecContextFuncMiddlewares.
  by rewrite Ha.
Qed.

End Facts.

(** A registered name is the first free one of the numbered names, and the registration
    fails exactly when the database does or when all of them are taken. *)
Lemma free_name_spec n : forall i prefix drivers,
  match free_name n i prefix drivers with
  | Some name => exists j, (j < n)%nat /\ name = prefix +:+ FormatInt (i + Z.of_nat j) /\ (name ∉ drivers) /\
      forall k, (k < j)%nat -> prefix +:+ FormatInt (i + Z.of_nat k) ∈ drivers
  | None => forall k, (k < n)%nat -> prefix +:+ FormatInt (i + Z.of_nat k) ∈ drivers
  end.
Proof.
  induction n as [|n IH]; intros i prefix drivers; simpl; [lia|]. case_decide as Hin.
  - specialize (IH (i + 1) prefix drivers).
    assert (forall k, i + 1 + Z.of_nat k = i + Z.of_nat (S k)) as Hk by lia.
    destruct (free_name n (i + 1) prefix drivers) as [name|].
    + destruct IH as (j & Hj & -> & Hn & Hall). exists (S j). split; [lia|]. rewrite <- Hk. split; [done|]. split; [done|].
      intros [|k] Hlt; [by rewrite Z.add_0_r|]. rewrite <- Hk. apply Hall. lia.
    + intros [|k] Hlt; [by rewrite Z.add_0_r|]. rewrite <- Hk. apply IH. lia.
  - exists 0%nat. split; [lia|]. rewrite Z.add_0_r. split; [done|]. split; [done|]. lia.
Qed.

(** A registration picks the first free one of the numbered names and adds it to the
    registered drivers; it fails exactly when the database cannot be opened or all 150
    names are taken. *)
Theorem register_first_free driverName opened drivers :
  match RegisterWithSource driverName opened drivers with
  | (Ok name, drivers') => opened = None /\ drivers' = name :: drivers /\ (name ∉ drivers) /\
      exists j, (j < 150)%nat /\ name = (driverName +:+ "-otelsql-") +:+ FormatInt (Z.of_nat j) /\
        forall k, (k < j)%nat -> (driverName +:+ "-otelsql-") +:+ FormatInt (Z.of_nat k) ∈ drivers
  | (Err e, drivers') => drivers' = drivers /\
      (opened = Some e \/
       (forall k, (k < 150)%nat -> (driverName +:+ "-otelsql-") +:+ FormatInt (Z.of_nat k) ∈ drivers))
  end.
Proof.
  unfold RegisterWithSource. destruct opened as [e|]; [by split; [|left]|].
  pose proof (free_name_spec maxDriver 0 (driverName +:+ "-otelsql-") drivers) as H.
  destruct (free_name _ _ _ _) as [name|]; simpl in H.
  - destruct H as (j & Hj & Hname & Hn & Hall). do 3 (split; [done|]). exists j. split; [exact Hj|]. split; [done|exact Hall].
  - split; [done|]. right. exact H.
Qed.

(** ** Witnesses *)

Definition demo_result : Result := mkResult (ret (Ok 7)) (ret (Err "not supported")).
Definition demo_stmt : @Stmt string unit :=
  mkStmt (fun _ => ret (Ok demo_result)) (fun _ => ret (Err "closed"))
    (Some (fun _ _ => Ret (Err "duplicate key", [Parent "exec"]))) None false true (ret None) 2.
Definition demo_conn : @Conn string unit :=
  mkConn None (Some (fun _ _ _ => Ret (Err "duplicate key", [Parent "exec"]))) None
    (fun _ => ret (Err "no")) (fun _ _ => ret (Ok demo_stmt)) (ret None) false false.
Definition demo_config : config := Wrap_config [WithTracer (Some 1%nat)].

Lemma wrapped_statement_transparent_witness :
  let w := wrapStmt tt demo_stmt (stmt_config demo_config "insert") in
  is_some (StmtExecContext w) = true /\ is_some (StmtQueryContext w) = false.
Proof.
  destruct (wrapped_statement_transparent tt demo_stmt demo_config "insert" 1 eq_refl) as [(H1 & H2 & _) _]. by split.
Defined.

Lemma trace_errors_lost_witness : exists l0 r0,
  [Started 1 "db.Exec" "insert"; Parent "exec"; Ended 1 "db.Exec" None] = Started 1 "db.Exec" "insert" :: l0 ++ [Ended 1 "db.Exec" None] /\
  @Err string Result "duplicate key" = r0.
Proof.
  destruct (trace_errors_lost tt demo_conn demo_config 1 (fun _ _ _ => Ret (Err "duplicate key", [Parent "exec"])) Background "insert" None
    (Err "duplicate key") [Started 1 "db.Exec" "insert"; Parent "exec"; Ended 1 "db.Exec" None] eq_refl eq_refl _ eq_refl eq_refl)
    as (l0 & r0 & _ & Hl & Hr). exists l0, r0. split; [exact Hl|]. symmetry. by apply Hr.
Defined.

Lemma legacy_exec_panics_witness :
  Exec (wrapStmt tt demo_stmt (stmt_config demo_config "insert")) None = Panic "invalid memory address or nil pointer dereference".
Proof. exact (legacy_exec_panics tt demo_stmt demo_config "insert" None eq_refl). Defined.

End SqlDriver.
