(* ===== verification/SqlConnector.v ===== *)
(** * Drivers and connectors of the SQL wrapper: src/infra/sqldb/sql (sql.go, ping.go, tx.go, prepare.go)

    The wrapped driver, its connectors and the life of a connector, and the choice between the old and the new
    interfaces of a connection. *)
From stdpp Require Import prelude strings list.
From Stdlib Require Import ZArith Lia.
From S2P Require Import Prelude SqlDriver.

Local Open Scope Z_scope.

Module SqlConnector.
Import SqlDriver.

Section Connector.
Context {Value Rows : Type} (nil_rows : Rows).
Local Notation Conn := (@Conn Value Rows).
Local Notation Stmt := (@Stmt Value Rows).

(** ** Old and new interfaces (tx.go, prepare.go) *)

(** A connection of a driver with its old methods and, where it has them, those with a context. *)
Record raw_conn := mkRaw {
  raw_Begin : M (res string Tx);
  raw_BeginTx : option beginFunc;
  raw_Prepare : string -> M (res string Stmt);
  raw_PrepareContext : option (@prepareContextFunc Value Rows);
  raw_rest : beginFunc -> @prepareContextFunc Value Rows -> Conn
}.

Definition ensureBegin (conn : raw_conn) : beginFunc :=
  match raw_BeginTx conn with Some b => b | None => fun _ => raw_Begin conn end.

Definition ensurePrepareContext (conn : raw_conn) : @prepareContextFunc Value Rows :=
  match raw_PrepareContext conn with Some p => p | None => fun _ query => raw_Prepare conn query end.

Definition conn_of (conn : raw_conn) : Conn := raw_rest conn (ensureBegin conn) (ensurePrepareContext conn).

(** ** Pings (ping.go) *)

Definition nopPing (_ : context) : M (option string) := ret None.
Definition makePingFuncMiddlewares (t : option nat) : list ((context -> M (option string)) -> context -> M (option string)) := [].

(** ** Drivers (sql.go) *)

(** [driver.Connector]; [Closer] when it is an [io.Closer]. *)
Record Connector := mkConnector { Connect : context -> M (res string raw_conn); Closer : option (M (option string)) }.

(** [driver.Driver] with, maybe, [driver.DriverContext]. *)
Record Driver := mkDriver {
  Open : string -> M (res string raw_conn);
  OpenConnector : option (string -> M (res string Connector))
}.

Record otDriver := mkOt { parent : Driver; connector : option Connector; close : M (option string); connConfig : config }.

(** What [wrapDriver] returns: the driver, and whether it has the interface with connectors. *)
Definition wrapDriver (d : Driver) (c : config) : otDriver * bool :=
  (mkOt d None (ret None) c, match OpenConnector d with Some _ => true | None => false end).

Definition Wrap (d : Driver) (opts : list (config -> config)) : otDriver * bool := wrapDriver d (Wrap_config opts).

Definition wrap_result (c : config) (r : res string raw_conn) : res string Conn :=
  match r with Ok p => Ok (wrapConn nil_rows (conn_of p) c) | Err e => Err e end.

Definition ot_Open (d : otDriver) (name : string) : M (res string Conn) :=
  bind (Open (parent d) name) (fun r => ret (wrap_result (connConfig d) r)).

Definition ot_Close (d : otDriver) : M (option string) := close d.

(** [OpenConnector] on a copy of the driver; without the interface the type assertion panics. *)
Definition ot_OpenConnector (d : otDriver) (name : string) : M (res string otDriver) :=
  match OpenConnector (parent d) with
  | None => Panic "interface conversion: missing method OpenConnector"
  | Some f =>
      bind (f name) (fun r => ret (
        match r with
        | Err e => Err e
        | Ok c => Ok (mkOt (parent d) (Some c) (match Closer c with Some cl => cl | None => close d end) (connConfig d))
        end))
  end.

Definition ot_Connect (d : otDriver) (ctx : context) : M (res string Conn) :=
  match connector d with
  | None => Panic "invalid memory address or nil pointer dereference"
  | Some c => bind (Connect c ctx) (fun r => ret (wrap_result (connConfig d) r))
  end.

Definition ot_Driver (d : otDriver) : otDriver := d.

(** ** [database/sql] on a driver: a database is a connector, or the name for a driver without connectors *)

Inductive db := ByConnector (c : otDriver) | ByName (d : otDriver) (name : string).

Definition sql_Open (d : otDriver * bool) (name : string) : M (res string db) :=
  if d.2 then bind (ot_OpenConnector d.1 name) (fun r => ret (match r with Ok c => Ok (ByConnector c) | Err e => Err e end))
  else ret (Ok (ByName d.1 name)).

Definition db_conn (x : db) (ctx : context) : M (res string Conn) :=
  match x with ByConnector c => ot_Connect c ctx | ByName d name => ot_Open d name end.

(** [DB.Close] closes the connector when it can be closed. *)
Definition db_Close (x : db) : M (option string) :=
  match x with ByConnector c => ot_Close c | ByName _ _ => ret None end.

(** The same for a driver that is not wrapped. *)
Inductive raw_db := RawConnector (c : Connector) | RawName (d : Driver) (name : string).

Definition raw_Open_db (d : Driver) (name : string) : M (res string raw_db) :=
  match OpenConnector d with
  | Some f => bind (f name) (fun r => ret (match r with Ok c => Ok (RawConnector c) | Err e => Err e end))
  | None => ret (Ok (RawName d name))
  end.

Definition raw_db_conn (x : raw_db) (ctx : context) : M (res string raw_conn) :=
  match x with RawConnector c => Connect c ctx | RawName d name => Open d name end.

Definition raw_db_Close (x : raw_db) : M (option string) :=
  match x with RawConnector c => match Closer c with Some cl => cl | None => ret None end | RawName _ _ => ret None end.

(** ** Theorems *)

(** The wrapped database that stands for one that is not wrapped. *)
Definition same_db (c : config) (x : db) (y : raw_db) : Prop :=
  (forall ctx, db_conn x ctx = bind (raw_db_conn y ctx) (fun r => ret (wrap_result c r))) /\ db_Close x = raw_db_Close y.

(** C24: opening through the wrapped driver is opening through the driver: the same events, errors and panics, each
    connection of the driver wrapped with the configuration of the options, and closing the database closes what the driver would close. *)
Theorem wrapped_driver_transparent d opts name :
  match raw_Open_db d name with
  | Panic p => sql_Open (Wrap d opts) name = Panic p
  | Ret (Err e, l) => sql_Open (Wrap d opts) name = Ret (Err e, l)
  | Ret (Ok y, l) => exists x, sql_Open (Wrap d opts) name = Ret (Ok x, l) /\ same_db (Wrap_config opts) x y
  end.
Proof.
  unfold sql_Open, raw_Open_db, Wrap, wrapDriver. cbn [fst snd]. unfold ot_OpenConnector. cbn [parent].
  destruct (OpenConnector d) as [f|] eqn:E; [|by eexists].
  destruct (f name) as [[[c|e] l]|p]; cbn; rewrite ?app_nil_r; [|done|done].
  eexists. split; [done|]. split; [done|]. cbn. by destruct (Closer c).
Qed.

(** A connection whose driver has the methods with a context is used through them, and never through the old ones. *)
Theorem context_methods_preferred conn b p : raw_BeginTx conn = Some b -> raw_PrepareContext conn = Some p ->
  conn_of conn = raw_rest conn b p.
Proof. unfold conn_of, ensureBegin, ensurePrepareContext. by intros -> ->. Qed.

(** Tracing of pings has no effect: with the option or without it a ping of the wrapped connection is that of the driver. *)
Theorem trace_ping_ignored (conn : Conn) c :
  Pinger (wrapConn nil_rows conn (TracePing c)) = Pinger (wrapConn nil_rows conn c).
Proof. unfold wrapConn. cbn. by destruct (ConnValueChecker conn), (SessionResetter conn). Qed.

End Connector.

(** ** Witnesses *)

Definition demo_raw : @raw_conn string unit :=
  mkRaw (ret (Err "old")) (Some (fun _ => ret (Err "new"))) (fun _ => ret (Err "old")) (Some (fun _ _ => ret (Err "new")))
    (fun b p => mkConn None None None b p (ret None) false false).

Lemma context_methods_preferred_witness :
  conn_of demo_raw = mkConn None None None (fun _ => ret (Err "new")) (fun _ _ => ret (Err "new")) (ret None) false false.
Proof. apply (context_methods_preferred demo_raw); reflexivity. Defined.

End SqlConnector.
