(* ===== verification/OtelLevel.v ===== *)
(** * Log levels: src/infra/otel/log/level.go and the mappings between level scales

    Severities of OpenTelemetry with their text form; the verbosity of the SDK's own
    logger (sdk/log.go); the scales of logr, slog and grpclog (log/bridge); the level
    filter for slog handlers. *)
From stdpp Require Import prelude strings list gmap.
From Stdlib Require Import ZArith Lia Ascii.
From S2P Require Import Prelude Strconv.

Local Open Scope Z_scope.

Module OtelLevel.
Import Strconv.

(** ** Severities; a [Severity] is an [int] *)

Definition NONE : Z := 0.
Definition TRACE : Z := 1.
Definition DEBUG : Z := 5.
Definition INFO : Z := 9.
Definition WARN : Z := 13.
Definition ERROR : Z := 17.
Definition FATAL : Z := 21.

(** The closure [str] of [String]. *)
Definition level_str (base : string) (val : Z) : string :=
  if val =? 0 then base else base +:+ fmt_plus_d val.

Definition Severity_String (v : Z) : string :=
  if v <? DEBUG then level_str "TRACE" (i64 (v - TRACE))
  else if v <? INFO then level_str "DEBUG" (v - DEBUG)
  else if v <? WARN then level_str "INFO" (v - INFO)
  else if v <? ERROR then level_str "WARN" (v - WARN)
  else if v <? FATAL then level_str "ERROR" (v - ERROR)
  else level_str "FATAL" (v - FATAL).

Inductive parse_reason := BadDepth | UnknownName.

(** The error names the input and wraps the reason. *)
Record parse_error := mkPE { pe_input : string; pe_reason : parse_reason }.

Definition is_sign (c : ascii) : bool := is_byte "+" c || is_byte "-" c.

(** [s[:i]] and [s[i:]] at the first sign. *)
Definition split_depth (s : string) : string * string := span (fun c => negb (is_sign c)) s.

Definition level_base (name : string) : option Z :=
  assoc_lookup (ToUpper name)
    [("TRACE", TRACE); ("DEBUG", DEBUG); ("INFO", INFO);
     ("WARN", WARN); ("ERROR", ERROR); ("FATAL", FATAL)]%string.

(** [parse] on the receiver [v]: the error, and the receiver afterwards. *)
Definition Severity_parse (v : Z) (s : string) : option parse_error * Z :=
  let '(name, tail) := split_depth s in
  match (match tail with EmptyString => Some 0 | _ => Atoi tail end) with
  | None => (Some (mkPE s BadDepth), v)
  | Some depth =>
      match level_base name with
      | None => (Some (mkPE s UnknownName), v)
      | Some base => (None, i64 (base + depth))
      end
  end.

Definition Severity_MarshalText (v : Z) : string := Severity_String v.
Definition Severity_UnmarshalText (v : Z) (data : string) : option parse_error * Z := Severity_parse v data.
Definition Severity_MarshalJSON (v : Z) : string := Quote (Severity_String v).

(** The outer error is that of strconv.Unquote. *)
Definition Severity_UnmarshalJSON (v : Z) (data : string) : option (option parse_error) * Z :=
  match Unquote data with
  | None => (Some None, v)
  | Some s => let '(e, v) := Severity_parse v s in (Some <$> e, v)
  end.

(** ** sdk/log.go: the verbosity given to stdr for a level *)

Definition SetLogLevel (level : Z) : Z :=
  if (level <=? NONE) || (ERROR <=? level) then 0
  else if WARN <=? level then 1
  else if INFO <=? level then 4
  else if TRACE <=? level then 8
  else 0.

(** ** log/bridge: the scales of the other loggers *)

Definition OtelSeverity (v : Z) : Z := v.
Definition SeverityLevel (v : Z) : Z := i64 (v - INFO).

Definition OtelVerbosity (v : Z) : Z :=
  if v =? 0 then ERROR else if v =? 1 then WARN else if v <=? 4 then INFO else DEBUG.

Definition SlogVerbosity (v : Z) : Z := SeverityLevel (OtelSeverity v).

(** grpclog: its levels are numbered from 0. *)
Definition grpc_severity (level : Z) : Z :=
  if level =? 0 then INFO else if level =? 1 then WARN
  else if level =? 2 then ERROR else if level =? 3 then FATAL else DEBUG.

(** ** log/bridge/slog: a level filter in front of a slog handler

    A [Leveler] is a constant or a variable whose value is in a store. *)

Inductive Leveler := LevelConst (l : Z) | LevelVar (ref : nat).

Abbreviation levels := (gmap nat Z).

Definition Leveler_Level (st : levels) (l : Leveler) : Z :=
  match l with LevelConst z => z | LevelVar r => default 0 (st !! r) end.

Inductive Handler :=
| backend (enabled : Z -> bool)
| LevelHandler (Level : option Leveler) (back : Handler).

Fixpoint Handler_Enabled (st : levels) (h : Handler) (v : Z) : bool :=
  match h with
  | backend enabled => enabled v
  | LevelHandler Level back =>
      match Level with
      | Some min => if v <? Leveler_Level st min then false else Handler_Enabled st back v
      | None => Handler_Enabled st back v
      end
  end.

(** A nil Leveler is called without a check. *)
Definition WithLevel (st : levels) (front : Leveler) (back : Handler) : outcome Handler :=
  match back with
  | LevelHandler (Some l) inner =>
      if Leveler_Level st l =? Leveler_Level st front then Ret back
      else Ret (LevelHandler (Some front) inner)
  | LevelHandler None _ => Panic "nil pointer dereference"
  | backend _ => Ret (LevelHandler (Some front) back)
  end.

(** ** Lemmas *)

Lemma split_depth_plus name z :
  all_bytes (fun c => negb (is_sign c)) name = true ->
  split_depth (name +:+ fmt_plus_d z) = (name, fmt_plus_d z).
Proof.
  intros Hn. apply span_app; [done|]. unfold fmt_plus_d, FormatInt.
  destruct (Z.ltb_spec z 0); [|done]. by destruct (Z.ltb_spec z 0); [|lia].
Qed.

Lemma parse_level_str v0 name base val :
  all_bytes (fun c => negb (is_sign c)) name = true ->
  level_base name = Some base -> min_int64 <= val <= max_int64 ->
  Severity_parse v0 (level_str name val) = (None, i64 (base + val)).
Proof.
  intros Hn Hb Hval. unfold Severity_parse, level_str.
  destruct (Z.eqb_spec val 0) as [->|].
  - unfold split_depth. rewrite span_all by done. by rewrite Hb.
  - rewrite split_depth_plus by done.
    assert (match fmt_plus_d val with EmptyString => Some 0 | _ => Atoi (fmt_plus_d val) end = Some val) as ->.
    { rewrite Atoi_fmt_plus_d by done. unfold fmt_plus_d, FormatInt.
      destruct (Z.ltb_spec val 0); [|done]. by destruct (Z.ltb_spec val 0); [|lia]. }
    by rewrite Hb.
Qed.

Lemma i64_back v : min_int64 <= v <= max_int64 -> i64 (TRACE + i64 (v - TRACE)) = v.
Proof.
  unfold min_int64, max_int64, TRACE, wrap_signed. change (64 - 1) with 63. intros Hv.
  replace (1 + ((v - 1 + 2 ^ 63) mod 2 ^ 64 - 2 ^ 63) + 2 ^ 63) with (1 + (v - 1 + 2 ^ 63) mod 2 ^ 64) by lia.
  rewrite Zplus_mod_idemp_r. replace (1 + (v - 1 + 2 ^ 63)) with (v + 2 ^ 63) by lia.
  rewrite Z.mod_small; lia.
Qed.

Lemma parse_String v0 v : min_int64 <= v <= max_int64 ->
  Severity_parse v0 (Severity_String v) = (None, v).
Proof.
  intros Hv. pose proof (i64_back v Hv) as Hback. unfold min_int64, max_int64 in *.
  assert (forall b, 0 <= b <= v -> i64 (b + (v - b)) = v) as Hup.
  { intros b Hb. replace (b + (v - b)) with v by lia. apply wrap_signed_small; lia. }
  unfold Severity_String.
  destruct (Z.ltb_spec v DEBUG).
  { rewrite (parse_level_str v0 "TRACE" TRACE); [by rewrite Hback|done|done|].
    pose proof (wrap_signed_range 64 (v - TRACE)). unfold min_int64, max_int64. lia. }
  unfold DEBUG, INFO, WARN, ERROR, FATAL in *.
  repeat match goal with |- context [?a <? ?b] => destruct (Z.ltb_spec a b) end;
    (erewrite parse_level_str; [|reflexivity|reflexivity|unfold min_int64, max_int64; lia]);
    rewrite Hup by (vm_compute TRACE; lia); done.
Qed.

Lemma is_sign_lower c : is_sign (lower_byte c) = is_sign c.
Proof. by destruct c as [[] [] [] [] [] [] [] []]. Qed.

Lemma split_depth_ToLower s :
  split_depth (ToLower s) = let '(a, b) := split_depth s in (ToLower a, ToLower b).
Proof.
  unfold split_depth. induction s as [|c s IH]; simpl; [done|]. rewrite is_sign_lower.
  destruct (is_sign c); simpl; [done|]. rewrite IH. by destruct (span _ s).
Qed.

Lemma dec_value_ToLower s acc : dec_value (ToLower s) acc = dec_value s acc.
Proof.
  revert acc. induction s as [|c s IH]; intros acc; simpl; [done|].
  assert (is_digit (lower_byte c) = is_digit c /\ (is_digit c = true -> lower_byte c = c)) as [-> Hd].
  { by destruct c as [[] [] [] [] [] [] [] []]. }
  destruct (is_digit c); [|done]. by rewrite Hd.
Qed.

Lemma Atoi_ToLower s : Atoi (ToLower s) = Atoi s.
Proof.
  assert (forall t, parse_nat (ToLower t) = parse_nat t) as E.
  { intros [|c t]; [done|]. unfold parse_nat. simpl ToLower. apply (dec_value_ToLower (String c t)). }
  unfold Atoi, ParseInt. destruct s as [|c s]; [done|].
  assert (lower_byte c = c \/ (is_digit (lower_byte c) = false /\ is_digit c = false
    /\ ~ (c = "-"%char \/ c = "+"%char) /\ ~ (lower_byte c = "-"%char \/ lower_byte c = "+"%char))) as [Hc|(H1&H2&H3&H4)].
  { destruct c as [[] [] [] [] [] [] [] []]; (by left) || (right; repeat split; by intros [?|?]). }
  - cbn [ToLower]. rewrite Hc. f_equal.
    pose proof (E (String c s)) as E1. cbn [ToLower] in E1. rewrite Hc in E1.
    destruct c as [[] [] [] [] [] [] [] []]; rewrite ?E; done.
  - cbn [ToLower]. unfold parse_nat; cbn [dec_value].
    destruct c as [[] [] [] [] [] [] [] []]; first [by cbn | by destruct H3; auto | by vm_compute in H2].
Qed.

Lemma level_base_ToLower name : level_base (ToLower name) = level_base name.
Proof. unfold level_base. by rewrite ToUpper_ToLower. Qed.

(** ** Theorems *)

(** Every [int] survives the text form, the most negative ones through the wrap-around
    of their distance to TRACE. *)
Theorem severity_text_roundtrip v0 v : min_int64 <= v <= max_int64 ->
  Severity_UnmarshalText v0 (Severity_MarshalText v) = (None, v)
  /\ Severity_UnmarshalJSON v0 (Severity_MarshalJSON v) = (None, v).
Proof.
  intros Hv. unfold Severity_UnmarshalJSON, Severity_MarshalJSON. rewrite Unquote_Quote.
  split; [|unfold Severity_UnmarshalText, Severity_MarshalText]; by rewrite parse_String.
Qed.

Lemma severity_text_roundtrip_witness :
  Severity_String min_int64 = "TRACE+9223372036854775807"%string
  /\ Severity_UnmarshalText 0 (Severity_MarshalText min_int64) = (None, min_int64)
  /\ Severity_UnmarshalJSON 0 (Severity_MarshalJSON 11) = (None, 11).
Proof.
  split; [by vm_compute|]. split.
  - by apply (severity_text_roundtrip 0 min_int64); unfold min_int64, max_int64; lia.
  - by apply (severity_text_roundtrip 0 11); unfold min_int64, max_int64; lia.
Defined.

(** Names are read without regard to case: the same value or the same reason. *)
Theorem severity_ignores_case v s :
  (Severity_parse v (ToLower s)).2 = (Severity_parse v s).2
  /\ pe_reason <$> (Severity_parse v (ToLower s)).1 = pe_reason <$> (Severity_parse v s).1.
Proof.
  unfold Severity_parse. rewrite split_depth_ToLower. destruct (split_depth s) as [name tail].
  rewrite level_base_ToLower.
  assert (match ToLower tail with EmptyString => Some 0 | _ => Atoi (ToLower tail) end =
          match tail with EmptyString => Some 0 | _ => Atoi tail end) as ->.
  { destruct tail as [|a t]; [done|]. exact (Atoi_ToLower (String a t)). }
  destruct (match tail with EmptyString => Some 0 | _ => Atoi tail end); [|done].
  by destruct (level_base name).
Qed.

(** The classes of messages of the SDK's own logger, each logged at its verbosity,
    and the first severity above the class; errors have none. *)
Inductive message := Error_ | Warn_ | Info_ | Debug_.

Definition V (m : message) : Z := match m with Error_ => 0 | Warn_ => 1 | Info_ => 4 | Debug_ => 8 end.

Definition above (m : message) : option Z :=
  match m with Error_ => None | Warn_ => Some ERROR | Info_ => Some WARN | Debug_ => Some INFO end.

(** With a level set, a message is shown iff the level is not above its class. *)
Theorem internal_log_filter level m : NONE < level ->
  V m <= SetLogLevel level <-> match above m with None => True | Some top => level < top end.
Proof.
  unfold SetLogLevel, NONE, ERROR, WARN, INFO, TRACE. intros Hl.
  repeat match goal with |- context [?a <=? ?b] => destruct (Z.leb_spec a b) end;
    destruct m; cbn; unfold ERROR, WARN, INFO; lia.
Qed.

Lemma internal_log_filter_witness : V Warn_ <= SetLogLevel 14 /\ ~ V Info_ <= SetLogLevel 14.
Proof.
  split.
  - apply (internal_log_filter 14 Warn_); vm_compute; done.
  - intros H. apply (internal_log_filter 14 Info_) in H; vm_compute in *; done.
Defined.

(** [SlogVerbosity] is documented to give warnings at V(1), information at V(4) and debug
    messages at V(8); it grows with the verbosity, and all of them, V(0) included,
    are below the default level of slog, which is 0. *)
Theorem slog_verbosity_reversed v w : 0 <= v -> v < w -> w <= 8 ->
  SlogVerbosity v < SlogVerbosity w < 0.
Proof.
  intros. unfold SlogVerbosity, SeverityLevel, OtelSeverity, INFO.
  rewrite !wrap_signed_small by lia. lia.
Qed.

Lemma slog_verbosity_reversed_witness : SlogVerbosity 1 < SlogVerbosity 8 < 0.
Proof. apply (slog_verbosity_reversed 1 8); lia. Defined.

(** The filter of a [LevelHandler] without a level lets through whatever the handler
    behind it takes (it is documented to assume the level Info). *)
Theorem nil_level_passes st back v :
  Handler_Enabled st (LevelHandler None back) v = Handler_Enabled st back v.
Proof. done. Qed.

(** A level variable put in front of a filter whose level is the same at that moment is
    dropped: however it is lowered later, what was below the old level stays disabled. *)
Theorem level_var_dropped st ref l inner z v :
  l <> LevelVar ref -> Leveler_Level st l = Leveler_Level st (LevelVar ref) ->
  v < Leveler_Level st l ->
  exists h, WithLevel st (LevelVar ref) (LevelHandler (Some l) inner) = Ret h
  /\ Handler_Enabled (<[ref := z]> st) h v = false.
Proof.
  intros Hl E Hv. eexists. unfold WithLevel. rewrite E, Z.eqb_refl. split; [done|].
  assert (Leveler_Level (<[ref := z]> st) l = Leveler_Level st l) as El.
  { destruct l as [c|r]; [done|]. cbn [Leveler_Level]. by rewrite lookup_insert_ne by congruence. }
  cbn [Handler_Enabled]. rewrite El. by destruct (Z.ltb_spec v (Leveler_Level st l)); [|lia].
Qed.

Lemma level_var_dropped_witness :
  exists h, WithLevel {[0%nat := 4]} (LevelVar 0) (LevelHandler (Some (LevelConst 4)) (backend (fun _ => true))) = Ret h
  /\ Handler_Enabled (<[0%nat := -4]> {[0%nat := 4]}) h 0 = false.
Proof. by apply (level_var_dropped {[0%nat := 4]} 0 (LevelConst 4) (backend (fun _ => true)) (-4) 0). Defined.

(** Otherwise [WithLevel] enables exactly what is at or above the new level and enabled
    behind the filter, and one layer of filter is replaced rather than stacked. *)
Theorem with_level_filters st front back h v :
  WithLevel st front back = Ret h ->
  Handler_Enabled st h v =
    negb (v <? Leveler_Level st front) &&
    Handler_Enabled st (match back with LevelHandler _ inner => inner | b => b end) v.
Proof.
  unfold WithLevel. destruct back as [en|[l|] inner]; intros; simplify_eq.
  - cbn. by destruct (v <? _).
  - destruct (Z.eqb_spec (Leveler_Level st l) (Leveler_Level st front)) as [E|]; simplify_eq;
      cbn; [rewrite E|]; by destruct (v <? _).
Qed.

Lemma with_level_filters_witness :
  exists h, WithLevel ∅ (LevelConst 4) (LevelHandler (Some (LevelConst 0)) (backend (fun v => v <? 9))) = Ret h
  /\ Handler_Enabled ∅ h 3 = false.
Proof.
  eexists. split; [reflexivity|].
  rewrite (with_level_filters ∅ (LevelConst 4) (LevelHandler (Some (LevelConst 0)) (backend (fun v => v <? 9))) _ 3); reflexivity.
Defined.

End OtelLevel.
