(* ===== verification/OtelDsn.v ===== *)
(** * Exporter addresses, files and environment: src/infra/otel/internal

    dsn.go (schemes and parameters of an exporter address), file.go (log files with
    rotation) and env.go (reading OTEL_ variables).  [mime.ParseMediaType] and
    [filepath.Abs] are arguments; the iteration order of a map is an argument too. *)
From stdpp Require Import prelude strings list gmap.
From Stdlib Require Import ZArith Lia Ascii.
From S2P Require Import Prelude Strconv NetAddr SafeMap.

Local Open Scope Z_scope.

Module OtelDsn.
Import Strconv NetAddr.

(** ** dsn.go *)

Definition is_alpha (c : ascii) : bool := in_range "a" "z" c || in_range "A" "Z" c.

Definition is_scheme_rest (c : ascii) : bool :=
  is_digit c || is_byte "+" c || is_byte "-" c || is_byte "." c.

(** The loop of [GetScheme] at the bytes [s], after the bytes [pre]. *)
Fixpoint scheme_loop (raw pre s : string) : res string (string * string) :=
  match s with
  | EmptyString => Ok (raw, EmptyString)
  | String c s' =>
      if is_alpha c then scheme_loop raw (pre +:+ String c EmptyString) s'
      else if is_scheme_rest c then
        if decide (pre = EmptyString) then Ok (EmptyString, raw)
        else scheme_loop raw (pre +:+ String c EmptyString) s'
      else if is_byte ":" c then
        if decide (pre = EmptyString) then Err "missing scheme" else Ok (pre, s')
      else Ok (EmptyString, raw)
  end.

(** The scheme and the rest. *)
Definition GetScheme (rawDSN : string) : res string (string * string) := scheme_loop rawDSN EmptyString rawDSN.

(** [url.unescape]; [plus] is the mode of a query, where a plus sign is a space. *)
Fixpoint url_unescape (plus : bool) (s : string) : option string :=
  match s with
  | EmptyString => Some EmptyString
  | String c s' =>
      if is_byte "%" c then
        match s' with
        | String a (String b s'') =>
            x ← hex_val a; y ← hex_val b; t ← url_unescape plus s'';
            Some (byte_string (x * 16 + y) +:+ t)
        | _ => None
        end
      else t ← url_unescape plus s'; Some (String (if plus && is_byte "+" c then " "%char else c) t)
  end.

Definition PathUnescape : string -> option string := url_unescape false.
Definition QueryUnescape : string -> option string := url_unescape true.

(** [url.ParseQuery]: the pairs in their order; [None] when one of them is malformed. *)
Fixpoint query_pairs (parts : list string) : option (list (string * string)) :=
  match parts with
  | [] => Some []
  | part :: parts =>
      if has_byte ";" part then None
      else if decide (part = EmptyString) then query_pairs parts
      else
        let '(k, v, _) := Cut part "=" in
        k ← QueryUnescape k; v ← QueryUnescape v; rest ← query_pairs parts;
        Some ((k, v) :: rest)
  end.

Definition ParseQuery (s : string) : option (list (string * string)) := query_pairs (split_byte "&" s).

(** [params[h] = vs[n-1]]: the last value of a name. *)
Definition last_values (l : list (string * string)) : gmap string string :=
  foldl (fun m kv => <[kv.1 := kv.2]> m) ∅ l.

Section Dsn.
Context (ParseMediaType : string -> res string (gmap string string)).

(** The named results of [ParseDSN]; nil parameters are [None]. *)
Definition ParseDSN (rawDSN : string) : string * option (gmap string string) * option string :=
  match GetScheme rawDSN with
  | Err e => (EmptyString, None, Some e)
  | Ok (_, path) =>
      let '(path, isURL) := CutPrefix path "//" in
      let opts := if isURL then "?"%char else ";"%char in
      let unescaped :=
        if isURL then PathUnescape (let '(p, _, _) := Cut path "#" in p) else Some path in
      match unescaped with
      | None => (EmptyString, None, Some "invalid URL escape"%string)
      | Some path =>
          let '(path, rest, _) := Cut path opts in
          let rest := TrimSpace rest in
          if decide (rest = EmptyString) then (path, None, None)
          else if isURL then
            match ParseQuery rest with
            | None => (path, None, Some "invalid query"%string)
            | Some [] => (path, None, None)
            | Some query => (path, Some (last_values query), None)
            end
          else
            match ParseMediaType ("text/plain;" +:+ rest) with
            | Err e => (path, None, Some e)
            | Ok params => (path, Some params, None)
            end
      end
  end.

(** ** file.go *)

Record FileWriter := mkFW {
  Filename : string;
  MaxSize : Z;
  MaxAge : Z;
  MaxBackups : Z;
  LocalTime : bool;
  Compress : bool
}.

(** A setting that is not a number leaves the value as it is. *)
Definition int_param (s : string) (old : Z) : Z := default old (Atoi s).

Definition set_max_size (w : FileWriter) (s : string) : FileWriter :=
  mkFW (Filename w) (int_param s (MaxSize w)) (MaxAge w) (MaxBackups w) (LocalTime w) (Compress w).
Definition set_max_age (w : FileWriter) (s : string) : FileWriter :=
  mkFW (Filename w) (MaxSize w) (int_param s (MaxAge w)) (MaxBackups w) (LocalTime w) (Compress w).
Definition set_backups (w : FileWriter) (s : string) : FileWriter :=
  mkFW (Filename w) (MaxSize w) (MaxAge w) (int_param s (MaxBackups w)) (LocalTime w) (Compress w).

(** [word] or a boolean; a value that is neither counts as false. *)
Definition flag_param (word s : string) : bool :=
  EqualFold s word || default false (ParseBool s).

Definition set_localtime (w : FileWriter) (s : string) : FileWriter :=
  let UTC := flag_param "UTC" s in
  mkFW (Filename w) (MaxSize w) (MaxAge w) (MaxBackups w) (negb UTC) (Compress w).
Definition set_compress (w : FileWriter) (s : string) : FileWriter :=
  mkFW (Filename w) (MaxSize w) (MaxAge w) (MaxBackups w) (LocalTime w) (flag_param "gzip" s).

Definition fileparams : list (string * (FileWriter -> string -> FileWriter)) :=
  [("max-size", set_max_size); ("max-age", set_max_age); ("backups", set_backups);
   ("localtime", set_localtime); ("compress", set_compress)]%string.

(** One turn of the loop over the parameters; what is unknown or invalid is only logged. *)
Definition apply_param (w : FileWriter) (kv : string * string) : FileWriter :=
  let s := TrimSpace kv.2 in
  if decide (s = EmptyString) then w
  else match assoc_lookup (ToLower kv.1) fileparams with
       | None => w
       | Some setup => setup w s
       end.

Fixpoint trim_slashes (s : string) : string :=
  match s with
  | EmptyString => EmptyString
  | String c s' =>
      match trim_slashes s' with
      | EmptyString => if is_byte "/" c then EmptyString else String c EmptyString
      | t => String c t
      end
  end.

(** [filepath.Base]. *)
Definition Base (path : string) : string :=
  if decide (path = EmptyString) then "."%string
  else
    let p := trim_slashes path in
    let p := match last_index "/" p with Some i => str_drop (S i) p | None => p end in
    if decide (p = EmptyString) then "/"%string else p.

Context (Abs : string -> res string string).
Context (order : gmap string string -> list (string * string)).

Definition default_writer (path : string) : FileWriter := mkFW path 100 30 3 true false.

Definition FileDSN (rawDSN : string) : res string FileWriter :=
  match GetScheme rawDSN with
  | Err e => Err e
  | Ok (_, rawDSN) =>
      match ParseDSN rawDSN with
      | (_, _, Some e) => Err e
      | (path, params, None) =>
          if decide (Base path ∈ ["."; "/"]%string) then Err "file:path expected"
          else
            match Abs path with
            | Err e => Err ("file:path ; " +:+ e)
            | Ok path => Ok (foldl apply_param (default_writer path) (order (default ∅ params)))
            end
      end
  end.

End Dsn.

(** ** env.go *)

Record EnvReader := mkEnv { GetEnv : string -> string; Namespace : string }.

Definition keyWithNamespace (space name : string) : string :=
  if decide (space = EmptyString) then name else space +:+ "_" +:+ name.

Definition GetEnvValue (e : EnvReader) (key : string) : string * bool :=
  let v := TrimSpace (GetEnv e (keyWithNamespace (Namespace e) key)) in
  (v, negb (bool_decide (v = EmptyString))).

(** An option reads the environment and changes a configuration; it may panic. *)
Definition EnvOption (A : Type) := EnvReader -> A -> outcome A.

Definition EnvString {A} (key : string) (eval : string -> A -> outcome A) : EnvOption A :=
  fun e a =>
    let '(s, ok) := GetEnvValue e key in
    if ok then eval (default s (Unquote s)) a else Ret a.

Fixpoint EnvApply {A} (e : EnvReader) (opts : list (EnvOption A)) (a : A) : outcome A :=
  match opts with
  | [] => Ret a
  | opt :: opts => outcome_bind (opt e a) (EnvApply e opts)
  end.

Definition Environment (getenv : string -> string) : EnvReader := mkEnv getenv "OTEL".

(** ** Lemmas *)

Definition scheme_char (c : ascii) : bool := is_alpha c || is_scheme_rest c.

(** A letter followed by letters, digits, plus, minus or dot. *)
Definition valid_scheme (s : string) : bool :=
  match s with EmptyString => false | String c s => is_alpha c && all_bytes scheme_char s end.

(** The reference: the longest run of scheme bytes, and what follows it. *)
Definition scheme_ref (raw : string) : res string (string * string) :=
  let '(a, b) := span scheme_char raw in
  match b with
  | EmptyString => if bool_decide (a = EmptyString) || valid_scheme a then Ok (raw, EmptyString) else Ok (EmptyString, raw)
  | String c b =>
      if valid_scheme a then
        if is_byte ":" c then Ok (a, b) else Ok (EmptyString, raw)
      else if is_byte ":" c && bool_decide (a = EmptyString) then Err "missing scheme"%string
      else Ok (EmptyString, raw)
  end.

Lemma app_not_empty (pre : string) c : pre +:+ String c EmptyString <> EmptyString.
Proof. by destruct pre. Qed.

Lemma scheme_loop_in raw pre s : pre <> EmptyString ->
  scheme_loop raw pre s =
    let '(a, b) := span scheme_char s in
    match b with
    | EmptyString => Ok (raw, EmptyString)
    | String c b => if is_byte ":" c then Ok (pre +:+ a, b) else Ok (EmptyString, raw)
    end.
Proof.
  revert pre. induction s as [|c s IH]; intros pre Hp; [done|].
  cbn [scheme_loop span]. unfold scheme_char at 1.
  rewrite IH by apply app_not_empty. rewrite decide_False by done.
  destruct (is_alpha c), (is_scheme_rest c); cbn [orb];
    try (destruct (span scheme_char s) as [a b]; destruct b; [done|]; by rewrite append_assoc).
  rewrite decide_False by done. by rewrite append_nil_r.
Qed.

Lemma alpha_not_colon c : scheme_char c = true -> is_byte ":" c = false.
Proof. by destruct c as [[] [] [] [] [] [] [] []]. Qed.

Lemma span_fst_all p s : all_bytes p (span p s).1 = true.
Proof.
  induction s as [|c s IH]; simpl; [done|]. destruct (p c) eqn:E; simpl; [|done].
  destruct (span p s); simpl in *. by rewrite E, IH.
Qed.

Lemma dsn_scheme_ref raw : GetScheme raw = scheme_ref raw.
Proof.
  unfold GetScheme, scheme_ref. destruct raw as [|c s]; [done|].
  cbn [scheme_loop span]. unfold scheme_char at 1.
  destruct (is_alpha c) eqn:Ha; cbn [orb].
  - change (EmptyString +:+ String c EmptyString) with (String c EmptyString).
    rewrite scheme_loop_in by done. pose proof (span_fst_all scheme_char s) as Hall.
    destruct (span scheme_char s) as [a b]. simpl in Hall.
    assert (valid_scheme (String c a) = true) as Hv by (cbn; by rewrite Ha, Hall).
    rewrite Hv. rewrite orb_true_r. destruct b as [|d b]; [done|].
    by rewrite append_cons.
  - destruct (is_scheme_rest c) eqn:Hr.
    + rewrite decide_True by done. destruct (span scheme_char s) as [a b].
      assert (valid_scheme (String c a) = false) as Hv by (cbn; by rewrite Ha).
      rewrite Hv. rewrite (bool_decide_eq_false_2 (String c a = EmptyString)) by done.
      destruct b; [done|]. by rewrite andb_false_r.
    + rewrite !decide_True by done. cbn. by destruct (is_byte ":" c).
Qed.

Lemma dsn_scheme_valid s rest : valid_scheme s = true -> GetScheme (s +:+ String ":" rest) = Ok (s, rest).
Proof.
  intros Hv. rewrite dsn_scheme_ref. unfold scheme_ref.
  rewrite span_app; [by rewrite Hv| |done].
  destruct s as [|c s]; [done|]. cbn in *. apply andb_prop in Hv as [Ha Hs]. unfold scheme_char at 1.
  by rewrite Ha, Hs.
Qed.

Lemma dsn_scheme_bare s : valid_scheme s = true -> GetScheme s = Ok (s, EmptyString).
Proof.
  intros Hv. rewrite dsn_scheme_ref. unfold scheme_ref. rewrite span_all.
  - by rewrite Hv, orb_true_r.
  - destruct s as [|c s]; [done|]. cbn in *. apply andb_prop in Hv as [Ha Hs]. unfold scheme_char at 1.
    by rewrite Ha, Hs.
Qed.

(** A rooted path is no scheme. *)
Lemma dsn_scheme_rooted p : GetScheme (String "/" p) = Ok (EmptyString, String "/" p).
Proof. done. Qed.

Lemma CutPrefix_rooted p : stops (is_byte "/") p = true -> CutPrefix (String "/" p) "//" = (String "/" p, false).
Proof.
  intros Hs. cbn [CutPrefix]. rewrite decide_True by done. destruct p as [|c p]; [done|]. cbn [CutPrefix].
  destruct (decide (c = "/"%char)) as [->|]; done.
Qed.

(** Settings of different names do not interfere. *)
Definition param (l : list (string * string)) (name : string) : option string :=
  s ← assoc_lookup name (map (fun kv => (ToLower kv.1, TrimSpace kv.2)) l);
  if decide (s = EmptyString) then None else Some s.

Definition int_setting (s : option string) (old : Z) : Z :=
  match s with None => old | Some s => int_param s old end.

(** The writer a list of parameters asks for. *)
Definition writer_spec (w : FileWriter) (l : list (string * string)) : FileWriter :=
  mkFW (Filename w)
    (int_setting (param l "max-size") (MaxSize w))
    (int_setting (param l "max-age") (MaxAge w))
    (int_setting (param l "backups") (MaxBackups w))
    (match param l "localtime" with None => LocalTime w | Some s => negb (flag_param "UTC" s) end)
    (match param l "compress" with None => Compress w | Some s => flag_param "gzip" s end).

Lemma param_cons k v l name :
  param ((k, v) :: l) name =
    if decide (name = ToLower k) then
      (if decide (TrimSpace v = EmptyString) then None else Some (TrimSpace v))
    else param l name.
Proof. unfold param. cbn [map assoc_lookup fst snd]. by destruct (decide (name = ToLower k)). Qed.

Lemma param_absent l name : (name ∉ map (fun kv => ToLower kv.1) l) -> param l name = None.
Proof.
  induction l as [|[k v] l IH]; intros Hn; [done|]. rewrite param_cons.
  cbn in Hn. apply not_elem_of_cons in Hn as [Hk Hn]. rewrite decide_False by done. by apply IH.
Qed.

(** The step of the loop changes the one setting it names. *)
Lemma apply_param_spec w k v l : (ToLower k ∉ map (fun kv => ToLower kv.1) l) ->
  writer_spec (apply_param w (k, v)) l = writer_spec w ((k, v) :: l).
Proof.
  intros Hn%param_absent. unfold apply_param, writer_spec. rewrite !param_cons. cbn [fst snd fileparams assoc_lookup].
  destruct (decide (TrimSpace v = EmptyString)) as [Ev|Hv].
  - repeat case_decide; try congruence;
      repeat match goal with H : _ = ToLower k |- _ => rewrite <- H in Hn; clear H end; by rewrite ?Hn.
  - repeat (case_decide; [|]); cbn;
      repeat match goal with H : ToLower k = _ |- _ => rewrite H in *; clear H end;
      repeat case_decide; try congruence; by rewrite ?Hn.
Qed.

Lemma apply_params_spec l w : NoDup (map (fun kv => ToLower kv.1) l) ->
  foldl apply_param w l = writer_spec w l.
Proof.
  revert w. induction l as [|[k v] l IH]; intros w Hd; [by destruct w|].
  cbn in Hd. apply NoDup_cons in Hd as [Hk Hd]. cbn [foldl]. rewrite IH by done. by apply apply_param_spec.
Qed.

Lemma assoc_lookup_perm {V} (l l' : list (string * V)) k :
  l ≡ₚ l' -> NoDup (map fst l) -> assoc_lookup k l = assoc_lookup k l'.
Proof.
  induction 1 as [|[k1 v1] l l' Hp IH|[k1 v1] [k2 v2] l|l1 l2 l3 H12 IH1 H23 IH2]; intros Hd; [done| | |].
  - cbn in *. apply NoDup_cons in Hd as [_ Hd]. by rewrite IH.
  - cbn in *. apply NoDup_cons in Hd as [Hn _]. apply not_elem_of_cons in Hn as [Hn _].
    repeat case_decide; congruence.
  - rewrite IH1 by done. apply IH2. by rewrite <- H12.
Qed.

Lemma param_perm l l' name : l ≡ₚ l' -> NoDup (map (fun kv => ToLower kv.1) l) -> param l name = param l' name.
Proof.
  intros Hp Hd. unfold param. erewrite assoc_lookup_perm; [done|by rewrite Hp|].
  by rewrite map_map.
Qed.

(** ** Theorems *)

(** [GetScheme] takes the longest run of scheme bytes for the scheme when a letter starts
    it and a colon or the end of the text follows; a leading colon is an error, and
    everything else is a path without a scheme. *)
Theorem get_scheme_reference raw : GetScheme raw = scheme_ref raw.
Proof. apply dsn_scheme_ref. Qed.

(** Every parameter of a file sets its own field from the trimmed value and the rest keep
    their defaults, in whatever order the map is visited, as long as no two names
    differ by case only. *)
Theorem file_params_order w l l' : l ≡ₚ l' -> NoDup (map (fun kv => ToLower kv.1) l) ->
  foldl apply_param w l = writer_spec w l /\ foldl apply_param w l' = writer_spec w l.
Proof.
  intros Hp Hd. split; [by apply apply_params_spec|].
  rewrite apply_params_spec by by rewrite <- Hp. unfold writer_spec.
  by rewrite !(param_perm l l') by done.
Qed.

Lemma file_params_order_witness :
  foldl apply_param (default_writer "/a") [("backups", "5"); ("Max-Size", " 7 ")]%string
    = mkFW "/a" 7 30 5 true false
  /\ foldl apply_param (default_writer "/a") [("Max-Size", " 7 "); ("backups", "5")]%string
    = mkFW "/a" 7 30 5 true false.
Proof.
  apply (file_params_order (default_writer "/a")
           [("backups", "5"); ("Max-Size", " 7 ")]%string [("Max-Size", " 7 "); ("backups", "5")]%string).
  - apply Permutation_swap.
  - by apply (bool_decide_unpack (NoDup _)).
Defined.

(** A rooted path names the file it spells, with the documented defaults. *)
Theorem file_dsn_rooted mime Abs order p full :
  order ∅ = [] -> no_byte ";" p = true -> stops (is_byte "/") p = true ->
  (Base (String "/" p) ∉ ["."; "/"]%string) -> Abs (String "/" p) = Ok full ->
  FileDSN mime Abs order (String "/" p) = Ok (default_writer full).
Proof.
  intros Ho Hp Hs Hb Ha. unfold FileDSN, ParseDSN. rewrite !dsn_scheme_rooted.
  rewrite CutPrefix_rooted by done.
  unfold Cut. rewrite cut_at_none.
  2: { change (no_byte ";" (String "/" p) = true). done. }
  change (TrimSpace EmptyString) with EmptyString. cbn [decide]. rewrite decide_True by done.
  rewrite decide_False by done. rewrite Ha. cbn [default]. by rewrite Ho.
Qed.

Lemma file_dsn_rooted_witness :
  FileDSN (fun _ => Ok ∅) (fun p => Ok p) map_to_list "/var/log/app.log" = Ok (default_writer "/var/log/app.log").
Proof.
  apply (file_dsn_rooted (fun _ => Ok ∅) (fun p => Ok p) map_to_list "var/log/app.log" "/var/log/app.log");
    try reflexivity. by apply (bool_decide_unpack (_ ∉ _)).
Defined.

(** Parameters after a semicolon are those of the MIME parser, applied to the defaults. *)
Theorem file_dsn_params mime Abs order p rest params full :
  no_byte ";" p = true -> stops (is_byte "/") p = true -> TrimSpace rest <> EmptyString ->
  (Base (String "/" p) ∉ ["."; "/"]%string) -> Abs (String "/" p) = Ok full ->
  mime ("text/plain;" +:+ TrimSpace rest) = Ok params ->
  FileDSN mime Abs order (String "/" p +:+ String ";" rest) =
    Ok (foldl apply_param (default_writer full) (order params)).
Proof.
  intros Hp Hs Hr Hb Ha Hm. unfold FileDSN, ParseDSN. rewrite !append_cons, !dsn_scheme_rooted.
  rewrite CutPrefix_rooted by (destruct p; done).
  unfold Cut. rewrite <- append_cons, cut_at_app; [|done|done].
  rewrite decide_False by done. rewrite Hm. rewrite decide_False by done. by rewrite Ha.
Qed.

Lemma file_dsn_params_witness :
  FileDSN (fun _ => Ok {["backups"%string := "5"%string]}) (fun p => Ok p) map_to_list "/app.log; backups=5"
    = Ok (mkFW "/app.log" 100 30 5 true false).
Proof.
  assert (Base "/app.log" ∉ ["."; "/"]%string) as Hb by by apply (bool_decide_unpack (_ ∉ _)).
  pose proof (file_dsn_params (fun _ => Ok {["backups"%string := "5"%string]}) (fun p => Ok p) map_to_list
    "app.log" " backups=5" {["backups"%string := "5"%string]} "/app.log" eq_refl eq_refl ltac:(done) Hb eq_refl eq_refl) as E.
  change (String "/" "app.log" +:+ String ";" " backups=5") with "/app.log; backups=5"%string in E.
  rewrite E. by vm_compute.
Defined.

(** The address of a file is scanned for a scheme twice more after its own has been cut
    off, and a bare name that could be one is taken for it: a file in the working directory
    is refused as if no path was given. *)
Theorem bare_file_refused mime Abs order name : valid_scheme name = true ->
  FileDSN mime Abs order name = Err "file:path expected"%string.
Proof. intros Hv. unfold FileDSN. by rewrite dsn_scheme_bare. Qed.

Lemma bare_file_refused_witness :
  FileDSN (fun _ => Ok ∅) (fun p => Ok p) map_to_list "app.log" = Err "file:path expected"%string.
Proof. by apply bare_file_refused. Defined.

(** In the same way two prefixes that look like schemes disappear from a path. *)
Theorem file_prefixes_dropped mime Abs order s1 s2 p full :
  order ∅ = [] -> valid_scheme s1 = true -> valid_scheme s2 = true ->
  no_byte ";" p = true -> stops (is_byte "/") p = true ->
  (Base p ∉ ["."; "/"]%string) -> Abs p = Ok full ->
  FileDSN mime Abs order (s1 +:+ String ":" (s2 +:+ String ":" p)) = Ok (default_writer full).
Proof.
  intros Ho H1 H2 Hp Hs Hb Ha. unfold FileDSN, ParseDSN. rewrite !dsn_scheme_valid by done.
  assert (CutPrefix p "//" = (p, false)) as ->.
  { destruct p as [|c p]; [done|]. cbn [CutPrefix stops] in *.
    rewrite decide_False; [done|]. by intros ->. }
  unfold Cut. rewrite cut_at_none by done.
  change (TrimSpace EmptyString) with EmptyString. rewrite decide_True by done.
  rewrite decide_False by done. rewrite Ha. cbn [default]. by rewrite Ho.
Qed.

Lemma file_prefixes_dropped_witness :
  FileDSN (fun _ => Ok ∅) (fun p => Ok p) map_to_list "c:d:logs" = Ok (default_writer "logs").
Proof.
  apply (file_prefixes_dropped (fun _ => Ok ∅) (fun p => Ok p) map_to_list "c" "d" "logs" "logs");
    try reflexivity. by apply (bool_decide_unpack (_ ∉ _)).
Defined.

(** Local time is the default, documented as [localtime=true]; that very setting, and
    every other true value, turns it off, and a false one turns it on. *)
Theorem localtime_inverted w b s : ParseBool s = Some b -> EqualFold s "UTC" = false ->
  LocalTime (set_localtime w s) = negb b.
Proof. intros Hb Hu. cbn. unfold flag_param. by rewrite Hb, Hu. Qed.

Lemma localtime_inverted_witness : LocalTime (set_localtime (default_writer "/a") "true") = false.
Proof. exact (localtime_inverted (default_writer "/a") true "true" eq_refl eq_refl). Defined.

(** Variables are read with their spaces trimmed and one layer of quotes removed; unset
    and blank variables are skipped, and so leave the configuration as it is. *)
Theorem env_string_spec {A} getenv key (eval : string -> A -> outcome A) a :
  EnvString key eval (Environment getenv) a =
    let s := TrimSpace (getenv ("OTEL_" +:+ key)) in
    if decide (s = EmptyString) then Ret a
    else eval (match Unquote s with Some u => u | None => s end) a.
Proof.
  unfold EnvString, GetEnvValue, Environment, keyWithNamespace. cbn [Namespace GetEnv].
  rewrite decide_False by done. change ("OTEL" +:+ "_" +:+ key) with ("OTEL_" +:+ key).
  cbn zeta. destruct (decide (TrimSpace (getenv ("OTEL_" +:+ key)) = EmptyString)) as [->|Hn]; [done|].
  rewrite bool_decide_eq_false_2 by done. cbn [negb]. by destruct (Unquote _).
Qed.

End OtelDsn.
