(* ===== verification/OtelLog.v ===== *)
(** * Log records on standard output: src/infra/otel/sdk/log/stdout

    The options of a codec and their timestamps (codec/codec.go, codec/time.go), the text
    and JSON codecs (codec/text, codec/json), the registry of codecs, the exporter
    (exporter.go, config.go).  Number formats of floats and time layouts are arguments;
    JSON output is its tree, with the members of an object in the order they are written. *)
From stdpp Require Import prelude strings list gmap.
From Stdlib Require Import ZArith Lia Ascii String Sorted.
From S2P Require Import Prelude Strconv NetAddr OtelLevel.

Local Open Scope Z_scope.

Module OtelLog.
Import Strconv NetAddr OtelLevel.

(** ** codec.go, time.go *)

Record Options := mkOptions { TimeStamp : string; PrettyPrint : string; NoColor : bool }.

Definition default_layout : string := "2006-01-02T15:04:05.999Z07:00".

Definition codec_option := Options -> Options.

Definition WithNoColor : codec_option := fun c => mkOptions (TimeStamp c) (PrettyPrint c) true.
Definition WithTimestamps (layout : string) : codec_option := fun c => mkOptions layout (PrettyPrint c) (NoColor c).
Definition WithoutTimestamps : codec_option := WithTimestamps EmptyString.

(** An indent with anything but spaces is reported and ignored. *)
Definition WithPrittyPrint (indent : string) : codec_option := fun c =>
  if all_bytes is_space indent then mkOptions (TimeStamp c) indent (NoColor c) else c.

Definition NewOptions (opts : list codec_option) : Options :=
  foldl (fun c opt => opt c) (mkOptions default_layout EmptyString false) opts.

Record Timestamp := mkTS { ts_Time : Z; ts_Format : string }.

(** Times are nanoseconds since 1970; those before the first second after it, the zero
    time included, are not written. *)
Definition Options_Timestamp (conf : Options) (date : Z) : option Timestamp :=
  if date / 1000000000 <? 1 then None
  else if decide (TimeStamp conf = EmptyString) then None
  else Some (mkTS date (TimeStamp conf)).

Section Codec.
Context {float64 : Type}.

(** ** Values and records of the SDK *)

Inductive Value :=
| VEmpty
| VBool (b : bool)
| VFloat64 (f : float64)
| VInt64 (z : Z)
| VString (s : string)
| VBytes (b : string)
| VSlice (l : list Value)
| VMap (m : list (string * Value)).

(** Values of attributes of a resource. *)
Inductive AttValue :=
| AInvalid
| ABool (b : bool)
| AInt64 (z : Z)
| AFloat64 (f : float64)
| AString (s : string)
| ABoolSlice (l : list bool)
| AInt64Slice (l : list Z)
| AFloat64Slice (l : list float64)
| AStringSlice (l : list string).

Record Scope_ := mkScope { sc_Name : string; sc_Version : string; sc_SchemaURL : string }.

Record Record_ := mkRecord {
  r_Timestamp : Z;
  r_Severity : Z;
  r_SeverityText : string;
  r_Body : Value;
  r_Attributes : list (string * Value);
  r_TraceID : list Z;
  r_SpanID : list Z;
  r_TraceFlags : Z;
  r_Resource : option (list (string * AttValue));
  r_Scope : Scope_;
  r_Dropped : Z
}.

(** ** codec/text *)

Context (fmt_f : float64 -> string).
Context (Format : Z -> string -> string).

Definition esc (code : string) : string := String (ascii_of_N 27) (String "[" (code +:+ "m")).
Definition ansiReset := esc "0".
Definition ansiFaint := esc "2".
Definition ansiBrightRed := esc "91".
Definition ansiBrightGreen := esc "92".
Definition ansiBrightYellow := esc "93".

Definition WriteStringIf (ok : bool) (str : string) : string := if ok then str else EmptyString.

Fixpoint hex_bytes (s : string) : string :=
  match s with
  | EmptyString => EmptyString
  | String c s =>
      String (hex_digit (byte_val c / 16)) (String (hex_digit (byte_val c mod 16)) (hex_bytes s))
  end.

(** The items of a slice after the first one follow a comma. *)
Definition join_items (l : list string) : string :=
  match l with
  | [] => EmptyString
  | s :: l => s +:+ foldr (fun s t => String "," (s +:+ t)) EmptyString l
  end.

(** The values of kinds Empty and Map are asked for a string they are not, which is empty. *)
Fixpoint printValue (v : Value) : string :=
  match v with
  | VBool b => if b then "true" else "false"
  | VFloat64 f => fmt_f f
  | VInt64 z => FormatInt z
  | VString s => s
  | VBytes b => hex_bytes b
  | VSlice l => String "[" (join_items (map printValue l) +:+ "]")
  | VEmpty | VMap _ => EmptyString
  end.

Section Print.
Context (noColor : bool).

(** A map is printed as its members, each under the joined name. *)
Fixpoint printAttr (key : string) (v : Value) : string :=
  match v with
  | VMap m =>
      (fix members (m : list (string * Value)) : string :=
         match m with
         | [] => EmptyString
         | (k, v) :: m => printAttr (key +:+ "." +:+ k) v +:+ members m
         end) m
  | _ =>
      WriteStringIf (negb noColor) ansiFaint +:+ (" ; " +:+ key +:+ "=") +:+
      WriteStringIf (negb noColor) ansiReset +:+ printValue v
  end.

Definition appendLevelDelta (delta : Z) : string :=
  if delta =? 0 then EmptyString else fmt_plus_d delta.

Definition level_text (v : Z) : string :=
  let '(color, name, delta) :=
    if v <? INFO then (ansiBrightYellow, "DEBUG"%string, i64 (v - DEBUG))
    else if v <? WARN then (ansiBrightGreen, "INFO"%string, v - INFO)
    else if v <? ERROR then (ansiBrightRed, "WARN"%string, v - WARN)
    else if v <? FATAL then (ansiBrightRed, "ERROR"%string, v - ERROR)
    else (ansiBrightRed, "FATAL"%string, v - FATAL) in
  WriteStringIf (negb noColor) color +:+ name +:+ appendLevelDelta delta +:+
  WriteStringIf (negb noColor) ansiReset.

End Print.

Definition newline : string := String (ascii_of_N 10) EmptyString.

(** The line that is written for a record, in one call of Write. *)
Definition text_Encode (opts : Options) (rec : Record_) : string :=
  let noColor := NoColor opts in
  match Options_Timestamp opts (r_Timestamp rec) with
  | None => EmptyString
  | Some date =>
      WriteStringIf (negb noColor) ansiFaint +:+ Format (ts_Time date) (ts_Format date) +:+
      WriteStringIf (negb noColor) ansiReset +:+ " "
  end +:+
  level_text noColor (r_Severity rec) +:+ " " +:+
  printValue (r_Body rec) +:+
  foldr (fun kv t => printAttr noColor kv.1 kv.2 +:+ t) EmptyString (r_Attributes rec) +:+
  newline.

(** [NewCodec]: colors only on a terminal. *)
Definition text_NewCodec (is_terminal : bool) (opts : list codec_option) : Options :=
  let c := NewOptions opts in
  if NoColor c then c else mkOptions (TimeStamp c) (PrettyPrint c) (negb is_terminal).

(** ** codec/json *)

Inductive json :=
| JNull
| JBool (b : bool)
| JInt (z : Z)
| JFloat (f : float64)
| JString (s : string)
| JBase64 (b : string)
| JArray (l : list json)
| JObject (m : list (string * json)).

(** json.Marshal refuses NaN and the infinities. *)
Context (is_finite : float64 -> bool).

Definition float_json (f : float64) : res string json :=
  if is_finite f then Ok (JFloat f) else Err "json: unsupported value"%string.

(** Writing [k] into a map whose members are kept in the order of their names. *)
Fixpoint obj_insert {A} (k : string) (v : A) (m : list (string * A)) : list (string * A) :=
  match m with
  | [] => [(k, v)]
  | (k', v') :: m' =>
      match String.compare k k' with
      | Lt => (k, v) :: m
      | Eq => (k, v) :: m'
      | Gt => (k', v') :: obj_insert k v m'
      end
  end.

(** The map of a list of members: the last one of a name stays. *)
Definition go_map {A} (l : list (string * A)) : list (string * A) :=
  foldl (fun m kv => obj_insert kv.1 kv.2 m) [] l.

Fixpoint sequence {A} (l : list (res string A)) : res string (list A) :=
  match l with
  | [] => Ok []
  | r :: l => res_bind r (fun a => res_bind (sequence l) (fun t => Ok (a :: t)))
  end.

(** [logValue.MarshalJSON].  Only the members that stay in the map are marshalled. *)
Fixpoint value_json (v : Value) : res string json :=
  match v with
  | VEmpty => Ok JNull
  | VBool b => Ok (JBool b)
  | VInt64 z => Ok (JInt z)
  | VFloat64 f => float_json f
  | VString s => Ok (JString s)
  | VBytes b => Ok (JBase64 b)
  | VSlice l => res_bind (sequence (map value_json l)) (fun l => Ok (JArray l))
  | VMap m =>
      let members := go_map (map (fun kv => (kv.1, value_json kv.2)) m) in
      res_bind (sequence (map (fun kv => res_bind kv.2 (fun j => Ok (kv.1, j))) members))
        (fun m => Ok (JObject m))
  end.

(** [attValue.MarshalJSON]. *)
Definition att_json (v : AttValue) : res string json :=
  match v with
  | AInvalid => Ok JNull
  | ABool b => Ok (JBool b)
  | AInt64 z => Ok (JInt z)
  | AFloat64 f => float_json f
  | AString s => Ok (JString s)
  | ABoolSlice l => Ok (JArray (map JBool l))
  | AInt64Slice l => Ok (JArray (map JInt l))
  | AFloat64Slice l => res_bind (sequence (map float_json l)) (fun l => Ok (JArray l))
  | AStringSlice l => Ok (JArray (map JString l))
  end.

(** A MarshalJSON method that returns no bytes and no error is an error of the encoder. *)
Definition marshaled (r : res string (option json)) : res string json :=
  match r with
  | Err e => Err e
  | Ok (Some j) => Ok j
  | Ok None => Err "unexpected end of JSON input"%string
  end.

Definition members_json {A} (f : A -> res string json) (l : list (string * A)) : res string json :=
  res_bind (sequence (map (fun kv => res_bind (f kv.2) (fun j => Ok (kv.1, j))) (go_map l)))
    (fun m => Ok (JObject m)).

Definition Resource_MarshalJSON (attr : list (string * AttValue)) : res string (option json) :=
  match attr with
  | [] => Ok None
  | _ => res_bind (members_json att_json attr) (fun j => Ok (Some j))
  end.

(** A string member with omitempty. *)
Definition omit_empty (k s : string) : list (string * json) :=
  if decide (s = EmptyString) then [] else [(k, JString s)].

Definition scope_MarshalJSON (e : Scope_) : res string (option json) :=
  if decide (sc_Name e = EmptyString /\ sc_Version e = EmptyString /\ sc_SchemaURL e = EmptyString)
  then Ok None
  else Ok (Some (JObject (omit_empty "name" (sc_Name e) ++ omit_empty "version" (sc_Version e)
                          ++ omit_empty "schema_url" (sc_SchemaURL e)))).

Definition all_zero (l : list Z) : bool := forallb (Z.eqb 0) l.

(** The members of an id and of the flags: text forms are those of the trace package. *)
Context (id_json : list Z -> json) (flags_json : Z -> json).

Definition traceIdValue (v : list Z) : option (list Z) := if all_zero v then None else Some v.
Definition spanIdValue (v : list Z) : option (list Z) := if all_zero v then None else Some v.
Definition traceFlagsValue (v : Z) : option Z := if v =? 0 then None else Some v.

Definition member {A} (k : string) (f : A -> json) (o : option A) : list (string * json) :=
  match o with None => [] | Some a => [(k, f a)] end.

(** The level that is written: the text of the record or the name of its severity. *)
Definition json_level (rec : Record_) : string :=
  if decide (r_SeverityText rec = EmptyString) then Severity_String (r_Severity rec) else r_SeverityText rec.

(** [Encode]: the conversion of the record, whose resource is dereferenced, and the
    encoder on the result, field by field in the order of the struct. *)
Definition json_Encode (opts : Options) (rec : Record_) : outcome (res string json) :=
  match r_Resource rec with
  | None => Panic "nil pointer dereference"
  | Some attr => Ret (
      res_bind (value_json (r_Body rec)) (fun message =>
      res_bind (marshaled (scope_MarshalJSON (r_Scope rec))) (fun scope =>
      res_bind (marshaled (Resource_MarshalJSON attr)) (fun resource =>
      res_bind (match r_Attributes rec with
                | [] => Ok []
                | l => res_bind (members_json value_json l) (fun j => Ok [("attributes"%string, j)])
                end) (fun attributes =>
      Ok (JObject (
        member "date" (fun ts => JString (Format (ts_Time ts) (ts_Format ts)))
          (Options_Timestamp opts (r_Timestamp rec)) ++
        omit_empty "level" (json_level rec) ++
        [("message"%string, message)] ++
        member "trace_id" id_json (traceIdValue (r_TraceID rec)) ++
        member "trace_flags" flags_json (traceFlagsValue (r_TraceFlags rec)) ++
        member "span_id" id_json (spanIdValue (r_SpanID rec)) ++
        [("scope"%string, scope); ("resource"%string, resource)] ++
        attributes ++
        (if r_Dropped rec =? 0 then [] else [("dropped_attrs"%string, JInt (r_Dropped rec))]))))))))
  end.

(** ** codec/otel: every value with the name of its kind *)

Fixpoint otel_value_json (v : Value) : res string json :=
  let typed (name : string) (r : res string json) :=
    res_bind r (fun j => Ok (JObject [("Type"%string, JString name); ("Value"%string, j)])) in
  match v with
  | VEmpty => typed "Empty"%string (Ok JNull)
  | VBool b => typed "Bool"%string (Ok (JBool b))
  | VInt64 z => typed "Int64"%string (Ok (JInt z))
  | VFloat64 f => typed "Float64"%string (float_json f)
  | VString s => typed "String"%string (Ok (JString s))
  | VBytes b => typed "Bytes"%string (Ok (JBase64 b))
  | VSlice l => typed "Slice"%string (res_bind (sequence (map otel_value_json l)) (fun l => Ok (JArray l)))
  | VMap m =>
      typed "Map"%string
        (res_bind (sequence (map (fun kv => res_bind (otel_value_json kv.2) (fun j =>
                    Ok (JObject [("Key"%string, JString kv.1); ("Value"%string, j)]))) m))
           (fun l => Ok (JArray l)))
  end.

End Codec.

Global Arguments Value : clear implicits.
Global Arguments AttValue : clear implicits.
Global Arguments Record_ : clear implicits.
Global Arguments json : clear implicits.

(** ** exporter.go, config.go

    An encoder changes the state of the output and may fail. *)

Section Exporter.
Context {Rec Out Writer E : Type}.

Definition Encoder := Rec -> Out -> option E * Out.

Record config := mkConfig {
  Output : Writer;
  cfg_NoColor : bool;
  Codec_ : option Encoder;
  cfg_PrettyPrint : bool;
  Timestamps : bool
}.

Inductive exp_option :=
| writerOption (W : Writer)
| withNoColor
| prettyPrintOption (b : bool)
| timestampsOption (b : bool)
| codecOption (Codec : option Encoder).

Definition option_apply (c : config) (o : exp_option) : config :=
  match o with
  | writerOption w => mkConfig w (cfg_NoColor c) (Codec_ c) (cfg_PrettyPrint c) (Timestamps c)
  | withNoColor => mkConfig (Output c) true (Codec_ c) (cfg_PrettyPrint c) (Timestamps c)
  | prettyPrintOption b => mkConfig (Output c) (cfg_NoColor c) (Codec_ c) b (Timestamps c)
  | timestampsOption b => mkConfig (Output c) (cfg_NoColor c) (Codec_ c) (cfg_PrettyPrint c) b
  | codecOption codec => mkConfig (Output c) (cfg_NoColor c) codec (cfg_PrettyPrint c) (Timestamps c)
  end.

Definition newConfig (stdout : Writer) (options : list exp_option) : config :=
  foldl option_apply (mkConfig stdout false None false true) options.

Record Exporter := mkExporter { exp_encoder : option Encoder; exp_timestamps : bool }.

(** [otel_codec] is the codec "otel" on a writer. *)
Definition New (stdout : Writer) (otel_codec : Writer -> Encoder) (options : list exp_option) : Exporter :=
  let cfg := newConfig stdout options in
  mkExporter (Some (default (otel_codec (Output cfg)) (Codec_ cfg))) (Timestamps cfg).

(** [ctx_err i] is the error of the context before the [i]-th record. *)
Fixpoint export_loop (enc : Encoder) (ctx_err : nat -> option E) (i : nat) (records : list Rec) (out : Out)
  : option E * Out :=
  match records with
  | [] => (None, out)
  | record :: records =>
      match ctx_err i with
      | Some err => (Some err, out)
      | None =>
          match enc record out with
          | (Some err, out) => (Some err, out)
          | (None, out) => export_loop enc ctx_err (S i) records out
          end
      end
  end.

Definition Export (e : Exporter) (ctx_err : nat -> option E) (records : list Rec) (out : Out) : option E * Out :=
  match exp_encoder e with
  | None => (None, out)
  | Some enc => export_loop enc ctx_err 0 records out
  end.

Definition Exporter_Shutdown (e : Exporter) : Exporter := mkExporter None (exp_timestamps e).
Definition ForceFlush (e : Exporter) : option E := None.

End Exporter.

(** ** Lemmas *)

Section Values.
Context {float64 : Type}.

(** Induction through the items of slices and the members of maps. *)
Fixpoint value_rect (P : Value float64 -> Prop)
  (HE : P VEmpty) (HB : forall b, P (VBool b)) (HF : forall f, P (VFloat64 f)) (HI : forall z, P (VInt64 z))
  (HS : forall s, P (VString s)) (HY : forall b, P (VBytes b))
  (HL : forall l, Forall P l -> P (VSlice l))
  (HM : forall m, Forall (fun kv => P kv.2) m -> P (VMap m)) (v : Value float64) {struct v} : P v :=
  let rec := value_rect P HE HB HF HI HS HY HL HM in
  match v with
  | VEmpty => HE | VBool b => HB b | VFloat64 f => HF f | VInt64 z => HI z | VString s => HS s | VBytes b => HY b
  | VSlice l =>
      HL l ((fix items l : Forall P l :=
               match l with [] => Forall_nil_2 _ | v :: l => Forall_cons_2 _ v l (rec v) (items l) end) l)
  | VMap m =>
      HM m ((fix members m : Forall (fun kv => P kv.2) m :=
               match m with [] => Forall_nil_2 _ | kv :: m => Forall_cons_2 _ kv m (rec kv.2) (members m) end) m)
  end.

(** The leaves of an attribute with their full names. *)
Fixpoint flatten (key : string) (v : Value float64) : list (string * Value float64) :=
  match v with
  | VMap m =>
      (fix members (m : list (string * Value float64)) :=
         match m with
         | [] => []
         | (k, v) :: m => flatten (key +:+ "." +:+ k) v ++ members m
         end) m
  | _ => [(key, v)]
  end.

Definition concat_str (l : list string) : string := foldr (fun s t => s +:+ t) EmptyString l.

Lemma concat_str_app l l' : concat_str (l ++ l') = concat_str l +:+ concat_str l'.
Proof. induction l as [|s l IH]; simpl; [done|]. by rewrite IH, append_assoc. Qed.

(** How one leaf is written. *)
Definition leaf_text (fmt_f : float64 -> string) (noColor : bool) (kv : string * Value float64) : string :=
  WriteStringIf (negb noColor) ansiFaint +:+ (" ; " +:+ kv.1 +:+ "=") +:+
  WriteStringIf (negb noColor) ansiReset +:+ printValue fmt_f kv.2.

Lemma printAttr_flatten fmt_f noColor v : forall key,
  printAttr fmt_f noColor key v = concat_str (map (leaf_text fmt_f noColor) (flatten key v)).
Proof.
  induction v as [| | | | | |l _|m IH] using value_rect; intros key;
    try (symmetry; exact (append_nil_r _)).
  induction IH as [|[k v] m Hv _ IHm]; [done|].
  change (printAttr fmt_f noColor (key +:+ "." +:+ k) v +:+ printAttr fmt_f noColor key (VMap m)
    = concat_str (map (leaf_text fmt_f noColor) (flatten (key +:+ "." +:+ k) v ++ flatten key (VMap m)))).
  by rewrite map_app, concat_str_app, <- IHm, <- Hv.
Qed.

(** *** Lines *)

Definition nl : ascii := ascii_of_N 10.

Fixpoint clean (v : Value float64) : bool :=
  match v with
  | VString s => no_byte nl s
  | VSlice l => forallb clean l
  | VMap m => forallb (fun kv => no_byte nl kv.1 && clean kv.2) m
  | _ => true
  end.

Lemma all_bytes_true p s : (forall c, p c = true) -> all_bytes p s = true.
Proof. intros H. induction s; simpl; [done|]. by rewrite H. Qed.

Lemma format_no_nl z : no_byte nl (FormatInt z) = true.
Proof.
  assert (forall n, 0 <= n -> no_byte nl (format_nat n) = true) as Hn.
  { intros n Hn. eapply all_bytes_impl, all_bytes_format_nat, Hn. intros c Hc.
    destruct c as [[] [] [] [] [] [] [] []]; done. }
  unfold FormatInt. destruct (Z.ltb_spec z 0); [|by apply Hn].
  unfold no_byte. cbn [all_bytes]. apply andb_true_intro. split; [done|]. apply Hn. lia.
Qed.

Lemma hex_no_nl b : no_byte nl (hex_bytes b) = true.
Proof.
  unfold no_byte. induction b as [|c b IH]; [done|]. cbn [hex_bytes all_bytes]. rewrite IH.
  by destruct c as [[] [] [] [] [] [] [] []].
Qed.

Lemma join_no_nl l : forallb (no_byte nl) l = true -> no_byte nl (join_items l) = true.
Proof.
  destruct l as [|s l]; [done|]. cbn [join_items forallb]. intros [Hs Hl]%andb_prop. rewrite no_byte_app, Hs. cbn [andb].
  induction l as [|t l IH]; [done|]. cbn [forallb] in Hl. apply andb_prop in Hl as [Ht Hl].
  cbn [foldr]. change (no_byte nl (String "," (t +:+ foldr (fun s t => String "," (s +:+ t)) EmptyString l)) = true).
  unfold no_byte. cbn [all_bytes]. apply andb_true_intro. split; [done|].
  change (no_byte nl (t +:+ foldr (fun s t => String "," (s +:+ t)) EmptyString l) = true).
  by rewrite no_byte_app, Ht, IH.
Qed.

Lemma printValue_clean fmt_f v : (forall f, no_byte nl (fmt_f f) = true) -> clean v = true ->
  no_byte nl (printValue fmt_f v) = true.
Proof.
  intros Hf. induction v as [|[]|f|z|s|b|l IH|m _] using value_rect; intros Hc; try done.
  - apply Hf.
  - apply format_no_nl.
  - apply hex_no_nl.
  - cbn [printValue]. unfold no_byte. cbn [all_bytes]. apply andb_true_intro. split; [done|].
    change (no_byte nl (join_items (map (printValue fmt_f) l) +:+ "]") = true).
    rewrite no_byte_app, join_no_nl; [done|]. cbn in Hc.
    rewrite forallb_forall in *. intros s (v & <- & Hv)%in_map_iff.
    rewrite Forall_forall in IH. apply IH; [by apply list_elem_of_In|by apply Hc].
Qed.

Lemma color_no_nl b s : no_byte nl s = true -> no_byte nl (WriteStringIf b s) = true.
Proof. by destruct b. Qed.

Lemma leaf_clean fmt_f nc kv : (forall f, no_byte nl (fmt_f f) = true) ->
  no_byte nl kv.1 = true -> clean kv.2 = true -> no_byte nl (leaf_text fmt_f nc kv) = true.
Proof.
  intros Hf Hk Hv. unfold leaf_text. rewrite !no_byte_app, !color_no_nl by done.
  by rewrite Hk, printValue_clean.
Qed.

Lemma flatten_clean v : forall key, no_byte nl key = true -> clean v = true ->
  Forall (fun kv => no_byte nl kv.1 = true /\ clean kv.2 = true) (flatten key v).
Proof.
  induction v as [| | | | | |l _|m IH] using value_rect; intros key Hk Hv; try by repeat constructor.
  cbn [clean] in Hv. induction IH as [|[k v] m IHv _ IHm]; [by constructor|].
  cbn [forallb fst snd] in Hv. apply andb_prop in Hv as [[Hk' Hv]%andb_prop Hm].
  change (flatten key (VMap ((k, v) :: m))) with (flatten (key +:+ "." +:+ k) v ++ flatten key (VMap m)).
  apply Forall_app. split; [|by apply IHm]. apply IHv; [|done].
  by rewrite !no_byte_app, Hk, Hk'.
Qed.

Lemma concat_no_nl l : Forall (fun s => no_byte nl s = true) l -> no_byte nl (concat_str l) = true.
Proof. induction 1 as [|s l Hs _ IH]; [done|]. change (no_byte nl (s +:+ concat_str l) = true). by rewrite no_byte_app, Hs, IH. Qed.

Lemma printAttr_clean fmt_f nc key v : (forall f, no_byte nl (fmt_f f) = true) ->
  no_byte nl key = true -> clean v = true -> no_byte nl (printAttr fmt_f nc key v) = true.
Proof.
  intros Hf Hk Hv. rewrite printAttr_flatten. apply concat_no_nl, Forall_map.
  eapply Forall_impl; [by apply flatten_clean|]. intros kv [? ?]. by apply leaf_clean.
Qed.

Lemma level_no_nl nc v : no_byte nl (level_text nc v) = true.
Proof.
  assert (forall d, no_byte nl (appendLevelDelta d) = true) as Hd.
  { intros d. unfold appendLevelDelta, fmt_plus_d. repeat case_match; try done; [apply format_no_nl|].
    unfold no_byte. cbn [all_bytes]. apply andb_true_intro. split; [done|apply format_no_nl]. }
  unfold level_text. repeat (destruct (_ <? _)); rewrite !no_byte_app, !color_no_nl, Hd; done.
Qed.

(** *** JSON *)

Fixpoint finite (is_finite : float64 -> bool) (v : Value float64) : bool :=
  match v with
  | VFloat64 f => is_finite f
  | VSlice l => forallb (finite is_finite) l
  | VMap m => forallb (fun kv => finite is_finite kv.2) m
  | _ => true
  end.

Definition att_finite (is_finite : float64 -> bool) (v : AttValue float64) : bool :=
  match v with
  | AFloat64 f => is_finite f
  | AFloat64Slice l => forallb is_finite l
  | _ => true
  end.

End Values.

Lemma sequence_ok {A} (l : list (res string A)) : Forall is_Ok l -> is_Ok (sequence l).
Proof.
  induction 1 as [|r l [a ->] _ [t IH]]; [by eexists|]. cbn. rewrite IH. by eexists.
Qed.

Lemma obj_insert_In {A} k (v : A) m kv : kv ∈ obj_insert k v m -> kv = (k, v) \/ kv ∈ m.
Proof.
  induction m as [|[k' v'] m IH]; cbn; intros H.
  - apply list_elem_of_singleton in H. by left.
  - destruct (String.compare k k'); rewrite !elem_of_cons in *; intuition auto.
Qed.

Lemma go_map_In {A} (l : list (string * A)) kv : kv ∈ go_map l -> kv ∈ l.
Proof.
  assert (forall m, kv ∈ foldl (fun m kv => obj_insert kv.1 kv.2 m) m l -> kv ∈ m \/ kv ∈ l) as H.
  { induction l as [|[k v] l IH]; intros m Hm; [by left|]. cbn in Hm.
    destruct (IH _ Hm) as [Hi|?]; [|right; by right].
    destruct (obj_insert_In _ _ _ _ Hi) as [->|?]; [right; by left|by left]. }
  intros Hm. destruct (H [] Hm) as [Hn|?]; [by apply not_elem_of_nil in Hn|done].
Qed.

Lemma string_compare_refl s : String.compare s s = Eq.
Proof. pose proof (String.compare_antisym s s) as E. by destruct (String.compare s s). Qed.

Lemma obj_insert_lookup {A} k (v : A) m k' :
  assoc_lookup k' (obj_insert k v m) = if decide (k' = k) then Some v else assoc_lookup k' m.
Proof.
  induction m as [|[k1 v1] m IH]; cbn; [done|].
  destruct (String.compare k k1) eqn:E; cbn; [|done|].
  - apply String.compare_eq_iff in E as ->. by case_decide.
  - rewrite IH. repeat case_decide; try done. subst. subst.
    rewrite string_compare_refl in E. done.
Qed.

Lemma go_map_lookup {A} (l : list (string * A)) k : assoc_lookup k (go_map l) = assoc_lookup k (reverse l).
Proof.
  assert (forall m, assoc_lookup k (foldl (fun m kv => obj_insert kv.1 kv.2 m) m l) =
    match assoc_lookup k (reverse l) with Some v => Some v | None => assoc_lookup k m end) as H.
  { induction l as [|[k1 v1] l IH]; intros m; [done|]. cbn [foldl fst snd].
    rewrite IH, obj_insert_lookup, reverse_cons, assoc_lookup_app. cbn [assoc_lookup].
    by destruct (assoc_lookup k (reverse l)); destruct (decide (k = k1)). }
  unfold go_map. rewrite (H []). by destruct (assoc_lookup k (reverse l)).
Qed.

Definition key_lt {A} (a b : string * A) : Prop := String.compare a.1 b.1 = Lt.

Lemma obj_insert_sorted {A} k (v : A) m : Sorted key_lt m -> Sorted key_lt (obj_insert k v m).
Proof.
  induction 1 as [|[k1 v1] m Hs IH Hd]; cbn; [by repeat constructor|].
  destruct (String.compare k k1) eqn:E.
  - apply String.compare_eq_iff in E as ->. constructor; [done|].
    inversion Hd; by constructor.
  - constructor; [by constructor|]. by constructor.
  - constructor; [done|]. destruct m as [|[k2 v2] m]; cbn.
    + constructor. unfold key_lt. cbn. rewrite String.compare_antisym. by rewrite E.
    + inversion Hd; subst. destruct (String.compare k k2) eqn:E2; constructor; try done;
        unfold key_lt; cbn; rewrite String.compare_antisym; by rewrite E.
Qed.

Lemma go_map_sorted {A} (l : list (string * A)) : Sorted key_lt (go_map l).
Proof.
  unfold go_map. assert (Sorted key_lt ([] : list (string * A))) as H by constructor.
  revert H. generalize ([] : list (string * A)). induction l as [|kv l IH]; intros m Hm; [done|].
  cbn. by apply IH, obj_insert_sorted.
Qed.

Section Json.
Context {float64 : Type} (is_finite : float64 -> bool).

Lemma members_ok {A} (f : A -> res string (json float64)) l :
  Forall (fun kv => is_Ok (f kv.2)) l -> is_Ok (members_json f l).
Proof.
  intros Hl. unfold members_json.
  destruct (sequence_ok (map (fun kv => res_bind (f kv.2) (fun j => Ok (kv.1, j))) (go_map l))) as [m ->];
    [|by eexists].
  apply Forall_map, Forall_forall. intros kv Hkv. apply go_map_In in Hkv.
  rewrite Forall_forall in Hl. destruct (Hl kv Hkv) as [j E]. cbn. rewrite E. by eexists.
Qed.

Lemma value_json_ok v : finite is_finite v = true -> is_Ok (value_json is_finite v).
Proof.
  induction v as [| |f| | | |l IH|m IH] using value_rect; cbn [finite]; intros Hv; try by eexists.
  - unfold value_json, float_json. rewrite Hv. by eexists.
  - cbn [value_json]. rewrite forallb_forall in Hv.
    destruct (sequence_ok (map (value_json is_finite) l)) as [t ->]; [|by eexists].
    apply Forall_map. rewrite Forall_forall in *. intros v Hin.
    apply IH; [done|]. apply Hv. by apply list_elem_of_In.
  - cbn [value_json]. rewrite forallb_forall in Hv.
    match goal with |- context [sequence ?x] => destruct (sequence_ok x) as [t ->]; [|by eexists] end.
    apply Forall_map, Forall_forall. intros kv Hkv. apply go_map_In in Hkv.
    apply list_elem_of_fmap in Hkv as (kv' & -> & Hin). cbn.
    rewrite Forall_forall in IH. destruct (IH kv' Hin) as [j ->]; [|by eexists].
    apply Hv. by apply list_elem_of_In.
Qed.

Lemma att_json_ok v : att_finite is_finite v = true -> is_Ok (att_json is_finite v).
Proof.
  destruct v; cbn; intros Hv; try by eexists.
  - unfold float_json. rewrite Hv. by eexists.
  - rewrite forallb_forall in Hv.
    destruct (sequence_ok (map (float_json is_finite) l)) as [t ->]; [|by eexists].
    apply Forall_map, Forall_forall. intros f Hf. unfold float_json.
    rewrite Hv; [by eexists|]. by apply list_elem_of_In.
Qed.

End Json.

Lemma sequence_members {A B} (f : A -> res string B) l m :
  sequence (map (fun kv : string * A => res_bind (f kv.2) (fun j => Ok (kv.1, j))) l) = Ok m ->
  Forall2 (fun kv kj => kv.1 = kj.1 /\ f kv.2 = Ok kj.2) l m.
Proof.
  revert m. induction l as [|[k v] l IH]; cbn; intros m Hm; [by simplify_eq; constructor|].
  destruct (f v) as [j|] eqn:E; [|done]. cbn in Hm.
  destruct (sequence _) as [t|]; [|done]. cbn in Hm. simplify_eq. constructor; [done|by apply IH].
Qed.

Lemma Forall2_lookup {A B} (f : A -> res string B) l m (k : string) :
  Forall2 (fun kv kj => kv.1 = kj.1 /\ f kv.2 = Ok kj.2) l m ->
  match assoc_lookup k l with Some v => Ok <$> assoc_lookup k m = Some (f v) | None => assoc_lookup k m = None end.
Proof.
  induction 1 as [|[k1 v1] [k2 j2] l m [Hk Hf] _ IH]; [done|]. cbn in *. subst k2.
  case_decide; [by rewrite Hf|done].
Qed.

Lemma Forall2_sorted {A B} (f : A -> res string B) l m :
  Forall2 (fun kv kj => kv.1 = kj.1 /\ f kv.2 = Ok kj.2) l m -> Sorted key_lt l -> Sorted key_lt m.
Proof.
  induction 1 as [|[k1 v1] [k2 j2] l m [Hk _] H IH]; intros Hs; [constructor|].
  cbn in Hk. subst k2. inversion Hs as [|? ? Hs' Hd]; subst. constructor; [by apply IH|].
  destruct H as [|[k3 v3] [k4 j4] ? ? [Hk _]]; [constructor|]. cbn in Hk. subst k4.
  inversion Hd. by constructor.
Qed.

Lemma export_loop_app {Rec Out E} (enc : Rec -> Out -> option E * Out) ctx_err l : forall i out l',
  export_loop enc ctx_err i (l ++ l') out =
    match export_loop enc ctx_err i l out with
    | (Some err, out) => (Some err, out)
    | (None, out) => export_loop enc ctx_err (i + List.length l) l' out
    end.
Proof.
  induction l as [|r l IH]; intros i out l'; cbn; [by rewrite Nat.add_0_r|].
  destruct (ctx_err i); [done|]. destruct (enc r out) as [[err|] out']; [done|].
  rewrite IH. by rewrite Nat.add_succ_r.
Qed.

(** ** Theorems *)

(** A record whose strings have no line break is written as one line: nothing before the
    final line break is one, whatever its level, its values and the colors. *)
Theorem text_one_line {float64} (fmt_f : float64 -> string) Format opts rec :
  (forall f, no_byte nl (fmt_f f) = true) -> (forall t l, no_byte nl (Format t l) = true) ->
  clean (r_Body rec) = true ->
  Forall (fun kv => no_byte nl kv.1 = true /\ clean kv.2 = true) (r_Attributes rec) ->
  exists line, text_Encode fmt_f Format opts rec = line +:+ newline /\ no_byte nl line = true.
Proof.
  intros Hf HF Hb Ha. unfold text_Encode.
  set (date := match Options_Timestamp opts (r_Timestamp rec) with None => _ | Some _ => _ end).
  set (attrs := foldr _ EmptyString (r_Attributes rec)).
  exists (date +:+ level_text (NoColor opts) (r_Severity rec) +:+ " " +:+ printValue fmt_f (r_Body rec) +:+ attrs).
  split; [by rewrite !append_assoc|].
  assert (no_byte nl date = true) as Hd.
  { subst date. destruct (Options_Timestamp _ _); [|done]. by rewrite !no_byte_app, !color_no_nl, HF. }
  assert (no_byte nl attrs = true) as Hat.
  { subst attrs. induction Ha as [|kv l [Hk Hv] _ IH]; [done|]. cbn [foldr].
    by rewrite no_byte_app, printAttr_clean, IH. }
  by rewrite !no_byte_app, Hd, level_no_nl, printValue_clean, Hat.
Qed.

Lemma text_one_line_witness :
  exists line, text_Encode (fun _ : unit => "0") (fun _ _ => "T") (NewOptions [WithNoColor])
    (mkRecord 5000000000 9 "" (VString "up") [("n", VInt64 3)] [] [] 0 None (mkScope "" "" "") 0) = line +:+ newline
  /\ no_byte nl line = true.
Proof. apply text_one_line; try done. by repeat constructor. Defined.

(** Nothing is escaped: one record can be written with the very bytes of two. *)
Theorem text_record_forged :
  exists rec r1 r2 : Record_ unit,
    let enc := text_Encode (fun _ => "0") (fun _ _ => "") (NewOptions [WithNoColor; WithoutTimestamps]) in
    enc rec = enc r1 +:+ enc r2 /\ r_Severity rec = INFO /\ r_Severity r2 = FATAL.
Proof.
  exists (mkRecord 1 9 "" (VString ("a" +:+ newline +:+ "FATAL b")) [] [] [] 0 None (mkScope "" "" "") 0),
    (mkRecord 1 9 "" (VString "a") [] [] [] 0 None (mkScope "" "" "") 0),
    (mkRecord 1 21 "" (VString "b") [] [] [] 0 None (mkScope "" "" "") 0).
  by vm_compute.
Qed.

(** Attributes of nested maps are written leaf by leaf under their joined names, in order. *)
Theorem text_attributes_flat {float64} (fmt_f : float64 -> string) noColor key v :
  printAttr fmt_f noColor key v = concat_str (map (leaf_text fmt_f noColor) (flatten key v)).
Proof. apply printAttr_flatten. Qed.

(** A map that is the body of a record, or an item of a slice, is not written at all: the
    records with any two such maps have the same text. *)
Theorem text_map_lost {float64} (fmt_f : float64 -> string) Format opts ts sev txt attrs tr sp fl rs sc dr
    (m m' : list (string * Value float64)) pre post :
  text_Encode fmt_f Format opts (mkRecord ts sev txt (VMap m) attrs tr sp fl rs sc dr) =
  text_Encode fmt_f Format opts (mkRecord ts sev txt (VMap m') attrs tr sp fl rs sc dr)
  /\ printValue fmt_f (VSlice (pre ++ VMap m :: post)) = printValue fmt_f (VSlice (pre ++ VMap m' :: post)).
Proof. split; [done|]. cbn [printValue]. by rewrite !map_app. Qed.

(** C39: the JSON codec writes a record of finite numbers iff it has a resource with attributes and
    a scope with some name: an empty one marshals to no bytes, which is an error. *)
Theorem json_encodes_iff {float64} Format (is_finite : float64 -> bool) id_json flags_json opts rec attr :
  r_Resource rec = Some attr -> finite is_finite (r_Body rec) = true ->
  Forall (fun kv => finite is_finite kv.2 = true) (r_Attributes rec) ->
  Forall (fun kv => att_finite is_finite kv.2 = true) attr ->
  (exists j, json_Encode Format is_finite id_json flags_json opts rec = Ret (Ok j)) <->
  attr <> [] /\ r_Scope rec <> mkScope "" "" "".
Proof.
  intros Hr Hb Ha Hat. unfold json_Encode. rewrite Hr.
  destruct (value_json_ok is_finite (r_Body rec) Hb) as [message ->]. cbn [res_bind].
  destruct (r_Scope rec) as [name version url]. unfold scope_MarshalJSON. cbn [sc_Name sc_Version sc_SchemaURL].
  destruct (decide (name = EmptyString /\ version = EmptyString /\ url = EmptyString)) as [(->&->&->)|Hs].
  { split; [by intros [j ?]|by intros [_ []]]. }
  cbn [marshaled res_bind]. destruct attr as [|a attr].
  { split; [by intros [j ?]|by intros [[] _]]. }
  destruct (members_ok (att_json is_finite) (a :: attr)) as [resource Er].
  { eapply Forall_impl; [done|]. intros kv. apply att_json_ok. }
  unfold Resource_MarshalJSON. rewrite Er. cbn [res_bind marshaled].
  split; [intros _; split; [done|]; intros [= -> -> ->]; by apply Hs|intros _].
  destruct (r_Attributes rec) as [|kv l]; [by eexists|].
  destruct (members_ok (value_json is_finite) (kv :: l)) as [attributes ->]; [|by eexists].
  eapply Forall_impl; [done|]. intros kv'. apply value_json_ok.
Qed.

Lemma json_encodes_iff_witness :
  let enc := json_Encode (float64 := unit) (fun _ _ => "T") (fun _ => true) (fun _ => JNull) (fun _ => JNull) (NewOptions []) in
  let rec sc := mkRecord 5 9 "" (VString "up") [] [] [] 0 (Some [("service.name", AString "x")]) sc 0 in
  (exists j, enc (rec (mkScope "otel" "" "")) = Ret (Ok j)) /\ ~ (exists j, enc (rec (mkScope "" "" "")) = Ret (Ok j)).
Proof.
  cbv zeta. split.
  - eapply json_encodes_iff; [done|done|done|by repeat constructor|done].
  - intros H. eapply json_encodes_iff in H; [|done|done|done|by repeat constructor]. by destruct H.
Defined.

(** The attributes of a JSON record are an object with sorted names, each with the
    last value of its name. *)
Theorem json_last_attribute {float64 A} (f : A -> res string (json float64)) l m :
  members_json f l = Ok (JObject m) ->
  Sorted key_lt m /\
  forall k, match assoc_lookup k (reverse l) with
            | Some v => Ok <$> assoc_lookup k m = Some (f v)
            | None => assoc_lookup k m = None
            end.
Proof.
  unfold members_json. destruct (sequence _) as [m'|] eqn:E; [|done]. cbn. intros [= <-].
  apply sequence_members in E. split.
  - eapply Forall2_sorted; [done|apply go_map_sorted].
  - intros k. rewrite <- go_map_lookup. by apply Forall2_lookup.
Qed.

Lemma json_last_attribute_witness :
  members_json (float64 := unit) (value_json (fun _ => true)) [("b", VInt64 1); ("a", VInt64 2); ("b", VInt64 3)]
    = Ok (JObject [("a", JInt 2); ("b", JInt 3)])
  /\ Sorted (key_lt (A := json unit)) [("a", JInt 2); ("b", JInt 3)].
Proof.
  split; [by vm_compute|].
  apply (json_last_attribute (value_json (fun _ => true)) [("b", VInt64 1); ("a", VInt64 2); ("b", VInt64 3)]).
  by vm_compute.
Defined.

(** The first record of a batch that cannot be encoded ends the export with its error: the
    records after it are dropped, whatever they are. *)
Theorem export_drops_rest {Rec Out E} (enc : Rec -> Out -> option E * Out) ts ctx_err pre r post out err out' :
  Export (mkExporter (Some enc) ts) ctx_err (pre ++ [r]) out = (Some err, out') ->
  Export (mkExporter (Some enc) ts) ctx_err (pre ++ r :: post) out = (Some err, out').
Proof.
  unfold Export. cbn [exp_encoder]. change (pre ++ r :: post) with (pre ++ [r] ++ post).
  rewrite app_assoc. intros H. by rewrite export_loop_app, H.
Qed.

Lemma export_drops_rest_witness :
  let enc (r : nat) (out : list nat) := if decide (r = 0%nat) then (Some "bad", out) else (None, out ++ [r]) in
  Export (mkExporter (Some enc) true) (fun _ => None) [1; 0; 2]%nat [] = (Some "bad", [1%nat]).
Proof.
  cbv zeta.
  by apply (export_drops_rest (fun (r : nat) (out : list nat) => if decide (r = 0%nat) then (Some "bad", out) else (None, out ++ [r]))
    true (fun _ => None) [1%nat] 0%nat [2%nat]).
Defined.

(** A batch that passes is encoded record by record; after Shutdown nothing is written. *)
Theorem export_all {Rec Out E} (enc : Rec -> Out -> option E * Out) ts ctx_err records out out' :
  Export (mkExporter (Some enc) ts) ctx_err records out = (None, out') ->
  out' = foldl (fun out r => (enc r out).2) out records
  /\ Export (Exporter_Shutdown (mkExporter (Some enc) ts)) ctx_err records out = (None, out).
Proof.
  unfold Export. cbn [exp_encoder Exporter_Shutdown]. intros H. split; [|done].
  revert H. generalize 0%nat. revert out. induction records as [|r l IH]; intros out i H; [by simplify_eq/=|].
  cbn in *. destruct (ctx_err i); [done|]. destruct (enc r out) as [[|] o] eqn:En; [done|].
  cbn. by apply IH with (S i).
Qed.

Lemma export_all_witness :
  Export (mkExporter (Some (fun (r : nat) (out : list nat) => (@None unit, out ++ [r]))) true) (fun _ => None) [1; 2]%nat []
    = (None, [1; 2]%nat)
  /\ Export (Exporter_Shutdown (mkExporter (Some (fun (r : nat) (out : list nat) => (@None unit, out ++ [r]))) true))
       (fun _ => None) [1; 2]%nat [] = (None, []).
Proof. split; [done|]. eapply (export_all _ true (fun _ => None) [1; 2]%nat [] [1; 2]%nat). done. Defined.

Definition chooses_output {Rec Out Writer E} (o : @exp_option Rec Out Writer E) : bool :=
  match o with writerOption _ | codecOption _ => true | _ => false end.

(** The options for pretty printing, timestamps and colors change nothing in what an
    exporter does: only those for the writer and the codec count. *)
Theorem exporter_options_ignored {Rec Out Writer E} (stdout : Writer) (otel_codec : Writer -> Rec -> Out -> option E * Out)
    options ctx_err records out :
  Export (New stdout otel_codec options) ctx_err records out =
  Export (New stdout otel_codec (List.filter chooses_output options)) ctx_err records out.
Proof.
  unfold New, newConfig.
  assert (forall c c', Output c = Output c' -> Codec_ c = Codec_ c' ->
    Output (foldl option_apply c options) = Output (foldl option_apply c' (List.filter chooses_output options))
    /\ Codec_ (foldl option_apply c options) = Codec_ (foldl option_apply c' (List.filter chooses_output options))) as H.
  { induction options as [|o l IH]; intros c c' Ho Hc; [done|].
    destruct o; cbn [List.filter chooses_output foldl]; apply IH; done. }
  unfold Export. cbn [exp_encoder].
  destruct (H (mkConfig stdout false None false true) (mkConfig stdout false None false true)) as [-> ->]; done.
Qed.

End OtelLog.
