(* ===== verification/OtelRecord.v ===== *)
(** * The OpenTelemetry form of log records and the buffers of the text codec:
    src/infra/otel/sdk/log/stdout (record.go, codec/otel/otel.go, codec/time.go, codec/text/buff.go)

    Records as JSON with the kind of every value, the texts of times, and the pool of buffers
    that concurrent calls of the text codec share.  The JSON forms of resources and scopes are those of the SDK and
    are parameters. *)
From stdpp Require Import prelude strings list gmap.
From Stdlib Require Import ZArith Lia Ascii.
From S2P Require Import Prelude Strconv Utf8 OtelLog.

Local Open Scope Z_scope.

Module OtelRecord.
Import OtelLog.

(** ** codec/time.go *)

Section Times.
Context (Format : Z -> string -> string).

(** [Timestamp.MarshalText]; [String] is the same text. *)
Definition Timestamp_MarshalText (ts : Timestamp) : string :=
  Format (ts_Time ts) (if decide (ts_Format ts = "") then default_layout else ts_Format ts).
Definition Timestamp_String (ts : Timestamp) : string := Timestamp_MarshalText ts.

(** [TimeStampIsValid]: a layout that keeps the present time within [skrew]. *)
Definition TimeStampIsValid (Parse : string -> string -> res string Z) (now : Z) (layout : string) (skrew : Z) : bool :=
  match Parse layout (Format now layout) with
  | Err _ => false
  | Ok dst => Z.abs (dst - now) <? skrew
  end.

End Times.

(** ** Records *)

Section Records.
Context {float64 : Type}.
Local Notation Value := (Value float64).
Local Notation Record_ := (Record_ float64).
Local Notation json := (json float64).

(** The struct that is marshalled; [TS] is the form of a time. *)
Record record (TS : Type) := mkRec {
  o_Timestamp : option TS;
  o_ObservedTimestamp : option TS;
  o_Severity : Z;
  o_SeverityText : string;
  o_Body : Value;
  o_Attributes : list (string * Value);
  o_TraceID : list Z;
  o_SpanID : list Z;
  o_TraceFlags : Z;
  o_Resource : option (list (string * AttValue float64));
  o_Scope : Scope_;
  o_DroppedAttributes : Z
}.
Arguments mkRec {TS}.
Arguments o_Timestamp {TS}.
Arguments o_ObservedTimestamp {TS}.
Arguments o_Severity {TS}.
Arguments o_SeverityText {TS}.
Arguments o_Body {TS}.
Arguments o_Attributes {TS}.
Arguments o_TraceID {TS}.
Arguments o_SpanID {TS}.
Arguments o_TraceFlags {TS}.
Arguments o_Resource {TS}.
Arguments o_Scope {TS}.
Arguments o_DroppedAttributes {TS}.

(** The fields that do not depend on the times; [WalkAttributes] visits every attribute. *)
Definition fields {TS} (t o : option TS) (r : Record_) : record TS :=
  mkRec t o (r_Severity r) (r_SeverityText r) (r_Body r) (r_Attributes r) (r_TraceID r) (r_SpanID r) (r_TraceFlags r)
    (r_Resource r) (r_Scope r) (r_Dropped r).

(** [Encoder.record] of codec/otel; [observed] is the observed time of the record. *)
Definition Encoder_record (opts : Options) (observed : Z) (src : Record_) : record Timestamp :=
  fields (Options_Timestamp opts (r_Timestamp src)) (Options_Timestamp opts observed) src.

(** [Exporter.newRecordJSON] of record.go. *)
Definition newRecordJSON (timestamps : bool) (observed : Z) (r : Record_) : record Z :=
  if timestamps then fields (Some (r_Timestamp r)) (Some observed) r else fields None None r.

(** ** The encoder of codec/otel *)

(** The options and the indent of the encoder. *)
Record Encoder := mkEncoder { enc_opts : Options; enc_indent : option string }.

Definition otel_NewCodec (opts : list codec_option) : Encoder :=
  let o := NewOptions opts in
  mkEncoder o (if decide (PrettyPrint o = "") then None else Some (PrettyPrint o)).

Context (is_finite : float64 -> bool) (id_json : list Z -> json) (flags_json : Z -> json).
Context (resource_json : option (list (string * AttValue float64)) -> res string json) (scope_json : Scope_ -> res string json).

(** [keyValue] *)
Definition keyValue_json (kv : string * Value) : res string json :=
  res_bind (otel_value_json is_finite kv.2) (fun j => Ok (JObject [("Key", JString kv.1); ("Value", j)])).

(** json.Marshal of the struct, field by field; [time_json] is the JSON form of a time. *)
Definition record_json {TS} (time_json : TS -> json) (r : record TS) : res string json :=
  res_bind (otel_value_json is_finite (o_Body r)) (fun body =>
  res_bind (sequence (map keyValue_json (o_Attributes r))) (fun atts =>
  res_bind (resource_json (o_Resource r)) (fun resource =>
  res_bind (scope_json (o_Scope r)) (fun scope =>
  Ok (JObject (
    member "Timestamp" time_json (o_Timestamp r) ++
    member "ObservedTimestamp" time_json (o_ObservedTimestamp r) ++
    [("Severity", JInt (o_Severity r)); ("SeverityText", JString (o_SeverityText r)); ("Body", body);
     ("Attributes", JArray atts); ("TraceID", id_json (o_TraceID r)); ("SpanID", id_json (o_SpanID r));
     ("TraceFlags", flags_json (o_TraceFlags r)); ("Resource", resource); ("Scope", scope);
     ("DroppedAttributes", JInt (o_DroppedAttributes r))])))))).

(** encoding/json writes every byte of a string that does not belong to a well-formed rune as U+FFFD. *)
Definition json_string (s : string) : string := Utf8.encode_runes (Utf8.decode_runes s).

#[global] Arguments json_string : simpl never.

(** What a reader of the output gets for a value: the strings and names as they were written. *)
Fixpoint written (j : json) : json :=
  match j with
  | JString s => JString (json_string s)
  | JArray l => JArray (map written l)
  | JObject m => JObject (map (fun kv => (json_string kv.1, written kv.2)) m)
  | _ => j
  end.

Definition otel_Encode (Format : Z -> string -> string) (enc : Encoder) (observed : Z) (rec : Record_) : res string json :=
  res_bind (record_json (fun ts => JString (Timestamp_MarshalText Format ts)) (Encoder_record (enc_opts enc) observed rec))
    (fun j => Ok (written j)).

(** ** The record of record.go, which the exporter would marshal itself *)

(** [value.MarshalJSON] of record.go; [newValue] wraps a value. *)
Fixpoint stdout_value_json (v : Value) : res string json :=
  let marshal (Type_ : string) (value : res string json) :=
    res_bind value (fun j => Ok (JObject [("Type", JString Type_); ("Value", j)])) in
  match v with
  | VString s => marshal "String" (Ok (JString s))
  | VInt64 z => marshal "Int64" (Ok (JInt z))
  | VFloat64 f => marshal "Float64" (float_json is_finite f)
  | VBool b => marshal "Bool" (Ok (JBool b))
  | VBytes b => marshal "Bytes" (Ok (JBase64 b))
  | VMap m =>
      marshal "Map"
        (res_bind (sequence (map (fun kv => res_bind (stdout_value_json kv.2) (fun j =>
                    Ok (JObject [("Key", JString kv.1); ("Value", j)]))) m)) (fun l => Ok (JArray l)))
  | VSlice l => marshal "Slice" (res_bind (sequence (map stdout_value_json l)) (fun l => Ok (JArray l)))
  | VEmpty => marshal "Empty" (Ok JNull)
  end.

Definition stdout_keyValue_json (kv : string * Value) : res string json :=
  res_bind (stdout_value_json kv.2) (fun j => Ok (JObject [("Key", JString kv.1); ("Value", j)])).

(** json.Marshal of [recordOTEL]; [time_json] is the JSON form of a [time.Time]. *)
Definition recordOTEL_json (time_json : Z -> json) (r : record Z) : res string json :=
  res_bind (stdout_value_json (o_Body r)) (fun body =>
  res_bind (sequence (map stdout_keyValue_json (o_Attributes r))) (fun atts =>
  res_bind (resource_json (o_Resource r)) (fun resource =>
  res_bind (scope_json (o_Scope r)) (fun scope =>
  Ok (JObject (
    member "Timestamp" time_json (o_Timestamp r) ++
    member "ObservedTimestamp" time_json (o_ObservedTimestamp r) ++
    [("Severity", JInt (o_Severity r)); ("SeverityText", JString (o_SeverityText r)); ("Body", body);
     ("Attributes", JArray atts); ("TraceID", id_json (o_TraceID r)); ("SpanID", id_json (o_SpanID r));
     ("TraceFlags", flags_json (o_TraceFlags r)); ("Resource", resource); ("Scope", scope);
     ("DroppedAttributes", JInt (o_DroppedAttributes r))])))))).

(** ** Reading values back *)

(** A reader of the typed form. *)
Fixpoint read_value (j : json) : option Value :=
  match j with
  | JObject [(_, JString kind); (_, v)] =>
      match v with
      | JNull => if decide (kind = "Empty") then Some VEmpty else None
      | JBool b => if decide (kind = "Bool") then Some (VBool b) else None
      | JInt z => if decide (kind = "Int64") then Some (VInt64 z) else None
      | JFloat f => if decide (kind = "Float64") then Some (VFloat64 f) else None
      | JString s => if decide (kind = "String") then Some (VString s) else None
      | JBase64 b => if decide (kind = "Bytes") then Some (VBytes b) else None
      | JArray l =>
          if decide (kind = "Slice") then
            VSlice <$> (fix items l := match l with
              | [] => Some []
              | x :: l => match read_value x, items l with Some v, Some vs => Some (v :: vs) | _, _ => None end
              end) l
          else if decide (kind = "Map") then
            VMap <$> (fix members l := match l with
              | [] => Some []
              | JObject [(_, JString k); (_, x)] :: l =>
                  match read_value x, members l with Some v, Some vs => Some ((k, v) :: vs) | _, _ => None end
              | _ :: _ => None
              end) l
          else None
      | JObject _ => None
      end
  | _ => None
  end.

Definition read_items : list json -> option (list Value) :=
  fix items l := match l with
  | [] => Some []
  | x :: l => match read_value x, items l with Some v, Some vs => Some (v :: vs) | _, _ => None end
  end.

Definition read_members : list json -> option (list (string * Value)) :=
  fix members l := match l with
  | [] => Some []
  | JObject [(_, JString k); (_, x)] :: l =>
      match read_value x, members l with Some v, Some vs => Some ((k, v) :: vs) | _, _ => None end
  | _ :: _ => None
  end.

(** The member of an object. *)
Definition field (k : string) (j : json) : option json :=
  match j with JObject m => snd <$> find (fun x => bool_decide (x.1 = k)) m | _ => None end.

Lemma read_items_ok l : Forall (fun v => forall j, otel_value_json is_finite v = Ok j -> read_value j = Some v) l ->
  forall js, sequence (map (otel_value_json is_finite) l) = Ok js -> read_items js = Some l.
Proof.
  induction 1 as [|v l Hv _ IH]; cbn; intros js Hjs; [by simplify_eq|].
  destruct (otel_value_json is_finite v) as [j|]; [|done]. cbn in Hjs. destruct (sequence _) as [t|]; [|done]. cbn in Hjs. simplify_eq.
  cbn. by rewrite (Hv j), (IH t).
Qed.

Lemma read_members_ok m : Forall (fun kv => forall j, otel_value_json is_finite kv.2 = Ok j -> read_value j = Some kv.2) m ->
  forall js, sequence (map keyValue_json m) = Ok js -> read_members js = Some m.
Proof.
  unfold keyValue_json. induction 1 as [|[k v] l Hv _ IH]; cbn; intros js Hjs; [by simplify_eq|]. cbn in Hv.
  destruct (otel_value_json is_finite v) as [j|]; [|done]. cbn in Hjs. destruct (sequence _) as [t|]; [|done]. cbn in Hjs. simplify_eq.
  cbn. by rewrite (Hv j), (IH t).
Qed.

Lemma read_value_ok v : forall j, otel_value_json is_finite v = Ok j -> read_value j = Some v.
Proof.
  induction v as [| |f| | | |l IH|m IH] using value_rect; cbn [otel_value_json]; intros j Hj; cbn in Hj; try by simplify_eq.
  - unfold float_json in Hj. destruct (is_finite f); cbn in Hj; by simplify_eq.
  - destruct (sequence _) as [js|] eqn:E; [|done]. cbn in Hj. simplify_eq. cbn. change (VSlice <$> read_items js = Some (VSlice l)).
    by rewrite (read_items_ok l IH js E).
  - destruct (sequence _) as [js|] eqn:E; [|done]. cbn in Hj. simplify_eq. cbn. change (VMap <$> read_members js = Some (VMap m)).
    by rewrite (read_members_ok m IH js E).
Qed.

(** *** Texts *)

(** A value with its strings and names changed. *)
Fixpoint map_text (f : string -> string) (v : Value) : Value :=
  match v with
  | VString s => VString (f s)
  | VSlice l => VSlice (map (map_text f) l)
  | VMap m => VMap (map (fun kv => (f kv.1, map_text f kv.2)) m)
  | _ => v
  end.

Definition map_attrs (f : string -> string) (m : list (string * Value)) : list (string * Value) :=
  map (fun kv => (f kv.1, map_text f kv.2)) m.

(** The strings and names of a value. *)
Fixpoint texts (v : Value) : list string :=
  match v with
  | VString s => [s]
  | VSlice l => concat (map texts l)
  | VMap m => concat (map (fun kv => kv.1 :: texts kv.2) m)
  | _ => []
  end.

(** Text in UTF-8: the encoding of some runes. *)
Definition is_utf8 (s : string) : Prop := exists rs, Forall (fun r => Strconv.ValidRune r = true) rs /\ s = Utf8.encode_runes rs.

Lemma json_string_utf8 s : is_utf8 s -> json_string s = s.
Proof.
  intros (rs & Hrs & ->). unfold json_string. f_equal. pose proof (Utf8.decode_encode rs EmptyString Hrs) as H.
  by rewrite append_nil_r, app_nil_r in H.
Qed.

Lemma ascii_utf8 s : all_bytes (fun c => byte_val c <? 128) s = true -> is_utf8 s.
Proof.
  intros H. exists (Utf8.decode_runes s). split; [apply Utf8.decode_valid|]. symmetry.
  induction s as [|c s IH]; [done|]. cbn [all_bytes] in H. apply andb_prop in H as [Hc Hs].
  rewrite Utf8.decode_cons. cbv zeta. rewrite Hc. cbn [Utf8.encode_runes]. rewrite (IH Hs). apply Z.ltb_lt in Hc.
  pose proof (Utf8.byte_val_bounds c). rewrite Utf8.valid_rune by lia. unfold Strconv.AppendRune.
  destruct (Z.ltb_spec (byte_val c) 128); [|lia]. unfold Strconv.byte_string, byte_val. rewrite N2Z.id, ascii_N_embedding. reflexivity.
Qed.

Lemma json_string_ascii s : all_bytes (fun c => byte_val c <? 128) s = true -> json_string s = s.
Proof. intros H. by apply json_string_utf8, ascii_utf8. Qed.

Lemma map_text_utf8 v : Forall is_utf8 (texts v) -> map_text json_string v = v.
Proof.
  induction v as [| | | |s| |l IH|m IH] using value_rect; cbn [texts map_text]; intros Ht; try done.
  - apply Forall_cons in Ht as [Hs _]. by rewrite json_string_utf8.
  - f_equal. induction IH as [|v l Hv _ IHl]; [done|]. cbn in Ht |- *. apply Forall_app in Ht as [H1 H2]. by rewrite Hv, IHl.
  - f_equal. induction IH as [|[k v] m Hv _ IHm]; [done|]. cbn in Ht, Hv |- *.
    apply Forall_cons in Ht as [Hk [H1 H2]%Forall_app]. by rewrite json_string_utf8, Hv, IHm.
Qed.

Lemma map_attrs_utf8 m : Forall (fun kv => is_utf8 kv.1 /\ Forall is_utf8 (texts kv.2)) m -> map_attrs json_string m = m.
Proof.
  induction 1 as [|[k v] m [Hk Hv] _ IH]; [done|]. cbn in *. f_equal; [|done]. by rewrite json_string_utf8, map_text_utf8.
Qed.

Lemma sequence_map {A B} (f : A -> res string json) (g : A -> B) (h : B -> res string json) l :
  Forall (fun a => forall j, f a = Ok j -> h (g a) = Ok (written j)) l ->
  forall js, sequence (map f l) = Ok js -> sequence (map h (map g l)) = Ok (map written js).
Proof.
  induction 1 as [|a l Ha _ IH]; cbn; intros js Hjs; [by simplify_eq|].
  destruct (f a) as [j|]; [|done]. cbn in Hjs. destruct (sequence (map f l)) as [t|]; [|done]. cbn in Hjs. simplify_eq.
  by rewrite (Ha j), (IH t).
Qed.

(** What is written of a value is the form of the value with its texts as they are written. *)
Lemma written_value v : forall j, otel_value_json is_finite v = Ok j ->
  otel_value_json is_finite (map_text json_string v) = Ok (written j).
Proof.
  induction v as [| |f| | | |l IH|m IH] using value_rect; cbn [otel_value_json map_text]; intros j Hj; cbn [res_bind] in Hj;
    try (injection Hj as <-; reflexivity).
  - destruct (float_json is_finite f) as [x|] eqn:E; [|done]. cbn [res_bind] in Hj |- *. injection Hj as <-.
    unfold float_json in E. destruct (is_finite f); by simplify_eq.
  - destruct (sequence _) as [js|] eqn:E; [|done]. cbn [res_bind] in Hj. injection Hj as <-. by rewrite (sequence_map _ _ _ l IH js E).
  - destruct (sequence _) as [js|] eqn:E; [|done]. cbn [res_bind] in Hj. injection Hj as <-.
    rewrite (sequence_map (fun kv => res_bind (otel_value_json is_finite kv.2) (fun j => Ok (JObject [("Key", JString kv.1); ("Value", j)])))
      (fun kv => (json_string kv.1, map_text json_string kv.2)) _ m) with (js := js); [done| |done].
    eapply Forall_impl; [exact IH|]. intros [k v] Hv j. cbn in Hv |- *. destruct (otel_value_json is_finite v) as [x|]; [|done].
    cbn. rewrite (Hv x) by done. intros [= <-]. reflexivity.
Qed.

Lemma written_attrs m js : sequence (map keyValue_json m) = Ok js ->
  sequence (map keyValue_json (map_attrs json_string m)) = Ok (map written js).
Proof.
  intros E. apply (sequence_map keyValue_json (fun kv => (json_string kv.1, map_text json_string kv.2)) keyValue_json m); [|done].
  apply Forall_forall. intros [k v] _ j. unfold keyValue_json. cbn.
  destruct (otel_value_json is_finite v) as [x|] eqn:Ev; [|done]. cbn. rewrite (written_value v x Ev). intros [= <-]. reflexivity.
Qed.

(** The members of an object whose names are written as they are. *)
Lemma field_written k m : Forall (fun kv => json_string kv.1 = kv.1) m ->
  field k (written (JObject m)) = written <$> field k (JObject m).
Proof.
  unfold field. cbn [written]. induction 1 as [|[n j] m Hn _ IH]; [done|]. cbn in *. rewrite Hn.
  destruct (bool_decide (n = k)); [done|exact IH].
Qed.

Lemma res_bind_Ok_iff {E A B} (r : res E A) (f : A -> B) : is_Ok (res_bind r (fun a => Ok (f a))) <-> is_Ok r.
Proof. destruct r as [a|e]; split; intros [x Hx]; try discriminate Hx; cbn; by eexists. Qed.

Lemma otel_value_finite v : is_Ok (otel_value_json is_finite v) <-> finite is_finite v = true.
Proof.
  assert (forall {A} (l : list (res string A)), is_Ok (sequence l) <-> Forall is_Ok l) as Hseq.
  { intros A l. split; [|apply sequence_ok]. induction l as [|r l IH]; [constructor|]. cbn. intros [t Ht].
    destruct r as [a|]; [|done]. cbn in Ht. destruct (sequence l) as [t'|]; [|done]. constructor; [by eexists|]. apply IH. by eexists. }
  assert (forall {A B} (r : res string A) (f : A -> B), is_Ok (res_bind r (fun a => Ok (f a))) <-> is_Ok r) as Hb
    by (intros; apply res_bind_Ok_iff).
  induction v as [| |f| | | |l IH|m IH] using value_rect; cbn [otel_value_json finite]; try (split; [done|by eexists]).
  - rewrite Hb. unfold float_json. destruct (is_finite f); split; try done; [by eexists|by intros [? ?]].
  - rewrite !Hb, Hseq, Forall_map, forallb_forall, Forall_forall. rewrite Forall_forall in IH. setoid_rewrite <- list_elem_of_In.
    split; intros Hx x Hin; apply IH; auto.
  - rewrite !Hb, Hseq, Forall_map, forallb_forall, Forall_forall. rewrite Forall_forall in IH. setoid_rewrite <- list_elem_of_In.
    split; intros Hx x Hin; [apply IH; [done|]|rewrite Hb; apply IH; auto].
    specialize (Hx x Hin). by rewrite Hb in Hx.
Qed.

(** A record is written exactly when its body and its attributes have no float that JSON refuses and the SDK can write
    its resource and its scope. *)
Theorem otel_encodes_iff Format enc observed rec :
  is_Ok (otel_Encode Format enc observed rec) <->
  finite is_finite (r_Body rec) = true /\ Forall (fun kv => finite is_finite kv.2 = true) (r_Attributes rec) /\
  is_Ok (resource_json (r_Resource rec)) /\ is_Ok (scope_json (r_Scope rec)).
Proof.
  unfold otel_Encode. rewrite (res_bind_Ok_iff _ written). unfold record_json, Encoder_record, fields. cbn. rewrite <- otel_value_finite.
  assert (Forall (fun kv => finite is_finite kv.2 = true) (r_Attributes rec) <-> is_Ok (sequence (map keyValue_json (r_Attributes rec)))) as ->.
  { induction (r_Attributes rec) as [|kv l IH]; cbn; [split; [by eexists|constructor]|].
    rewrite Forall_cons, IH, <- otel_value_finite. unfold keyValue_json at 2.
    destruct (otel_value_json is_finite kv.2) as [j|]; cbn.
    - destruct (sequence (map keyValue_json l)) as [t|]; cbn; split; try (by eexists); [intros _; split; by eexists|by intros [_ [? ?]]|by intros [? ?]].
    - split; [by intros [[? ?] _]|by intros [? ?]]. }
  destruct (otel_value_json is_finite (r_Body rec)) as [b|]; cbn; [|split; [by intros [? ?]|by intros [[? ?] _]]].
  destruct (sequence (map keyValue_json (r_Attributes rec))) as [a|]; cbn; [|split; [by intros [? ?]|by intros (_ & [? ?] & _)]].
  destruct (resource_json (r_Resource rec)) as [c|]; cbn; [|split; [by intros [? ?]|by intros (_ & _ & [? ?] & _)]].
  destruct (scope_json (r_Scope rec)) as [d|]; cbn; [|split; [by intros [? ?]|by intros (_ & _ & _ & [? ?])]].
  split; [intros _|by eexists]. repeat split; by eexists.
Qed.

Lemma stdout_value_same v : stdout_value_json v = otel_value_json is_finite v.
Proof. reflexivity. Qed.

(** The exporter's own record and that of the codec "otel" are the same JSON, errors included: without times, and
    with times wherever both write them in the same form. *)
Theorem exporter_record_same Format enc time_json timestamps observed rec :
  (forall date, date ∈ [r_Timestamp rec; observed] ->
     (fun ts => JString (Timestamp_MarshalText Format ts)) <$> Options_Timestamp (enc_opts enc) date =
     if (timestamps : bool) then Some (time_json date) else None) ->
  res_bind (recordOTEL_json time_json (newRecordJSON timestamps observed rec)) (fun j => Ok (written j)) =
    otel_Encode Format enc observed rec.
Proof.
  intros Ht. unfold otel_Encode. f_equal. unfold record_json, recordOTEL_json.
  assert (forall l, map stdout_keyValue_json l = map keyValue_json l) as Hkv.
  { intros l. apply map_ext. intros kv. unfold stdout_keyValue_json, keyValue_json. by rewrite stdout_value_same. }
  assert (forall k date, date ∈ [r_Timestamp rec; observed] -> member k time_json (if timestamps then Some date else None) =
    member k (fun ts => JString (Timestamp_MarshalText Format ts)) (Options_Timestamp (enc_opts enc) date)) as Hm.
  { intros k date Hd. specialize (Ht date Hd). destruct timestamps, (Options_Timestamp (enc_opts enc) date); simpl in *; congruence. }
  unfold newRecordJSON, Encoder_record. rewrite Hkv, stdout_value_same.
  destruct timestamps; cbn [fields o_Body o_Attributes o_Resource o_Scope o_Timestamp o_ObservedTimestamp o_Severity
    o_SeverityText o_TraceID o_SpanID o_TraceFlags o_DroppedAttributes]; cbn [fields] in Hm;
    rewrite <- !Hm by (by left || (right; by left)); done.
Qed.

(** The record with its texts changed. *)
Definition given_back (f : string -> string) (rec : Record_) (j : json) : Prop :=
  field "Severity" j = Some (JInt (r_Severity rec)) /\
  field "SeverityText" j = Some (JString (f (r_SeverityText rec))) /\
  (field "Body" j ≫= read_value) = Some (map_text f (r_Body rec)) /\
  (exists l, field "Attributes" j = Some (JArray l) /\ read_members l = Some (map_attrs f (r_Attributes rec))) /\
  field "DroppedAttributes" j = Some (JInt (r_Dropped rec)).

Lemma map_text_same v : map_text (fun s => s) v = v.
Proof.
  induction v as [| | | |s| |l IH|m IH] using value_rect; cbn [map_text]; try done; f_equal.
  - induction IH as [|v l Hv _ IHl]; [done|]. cbn. by rewrite Hv, IHl.
  - induction IH as [|[k v] m Hv _ IHm]; [done|]. cbn in *. by rewrite Hv, IHm.
Qed.

Lemma map_attrs_same m : map_attrs (fun s => s) m = m.
Proof. unfold map_attrs. induction m as [|[k v] m IH]; [done|]. cbn. by rewrite map_text_same, IH. Qed.

(** The object behind what is written. *)
Lemma otel_Encode_given Format enc observed rec j : otel_Encode Format enc observed rec = Ok j ->
  exists b a m, j = written (JObject m) /\ otel_value_json is_finite (r_Body rec) = Ok b /\
    sequence (map keyValue_json (r_Attributes rec)) = Ok a /\ Forall (fun kv => json_string kv.1 = kv.1) m /\
    field "Severity" (JObject m) = Some (JInt (r_Severity rec)) /\
    field "SeverityText" (JObject m) = Some (JString (r_SeverityText rec)) /\
    field "Body" (JObject m) = Some b /\ field "Attributes" (JObject m) = Some (JArray a) /\
    field "DroppedAttributes" (JObject m) = Some (JInt (r_Dropped rec)) /\
    field "Timestamp" (JObject m) =
      (fun ts => JString (Timestamp_MarshalText Format ts)) <$> Options_Timestamp (enc_opts enc) (r_Timestamp rec) /\
    field "ObservedTimestamp" (JObject m) =
      (fun ts => JString (Timestamp_MarshalText Format ts)) <$> Options_Timestamp (enc_opts enc) observed.
Proof.
  unfold otel_Encode, record_json, Encoder_record, fields. cbn [o_Body o_Attributes o_Resource o_Scope o_Timestamp o_ObservedTimestamp].
  destruct (otel_value_json is_finite (r_Body rec)) as [b|] eqn:Eb; [|done]. cbn [res_bind].
  destruct (sequence (map keyValue_json (r_Attributes rec))) as [a|] eqn:Ea; [|done]. cbn [res_bind].
  destruct (resource_json (r_Resource rec)) as [c|]; [|done]. destruct (scope_json (r_Scope rec)) as [d|]; [|done]. cbn [res_bind].
  intros [= <-]. eexists b, a, _. split; [reflexivity|]. do 2 (split; [done|]).
  destruct (Options_Timestamp (enc_opts enc) (r_Timestamp rec)), (Options_Timestamp (enc_opts enc) observed);
    (split; [repeat (apply Forall_cons_2; [by apply json_string_ascii|]); apply Forall_nil_2|
             split_and!; reflexivity]).
Qed.

(** C40: what is written gives the record back, with encoding/json in between, which replaces bytes that are no UTF-8 by
    U+FFFD: severity, text, body with its kinds, and every attribute in its place, those of a repeated name
    included, are those of the record with their texts so replaced, and those of the record itself when its texts are UTF-8; a
    time is there exactly when it is valid and times are written. *)
Theorem otel_record_lossless Format enc observed rec j : otel_Encode Format enc observed rec = Ok j ->
  given_back json_string rec j /\
  (is_utf8 (r_SeverityText rec) -> Forall is_utf8 (texts (r_Body rec)) ->
   Forall (fun kv => is_utf8 kv.1 /\ Forall is_utf8 (texts kv.2)) (r_Attributes rec) -> given_back (fun s => s) rec j) /\
  field "Timestamp" j = (fun ts => JString (json_string (Timestamp_MarshalText Format ts))) <$> Options_Timestamp (enc_opts enc) (r_Timestamp rec) /\
  field "ObservedTimestamp" j = (fun ts => JString (json_string (Timestamp_MarshalText Format ts))) <$> Options_Timestamp (enc_opts enc) observed.
Proof.
  intros H. assert (given_back json_string rec j /\
    field "Timestamp" j = (fun ts => JString (json_string (Timestamp_MarshalText Format ts))) <$> Options_Timestamp (enc_opts enc) (r_Timestamp rec) /\
    field "ObservedTimestamp" j = (fun ts => JString (json_string (Timestamp_MarshalText Format ts))) <$> Options_Timestamp (enc_opts enc) observed)
    as [Hg Ht].
  { apply otel_Encode_given in H as (b & a & m & -> & Eb & Ea & Hn & H1 & H2 & H3 & H4 & H5 & H6 & H7).
    unfold given_back. rewrite !field_written by done. rewrite H1, H2, H3, H4, H5, H6, H7.
    assert (read_members (map written a) = Some (map_attrs json_string (r_Attributes rec))) as Hm.
    { apply read_members_ok; [|by apply written_attrs]. apply Forall_forall. intros kv _. apply read_value_ok. }
    split_and!; [done|done|exact (read_value_ok _ _ (written_value _ _ Eb))|by exists (map written a)|done| |];
      rewrite <- option_fmap_compose; reflexivity. }
  split; [done|]. split; [|done]. intros Hs Hb Ha. destruct Hg as (H1 & H2 & H3 & H4 & H5).
  rewrite json_string_utf8 in H2 by done. rewrite map_text_utf8 in H3 by done. rewrite map_attrs_utf8 in H4 by done.
  unfold given_back. rewrite map_text_same, map_attrs_same. done.
Qed.

End Records.

(** ** The pool of buffers (codec/text/buff.go) *)

(** A buffer: its bytes and the capacity of its array. *)
Record buffer := mkBuf { bytes : string; bcap : Z }.

Definition maxBufferSize : Z := 16384.

Definition Len (b : buffer) : Z := Z.of_nat (String.length (bytes b)).

(** [append] of some bytes; [grow] is the new capacity when the array is full. *)
Definition WriteString (grow : Z -> Z -> Z) (s : string) (b : buffer) : buffer :=
  let n := Len b + Z.of_nat (String.length s) in
  mkBuf (bytes b +:+ s) (if n <=? bcap b then bcap b else grow (bcap b) n).
Definition Write (grow : Z -> Z -> Z) (p : string) (b : buffer) : buffer := WriteString grow p b.
Definition WriteByte (grow : Z -> Z -> Z) (c : ascii) (b : buffer) : buffer := WriteString grow (String c EmptyString) b.

(** Reslicing the buffer to [n] bytes: bytes past the length are zero or old ones, whose values are not kept here. *)
Definition SetLen (rest : string) (n : Z) (b : buffer) : outcome buffer :=
  if (0 <=? n) && (n <=? bcap b) then
    Ret (mkBuf (String.substring 0 (Z.to_nat n) (bytes b +:+ rest)) (bcap b))
  else Panic "slice bounds out of range".
Definition Reset (b : buffer) : outcome buffer := SetLen EmptyString 0 b.

(** The buffers of the program, those in the pool and those in use by calls of [Encode]. *)
Record store := mkStore { heap : gmap nat buffer; pool : list nat; held : list nat }.

(** [newBuffer]: [sync.Pool] gives any of its buffers, or a new one of 1024 bytes. *)
Definition newBuffer (i : nat) (s : store) : nat * store :=
  match pool s !! i with
  | Some b => (b, mkStore (heap s) (take i (pool s) ++ drop (S i) (pool s)) (b :: held s))
  | None => let b := fresh (dom (heap s)) in (b, mkStore (<[b := mkBuf "" 1024]> (heap s)) (pool s) (b :: held s))
  end.

(** [Free]: a buffer that has not grown too large is emptied and goes back. *)
Definition Free (b : nat) (s : store) : store :=
  let held := filter (fun x => x <> b) (held s) in
  match heap s !! b with
  | Some x => if bcap x <=? maxBufferSize then mkStore (<[b := mkBuf "" (bcap x)]> (heap s)) (b :: pool s) held
              else mkStore (heap s) (pool s) held
  | None => mkStore (heap s) (pool s) held
  end.

(** The calls of [Encode] that share the pool: each takes a buffer, writes and frees it once; the pool may drop buffers
    at any time. *)
Inductive pstep (grow : Z -> Z -> Z) : store -> store -> Prop :=
| pool_get i s : pstep grow s (newBuffer i s).2
| pool_write b x t s : b ∈ held s -> heap s !! b = Some x ->
    pstep grow s (mkStore (<[b := WriteString grow t x]> (heap s)) (pool s) (held s))
| pool_free b s : b ∈ held s -> pstep grow s (Free b s)
| pool_drop i s : pstep grow s (mkStore (heap s) (take i (pool s) ++ drop (S i) (pool s)) (held s)).

(** Each buffer is in one place at most, and those of the pool are empty and not too large. *)
Definition pool_inv (s : store) : Prop :=
  NoDup (held s ++ pool s) /\ (forall b, b ∈ held s ++ pool s -> is_Some (heap s !! b)) /\
  forall b, b ∈ pool s -> exists c, heap s !! b = Some (mkBuf "" c) /\ c <= maxBufferSize.

Lemma remove_at {A} (l : list A) i x : l !! i = Some x -> l ≡ₚ x :: (take i l ++ drop (S i) l).
Proof. intros Hi. rewrite <- (take_drop_middle l i x Hi) at 1. by rewrite Permutation_middle. Qed.

Lemma newBuffer_inv i s : pool_inv s -> let '(b, s') := newBuffer i s in
  pool_inv s' /\ b ∉ held s /\ (exists c, heap s' !! b = Some (mkBuf "" c)) /\ held s' = b :: held s.
Proof.
  intros (Hnd & Hdom & Hp). unfold newBuffer. destruct (pool s !! i) as [b|] eqn:Ei.
  - pose proof (remove_at _ _ _ Ei) as Hr. set (rest := take i (pool s) ++ drop (S i) (pool s)) in *.
    assert (held s ++ pool s ≡ₚ b :: held s ++ rest) as Hperm by (rewrite Hr; by rewrite Permutation_middle).
    assert (b ∈ pool s) as Hb by (by apply list_elem_of_lookup_2 in Ei).
    repeat split; cbn.
    + by rewrite <- Hperm.
    + intros x Hx. apply Hdom. by rewrite Hperm.
    + intros x Hx. apply Hp. rewrite Hr. by right.
    + rewrite Hperm in Hnd. apply NoDup_cons in Hnd as [Hn _]. intros Hh. apply Hn. apply elem_of_app. by left.
    + destruct (Hp b Hb) as (c & Hc & _). by exists c.
  - set (b := fresh (dom (heap s))). assert (heap s !! b = None) as Hn by (apply not_elem_of_dom, is_fresh).
    assert (b ∉ held s ++ pool s) as Hni by (intros Hin; destruct (Hdom b Hin); congruence).
    repeat split; cbn.
    + by apply NoDup_cons.
    + intros x Hx. apply elem_of_cons in Hx as [->|Hx]; [rewrite lookup_insert_eq; by eexists|].
      rewrite lookup_insert_ne by (intros <-; done). by apply Hdom.
    + intros x Hx. rewrite lookup_insert_ne by (intros <-; apply Hni, elem_of_app; by right). by apply Hp.
    + intros Hh. apply Hni, elem_of_app. by left.
    + exists 1024. by rewrite lookup_insert_eq.
Qed.

Lemma Free_inv b s : pool_inv s -> b ∈ held s -> pool_inv (Free b s).
Proof.
  intros (Hnd & Hdom & Hp) Hb. apply NoDup_app in Hnd as (Hh & Hd & Hpl). unfold Free.
  assert (b ∉ pool s) as Hbp by (by apply Hd).
  assert (NoDup (filter (fun x => x <> b) (held s) ++ pool s)) as Hnd'.
  { apply NoDup_app. repeat split; [by apply NoDup_filter|intros x [_ Hx]%list_elem_of_filter; by apply Hd|done]. }
  assert (forall x, x ∈ filter (fun x => x <> b) (held s) ++ pool s -> is_Some (heap s !! x)) as Hdom'.
  { intros x [[_ Hx]%list_elem_of_filter|Hx]%elem_of_app; apply Hdom, elem_of_app; auto. }
  destruct (heap s !! b) as [x|] eqn:Ex; [|repeat split; cbn; done].
  destruct (Z.leb_spec (bcap x) maxBufferSize); [|repeat split; cbn; done].
  assert (b ∉ filter (fun x => x <> b) (held s)) as Hbh by (intros [? _]%list_elem_of_filter; done).
  repeat split; cbn.
  - rewrite <- Permutation_middle. apply NoDup_cons. split; [|done]. rewrite elem_of_app. tauto.
  - intros y Hy. rewrite <- Permutation_middle in Hy. apply elem_of_cons in Hy as [->|Hy]; [rewrite lookup_insert_eq; by eexists|].
    destruct (decide (b = y)) as [<-|]; [rewrite lookup_insert_eq; by eexists|]. rewrite lookup_insert_ne by done. by apply Hdom'.
  - intros y [->|Hy]%elem_of_cons; [rewrite lookup_insert_eq; by eexists|]. rewrite lookup_insert_ne by (intros <-; done). by apply Hp.
Qed.

Lemma pstep_inv grow s s' : pool_inv s -> pstep grow s s' -> pool_inv s'.
Proof.
  intros Hi Hs. revert Hi. destruct Hs as [i s1|b x t s1 Hb Hx|b s1 Hb|i s1]; intros Hi.
  - pose proof (newBuffer_inv i s1 Hi) as H. destruct (newBuffer i s1). apply H.
  - destruct Hi as (Hnd & Hdom & Hp). repeat split; cbn; [done| |].
    + intros y Hy. destruct (decide (b = y)) as [<-|]; [rewrite lookup_insert_eq; by eexists|]. rewrite lookup_insert_ne by done. by apply Hdom.
    + intros y Hy. rewrite lookup_insert_ne; [by apply Hp|]. intros <-. apply NoDup_app in Hnd as (_ & Hd & _). by apply (Hd b).
  - by apply Free_inv.
  - destruct Hi as (Hnd & Hdom & Hp). destruct (pool s1 !! i) as [b|] eqn:Ei.
    + pose proof (remove_at _ _ _ Ei) as Hr. repeat split; cbn.
      * rewrite Hr in Hnd. rewrite <- Permutation_middle in Hnd. by apply NoDup_cons in Hnd as [_ ?].
      * intros y Hy. apply Hdom. rewrite Hr, <- Permutation_middle. by right.
      * intros y Hy. apply Hp. rewrite Hr. by right.
    + apply lookup_ge_None in Ei. rewrite take_ge, drop_ge, app_nil_r by lia. by repeat split.
Qed.

(** C18: however calls of the text codec interleave, a call gets an empty buffer that no other call has. *)
Theorem buffers_exclusive grow s i : runs (pstep grow) (mkStore ∅ [] []) s ->
  let '(b, s') := newBuffer i s in
  b ∉ held s /\ (exists c, heap s' !! b = Some (mkBuf "" c)) /\ NoDup (held s') /\
  forall x, x ∈ pool s -> exists c, heap s !! x = Some (mkBuf "" c) /\ c <= maxBufferSize.
Proof.
  intros Hr. assert (pool_inv s) as Hi.
  { eapply (runs_inv (pstep grow) pool_inv); [intros; by eapply pstep_inv| |exact Hr]. repeat split; cbn; [constructor|set_solver..]. }
  pose proof (newBuffer_inv i s Hi) as H. destruct (newBuffer i s) as [b s']. destruct H as ((Hnd & _) & Hb & Hc & _).
  repeat split; [done|done|by apply NoDup_app in Hnd as [? _]|apply Hi].
Qed.

(** ** Witnesses *)

Definition demo_record : Record_ Z :=
  mkRecord 1700000000000000000 9 "INFO" (VString "ready") [("a", VInt64 1); ("a", VSlice [VBool true; VMap [("k", VEmpty)]])]
    [0] [0] 0 None (mkScope "" "" "") 0.

Definition demo_encoded : res string (json Z) :=
  otel_Encode (fun _ => true) (fun _ => JNull) (fun _ => JNull) (fun _ => Ok JNull) (fun _ => Ok JNull)
    (fun t f => FormatInt t) (otel_NewCodec []) 0 demo_record.

Lemma otel_record_lossless_witness :
  match demo_encoded with
  | Ok j => field "Severity" j = Some (JInt 9) /\
      exists l, field "Attributes" j = Some (JArray l) /\ read_members l = Some (r_Attributes demo_record)
  | Err _ => False
  end.
Proof.
  destruct demo_encoded as [j|e] eqn:E; [|vm_compute in E; discriminate E].
  destruct (otel_record_lossless (fun _ => true) (fun _ => JNull) (fun _ => JNull) (fun _ => Ok JNull) (fun _ => Ok JNull)
    (fun t f => FormatInt t) (otel_NewCodec []) 0 demo_record j E) as (_ & H & _).
  destruct H as (H1 & _ & _ & H2 & _); [by apply ascii_utf8|by repeat constructor; apply ascii_utf8|by repeat constructor; apply ascii_utf8|].
  rewrite map_attrs_same in H2. split; [exact H1|exact H2].
Defined.

Definition demo_store : store := Free 0 (mkStore {[0%nat := mkBuf "" 1024]} [] [0%nat]).

Lemma buffers_exclusive_witness : (newBuffer 0 demo_store).1 ∉ held demo_store.
Proof.
  refine (proj1 (buffers_exclusive (fun c n => n) demo_store 0 _)).
  eapply (runs_step _ _ (mkStore {[0%nat := mkBuf "" 1024]} [] [0%nat])); [|apply (pool_free _ 0%nat); cbn; set_solver].
  eapply runs_step; [apply runs_refl|]. exact (pool_get _ 0%nat (mkStore ∅ [] [])).
Defined.

Lemma exporter_record_same_witness :
  recordOTEL_json (fun _ => true) (fun _ => JNull) (fun _ => JNull) (fun _ => Ok JNull) (fun _ => Ok JNull) (fun _ => JNull)
    (newRecordJSON false 0 demo_record) =
  otel_Encode (fun _ => true) (fun _ => JNull) (fun _ => JNull) (fun _ => Ok JNull) (fun _ => Ok JNull)
    (fun t f => FormatInt t) (otel_NewCodec [WithoutTimestamps]) 0 demo_record.
Proof.
  apply (exporter_record_same (fun _ => true) (fun _ => JNull) (fun _ => JNull) (fun _ => Ok JNull) (fun _ => Ok JNull)
    (fun t f => FormatInt t) (otel_NewCodec [WithoutTimestamps]) (fun _ => JNull) false 0 demo_record).
  intros date _. unfold Options_Timestamp. by destruct (date / 1000000000 <? 1).
Defined.

End OtelRecord.
