(* ===== verification/OtelSdk.v ===== *)
(** * Set-up of OpenTelemetry: src/infra/otel/sdk

    The registries of exporters (log/log.go, trace/trace.go, metric/metric.go), the codecs
    and the options of the exporters to standard output (log/stdout/stdout.go,
    codec/codec.go), and [Configure] with its shutdown (otel.go).  The SDK is a
    parameter: options of providers are values of arbitrary types, and what [Configure]
    installs is the list of calls it makes. *)
From stdpp Require Import prelude strings list gmap.
From Stdlib Require Import ZArith Lia Ascii.
From S2P Require Import Prelude Strconv NetAddr OtelLevel OtelDsn OtelLog.

Local Open Scope Z_scope.

Module OtelSdk.
Import Strconv OtelLevel OtelDsn.

(** ** Registries of exporters

    A call gives the errors passed to [otel.Handle] and its result. *)

Definition handled := list string.

(** A constructor of options for an address. *)
Definition Ctor (Opt : Type) := string -> outcome (handled * res string (list Opt)).

Abbreviation registry Opt := (gmap string (option (Ctor Opt))).

Section Registry.
Context {Opt : Type}.

(** [pkg] is the name of the package in the messages; nothing stops a registration. *)
Definition Register (pkg : string) (reg : registry Opt) (scheme : string) (ctor : option (Ctor Opt)) : handled * registry Opt :=
  let input := scheme in
  let scheme := ToLower (TrimSpace scheme) in
  ((if decide (scheme <> input) then [pkg +:+ ": invalid name"] else []) ++
   (if decide (scheme = EmptyString) then [pkg +:+ ": name required"] else []) ++
   (match ctor with None => [pkg +:+ ": not implemented"] | Some _ => [] end) ++
   (if decide (is_Some (reg !! scheme)) then [pkg +:+ ": duplicate name"] else []),
   <[scheme := ctor]> reg).

(** A nil constructor and a missing one are the same. *)
Definition sdk_NewOptions (reg : registry Opt) (dsn : string) : outcome (handled * res string (list Opt)) :=
  match GetScheme dsn with
  | Err e => Ret ([], Err e)
  | Ok (scheme, _) =>
      let scheme := ToLower scheme in
      match mjoin (reg !! scheme) with
      | None => Ret ([], Err ("scheme " +:+ scheme +:+ ": unknown"))
      | Some driver => driver dsn
      end
  end.

(** [NewProvider]: the options of the driver, then those of the caller. *)
Definition NewProvider (reg : registry Opt) (dsn : string) (opts : list Opt) : outcome (handled * res string (list Opt)) :=
  outcome_bind (sdk_NewOptions reg dsn) (fun '(h, r) => Ret (h, res_bind r (fun o => Ok (o ++ opts)))).

End Registry.

Definition log_Register {Opt} : registry Opt -> string -> option (Ctor Opt) -> handled * registry Opt := Register "otel/sdk/log".
Definition trace_Register {Opt} : registry Opt -> string -> option (Ctor Opt) -> handled * registry Opt := Register "otel/sdk/trace".
Definition metric_Register {Opt} : registry Opt -> string -> option (Ctor Opt) -> handled * registry Opt := Register "otel/sdk/metric".

(** ** codec/codec.go: the registry of codecs *)

Abbreviation CodecFunc Writer Enc := (Writer -> list OtelLog.codec_option -> option Enc).

Abbreviation codecs Writer Enc := (gmap string (CodecFunc Writer Enc)).

Section Codecs.
Context {Writer Enc : Type}.

Definition codec_Register (reg : codecs Writer Enc) (codec : string) (build : option (CodecFunc Writer Enc)) : outcome (codecs Writer Enc) :=
  let input := codec in
  let codec := ToLower (TrimSpace codec) in
  if decide (codec <> input) then Panic "invalid"
  else if decide (codec = EmptyString) then Panic "required"
  else match build with
       | None => Panic "not implemented"
       | Some build =>
           match reg !! codec with
           | Some _ => Panic "duplicate"
           | None => Ret (<[codec := build]> reg)
           end
       end.

Definition NewCodec (reg : codecs Writer Enc) (name : string) (out : Writer) (opts : list OtelLog.codec_option) : outcome (option Enc) :=
  match reg !! ToLower name with
  | None => Panic ("codec " +:+ name +:+ " not registered")
  | Some codec => Ret (codec out opts)
  end.

End Codecs.

(** ** stdout.go: exporters to standard output, standard error and files *)

Inductive output := Stdout | Stderr | File (w : FileWriter).

Section Stdout.
Context (FileDSN_ : string -> res string FileWriter).

(** The scheme before the first colon and the output it names. *)
Definition open_output (rawDSN : string) : res string (string * output) :=
  let '(scheme, rest, _) := Cut rawDSN ":" in
  let scheme := ToLower scheme in
  if decide (scheme = "stdout"%string) then Ok (scheme, Stdout)
  else if decide (scheme = "stderr"%string) then Ok (scheme, Stderr)
  else if decide (scheme = "file"%string) then res_bind (FileDSN_ rest) (fun w => Ok (scheme, File w))
  else Err ("scheme " +:+ scheme +:+ ": unknown")%string.

(** The exporters of traces and metrics take the output as it is. *)
Definition trace_stdout_Options {Opt} (WithBatcher : output -> res string Opt) (rawDSN : string) : res string (list Opt) :=
  res_bind (open_output rawDSN) (fun '(_, out) => res_bind (WithBatcher out) (fun o => Ok [o])).

Definition metric_stdout_Options {Opt} (WithReader : output -> res string Opt) (rawDSN : string) : res string (list Opt) :=
  res_bind (open_output rawDSN) (fun '(_, out) => res_bind (WithReader out) (fun o => Ok [o])).

Context {Enc : Type} (reg : codecs output Enc).

(** The variables that the closures of [withOptions] share. *)
Record setup := mkSetup {
  noColor : bool;
  encoder : option Enc;
  codecOpts : list OtelLog.codec_option;
  setup_err : list string
}.

Definition newCodec (out : output) (name : string) (s : setup) : outcome setup :=
  match encoder s with
  | Some _ => Ret s
  | None =>
      let opts := codecOpts s ++ (if noColor s then [OtelLog.WithNoColor] else []) in
      outcome_bind (NewCodec reg name out opts) (fun enc =>
        Ret (mkSetup (noColor s) enc opts
               (setup_err s ++ match enc with None => ["codec not found"%string] | Some _ => [] end)))
  end.

Definition tab : string := String (ascii_of_N 9) EmptyString.

Definition on_timestamp (v : string) (s : setup) : outcome setup :=
  Ret (mkSetup (noColor s) (encoder s) (codecOpts s ++ [OtelLog.WithTimestamps v]) (setup_err s)).

Definition on_indent (v : string) (s : setup) : outcome setup :=
  let indent := match ParseBool v with Some true => tab | Some false => EmptyString | None => v end in
  if all_bytes is_space indent then
    Ret (mkSetup (noColor s) (encoder s) (codecOpts s ++ [OtelLog.WithPrittyPrint indent]) (setup_err s))
  else Ret (mkSetup (noColor s) (encoder s) (codecOpts s) (setup_err s ++ ["invalid indent"%string])).

Definition on_color (v : string) (s : setup) : outcome setup :=
  let enable := default false (ParseBool v) || EqualFold v "auto" in
  Ret (mkSetup (negb enable) (encoder s) (codecOpts s) (setup_err s)).

(** What the exporter is made of: the encoder with its options; a simple processor for the
    console, a batch processor for a file.  The errors of the set-up are handled and
    returned. *)
Record exporter := mkExp { ex_encoder : Enc; ex_opts : list OtelLog.codec_option; ex_batch : bool }.

Definition withOptions (getenv : string -> string) (rawDSN : string) : outcome (handled * res string (list exporter)) :=
  match open_output rawDSN with
  | Err e => Ret ([], Err e)
  | Ok (scheme, out) =>
      outcome_bind
        (EnvApply (Environment getenv)
           [EnvString "LOGRECORD_TIMESTAMP" on_timestamp; EnvString "LOGRECORD_INDENT" on_indent;
            EnvString "LOGRECORD_COLOR" on_color; EnvString "LOGRECORD_CODEC" (newCodec out)]
           (mkSetup true None [] [])) (fun s =>
      outcome_bind (newCodec out "text" s) (fun s =>
        match setup_err s, encoder s with
        | [], Some enc => Ret ([], Ok [mkExp enc (codecOpts s) (bool_decide (scheme = "file"%string))])
        | errs, _ => Ret (errs, Err "invalid configuration"%string)
        end))
  end.

End Stdout.

(** ** otel.go *)

Section Configure.
Context {LogOpt TraceOpt MetricOpt Res Bridge : Type}.

(** The hooks of shutdown are those of the three providers. *)
Inductive hook := LogShutdown | TraceShutdown | MetricShutdown.

#[global] Instance hook_eq_dec : EqDecision hook.
Proof. solve_decision. Defined.

Record options := mkOpts {
  Lvl : Z;
  Logs : list LogOpt;
  Traces : list TraceOpt;
  Metrics : list MetricOpt;
  Resource : option Res;
  setLevel : option (Z -> Z);
  setBridge : list (option Bridge);
  shutdownHooks : list hook
}.

Definition OnShutdown (h : option hook) (c : options) : options :=
  match h with
  | None => c
  | Some h => mkOpts (Lvl c) (Logs c) (Traces c) (Metrics c) (Resource c) (setLevel c) (setBridge c) (shutdownHooks c ++ [h])
  end.

(** [Shutdown]: every hook is called, in order; [run] is what it returns. *)
Definition Shutdown {E} (run : hook -> option E) (c : options) : list hook * list E * options :=
  (shutdownHooks c, omap run (shutdownHooks c),
   mkOpts (Lvl c) (Logs c) (Traces c) (Metrics c) (Resource c) (setLevel c) (setBridge c) []).

Definition WithResource (src : option Res) (c : options) : options :=
  mkOpts (Lvl c) (Logs c) (Traces c) (Metrics c) src (setLevel c) (setBridge c) (shutdownHooks c).
Definition WithLogLevel (max : Z) (c : options) : options :=
  mkOpts max (Logs c) (Traces c) (Metrics c) (Resource c) (setLevel c) (setBridge c) (shutdownHooks c).
Definition WithSetLevel (set : option (Z -> Z)) (c : options) : options :=
  mkOpts (Lvl c) (Logs c) (Traces c) (Metrics c) (Resource c) set (setBridge c) (shutdownHooks c).
Definition WithLogBridge (do : list (option Bridge)) (c : options) : options :=
  mkOpts (Lvl c) (Logs c) (Traces c) (Metrics c) (Resource c) (setLevel c) (setBridge c ++ do) (shutdownHooks c).
Definition WithLogOptions (opts : list LogOpt) (c : options) : options :=
  mkOpts (Lvl c) (Logs c ++ opts) (Traces c) (Metrics c) (Resource c) (setLevel c) (setBridge c) (shutdownHooks c).
Definition WithTraceOptions (opts : list TraceOpt) (c : options) : options :=
  mkOpts (Lvl c) (Logs c) (Traces c ++ opts) (Metrics c) (Resource c) (setLevel c) (setBridge c) (shutdownHooks c).
Definition WithMetricOptions (opts : list MetricOpt) (c : options) : options :=
  mkOpts (Lvl c) (Logs c) (Traces c) (Metrics c ++ opts) (Resource c) (setLevel c) (setBridge c) (shutdownHooks c).

(** The options a caller can give; a nil one does nothing. *)
Inductive Option_ :=
| nil_option
| with_resource (src : option Res)
| with_log_level (max : Z)
| with_set_level (set : option (Z -> Z))
| with_log_bridge (do : list (option Bridge))
| with_log_options (opts : list LogOpt)
| with_trace_options (opts : list TraceOpt)
| with_metric_options (opts : list MetricOpt).

Definition apply (opt : Option_) (c : options) : options :=
  match opt with
  | nil_option => c
  | with_resource src => WithResource src c
  | with_log_level max => WithLogLevel max c
  | with_set_level set => WithSetLevel set c
  | with_log_bridge do => WithLogBridge do c
  | with_log_options opts => WithLogOptions opts c
  | with_trace_options opts => WithTraceOptions opts c
  | with_metric_options opts => WithMetricOptions opts c
  end.

Context (logs : registry LogOpt) (traces : registry TraceOpt) (metrics : registry MetricOpt).

(** The evaluations of the variables, on the errors handled so far and the options. *)
Definition conf := (handled * options)%type.

Definition on_level (input : string) (c : conf) : outcome conf :=
  match Severity_UnmarshalText NONE input with
  | (Some _, _) => Ret (c.1 ++ ["invalid OTEL_LOG_LEVEL"%string], c.2)
  | (None, level) => Ret (c.1, WithLogLevel level c.2)
  end.

(** One of the three exporters: errors are handled and leave the options as they are. *)
Definition on_exporter {Opt} (var : string) (reg : registry Opt) (with_ : list Opt -> options -> options)
    (input : string) (c : conf) : outcome conf :=
  outcome_bind (sdk_NewOptions reg input) (fun '(h, r) =>
    match r with
    | Err _ => Ret (c.1 ++ h ++ ["invalid " +:+ var], c.2)
    | Ok opts => Ret (c.1 ++ h, with_ opts c.2)
    end).

Definition newOptions (getenv : string -> string) (opts : list Option_) : outcome conf :=
  let init := mkOpts ERROR [] [] [] None (Some SetLogLevel) [] [] in
  outcome_bind
    (EnvApply (Environment getenv)
       [EnvString "LOG_LEVEL" on_level;
        EnvString "LOGS_EXPORTER" (on_exporter "OTEL_LOGS_EXPORTER" logs WithLogOptions);
        EnvString "TRACES_EXPORTER" (on_exporter "OTEL_TRACES_EXPORTER" traces WithTraceOptions);
        EnvString "METRICS_EXPORTER" (on_exporter "OTEL_METRICS_EXPORTER" metrics WithMetricOptions)]
       ([], init))
    (fun '(h, c) => Ret (h, foldl (fun c opt => apply opt c) c opts)).

(** The calls of [Configure] that change global state. *)
Inductive call :=
| SetErrorHandler (through_logs : bool)
| SetTextMapPropagator
| SetLoggerProvider (opts : list LogOpt) (src : Res)
| DoBridge (b : Bridge)
| SetVerbosity (v : Z)
| SetTracerProvider (opts : list TraceOpt) (src : Res)
| SetMeterProvider (opts : list MetricOpt) (src : Res).

Context (Merge : option Res -> Res).

Definition disabled (getenv : string -> string) : outcome bool :=
  EnvApply (Environment getenv)
    [EnvString "SDK_DISABLED" (fun s _ => Ret (default false (ParseBool s)))] false.

(** What [Configure] does once the options are read without an error. *)
Definition install (c : options) : list call * options :=
  let src := Merge (Resource c) in
  let '(l1, c) :=
    match Logs c with
    | [] => ([], c)
    | l => ([SetLoggerProvider l src; SetErrorHandler true] ++ map DoBridge (omap id (setBridge c)),
            OnShutdown (Some LogShutdown) c)
    end in
  let l2 :=
    if NONE <? Lvl c then match setLevel c with Some f => [SetVerbosity (f (Lvl c))] | None => [] end else [] in
  let '(l3, c) :=
    match Traces c with [] => ([], c) | l => ([SetTracerProvider l src], OnShutdown (Some TraceShutdown) c) end in
  let '(l4, c) :=
    match Metrics c with [] => ([], c) | l => ([SetMeterProvider l src], OnShutdown (Some MetricShutdown) c) end in
  (SetTextMapPropagator :: l1 ++ l2 ++ l3 ++ l4, c).

(** The calls, the options behind the returned ShutdownFunc ([None] for the one that does
    nothing), and the errors. *)
Definition Configure (getenv : string -> string) (opts : list Option_)
  : outcome (list call * option options * handled) :=
  outcome_bind (disabled getenv) (fun off =>
    if off then Ret ([], None, [])
    else
      outcome_bind (newOptions getenv opts) (fun '(errs, c) =>
        match errs with
        | [] => let '(calls, c) := install c in Ret (SetErrorHandler false :: calls, Some c, [])
        | _ => Ret ([SetErrorHandler false], Some c, errs)
        end)).

(** ** Lemmas *)

(** No option and no variable adds a hook. *)
Lemma apply_hooks opt c : shutdownHooks (apply opt c) = shutdownHooks c.
Proof. by destruct opt. Qed.

Lemma applies_hooks opts c : shutdownHooks (foldl (fun c opt => apply opt c) c opts) = shutdownHooks c.
Proof. revert c. induction opts as [|o l IH]; intros c; [done|]. cbn. by rewrite IH, apply_hooks. Qed.

Lemma EnvString_inv {A} (P : A -> Prop) key eval e a b :
  P a -> (forall s x, eval s a = Ret x -> P x) -> EnvString key eval e a = Ret b -> P b.
Proof.
  intros Ha He. unfold EnvString. destruct (GetEnvValue e key) as [s []]; [apply He|]. by intros [= <-].
Qed.

Lemma EnvApply_inv {A} (P : A -> Prop) e opts a b :
  Forall (fun opt : EnvOption A => forall a b, P a -> opt e a = Ret b -> P b) opts ->
  P a -> EnvApply e opts a = Ret b -> P b.
Proof.
  intros Hopts. revert a. induction Hopts as [|opt opts Ho _ IH]; intros a Ha; [by intros [= <-]|].
  cbn. destruct (opt e a) as [a'|] eqn:E; [|done]. cbn. apply IH. by eapply Ho.
Qed.

Lemma on_exporter_hooks {Opt} var (reg : registry Opt) with_ input c c' :
  (forall o c, shutdownHooks (with_ o c) = shutdownHooks c) ->
  on_exporter var reg with_ input c = Ret c' -> shutdownHooks c'.2 = shutdownHooks c.2.
Proof.
  intros Hw. unfold on_exporter. destruct (sdk_NewOptions reg input) as [[h [o|e]]|]; cbn; intros [= <-]; cbn; [apply Hw|done].
Qed.

Lemma newOptions_hooks getenv opts errs c : newOptions getenv opts = Ret (errs, c) -> shutdownHooks c = [].
Proof.
  unfold newOptions. match goal with |- context [EnvApply ?e ?l ?a] => destruct (EnvApply e l a) as [[h c0]|] eqn:E; [|done] end.
  cbn. intros [= <- <-]. rewrite applies_hooks.
  apply (EnvApply_inv (fun x : conf => shutdownHooks x.2 = [])) in E; [done| |done].
  repeat (apply Forall_cons_2; [intros a b Ha; apply (EnvString_inv (fun x : conf => shutdownHooks x.2 = [])); [done|]; intros s x Hx|]); [| | | |by apply Forall_nil_2].
  - unfold on_level in Hx. destruct (Severity_UnmarshalText NONE s) as [[e|] level]; by simplify_eq/=.
  - apply on_exporter_hooks in Hx; [by rewrite Hx|done].
  - apply on_exporter_hooks in Hx; [by rewrite Hx|done].
  - apply on_exporter_hooks in Hx; [by rewrite Hx|done].
Qed.

(** The provider a hook shuts down is installed by a call. *)
Definition installs (h : hook) (x : call) : bool :=
  match h, x with
  | LogShutdown, SetLoggerProvider _ _ => true
  | TraceShutdown, SetTracerProvider _ _ => true
  | MetricShutdown, SetMeterProvider _ _ => true
  | _, _ => false
  end.

Lemma bridges_no_install h l : existsb (installs h) (map DoBridge l) = false.
Proof. induction l as [|b l IH]; [done|]. cbn. rewrite IH. by destruct h. Qed.

Lemma install_hooks c : shutdownHooks c = [] ->
  forall h, h ∈ shutdownHooks (install c).2 <-> existsb (installs h) (install c).1 = true.
Proof.
  destruct c as [lvl lg tr me r sl br hk]. cbn. intros -> h.
  destruct lg, tr, me; cbn -[Z.ltb];
    repeat match goal with |- context [if NONE <? lvl then ?x else []] => set (lv := if NONE <? lvl then x else []);
      assert (existsb (installs h) lv = false) as Hlv by (subst lv; destruct h, (NONE <? lvl), sl; done); clearbody lv end;
    rewrite ?existsb_app, ?Hlv, ?bridges_no_install; cbn; rewrite ?elem_of_cons, ?elem_of_nil;
    destruct h; cbn; rewrite ?existsb_app, ?Hlv, ?bridges_no_install; cbn; intuition congruence.
Qed.

(** ** Theorems *)

(** C29: a successful [Configure] registers a shutdown for a provider iff it installed that
    provider, and each one once. *)
Theorem configure_hooks getenv opts calls c :
  Configure getenv opts = Ret (calls, Some c, []) ->
  NoDup (shutdownHooks c) /\ forall h, h ∈ shutdownHooks c <-> existsb (installs h) calls = true.
Proof.
  unfold Configure. destruct (disabled getenv) as [[]|]; cbn; [done| |done].
  destruct (newOptions getenv opts) as [[errs c0]|] eqn:E; [|done]. cbn.
  destruct errs; [|done]. destruct (install c0) as [l c1] eqn:Ei. intros [= <- <-].
  apply newOptions_hooks in E. pose proof (install_hooks c0 E) as H. rewrite Ei in H. cbn in H.
  split; [|intros h; rewrite (H h); by destruct h].
  destruct c0 as [lvl lg tr me r sl br hk]. cbn in E, Ei. subst hk.
  destruct lg, tr, me; unfold install in Ei; simplify_eq/=; by apply (bool_decide_unpack (NoDup _)).
Qed.

(** When the environment is in error, nothing is installed and the function returned for
    the shutdown calls nothing, although exporters may already be running. *)
Theorem failed_configure_forgets {E} getenv opts calls c errs (run : hook -> option E) :
  errs <> [] -> Configure getenv opts = Ret (calls, Some c, errs) ->
  calls = [SetErrorHandler false] /\ (Shutdown run c).1 = ([], []).
Proof.
  intros He. unfold Configure. destruct (disabled getenv) as [[]|]; cbn; [done| |done].
  destruct (newOptions getenv opts) as [[errs0 c0]|] eqn:En; [|done]. cbn.
  destruct errs0 as [|e0 errs0]; [by destruct (install c0); intros [= <- <- <-]|].
  intros [= <- <- <-]. apply newOptions_hooks in En. unfold Shutdown. by rewrite En.
Qed.

(** [Shutdown] calls every hook once, in the order of registration, whether or not an
    earlier one failed, and reports all failures; calling it again does nothing. *)
Theorem shutdown_once {E} (run : hook -> option E) c :
  let '(ran, errs, c') := Shutdown run c in
  ran = shutdownHooks c /\ errs = omap run ran /\ (Shutdown run c').1 = ([], []).
Proof. done. Qed.

End Configure.

(** A variable that is not set leaves the state as it is. *)
Lemma EnvString_unset {A} key (eval : string -> A -> outcome A) getenv a :
  getenv ("OTEL_" +:+ key) = EmptyString -> EnvString key eval (Environment getenv) a = Ret a.
Proof. intros H. rewrite env_string_spec. cbn zeta. by rewrite H. Qed.

(** A variable with a plain value is passed on. *)
Lemma EnvString_plain {A} key (eval : string -> A -> outcome A) getenv a s :
  getenv ("OTEL_" +:+ key) = s -> TrimSpace s = s -> s <> EmptyString -> Unquote s = None ->
  EnvString key eval (Environment getenv) a = eval s a.
Proof. intros Hg Ht Hs Hu. rewrite env_string_spec. cbn zeta. by rewrite Hg, Ht, decide_False, Hu. Qed.

(** The environment with the two variables given, and no other of those that are read. *)
Definition env_with (exporter codec : string) (k : string) : string :=
  default EmptyString (assoc_lookup k [("OTEL_LOGS_EXPORTER", exporter); ("OTEL_LOGRECORD_CODEC", codec)]%string).

Section Compose.
Context {TraceOpt MetricOpt Res Bridge Enc : Type} (FileDSN_ : string -> res string FileWriter).
Context (reg : codecs output Enc) (traces : registry TraceOpt) (metrics : registry MetricOpt).
Context (Merge : option Res -> Res).

Lemma newCodec_unknown out name s : encoder s = None -> reg !! ToLower name = None ->
  newCodec reg out name s = Panic ("codec " +:+ name +:+ " not registered").
Proof. intros He Hr. unfold newCodec, NewCodec. by rewrite He, Hr. Qed.

(** The log exporters that stdout.go registers. *)
Definition stdout_registry (getenv : string -> string) : registry exporter :=
  foldl (fun r scheme => (log_Register r scheme (Some (withOptions FileDSN_ reg getenv))).2) ∅
    ["stdout"; "stderr"; "file"]%string.

(** A name that is no codec in OTEL_LOGRECORD_CODEC makes the set-up of the console exporter panic,
    and with it [Configure]: the check for a missing codec that would report the error is
    never reached. *)
Theorem unknown_codec_panics name (opts : list (Option_ (Bridge := Bridge))) :
  TrimSpace name = name -> name <> EmptyString -> Unquote name = None -> reg !! ToLower name = None ->
  let getenv := env_with "stdout" name in
  exists msg, Configure (stdout_registry getenv) traces metrics Merge getenv opts = Panic msg.
Proof.
  intros Ht Hn Hu Hr getenv. unfold Configure, disabled. cbn [EnvApply].
  rewrite EnvString_unset by done. cbn [outcome_bind]. unfold newOptions. cbn [EnvApply].
  rewrite EnvString_unset by done. cbn [outcome_bind].
  rewrite (EnvString_plain "LOGS_EXPORTER" _ _ _ "stdout") by done.
  unfold on_exporter, sdk_NewOptions. change (GetScheme "stdout") with (Ok (E := string) ("stdout", EmptyString)%string).
  cbv iota beta zeta. change (ToLower "stdout") with "stdout"%string.
  assert (mjoin (stdout_registry getenv !! "stdout"%string) = Some (withOptions FileDSN_ reg getenv)) as ->.
  { unfold stdout_registry. cbn [foldl]. unfold log_Register, Register. cbn [snd].
    change (ToLower (TrimSpace "file")) with "file"%string. change (ToLower (TrimSpace "stderr")) with "stderr"%string.
    change (ToLower (TrimSpace "stdout")) with "stdout"%string.
    rewrite !lookup_insert_ne by done. by rewrite lookup_insert_eq. }
  unfold withOptions. change (open_output FileDSN_ "stdout") with (Ok (E := string) ("stdout"%string, Stdout)).
  cbn [EnvApply]. rewrite !EnvString_unset by done. cbn [outcome_bind].
  rewrite !EnvString_unset by done. cbn [outcome_bind]. rewrite !EnvString_unset by done. cbn [outcome_bind].
  rewrite (EnvString_plain "LOGRECORD_CODEC" _ _ _ name) by done.
  rewrite newCodec_unknown by done. by eexists.
Qed.

(** Without OTEL_LOGRECORD_CODEC the console gets the codec "text" without colors; the documentation says "otel". *)
Theorem default_codec_text build enc :
  reg !! "text"%string = Some build -> build Stdout [OtelLog.WithNoColor] = Some enc ->
  withOptions FileDSN_ reg (fun _ => EmptyString) "stdout" = Ret ([], Ok [mkExp enc [OtelLog.WithNoColor] false]).
Proof.
  intros Hr Hb. unfold withOptions.
  change (open_output FileDSN_ "stdout") with (Ok (E := string) ("stdout"%string, Stdout)).
  cbn [EnvApply]. do 4 (rewrite EnvString_unset by done; cbn [outcome_bind]).
  unfold newCodec, NewCodec. cbn [encoder]. change (ToLower "text") with "text"%string. rewrite Hr.
  cbn [outcome_bind codecOpts noColor app]. by rewrite Hb.
Qed.

End Compose.

Section Registered.
Context {Opt : Type}.

(** An exporter registered under a lower-case scheme is silent about it, and is the one used for
    every address with that scheme, in any case and with or without a path. *)
Theorem registered_exporter_used pkg (reg : registry Opt) scheme scheme' ctor rest :
  TrimSpace scheme = scheme -> ToLower scheme = scheme -> valid_scheme scheme' = true ->
  ToLower scheme' = scheme -> reg !! scheme = None ->
  let '(errs, reg') := Register pkg reg scheme (Some ctor) in
  errs = [] /\ sdk_NewOptions reg' scheme' = ctor scheme'
  /\ sdk_NewOptions reg' (scheme' +:+ String ":" rest) = ctor (scheme' +:+ String ":" rest).
Proof.
  intros Ht Hl Hv Hs Hn. unfold Register, sdk_NewOptions. rewrite Ht, Hl.
  rewrite dsn_scheme_bare, dsn_scheme_valid, Hs by done. rewrite !lookup_insert_eq. cbn.
  split; [|done]. rewrite decide_False by by intros [].
  rewrite (decide_False (P := scheme = EmptyString)) by (intros ->; by destruct scheme').
  by rewrite decide_False by (rewrite Hn; by intros [? ?]).
Qed.

End Registered.

(** *** Witnesses *)

Definition no_codecs : codecs output nat := ∅.
Definition text_codec : codecs output nat := {["text"%string := fun _ _ => Some 7%nat]}.
Definition no_file (_ : string) : res string FileWriter := Err "no"%string.

Lemma unknown_codec_panics_witness : exists msg,
  Configure (TraceOpt := unit) (MetricOpt := unit) (Res := unit) (Bridge := unit)
    (stdout_registry no_file no_codecs (env_with "stdout" "xml")) ∅ ∅ (fun _ => tt) (env_with "stdout" "xml") [] = Panic msg.
Proof. by apply (unknown_codec_panics no_file no_codecs ∅ ∅ (fun _ => tt) "xml"). Defined.

Lemma default_codec_text_witness :
  withOptions no_file text_codec (fun _ => EmptyString) "stdout" = Ret ([], Ok [mkExp 7%nat [OtelLog.WithNoColor] false]).
Proof. by apply (default_codec_text no_file text_codec (fun _ _ => Some 7%nat)). Defined.

(** Logs go to a file, traces to an unknown exporter. *)
Definition leaky_env (k : string) : string :=
  default EmptyString (assoc_lookup k [("OTEL_LOGS_EXPORTER", "file:/a"); ("OTEL_TRACES_EXPORTER", "zipkin")]%string).

Definition file_registry : registry nat := {["file"%string := Some (fun _ => Ret ([], Ok [1%nat]))]}.

Lemma failed_configure_forgets_witness : exists c errs,
  Configure (TraceOpt := unit) (MetricOpt := unit) (Res := unit) (Bridge := unit)
    file_registry ∅ ∅ (fun _ => tt) leaky_env [] = Ret ([SetErrorHandler false], Some c, errs)
  /\ Logs c = [1%nat] /\ (Shutdown (E := unit) (fun _ => None) c).1 = ([], []).
Proof.
  eexists _, _. split; [by vm_compute|]. split; [done|].
  eapply (failed_configure_forgets (E := unit) file_registry ∅ ∅ (fun _ => tt) leaky_env []); [|by vm_compute]. done.
Defined.

Definition file_env (k : string) : string :=
  default EmptyString (assoc_lookup k [("OTEL_LOGS_EXPORTER", "file:/a")]%string).

Lemma configure_hooks_witness : exists calls c,
  Configure (TraceOpt := unit) (MetricOpt := unit) (Res := unit) (Bridge := unit)
    file_registry ∅ ∅ (fun _ => tt) file_env [] = Ret (calls, Some c, [])
  /\ LogShutdown ∈ shutdownHooks c.
Proof.
  eexists _, _. split; [by vm_compute|].
  eapply (configure_hooks file_registry ∅ ∅ (fun _ => tt) file_env []); by vm_compute.
Defined.

Lemma registered_exporter_used_witness :
  let '(errs, reg') := Register "log" ∅ "file" (Some (fun d => Ret ([], Ok [d]))) in
  errs = [] /\ sdk_NewOptions reg' "FILE" = Ret ([], Ok ["FILE"%string])
  /\ sdk_NewOptions reg' "FILE:/a" = Ret ([], Ok ["FILE:/a"%string]).
Proof. by apply (registered_exporter_used "log" ∅ "file" "FILE" (fun d => Ret ([], Ok [d])) "/a"). Defined.

End OtelSdk.
