(* ===== verification/OtelOtlp.v ===== *)
(** * OTLP exporters: src/infra/otel/sdk/log/otlp, src/infra/otel/sdk/trace/otlp, src/infra/otel/sdk/metric/otlp

    The constructors of exporter options for the schemes "otlphttp" and "otlpgrpc", what their
    packages register, and what the three signals make of an address.  The exporters themselves
    are those of OpenTelemetry: [new] gives one, or the error of its constructor.  The
    functions of src/infra/otel/sdk/trace/trace.go and src/infra/otel/sdk/metric/metric.go that
    look an address up are those of log.go over again. *)
From stdpp Require Import prelude strings list gmap.
From Stdlib Require Import ZArith Lia.
From S2P Require Import Prelude OtelDsn OtelSdk.

Module OtelOtlp.
Import OtelDsn OtelSdk.

(** ** trace.go and metric.go *)

Definition trace_NewOptions {Opt} (reg : registry Opt) (dsn : string) := sdk_NewOptions reg dsn.
Definition trace_NewProvider {Opt} (reg : registry Opt) (dsn : string) (opts : list Opt) : outcome (handled * res string (list Opt)) :=
  outcome_bind (trace_NewOptions reg dsn) (fun '(h, r) => Ret (h, res_bind r (fun schemeOpts => Ok (schemeOpts ++ opts)))).

Definition metric_NewOptions {Opt} (reg : registry Opt) (dsn : string) := sdk_NewOptions reg dsn.
Definition metric_NewProvider {Opt} (reg : registry Opt) (dsn : string) (opts : list Opt) : outcome (handled * res string (list Opt)) :=
  outcome_bind (metric_NewOptions reg dsn) (fun '(h, r) => Ret (h, res_bind r (fun driverOpts => Ok (driverOpts ++ opts)))).

(** ** The constructors *)

Inductive protocol := Grpc | Http.

Section Exporters.
Context {Exporter : Type}.
(** The constructors of the exporters, which read the environment of the process. *)
Context (new : protocol -> res string Exporter).

(** The options of the providers: a processor of batches for logs, a batcher for traces, a periodic
    reader for metrics. *)
Inductive log_option := WithProcessor (batch : Exporter).
Inductive trace_option := WithBatcher (e : Exporter).
Inductive metric_option := WithReader (periodic : Exporter).

Definition log_grpcOptions : Ctor log_option := fun dsn =>
  Ret ([], match new Grpc with Err e => Err e | Ok exporter => Ok [WithProcessor exporter] end).
Definition log_httpOptions : Ctor log_option := fun _ =>
  Ret ([], match new Http with Err e => Err e | Ok exporter => Ok [WithProcessor exporter] end).

Definition trace_GrpcOptions : Ctor trace_option := fun dsn =>
  Ret ([], match new Grpc with Err e => Err e | Ok exporter => Ok [WithBatcher exporter] end).
Definition trace_HttpOptions : Ctor trace_option := fun dsn =>
  Ret ([], match new Http with Err e => Err e | Ok exporter => Ok [WithBatcher exporter] end).

Definition metric_GrpcOptions : Ctor metric_option := fun dsn =>
  Ret ([], match new Grpc with Err e => Err e | Ok exporter => Ok [WithReader exporter] end).
Definition metric_HttpOptions : Ctor metric_option := fun dsn =>
  Ret ([], match new Http with Err e => Err e | Ok exporter => Ok [WithReader exporter] end).

(** ** The [init] functions *)

Definition init {Opt} (register : registry Opt -> string -> option (Ctor Opt) -> handled * registry Opt)
    (http grpc : Ctor Opt) (reg : registry Opt) : handled * registry Opt :=
  let '(h1, reg) := register reg "otlphttp" (Some http) in
  let '(h2, reg) := register reg "otlpgrpc" (Some grpc) in
  (h1 ++ h2, reg).

Definition log_init := init log_Register log_httpOptions log_grpcOptions.
Definition trace_init := init trace_Register trace_HttpOptions trace_GrpcOptions.
Definition metric_init := init metric_Register metric_HttpOptions metric_GrpcOptions.

(** ** Lemmas *)

Lemma init_registry {Opt} pkg (http grpc : Ctor Opt) reg :
  reg !! "otlphttp" = None -> reg !! "otlpgrpc" = None ->
  init (Register pkg) http grpc reg = ([], <["otlpgrpc" := Some grpc]> (<["otlphttp" := Some http]> reg)).
Proof.
  intros Hh Hg. unfold init, Register.
  change (ToLower (TrimSpace "otlphttp")) with "otlphttp". change (ToLower (TrimSpace "otlpgrpc")) with "otlpgrpc".
  rewrite !(decide_False (P := _ <> _)) by (intros H; by apply H). rewrite !(decide_False (P := _ = EmptyString)) by done.
  rewrite Hh, lookup_insert_ne, Hg by done. rewrite !decide_False by (by intros [? ?]). done.
Qed.

(** What an address of a scheme in lower case gives, from any registry. *)
Lemma lookup_address {Opt} (reg : registry Opt) scheme rest dsn ctor : GetScheme dsn = Ok (scheme, rest) ->
  reg !! ToLower scheme = Some (Some ctor) -> sdk_NewOptions reg dsn = ctor dsn.
Proof. intros Hs Hr. unfold sdk_NewOptions. by rewrite Hs, Hr. Qed.

(** ** Properties *)

(** Once its package is loaded, an OTLP address gives each of the three signals one exporter of the protocol
    that its scheme names, in front of the options of the caller, or the error of the exporter; nothing of the
    address but its scheme matters, and loading reports nothing. *)
Theorem otlp_by_scheme_only dsn scheme rest p (logs : list log_option) (traces : list trace_option) (metrics : list metric_option)
    lreg treg mreg :
  GetScheme dsn = Ok (scheme, rest) -> ToLower scheme = (match p with Grpc => "otlpgrpc" | Http => "otlphttp" end) ->
  (forall s, s ∈ ["otlphttp"; "otlpgrpc"] -> lreg !! s = None /\ treg !! s = None /\ mreg !! s = None) ->
  (log_init lreg).1 = [] /\ (trace_init treg).1 = [] /\ (metric_init mreg).1 = [] /\
  NewProvider (log_init lreg).2 dsn logs = Ret ([], res_bind (new p) (fun e => Ok (WithProcessor e :: logs))) /\
  trace_NewProvider (trace_init treg).2 dsn traces = Ret ([], res_bind (new p) (fun e => Ok (WithBatcher e :: traces))) /\
  metric_NewProvider (metric_init mreg).2 dsn metrics = Ret ([], res_bind (new p) (fun e => Ok (WithReader e :: metrics))).
Proof.
  intros Hs Hp Hfree. destruct (Hfree "otlphttp" ltac:(by left)) as (L1 & T1 & M1).
  destruct (Hfree "otlpgrpc" ltac:(right; by left)) as (L2 & T2 & M2).
  unfold log_init, trace_init, metric_init, log_Register, trace_Register, metric_Register.
  rewrite !init_registry by done. cbn [fst snd]. do 3 (split; [done|]).
  assert (forall Opt (reg : registry Opt) http grpc, sdk_NewOptions (<["otlpgrpc" := Some grpc]> (<["otlphttp" := Some http]> reg)) dsn =
    (match p with Grpc => grpc | Http => http end) dsn) as Hl.
  { intros Opt reg http grpc. eapply lookup_address; [exact Hs|]. rewrite Hp.
    destruct p; [by rewrite lookup_insert_eq|by rewrite lookup_insert_ne, lookup_insert_eq by done]. }
  unfold NewProvider, trace_NewProvider, metric_NewProvider, trace_NewOptions, metric_NewOptions. rewrite !Hl.
  by destruct p; cbn; destruct (new _).
Qed.

End Exporters.
Arguments log_option : clear implicits.
Arguments trace_option : clear implicits.
Arguments metric_option : clear implicits.

(** ** Witness *)

Definition demo_new (p : protocol) : res string nat := match p with Grpc => Ok 1 | Http => Err "unsupported" end.

Lemma otlp_by_scheme_only_witness :
  NewProvider (log_init demo_new ∅).2 "otlpgrpc://collector:4317" [] = Ret ([], Ok [WithProcessor 1]).
Proof.
  destruct (otlp_by_scheme_only demo_new "otlpgrpc://collector:4317" "otlpgrpc" "//collector:4317" Grpc [] [] [] ∅ ∅ ∅ eq_refl eq_refl)
    as (_ & _ & _ & H & _); [by intros s _|exact H].
Defined.

End OtelOtlp.
