(* ===== verification/OtelBridge.v ===== *)
(** * Bridges from other loggers: src/infra/otel/log/bridge

    The common handler (bridge.go), the sinks for logr (logr/conv.go, logr/logr.go,
    logr/slogr.go) and the logger for gRPC (grpclog/logger.go).  The logger of the SDK is a
    parameter: whether a level is enabled; what is emitted is a list of records. *)
From stdpp Require Import prelude strings list.
From Stdlib Require Import ZArith Lia Ascii.
From S2P Require Import Prelude OtelLevel OtelLog.

Local Open Scope Z_scope.

Module OtelBridge.
Import OtelLevel.

Section Bridge.
Context {float64 : Type}.

Abbreviation Value := (OtelLog.Value float64).

(** The dynamic values the code tells apart; the entries of a map are in the order in which
    the runtime visits them, and the rest have the texts of the verbs [%v] and [%+v]. *)
Inductive any :=
| any_value (v : Value)
| any_bool (b : bool)
| any_bytes (b : string)
| any_float64 (f : float64)
| any_int64 (z : Z)
| any_uint64 (z : Z)
| any_int (z : Z)
| any_string (s : string)
| any_map (m : list (string * any))
| any_nil
| any_other (text : string).

(** [fmt.Sprintf("%+v", v)] and [fmt.Sprint(v)]. *)
Context (fmt_plus_v fmt_sprint : any -> string).

Abbreviation KeyValue := (string * Value)%type.

(** [make([]log.KeyValue, n)]: entries with an empty key and no value. *)
Definition make_group (n : nat) : list KeyValue := replicate n (EmptyString, OtelLog.VEmpty).

(** ** logr/conv.go *)

Fixpoint convertValue (v : any) : Value :=
  match v with
  | any_bool b => OtelLog.VBool b
  | any_bytes b => OtelLog.VBytes b
  | any_float64 f => OtelLog.VFloat64 f
  | any_int64 z => OtelLog.VInt64 z
  | any_int z => OtelLog.VInt64 z
  | any_string s => OtelLog.VString s
  | any_map m => OtelLog.VMap (make_group (length m) ++ map (fun kv => (kv.1, convertValue kv.2)) m)
  | _ => OtelLog.VString (fmt_plus_v v)
  end.

(** A buffer of attributes; nil is [None]. *)
Abbreviation kvBuffer := (option (list KeyValue)).

Definition kvBuffer_Len (b : kvBuffer) : nat := length (default [] b).
Definition kvBuffer_Clone (b : kvBuffer) : kvBuffer := b.
Definition KeyValues (b : kvBuffer) (kvs : list KeyValue) : list KeyValue :=
  match b with None => kvs | Some data => data ++ kvs end.

Definition at_ (kvs : list any) (i : nat) : any := default any_nil (kvs !! i).

(** [keysAndValues]: an odd list gets a nil; the loop counts elements up to the number of pairs. *)
Fixpoint keys_loop (fuel i n : nat) (kvs : list any) : list KeyValue :=
  match fuel with
  | O => []
  | S fuel =>
      if (i <? n)%nat then
        (fmt_sprint (at_ kvs i), convertValue (at_ kvs (i + 1))) :: keys_loop fuel (i + 2) n kvs
      else []
  end.

Definition keysAndValues (kvs : list any) : list KeyValue :=
  let kvs := if Nat.odd (length kvs) then kvs ++ [any_nil] else kvs in
  let n := (length kvs / 2)%nat in
  keys_loop (S n) 0 n kvs.

(** The loop of [AddKeysAndValues]: [i] counts pairs and grows by two. *)
Fixpoint add_loop (fuel i n : nat) (kvs : list any) (data : list KeyValue) : list KeyValue :=
  match fuel with
  | O => data
  | S fuel =>
      if (i <? n)%nat then
        add_loop fuel (i + 2) n kvs
          (data ++ [(fmt_sprint (at_ kvs (i * 2)), convertValue (at_ kvs (i * 2 + 1)))])
      else data
  end.

Definition AddKeysAndValues (data : list KeyValue) (kvs : list any) : list KeyValue :=
  let kvs := if Nat.odd (length kvs) then take (length kvs - 1) kvs else kvs in
  let n := (length kvs / 2)%nat in
  add_loop (S n) 0 n kvs data.

(** ** logr/logr.go *)

(** The logger of a provider is known by its name. *)
Record Handler := mkHandler {
  h_Severity : option (Z -> Z);
  attrs : kvBuffer;
  logger : string
}.

Definition NewHandler (name : string) (severity : option (Z -> Z)) : Handler := mkHandler severity None name.

Definition severity (h : Handler) (v : Z) : Z :=
  match h_Severity h with None => OtelSeverity v | Some f => f v end.

(** [enabled] is [Enabled] of the logger of the SDK. *)
Definition Enabled (enabled : Z -> bool) (h : Handler) (v : Z) : bool :=
  let level := severity h v in
  if level <=? NONE then false else enabled level.

Record record := mkRec { rec_logger : string; rec_severity : Z; rec_body : string; rec_attrs : list KeyValue }.

Definition convertRecord (h : Handler) (level : Z) (message : string) (kvs : list any) : record :=
  let own := match attrs h with Some ((_ :: _) as l) => l | _ => [] end in
  let kvs := if Nat.odd (length kvs) then take (length kvs - 1) kvs else kvs in
  let n := (length kvs / 2)%nat in
  mkRec (logger h) level message (own ++ (if (0 <? n)%nat then AddKeysAndValues [] kvs else [])).

Definition Info (h : Handler) (level : Z) (message : string) (kvs : list any) : record :=
  convertRecord h (severity h level) message kvs.

Definition Error (h : Handler) (err : any) (message : string) (kvs : list any) : record :=
  convertRecord h ERROR message (kvs ++ [any_string "error"; err]).

Definition WithValues (h : Handler) (kvs : list any) : Handler :=
  let data := match attrs h with Some d => d | None => [] end in
  mkHandler (h_Severity h) (Some (AddKeysAndValues data kvs)) (logger h).

Definition WithName (h : Handler) (name : string) : Handler := mkHandler (h_Severity h) (attrs h) name.

(** [logr.Logger.Info] asks the sink before it logs. *)
Definition Logger_Info (enabled : Z -> bool) (h : Handler) (v : Z) (msg : string) (kvs : list any) : option record :=
  if Enabled enabled h v then Some (Info h v msg kvs) else None.

(** ** bridge.go *)

(** [Value]; unsigned numbers are converted to signed ones. *)
Fixpoint Value_ (v : any) : Value :=
  match v with
  | any_value v => v
  | any_bool b => OtelLog.VBool b
  | any_bytes b => OtelLog.VBytes b
  | any_float64 f => OtelLog.VFloat64 f
  | any_int64 z => OtelLog.VInt64 z
  | any_uint64 z => OtelLog.VInt64 (i64 z)
  | any_int z => OtelLog.VInt64 z
  | any_string s => OtelLog.VString s
  | any_map m => OtelLog.VMap (make_group (length m) ++ map (fun kv => (kv.1, Value_ kv.2)) m)
  | _ => OtelLog.VString (fmt_plus_v v)
  end.

Record bridge_Handler := mkBridge { b_logger : string; Attributes : option (list KeyValue) }.

Definition Attributes_List (e : option (list KeyValue)) : list KeyValue := default [] e.
Definition bridge_WithName (h : bridge_Handler) (name : string) : bridge_Handler := mkBridge name (Attributes h).
Definition bridge_WithAttrs (h : bridge_Handler) (data : list KeyValue) : bridge_Handler :=
  match data with
  | [] => h
  | _ => mkBridge (b_logger h) (Some (default [] (Attributes h) ++ data))
  end.

(** ** grpclog/logger.go *)

(** An operand of fmt.Sprint: whether it is a string, and its text. *)
Definition operand := (bool * string)%type.

(** [fmt.Sprint]: a space between two operands neither of which is a string. *)
Fixpoint Sprint (args : list operand) : string :=
  match args with
  | [] => EmptyString
  | (s, t) :: rest =>
      t +:+ (match rest with (s', _) :: _ => if s || s' then "" else " " | [] => "" end) +:+ Sprint rest
  end.

(** [fmt.Sprintln] without the line break: spaces between all operands. *)
Fixpoint Sprintln (args : list operand) : string :=
  match args with
  | [] => EmptyString
  | (_, t) :: rest => t +:+ (match rest with [] => "" | _ => " " end) +:+ Sprintln rest
  end.

Definition emit (enabled : Z -> bool) (lvl : Z) (msg : string) : option record :=
  if enabled lvl then Some (mkRec "grpc" lvl msg []) else None.

Definition grpc_Info (enabled : Z -> bool) (args : list operand) := emit enabled INFO (Sprint args).
Definition grpc_Infoln (enabled : Z -> bool) (args : list operand) := emit enabled INFO (Sprint args).
Definition grpc_Warning (enabled : Z -> bool) (args : list operand) := emit enabled WARN (Sprint args).
Definition grpc_Warningln (enabled : Z -> bool) (args : list operand) := emit enabled WARN (Sprint args).
Definition grpc_Error (enabled : Z -> bool) (args : list operand) := emit enabled ERROR (Sprint args).
Definition grpc_Errorln (enabled : Z -> bool) (args : list operand) := emit enabled ERROR (Sprint args).
Definition grpc_Fatal (enabled : Z -> bool) (args : list operand) := emit enabled FATAL (Sprint args).
Definition grpc_Fatalln (enabled : Z -> bool) (args : list operand) := emit enabled FATAL (Sprint args).
Definition grpc_V (enabled : Z -> bool) (level : Z) : bool := enabled (grpc_severity level).

(** ** logr/slogr.go: a logr sink over a slog handler *)

Record slogSink := mkSink { callDepth : Z; sink_name : string; handler_attrs : list (string * any); verbosity : Z -> Z }.

Definition NewSlogSink (verbosity : option (Z -> Z)) : slogSink :=
  mkSink 0 EmptyString [] (default SlogVerbosity verbosity).

(** [slog.Record.Add]: a string starts a pair, anything else has a bad key. *)
Fixpoint record_Add (kvs : list any) : list (string * any) :=
  match kvs with
  | [] => []
  | [any_string s] => [("!BADKEY"%string, any_string s)]
  | any_string k :: v :: rest => (k, v) :: record_Add rest
  | v :: rest => ("!BADKEY"%string, v) :: record_Add rest
  end.

Definition slog_record := (Z * string * list (string * any))%type.

Definition slogSink_log (l : slogSink) (err : any) (msg : string) (level : Z) (kvs : list any) : slog_record :=
  (level, msg, handler_attrs l ++
   (if decide (sink_name l = EmptyString) then [] else [("logger"%string, any_string (sink_name l))]) ++
   (match err with any_nil => [] | _ => [("err"%string, err)] end) ++ record_Add kvs).

Definition slogSink_Info (l : slogSink) (level : Z) (msg : string) (kvs : list any) : slog_record :=
  slogSink_log l any_nil msg (verbosity l level) kvs.

(** slog.LevelError is 8. *)
Definition slogSink_Error (l : slogSink) (err : any) (msg : string) (kvs : list any) : slog_record :=
  slogSink_log l err msg 8 kvs.

Definition slogSink_WithName (l : slogSink) (name : string) : slogSink :=
  let prefix := if decide (sink_name l = EmptyString) then EmptyString else sink_name l +:+ "/" in
  mkSink (callDepth l) (prefix +:+ name) (handler_attrs l) (verbosity l).

Definition slogSink_WithValues (l : slogSink) (kvs : list any) : slogSink :=
  mkSink (callDepth l) (sink_name l) (handler_attrs l ++ record_Add kvs) (verbosity l).

Definition slogSink_WithCallDepth (l : slogSink) (depth : Z) : slogSink :=
  mkSink (i64 (callDepth l + depth)) (sink_name l) (handler_attrs l) (verbosity l).

(** ** Lemmas *)

(** The complete pairs of a list. *)
Fixpoint pairs (kvs : list any) : list (any * any) :=
  match kvs with k :: v :: rest => (k, v) :: pairs rest | _ => [] end.

Fixpoint flat (ps : list (any * any)) : list any :=
  match ps with [] => [] | (k, v) :: ps => k :: v :: flat ps end.

(** The first, the third, the fifth and so on. *)
Fixpoint every_other {A} (l : list A) : list A :=
  match l with [] => [] | [a] => [a] | a :: _ :: l => a :: every_other l end.

Definition pair_attr (p : any * any) : KeyValue := (fmt_sprint p.1, convertValue p.2).

Lemma flat_length ps : length (flat ps) = (2 * length ps)%nat.
Proof. induction ps as [|[k v] ps IH]; cbn [flat length]; lia. Qed.

Lemma flat_at ps i p : ps !! i = Some p -> at_ (flat ps) (i * 2) = p.1 /\ at_ (flat ps) (i * 2 + 1) = p.2.
Proof.
  revert i. induction ps as [|[k v] ps IH]; intros [|i] H; simplify_eq/=; [done|]. by apply IH.
Qed.

Lemma add_loop_spec ps fuel i data : (length ps < i + fuel)%nat ->
  add_loop fuel i (length ps) (flat ps) data = data ++ map pair_attr (every_other (drop i ps)).
Proof.
  revert i data. induction fuel as [|fuel IH]; intros i data Hf.
  - cbn. rewrite drop_ge by lia. by rewrite app_nil_r.
  - cbn [add_loop]. destruct (Nat.ltb_spec i (length ps)) as [Hi|Hi].
    + destruct (lookup_lt_is_Some_2 ps i Hi) as [p Hp]. destruct (flat_at ps i p Hp) as [-> ->].
      rewrite IH by lia. rewrite <- app_assoc. f_equal. cbn [app].
      rewrite (drop_S _ _ _ Hp). replace (i + 2)%nat with (S (S i)) by lia.
      destruct (drop (S i) ps) as [|q l] eqn:E.
      * rewrite drop_ge; [done|]. assert (length (drop (S i) ps) = 0%nat) by by rewrite E.
        rewrite length_drop in *. lia.
      * assert (drop (S (S i)) ps = l) as -> 
          by (replace (S (S i)) with (S i + 1)%nat by lia; by rewrite <- drop_drop, E). done.
    + rewrite drop_ge by lia. by rewrite app_nil_r.
Qed.

Lemma odd_flat ps : Nat.odd (length (flat ps)) = false.
Proof. rewrite flat_length. by rewrite Nat.odd_mul. Qed.

Lemma half_flat ps : (length (flat ps) / 2)%nat = length ps.
Proof. rewrite flat_length, Nat.mul_comm. by rewrite Nat.div_mul. Qed.

Lemma AddKeysAndValues_flat data ps : AddKeysAndValues data (flat ps) = data ++ map pair_attr (every_other ps).
Proof.
  unfold AddKeysAndValues. rewrite odd_flat, half_flat, add_loop_spec by lia. by rewrite drop_0.
Qed.

Lemma convertRecord_attrs h level msg ps :
  rec_attrs (convertRecord h level msg (flat ps)) = default [] (attrs h) ++ map pair_attr (every_other ps).
Proof.
  unfold convertRecord. cbn [rec_attrs]. rewrite odd_flat, half_flat.
  assert ((if (0 <? length ps)%nat then AddKeysAndValues [] (flat ps) else []) = map pair_attr (every_other ps)) as ->.
  { destruct ps as [|p ps]; [done|]. cbn [length Nat.ltb Nat.leb]. by rewrite AddKeysAndValues_flat. }
  by destruct (attrs h) as [[|kv l]|].
Qed.

Lemma every_other_snoc {A} (l : list A) a :
  every_other (l ++ [a]) = if Nat.odd (length l) then every_other l else every_other l ++ [a].
Proof.
  revert l. fix IH 1. intros [|x [|y l]]; [done|done|]. cbn [every_other app length].
  rewrite IH, Nat.odd_succ, Nat.even_succ. by destruct (Nat.odd (length l)).
Qed.

Lemma flat_app ps qs : flat (ps ++ qs) = flat ps ++ flat qs.
Proof. induction ps as [|[k v] ps IH]; cbn; [done|]. by rewrite IH. Qed.

(** ** Theorems *)

(** A record of the logr sink has its own attributes and then every other pair of the
    call: the second, the fourth and so on are lost.  The same holds for values given
    beforehand. *)
Theorem every_second_pair_lost h level msg ps qs :
  rec_attrs (Info h level msg (flat ps)) = default [] (attrs h) ++ map pair_attr (every_other ps)
  /\ attrs (WithValues h (flat qs)) = Some (default [] (attrs h) ++ map pair_attr (every_other qs)).
Proof.
  split; [apply convertRecord_attrs|]. unfold WithValues. cbn [attrs].
  rewrite AddKeysAndValues_flat. by destruct (attrs h).
Qed.

(** The error of an error message is the last pair: it is recorded only when an even number
    of pairs comes with it. *)
Theorem error_attribute_lost h err msg ps :
  rec_attrs (Error h err msg (flat ps)) =
    default [] (attrs h) ++ map pair_attr (every_other ps) ++
    (if Nat.odd (length ps) then [] else [pair_attr (any_string "error", err)]).
Proof.
  unfold Error. change [any_string "error"; err] with (flat [(any_string "error", err)]).
  rewrite <- flat_app, convertRecord_attrs, every_other_snoc.
  destruct (Nat.odd (length ps)); [by rewrite app_nil_r|]. by rewrite map_app.
Qed.

(** With the default mapping of verbosities a plain [Info] call, which is V(0), has the undefined
    severity and is never logged, whatever the logger of the SDK enables. *)
Theorem default_info_never_logged enabled name msg kvs :
  Logger_Info enabled (NewHandler name (Some OtelSeverity)) 0 msg kvs = None
  /\ Logger_Info enabled (NewHandler name None) 0 msg kvs = None.
Proof. done. Qed.

(** A map of [n] entries becomes a map of [2n], the first [n] without name and value. *)
Theorem converted_map_padded m :
  convertValue (any_map m) = OtelLog.VMap (make_group (length m) ++ map (fun kv => (kv.1, convertValue kv.2)) m)
  /\ Value_ (any_map m) = OtelLog.VMap (make_group (length m) ++ map (fun kv => (kv.1, Value_ kv.2)) m).
Proof. done. Qed.

(** Names do not add up, as the interface of logr asks for: the last one stays. *)
Theorem with_name_replaces h a b : WithName (WithName h a) b = WithName h b.
Proof. done. Qed.

(** The ln methods of the gRPC logger print like the plain ones: two strings are joined without
    the space that Println puts between them. *)
Theorem infoln_joins enabled a b : enabled INFO = true ->
  grpc_Infoln enabled [(true, a); (true, b)] = Some (mkRec "grpc" INFO (a +:+ b) [])
  /\ Sprintln [(true, a); (true, b)] = a +:+ " " +:+ b.
Proof.
  intros He. unfold grpc_Infoln, emit. rewrite He. cbn [Sprint Sprintln orb].
  rewrite !append_nil_r. done.
Qed.

(** The sink over slog, in contrast, keeps every pair with a string key. *)
Theorem slog_keeps_pairs (l : slogSink) level msg ps :
  slogSink_Info l level msg (flat (map (fun kv => (any_string kv.1, kv.2)) ps)) =
    (verbosity l level, msg, handler_attrs l ++
       (if decide (sink_name l = EmptyString) then [] else [("logger"%string, any_string (sink_name l))]) ++ ps).
Proof.
  unfold slogSink_Info, slogSink_log. do 3 f_equal. cbn [app].
  induction ps as [|[k v] ps IH]; [done|]. cbn [map flat fst snd]. 
  change (record_Add (any_string k :: v :: flat (map (fun kv => (any_string kv.1, kv.2)) ps)))
    with ((k, v) :: record_Add (flat (map (fun kv : string * any => (any_string kv.1, kv.2)) ps))). by rewrite IH.
Qed.

End Bridge.

Lemma infoln_joins_witness :
  grpc_Infoln (float64 := unit) (fun _ => true) [(true, "a"); (true, "b")]%string = Some (mkRec "grpc" INFO "ab" []).
Proof. by apply (infoln_joins (fun _ => true) "a" "b"). Defined.

End OtelBridge.
