(* ===== verification/OtelAttrs.v ===== *)
(** * Options and attributes of the logger bridges: src/infra/otel/log/bridge (bridge.go, logr/conv.go,
    logr/logr.go, logr/slogr.go, grpclog/logger.go)

    The options of the handlers and the logger they ask of a provider, the conversion of slog attributes, and the
    formatted methods of the logger for gRPC.  The provider is a parameter. *)
From stdpp Require Import prelude strings list.
From Stdlib Require Import ZArith Lia.
From S2P Require Import Prelude OtelLevel OtelLog OtelBridge.

Local Open Scope Z_scope.

Module OtelAttrs.
Import OtelLevel.

(** ** Options *)

Section Options.
Context {P L : Type}.

Inductive LoggerOption := WithInstrumentationVersion (v : string) | WithSchemaURL_ (url : string).

(** [Options] of both packages; [Severity] is that of logr. *)
Record Options := mkOptions { Provider : P; SchemaURL : string; Version : string; Severity : option (Z -> Z) }.

Definition Option_ := Options -> Options.
Definition WithVersion (ver : string) : Option_ := fun c => mkOptions (Provider c) (SchemaURL c) ver (Severity c).
Definition WithSchemaURL (url : string) : Option_ := fun c => mkOptions (Provider c) url (Version c) (Severity c).
Definition WithProvider (p : P) : Option_ := fun c => mkOptions p (SchemaURL c) (Version c) (Severity c).
Definition WithSeverity (resolve : option (Z -> Z)) : Option_ := fun c => mkOptions (Provider c) (SchemaURL c) (Version c) resolve.

(** [newOptions] of bridge and of logr; [global] is the provider of the process. *)
Definition newOptions (global : P) (opts : list Option_) : Options :=
  foldl (fun c o => o c) (mkOptions global "" "" None) opts.
Definition logr_newOptions (global : P) (opts : list Option_) : Options :=
  foldl (fun c o => o c) (mkOptions global "" "" (Some OtelSeverity)) opts.

Context (Logger : P -> string -> list LoggerOption -> L).

Definition logger (c : Options) (name : string) : L :=
  Logger (Provider c) name
    ((if decide (Version c = "") then [] else [WithInstrumentationVersion (Version c)]) ++
     (if decide (SchemaURL c = "") then [] else [WithSchemaURL_ (SchemaURL c)])).

(** ** Handlers of bridge.go *)

Section Handlers.
Context {KV : Type}.

Definition Attributes := option (list KV).
Definition Attributes_Len (e : Attributes) : nat := match e with Some data => length data | None => 0%nat end.
Definition Attributes_Clone (e : Attributes) : Attributes := match e with None => None | Some data => Some data end.
Definition Attributes_Add (data : list KV) (e : list KV) : list KV := e ++ data.

Record Handler := mkHandler { h_Options : Options; h_Logger : L; h_Attributes : Attributes }.

Definition bridge_NewHandler (global : P) (name : string) (opts : list Option_) : Handler :=
  let conf := newOptions global opts in mkHandler conf (logger conf name) None.

(** [WithName] and [WithAttrs] with the options of the handler. *)
Definition handler_WithName (h : Handler) (name : string) : Handler :=
  mkHandler (h_Options h) (logger (h_Options h) name) (Attributes_Clone (h_Attributes h)).
Definition handler_WithAttrs (h : Handler) (data : list KV) : Handler :=
  let a := Attributes_Clone (h_Attributes h) in
  mkHandler (h_Options h) (h_Logger h)
    (match data with [] => a | _ => Some (Attributes_Add data (default [] a)) end).

Definition NewLoggerV2 (global : P) (opts : list Option_) : Handler := bridge_NewHandler global "grpc" opts.

End Handlers.
End Options.

(** ** Attributes of slog *)

Section Slog.
Context {float64 : Type}.
Local Notation KeyValue := (string * OtelLog.Value float64)%type.
Local Notation AttValue := (OtelLog.AttValue float64).

(** Values of slog by their kinds; durations, times, and values of any other type have their text, an empty
    [Any] is nil. *)
Inductive svalue :=
| SBool (b : bool) | SFloat64 (f : float64) | SInt64 (z : Z) | SUint64 (z : Z) | SString (s : string)
| SGroup (l : list (string * svalue)) | SNil | SText (text : string).

(** [slog.Value.String] of the kinds that [otelAttribute] does not convert. *)
Definition sval_text (v : svalue) : string := match v with SText t => t | SNil => "<nil>" | SString s => s | _ => "" end.

Fixpoint otelAttribute (key : string) (v : svalue) : list (string * AttValue) :=
  match v with
  | SBool b => [(key, OtelLog.ABool b)]
  | SFloat64 f => [(key, OtelLog.AFloat64 f)]
  | SInt64 z => [(key, OtelLog.AInt64 z)]
  | SString s => [(key, OtelLog.AString s)]
  | SUint64 z => [(key, OtelLog.AInt64 (i64 z))]
  | SGroup group =>
      (fix members (group : list (string * svalue)) : list (string * AttValue) :=
         match group with
         | [] => []
         | (k, v) :: group => otelAttribute (key +:+ "." +:+ k) v ++ members group
         end) group
  | _ => [(key, OtelLog.AString (sval_text v))]
  end.

(** [fmt.Sprintf("%+v", v)] of a [slog.Value]. *)
Context (fmt_value : svalue -> string).

(** [convertValue] of conv.go on a [slog.Value], which is none of the types of its switch. *)
Definition convert_slog (v : svalue) : OtelLog.Value float64 :=
  OtelBridge.convertValue (fun a => match a with OtelBridge.any_other t => t | _ => "" end)
    (OtelBridge.any_other (fmt_value v)).

(** [AddAttr]; it returns true. *)
Definition AddAttr (attr : string * svalue) (data : list KeyValue) : list KeyValue :=
  let '(key, v) := attr in
  if decide (key = "") then
    match v with
    | SGroup group => data ++ ((fun a => (a.1, convert_slog a.2)) <$> group)
    | SNil => data
    | _ => data ++ [(key, convert_slog v)]
    end
  else data ++ [(key, convert_slog v)].

Definition AddAttrs (attrs : list (string * svalue)) (data : list KeyValue) : list KeyValue :=
  foldl (fun data a => AddAttr a data) data attrs.

(** ** The pool of buffers (logr/conv.go) *)

(** The pool as the buffers it holds; [getKVBuffer] takes one or makes a new one, and its [free] puts it back
    without its array. *)
Definition getKVBuffer (pool : list (list KeyValue)) : list KeyValue * list (list KeyValue) :=
  match pool with [] => ([], []) | b :: pool => (b, pool) end.
Definition freeKVBuffer (pool : list (list KeyValue)) : list (list KeyValue) := [] :: pool.

End Slog.

(** ** Formatted methods of the logger for gRPC; [msg] is the formatted message *)

Definition grpc_Infof {float64} (enabled : Z -> bool) (msg : string) := OtelBridge.emit (float64 := float64) enabled INFO msg.
Definition grpc_Warningf {float64} (enabled : Z -> bool) (msg : string) := OtelBridge.emit (float64 := float64) enabled WARN msg.
Definition grpc_Errorf {float64} (enabled : Z -> bool) (msg : string) := OtelBridge.emit (float64 := float64) enabled ERROR msg.
Definition grpc_Fatalf {float64} (enabled : Z -> bool) (msg : string) := OtelBridge.emit (float64 := float64) enabled FATAL msg.

(** ** A sink over a slog handler (logr/slogr.go) *)

Definition slogSink_Init {float64} (depth : Z) (l : OtelBridge.slogSink (float64 := float64)) : OtelBridge.slogSink (float64 := float64) :=
  OtelBridge.mkSink depth (OtelBridge.sink_name l) (OtelBridge.handler_attrs l) (OtelBridge.verbosity l).
Definition slogSink_Enabled {float64} (enabled : Z -> bool) (l : OtelBridge.slogSink (float64 := float64)) (level : Z) : bool :=
  enabled (OtelBridge.verbosity l level).

(** ** Theorems *)

Section Theorems.
Context {float64 : Type}.

(** The leaves of a value with the names on the way to them. *)
Fixpoint leaves (path : list string) (v : svalue (float64 := float64)) : list (list string * svalue (float64 := float64)) :=
  match v with
  | SGroup group =>
      (fix members (group : list (string * svalue)) :=
         match group with [] => [] | (k, v) :: group => leaves (path ++ [k]) v ++ members group end) group
  | _ => [(path, v)]
  end.

(** Names joined with dots. *)
Fixpoint dotted (l : list string) : string :=
  match l with [] => "" | [s] => s | s :: l => s +:+ "." +:+ dotted l end.

Lemma dotted_snoc l k : l <> [] -> dotted (l ++ [k]) = dotted l +:+ "." +:+ k.
Proof.
  induction l as [|a l IH]; [done|]. intros _. destruct l as [|b l]; [done|].
  change (dotted ((a :: b :: l) ++ [k])) with (a +:+ "." +:+ dotted ((b :: l) ++ [k])). rewrite IH by done.
  change (dotted (a :: b :: l)) with (a +:+ "." +:+ dotted (b :: l)). by rewrite !append_assoc.
Qed.

(** The attribute of a leaf. *)
Definition leaf (l : list string * svalue (float64 := float64)) : string * OtelLog.AttValue float64 :=
  (dotted l.1, match l.2 with
               | SBool b => OtelLog.ABool b | SFloat64 f => OtelLog.AFloat64 f | SInt64 z => OtelLog.AInt64 z
               | SUint64 z => OtelLog.AInt64 (i64 z) | v => OtelLog.AString (sval_text v)
               end).

Lemma otelAttribute_leaves : forall v path, path <> [] -> otelAttribute (dotted path) v = leaf <$> leaves path v.
Proof.
  fix IH 1. intros [b|f|z|z|s|group| |t] path Hp; try reflexivity. cbn [otelAttribute leaves].
  induction group as [|[k v] group IHg]; [done|]. rewrite fmap_app, <- IHg, <- IH by (by destruct path).
  by rewrite dotted_snoc.
Qed.

(** An attribute becomes one attribute per leaf, in order, named by the path to the leaf joined with dots; a number above
    the signed range becomes negative, and a group without leaves leaves nothing. *)
Theorem attribute_flattened key v : otelAttribute key v = leaf <$> leaves [key] v.
Proof. by rewrite <- (otelAttribute_leaves v [key]). Qed.

(** An attribute of slog never keeps its kind: numbers, flags and groups all become the text of the value; only a group without a
    name is replaced by its members, and an empty attribute is dropped. *)
Theorem attributes_become_text fmt_value (attrs : list (string * svalue (float64 := float64))) data :
  exists added, AddAttrs fmt_value attrs data = data ++ added /\
  Forall (fun kv => exists text, kv.2 = OtelLog.VString text) added /\
  (Forall (fun a => a.1 <> "") attrs -> added = (fun a => (a.1, OtelLog.VString (fmt_value a.2))) <$> attrs).
Proof.
  unfold AddAttrs. revert data. induction attrs as [|[k v] attrs IH]; intros data; [exists []; rewrite app_nil_r; by repeat split|].
  cbn [foldl]. assert (exists own, AddAttr fmt_value (k, v) data = data ++ own /\
    Forall (fun kv => exists text, kv.2 = OtelLog.VString text) own /\
    (k <> "" -> own = [(k, OtelLog.VString (fmt_value v))])) as (own & -> & Hown & Hk).
  { unfold AddAttr. case_decide as D; [|eexists; split; [done|]; split; [repeat constructor; by eexists|done]].
    destruct v as [b|f|z|z|s|group| |t]; try (eexists; split; [done|]; split; [repeat constructor; by eexists|done]).
    - eexists. split; [done|]. split; [|done]. apply Forall_fmap, Forall_forall. intros a _. by eexists.
    - exists []. rewrite app_nil_r. by repeat split. }
  destruct (IH (data ++ own)) as (more & -> & Hm & Ha). exists (own ++ more). rewrite app_assoc. split; [done|].
  split; [by apply Forall_app|]. intros Hall. apply Forall_cons in Hall as [H1 H2]. cbn. by rewrite Hk, Ha.
Qed.

(** Handlers made from a handler ask the same provider for their logger, with the version and the schema of the options,
    and [WithName] keeps the attributes. *)
Theorem handler_keeps_options {P L KV} (Logger : P -> string -> list LoggerOption -> L) global name opts (data : list KV) name' :
  let h := bridge_NewHandler Logger global name opts in
  let h' := handler_WithName Logger (handler_WithAttrs h data) name' in
  h_Options h' = newOptions global opts /\ h_Attributes h' = (match data with [] => None | _ => Some data end) /\
  h_Logger h' = h_Logger (bridge_NewHandler (KV := KV) Logger global name' opts).
Proof. destruct data; by repeat split. Qed.

End Theorems.

End OtelAttrs.
