(* ===== verification/PgxTracer.v ===== *)
(** * The pgx tracer: src/infra/otel/instrumentation/pgx (pgx.go, options.go, attr.go)
    and the attribute keys of src/infra/otel/semconv

    What the handlers ask of OpenTelemetry is a list of events: spans started with
    their options, errors, attributes and ends.  The tracer itself is a class. *)
From stdpp Require Import prelude strings list.
From Stdlib Require Import ZArith Lia Ascii.
From S2P Require Import Prelude Strconv Utf8.

Local Open Scope Z_scope.

Module PgxTracer.
Import Strconv Utf8.

(** ** Attributes *)

(** [F] is the type of floating-point numbers, which are passed through. *)
Inductive avalue (F : Type) :=
| AString (s : string) | AInt64 (z : Z) | AFloat64 (f : F) | ABool (b : bool)
| AStrings (l : list string) | AInt64s (l : list Z) | AFloat64s (l : list F) | ABools (l : list bool).
Arguments AString {F} s.
Arguments AInt64 {F} z.
Arguments AFloat64 {F} f.
Arguments ABool {F} b.
Arguments AStrings {F} l.
Arguments AInt64s {F} l.
Arguments AFloat64s {F} l.
Arguments ABools {F} l.

Abbreviation attr F := (string * avalue F)%type.

(** semconv/db.go and net.go *)
Definition DBRowsAffectedKey : string := "db.rows_affected".
Definition DBQueryParametersKey : string := "db.query.parameters".
Definition DBBatchSizeKey : string := "db.batch.size".
Definition DBPrepareStmtNameKey : string := "db.prepare_stmt.name".
Definition DBSQLStateKey : string := "db.sql_state".
Definition DBUserKey : string := "db.user".
Definition DBStatementKey : string := "db.statement".
Definition DBSQLTableKey : string := "db.sql_table".

(** ** Values as attributes (attr.go) *)

Definition _maxStringValueLength : nat := 256.
Definition _shortenedPattern : string := "... (more than 256 chars)".
Definition sqlOperationUnknown : string := "UNKNOWN".

Definition SQLOperationName (query : string) : string :=
  match FieldsFunc_str is_space query with
  | [] => sqlOperationUnknown
  | part :: _ => ToUpper part
  end.

Definition shortenString (s : string) : string :=
  let runes := decode_runes s in
  if (length runes <=? _maxStringValueLength)%nat then s
  else encode_runes (take (_maxStringValueLength - String.length _shortenedPattern) runes) +:+ _shortenedPattern.

(** time.Duration.String: the digits of a fraction without trailing zeros. *)
Fixpoint frac_digits (prec : nat) (v : Z) (acc : string) : string :=
  match prec with
  | O => acc
  | S prec =>
      let digit := v mod 10 in
      frac_digits prec (v / 10)
        (match acc with
         | EmptyString => if digit =? 0 then EmptyString else String (digit_char digit) EmptyString
         | _ => String (digit_char digit) acc
         end)
  end.

Definition frac_text (prec : nat) (v : Z) : string :=
  match frac_digits prec v EmptyString with EmptyString => EmptyString | t => String "." t end.

(** The micro sign. *)
Definition micro : string := byte_string 194 +:+ byte_string 181.

Definition Duration_String (d : Z) : string :=
  let u := Z.abs d in
  let text :=
    if u <? 1000000000 then
      if u =? 0 then "0s"
      else if u <? 1000 then format_nat u +:+ "ns"
      else if u <? 1000000 then format_nat (u / 1000) +:+ frac_text 3 u +:+ micro +:+ "s"
      else format_nat (u / 1000000) +:+ frac_text 6 u +:+ "ms"
    else
      let secs := u / 1000000000 in
      let minutes := secs / 60 in
      let tail := format_nat (secs mod 60) +:+ frac_text 9 u +:+ "s" in
      if 0 <? minutes then
        let tail := format_nat (minutes mod 60) +:+ "m" +:+ tail in
        if 0 <? minutes / 60 then format_nat (minutes / 60) +:+ "h" +:+ tail else tail
      else tail in
  if d <? 0 then String "-" text else text.

Definition Microsecond : Z := 1000.
Definition Millisecond : Z := 1000000.

Definition KeyValueDuration {F} (key : string) (d : Z) : attr F :=
  if (Microsecond <=? d) && (d <? Millisecond)
  then (key, AString (FormatInt (Z.quot d Microsecond) +:+ "us"))
  else (key, AString (Duration_String d)).

(** A value of type [any]: what the switch of [KeyValue] distinguishes; every other
    type is its text by fmt. *)
Inductive scalar (F : Type) :=
| SInt (z : Z) | SInt64 (z : Z) | SFloat64 (f : F) | SBool (b : bool) | SString (s : string).
Arguments SInt {F} z.
Arguments SInt64 {F} z.
Arguments SFloat64 {F} f.
Arguments SBool {F} b.
Arguments SString {F} s.

Inductive anyval (F : Type) :=
| VNil | VScalar (s : scalar F) | VBytes (b : string)
| VInts (l : list Z) | VInt64s (l : list Z) | VFloat64s (l : list F) | VBools (l : list bool)
| VPtr (p : option (scalar F)) | VDuration (d : Z) | VOther (text : string).
Arguments VNil {F}.
Arguments VScalar {F} s.
Arguments VBytes {F} b.
Arguments VInts {F} l.
Arguments VInt64s {F} l.
Arguments VFloat64s {F} l.
Arguments VBools {F} l.
Arguments VPtr {F} p.
Arguments VDuration {F} d.
Arguments VOther {F} text.

Definition scalar_attr {F} (key : string) (v : scalar F) : attr F :=
  match v with
  | SInt z | SInt64 z => (key, AInt64 z)
  | SFloat64 f => (key, AFloat64 f)
  | SBool b => (key, ABool b)
  | SString s => (key, AString (shortenString s))
  end.

Definition KeyValue {F} (key : string) (val : anyval F) : attr F :=
  match val with
  | VNil => (key, AString "")
  | VScalar v => scalar_attr key v
  | VBytes b => (key, AString (shortenString b))
  | VInts l | VInt64s l => (key, AInt64s l)
  | VFloat64s l => (key, AFloat64s l)
  | VBools l => (key, ABools l)
  | VPtr None => (key, AString "")
  | VPtr (Some v) => scalar_attr key v
  | VDuration d => KeyValueDuration key d
  | VOther text => (key, AString (shortenString text))
  end.

(** driver.NamedValue *)
Record NamedValue F := mkNamed { Name : string; Ordinal : Z; Value : anyval F }.
Arguments mkNamed {F}.
Arguments Name {F}.
Arguments Ordinal {F}.
Arguments Value {F}.

Definition KeyFromNamedValue {F} (arg : NamedValue F) : string :=
  DBQueryParametersKey +:+ "." +:+
  (if decide (Name arg = "") then FormatInt (Ordinal arg) else Name arg).

Definition FromNamedValue {F} (arg : NamedValue F) : attr F := KeyValue (KeyFromNamedValue arg) (Value arg).

(** ** The tracer (pgx.go, options.go) *)

(** Options of a span. *)
Inductive startopt (F : Type) := WithSpanKindClient | WithAttrs (l : list (attr F)).
Arguments WithSpanKindClient {F}.
Arguments WithAttrs {F} l.

(** The attributes that a list of options gives to a span. *)
Definition opt_attrs {F} (opts : list (startopt F)) : list (attr F) :=
  concat (map (fun o => match o with WithSpanKindClient => [] | WithAttrs l => l end) opts).

(** go.opentelemetry.io/otel/trace: contexts carry spans.  The number tells the calls
    of [Start] apart. *)
Class Otel (F : Type) := {
  ctx : Type;
  span : Type;
  SpanFromContext : ctx -> span;
  IsRecording : span -> bool;
  tracer_Start : nat -> ctx -> string -> list (startopt F) -> ctx * span
}.

(** The returned context contains the span that was started. *)
Class OtelLaws {F} (O : Otel F) :=
  start_in_context : forall n c name opts,
    SpanFromContext (tracer_Start n c name opts).1 = (tracer_Start n c name opts).2.

Section Tracer.
Context {F : Type} {O : Otel F}.

Inductive event :=
| Started (s : span) (name : string) (opts : list (startopt F))
| RecordedError (s : span) (text : string)
| StatusError (s : span) (text : string)
| AttributesSet (s : span) (l : list (attr F))
| Ended (s : span).

(** Providers are numbered; 0 is the global one. *)
Record tracerConfig := mkTC {
  tp : nat;
  cfg_attrs : list (attr F);
  cfg_trimQuerySpanName : bool;
  cfg_spanNameFunc : option (string -> string);
  cfg_prefixQuerySpanName : bool;
  cfg_logSQLStatement : bool;
  cfg_includeParams : bool
}.

Record Tracer := mkTracer {
  tracer : nat;
  attrs : list (attr F);
  trimQuerySpanName : bool;
  spanNameFunc : option (string -> string);
  prefixQuerySpanName : bool;
  logSQLStatement : bool;
  includeParams : bool
}.

Definition Option_ := tracerConfig -> tracerConfig.

Definition WithTracerProvider (provider : option nat) : Option_ := fun c =>
  match provider with
  | Some p => mkTC p (cfg_attrs c) (cfg_trimQuerySpanName c) (cfg_spanNameFunc c) (cfg_prefixQuerySpanName c)
                (cfg_logSQLStatement c) (cfg_includeParams c)
  | None => c
  end.
Definition WithAttributes (l : list (attr F)) : Option_ := fun c =>
  mkTC (tp c) (cfg_attrs c ++ l) (cfg_trimQuerySpanName c) (cfg_spanNameFunc c) (cfg_prefixQuerySpanName c)
    (cfg_logSQLStatement c) (cfg_includeParams c).
Definition WithTrimSQLInSpanName : Option_ := fun c =>
  mkTC (tp c) (cfg_attrs c) true (cfg_spanNameFunc c) (cfg_prefixQuerySpanName c) (cfg_logSQLStatement c) (cfg_includeParams c).
Definition WithSpanNameFunc (fn : string -> string) : Option_ := fun c =>
  mkTC (tp c) (cfg_attrs c) (cfg_trimQuerySpanName c) (Some fn) (cfg_prefixQuerySpanName c) (cfg_logSQLStatement c)
    (cfg_includeParams c).
Definition WithDisableQuerySpanNamePrefix : Option_ := fun c =>
  mkTC (tp c) (cfg_attrs c) (cfg_trimQuerySpanName c) (cfg_spanNameFunc c) false (cfg_logSQLStatement c) (cfg_includeParams c).
Definition WithDisableSQLStatementInAttributes : Option_ := fun c =>
  mkTC (tp c) (cfg_attrs c) (cfg_trimQuerySpanName c) (cfg_spanNameFunc c) (cfg_prefixQuerySpanName c) false (cfg_includeParams c).
Definition WithIncludeQueryParameters : Option_ := fun c =>
  mkTC (tp c) (cfg_attrs c) (cfg_trimQuerySpanName c) (cfg_spanNameFunc c) (cfg_prefixQuerySpanName c) (cfg_logSQLStatement c) true.

(** [NewTracer]; the tracer of the provider is named by it. *)
Definition NewTracer (opts : list Option_) : Tracer :=
  let cfg := foldl (fun c (o : Option_) => o c)
               (mkTC 0 [("db.system", AString "postgresql")] false None true true false) opts in
  mkTracer (tp cfg) (cfg_attrs cfg) (cfg_trimQuerySpanName cfg) (cfg_spanNameFunc cfg) (cfg_prefixQuerySpanName cfg)
    (cfg_logSQLStatement cfg) (cfg_includeParams cfg).

(** An error of a call: its text, whether errors.Is finds pgx.ErrNoRows in it, and the code of the
    PgError that errors.As finds. *)
Record error := mkError { Error : string; is_no_rows : bool; pg_code : option string }.

Definition recordError (s : span) (err : option error) : list event :=
  match err with
  | None => []
  | Some e =>
      if is_no_rows e then []
      else [RecordedError s (Error e); StatusError s (Error e)] ++
           match pg_code e with
           | Some code => [AttributesSet s [(DBSQLStateKey, AString code)]]
           | None => []
           end
  end.

(** The fields of pgx.ConnConfig that are read. *)
Record ConnConfig := mkConn { Host : string; Port : Z; User : string }.

Definition connectionAttributesFromConfig (config : option ConnConfig) : list (startopt F) :=
  match config with
  | Some c => [WithAttrs [("client.address", AString (Host c)); ("client.port", AInt64 (Port c));
                          (DBUserKey, AString (User c))]]
  | None => []
  end.

(** An argument of a query and its text by fmt ("%+v"). *)
Context {A : Type} (Sprintf : A -> string).

Definition makeParamsAttribute (args : list A) : attr F := (DBQueryParametersKey, AStrings (map Sprintf args)).

(** What the handlers of the five kinds of calls are given at the start. *)
Inductive start_data :=
| QueryData (SQL : string) (Args : list A)
| CopyFromData (table : string)
| BatchData (size : Z)
| ConnectData (config : option ConnConfig)
| PrepareData (name SQL : string).

Definition client_opts (t : Tracer) : list (startopt F) := [WithSpanKindClient; WithAttrs (attrs t)].

Definition conn_opts (conn : option ConnConfig) : list (startopt F) :=
  match conn with Some _ => connectionAttributesFromConfig conn | None => [] end.

(** The guard and the call of [Start] that every handler shares. *)
Definition start_span (n : nat) (c : ctx) (name : string) (opts : list (startopt F)) : ctx * list event :=
  if negb (IsRecording (SpanFromContext c)) then (c, [])
  else let '(c', s) := tracer_Start n c name opts in (c', [Started s name opts]).

Definition statement_opts (t : Tracer) (SQL : string) (Args : list A) : list (startopt F) :=
  if logSQLStatement t then
    WithAttrs [(DBStatementKey, AString SQL)] ::
    (if includeParams t then [WithAttrs [makeParamsAttribute Args]] else [])
  else [].

Definition TraceQueryStart (t : Tracer) (n : nat) (c : ctx) (conn : option ConnConfig) (SQL : string) (Args : list A)
  : ctx * list event :=
  let spanName := if trimQuerySpanName t then SQLOperationName SQL else SQL in
  let spanName := if prefixQuerySpanName t then "db.Query." +:+ spanName else spanName in
  start_span n c spanName (client_opts t ++ conn_opts conn ++ statement_opts t SQL Args).

(** [rows] is the number of rows affected, read when there is no error. *)
Definition TraceQueryEnd (c : ctx) (err : option error) (rows : Z) : list event :=
  let s := SpanFromContext c in
  recordError s err ++
  (match err with None => [AttributesSet s [(DBRowsAffectedKey, AInt64 rows)]] | Some _ => [] end) ++ [Ended s].

(** [table] is the sanitized name of the table. *)
Definition TraceCopyFromStart (t : Tracer) (n : nat) (c : ctx) (conn : option ConnConfig) (table : string)
  : ctx * list event :=
  start_span n c ("db.CopyFrom." +:+ table)
    (client_opts t ++ [WithAttrs [(DBSQLTableKey, AString table)]] ++ conn_opts conn).

Definition TraceCopyFromEnd (c : ctx) (err : option error) (rows : Z) : list event :=
  let s := SpanFromContext c in
  recordError s err ++
  (match err with None => [AttributesSet s [(DBRowsAffectedKey, AInt64 rows)]] | Some _ => [] end) ++ [Ended s].

(** [batch] is the length of the batch; [None] is a nil batch. *)
Definition TraceBatchStart (t : Tracer) (n : nat) (c : ctx) (conn : option ConnConfig) (batch : option Z)
  : ctx * list event :=
  start_span n c "db.BatchStart."
    (client_opts t ++ [WithAttrs [(DBBatchSizeKey, AInt64 (default 0 batch))]] ++ conn_opts conn).

Definition TraceBatchQuery (t : Tracer) (n : nat) (c : ctx) (conn : option ConnConfig) (SQL : string) (Args : list A)
    (err : option error) : list event :=
  if negb (IsRecording (SpanFromContext c)) then []
  else
    let opts := client_opts t ++ conn_opts conn ++ statement_opts t SQL Args in
    let spanName :=
      if trimQuerySpanName t then
        let spanName := SQLOperationName SQL in
        if prefixQuerySpanName t then "db.Query." +:+ spanName else spanName
      else if prefixQuerySpanName t then "db.BatchQuery." +:+ SQL else SQL in
    let '(_, s) := tracer_Start n c spanName opts in
    [Started s spanName opts] ++ recordError s err ++ [Ended s].

Definition TraceBatchEnd (c : ctx) (err : option error) : list event :=
  let s := SpanFromContext c in recordError s err ++ [Ended s].

Definition TraceConnectStart (t : Tracer) (n : nat) (c : ctx) (config : option ConnConfig) : ctx * list event :=
  start_span n c "db.Connect" (client_opts t ++ conn_opts config).

Definition TraceConnectEnd (c : ctx) (err : option error) : list event :=
  let s := SpanFromContext c in recordError s err ++ [Ended s].

(** The attribute made of the name of the statement is not added to the options. *)
Definition TracePrepareStart (t : Tracer) (n : nat) (c : ctx) (conn : option ConnConfig) (name SQL : string)
  : ctx * list event :=
  let opts := client_opts t ++ conn_opts conn ++
    (if logSQLStatement t then [WithAttrs [(DBStatementKey, AString SQL)]] else []) in
  let spanName := if trimQuerySpanName t then SQLOperationName SQL else SQL in
  let spanName := if prefixQuerySpanName t then "db.Prepare." +:+ spanName else spanName in
  start_span n c spanName opts.

Definition TracePrepareEnd (c : ctx) (err : option error) : list event :=
  let s := SpanFromContext c in recordError s err ++ [Ended s].

(** ** The calls of pgx around an operation *)

Definition op_start (t : Tracer) (n : nat) (c : ctx) (conn : option ConnConfig) (d : start_data) : ctx * list event :=
  match d with
  | QueryData sql args => TraceQueryStart t n c conn sql args
  | CopyFromData table => TraceCopyFromStart t n c conn table
  | BatchData size => TraceBatchStart t n c conn (Some size)
  | ConnectData config => TraceConnectStart t n c config
  | PrepareData name sql => TracePrepareStart t n c conn name sql
  end.

Definition op_end (d : start_data) (c : ctx) (err : option error) (rows : Z) : list event :=
  match d with
  | QueryData _ _ => TraceQueryEnd c err rows
  | CopyFromData _ => TraceCopyFromEnd c err rows
  | BatchData _ => TraceBatchEnd c err
  | ConnectData _ => TraceConnectEnd c err
  | PrepareData _ _ => TracePrepareEnd c err
  end.

(** The queries of a batch, in the context of its start. *)
Fixpoint batch_queries (t : Tracer) (n : nat) (c : ctx) (conn : option ConnConfig)
    (qs : list (string * list A * option error)) : list event :=
  match qs with
  | [] => []
  | (sql, args, err) :: qs => TraceBatchQuery t n c conn sql args err ++ batch_queries t (S n) c conn qs
  end.

Definition send_batch (t : Tracer) (n : nat) (c : ctx) (conn : option ConnConfig)
    (qs : list (string * list A * option error)) (err : option error) : list event :=
  let '(c', evs) := TraceBatchStart t n c conn (Some (Z.of_nat (length qs))) in
  evs ++ batch_queries t (S n) c' conn qs ++ TraceBatchEnd c' err.

Definition started (evs : list event) : list span :=
  omap (fun e => match e with Started s _ _ => Some s | _ => None end) evs.
Definition ended (evs : list event) : list span :=
  omap (fun e => match e with Ended s => Some s | _ => None end) evs.
Definition touched (evs : list event) : list span :=
  map (fun e => match e with
                | Started s _ _ | RecordedError s _ | StatusError s _ | AttributesSet s _ | Ended s => s
                end) evs.

(** ** Lemmas *)

Lemma start_span_recording n c name opts : IsRecording (SpanFromContext c) = true ->
  start_span n c name opts =
    ((tracer_Start n c name opts).1, [Started (tracer_Start n c name opts).2 name opts]).
Proof. intros Hr. unfold start_span. rewrite Hr. simpl. by destruct (tracer_Start n c name opts). Qed.

Lemma start_span_skipped n c name opts : IsRecording (SpanFromContext c) = false -> start_span n c name opts = (c, []).
Proof. intros Hr. unfold start_span. by rewrite Hr. Qed.

(** [recordError] starts and ends nothing, and touches one span. *)
Lemma recordError_spec s err : started (recordError s err) = [] /\ ended (recordError s err) = [] /\
  Forall (fun x => x = s) (touched (recordError s err)).
Proof.
  unfold recordError. destruct err as [[text nr [code|]]|]; [..|done]; destruct nr; simpl; repeat split; repeat constructor.
Qed.

(** An end handler touches the span of its context and ends it, once and last. *)
Lemma op_end_spec d c err rows : let s := SpanFromContext c in
  started (op_end d c err rows) = [] /\ ended (op_end d c err rows) = [s] /\
  Forall (fun x => x = s) (touched (op_end d c err rows)) /\ last (op_end d c err rows) = Some (Ended s).
Proof.
  intros s. destruct (recordError_spec s err) as (H1 & H2 & H3). unfold started, ended, touched in *.
  destruct d; cbn [op_end]; unfold TraceQueryEnd, TraceCopyFromEnd, TraceBatchEnd, TraceConnectEnd, TracePrepareEnd; fold s;
    rewrite !omap_app, !map_app, H1, H2, ?app_assoc, last_snoc; destruct err;
    (split; [done|]); (split; [done|]); (split; [|done]); rewrite ?Forall_app; repeat split; try done; repeat constructor.
Qed.

Lemma op_start_recording t n c conn d : IsRecording (SpanFromContext c) = true ->
  exists name opts, op_start t n c conn d =
    ((tracer_Start n c name opts).1, [Started (tracer_Start n c name opts).2 name opts]) /\
    attrs t ⊆ opt_attrs opts.
Proof.
  intros Hr. assert (forall l, attrs t ⊆ opt_attrs (client_opts t ++ l)) as Ha.
  { intros l x Hx. unfold opt_attrs. simpl. apply elem_of_app. by left. }
  destruct d; simpl;
    unfold TraceQueryStart, TraceCopyFromStart, TraceBatchStart, TraceConnectStart, TracePrepareStart;
    rewrite start_span_recording by done; do 2 eexists; (split; [reflexivity|apply Ha]).
Qed.

Lemma started_app l1 l2 : started (l1 ++ l2) = started l1 ++ started l2.
Proof. apply omap_app. Qed.
Lemma ended_app l1 l2 : ended (l1 ++ l2) = ended l1 ++ ended l2.
Proof. apply omap_app. Qed.

(** A query of a batch starts and ends at most one span. *)
Lemma batch_query_balanced t n c conn sql args err :
  started (TraceBatchQuery t n c conn sql args err) = ended (TraceBatchQuery t n c conn sql args err) /\
  (length (started (TraceBatchQuery t n c conn sql args err)) <= 1)%nat.
Proof.
  unfold TraceBatchQuery. destruct (IsRecording _); [|split; [done|simpl; lia]]. cbn [negb].
  set (name := if trimQuerySpanName t then _ else _). set (opts := client_opts t ++ _).
  destruct (tracer_Start n c name opts) as [c' s]. destruct (recordError_spec s err) as (H1 & H2 & _).
  rewrite !started_app, !ended_app, H1, H2. split; [done|simpl; lia].
Qed.

Lemma batch_queries_balanced t conn qs : forall n c,
  started (batch_queries t n c conn qs) = ended (batch_queries t n c conn qs) /\
  (length (started (batch_queries t n c conn qs)) <= length qs)%nat.
Proof.
  induction qs as [|[[sql args] err] qs IH]; intros n c; [split; [done|simpl; lia]|]. cbn [batch_queries].
  destruct (IH (S n) c) as [IHe IHl]. destruct (batch_query_balanced t n c conn sql args err) as [He Hl].
  rewrite !started_app, !ended_app, length_app, IHe, He. split; [done|]. rewrite <- IHe, <- He. simpl. lia.
Qed.

(** ** Theorems *)

Section Balanced.
Context {OL : OtelLaws O}.

(** C17: under a recording span every operation has exactly one span of its own: the
    start handler starts it with the attributes of the tracer, and the end handler, given the context
    that was returned, touches only this span and ends it once, as its last act. *)
Theorem operation_has_one_span t n c conn d err rows : IsRecording (SpanFromContext c) = true ->
  exists s name opts, (op_start t n c conn d).2 = [Started s name opts] /\ attrs t ⊆ opt_attrs opts /\
    ended (op_end d (op_start t n c conn d).1 err rows) = [s] /\
    Forall (fun x => x = s) (touched (op_end d (op_start t n c conn d).1 err rows)) /\
    last (op_end d (op_start t n c conn d).1 err rows) = Some (Ended s).
Proof.
  intros Hr. destruct (op_start_recording t n c conn d Hr) as (name & opts & -> & Ha). simpl.
  destruct (op_end_spec d (tracer_Start n c name opts).1 err rows) as (_ & He & Ht & Hl).
  rewrite start_in_context in He, Ht, Hl. by exists (tracer_Start n c name opts).2, name, opts.
Qed.

(** Whatever its queries do, the spans of a batch under a recording span are ended as they
    were started, each once; the span of the batch is the first started and the last ended. *)
Theorem batch_spans_balanced t n c conn qs err : IsRecording (SpanFromContext c) = true ->
  exists s l, started (send_batch t n c conn qs err) = s :: l /\
              ended (send_batch t n c conn qs err) = l ++ [s] /\ (length l <= length qs)%nat.
Proof.
  intros Hr. unfold send_batch. destruct (TraceBatchStart _ _ _ _ _) as [c' evs] eqn:E.
  unfold TraceBatchStart in E. rewrite start_span_recording in E by done. simplify_eq.
  set (name := "db.BatchStart."). set (opts := client_opts t ++ _). set (c1 := (tracer_Start n c name opts).1).
  destruct (op_end_spec (BatchData 0) c1 err 0) as (Hs & He & _). cbn [op_end] in Hs, He.
  destruct (batch_queries_balanced t conn qs (S n) c1) as [Hb Hlen].
  exists (tracer_Start n c name opts).2, (started (batch_queries t (S n) c1 conn qs)).
  rewrite !started_app, !ended_app, Hs, He, app_nil_r, <- Hb. split; [done|].
  split; [by unfold c1; rewrite start_in_context|done].
Qed.
End Balanced.

(** Without a recording span nothing is started and the context is the caller's, so that the end handler works
    on the span of the caller: it ends a span that it has not started. *)
Theorem unrecorded_end_hits_caller t n c conn d err rows : IsRecording (SpanFromContext c) = false ->
  op_start t n c conn d = (c, []) /\ ended (op_end d (op_start t n c conn d).1 err rows) = [SpanFromContext c].
Proof.
  intros Hr. assert (op_start t n c conn d = (c, [])) as ->.
  { destruct d; simpl;
      unfold TraceQueryStart, TraceCopyFromStart, TraceBatchStart, TraceConnectStart, TracePrepareStart;
      by apply start_span_skipped. }
  split; [done|]. by destruct (op_end_spec d c err rows) as (_ & ? & _).
Qed.

(** An error is recorded with its text and status, and with the code of PostgreSQL when there is one;
    [ErrNoRows] and success record nothing. *)
Theorem error_recorded s err : recordError s err <> [] <-> exists e, err = Some e /\ is_no_rows e = false.
Proof. unfold recordError. destruct err as [[text nr code]|]; [|naive_solver]. simpl. destruct nr; naive_solver. Qed.

(** Parameters of a query are attributes of its span exactly when they are included and
    the statement is logged too. *)
Theorem params_logged_iff t SQL Args :
  (DBQueryParametersKey, AStrings (map Sprintf Args)) ∈ opt_attrs (statement_opts t SQL Args)
  <-> includeParams t = true /\ logSQLStatement t = true.
Proof.
  unfold statement_opts, makeParamsAttribute. destruct (logSQLStatement t), (includeParams t); simpl; unfold opt_attrs; simpl;
    rewrite ?elem_of_cons, ?elem_of_nil; naive_solver.
Qed.

(** The function of [WithSpanNameFunc] is stored and never used: no handler depends on it. *)
Theorem span_name_func_unused opts fn n c conn d :
  let t := NewTracer opts in let t' := NewTracer (opts ++ [WithSpanNameFunc fn]) in
  spanNameFunc t' = Some fn /\ op_start t' n c conn d = op_start t n c conn d.
Proof.
  intros t t'. unfold t', t, NewTracer. rewrite foldl_app. simpl. split; [done|]. by destruct d.
Qed.

(** The name of a prepared statement does not reach its span. *)
Theorem prepare_name_dropped t n c conn name name' SQL :
  TracePrepareStart t n c conn name SQL = TracePrepareStart t n c conn name' SQL.
Proof. reflexivity. Qed.

(** The names of the spans of batched queries have the prefix of batches only when the statement is
    not cut to its first word. *)
Theorem batch_query_prefix t n c conn SQL Args err s name opts rest :
  prefixQuerySpanName t = true -> TraceBatchQuery t n c conn SQL Args err = Started s name opts :: rest ->
  name = if trimQuerySpanName t then "db.Query." +:+ SQLOperationName SQL else "db.BatchQuery." +:+ SQL.
Proof.
  intros Hp. unfold TraceBatchQuery. rewrite Hp. destruct (IsRecording _); [|done]. simpl.
  destruct (tracer_Start _ _ _ _). intros [= _ -> _ _]. by destruct (trimQuerySpanName t).
Qed.

End Tracer.

(** ** Attributes *)

(** The value of a text attribute has at most 256 runes; longer text keeps its first 231
    runes and says that it was cut, and other text is unchanged. *)
Theorem shorten_bounded s : let r := decode_runes (shortenString s) in
  (length r <= 256)%nat /\
  ((length (decode_runes s) <= 256)%nat -> shortenString s = s) /\
  ((256 < length (decode_runes s))%nat ->
     take 231 r = take 231 (decode_runes s) /\ drop 231 r = decode_runes _shortenedPattern /\ length r = 256%nat).
Proof.
  intros r. unfold r, shortenString. destruct (Nat.leb_spec (length (decode_runes s)) _maxStringValueLength) as [H|H];
    unfold _maxStringValueLength in *; [split; [done|split; [done|lia]]|].
  set (k := (256 - String.length _shortenedPattern)%nat). assert (k = 231%nat) as -> by reflexivity.
  rewrite decode_encode by (apply Forall_take, decode_valid).
  assert (length (take 231 (decode_runes s)) = 231%nat) as Hl by (rewrite length_take; lia).
  assert (length (decode_runes _shortenedPattern) = 25%nat) as Hp by reflexivity.
  split; [rewrite length_app; lia|]. split; [lia|]. intros _.
  rewrite take_app_length', drop_app_length' by done. split; [done|]. split; [done|]. rewrite length_app. lia.
Qed.

(** The name of an operation is a non-empty word without blanks and small letters. *)
Definition operation_byte (c : ascii) : bool := negb (is_space c) && negb (in_range "a" "z" c).

Lemma upper_not_lower c : in_range "a" "z" (upper_byte c) = false.
Proof. destruct c as [[] [] [] [] [] [] [] []]; reflexivity. Qed.

Lemma upper_space c : is_space (upper_byte c) = is_space c.
Proof. destruct c as [[] [] [] [] [] [] [] []]; reflexivity. Qed.

Lemma ToUpper_word w : all_bytes (fun c => negb (is_space c)) w = true -> all_bytes operation_byte (ToUpper w) = true.
Proof.
  induction w as [|c w IH]; [done|]. simpl. intros [Hc Hw]%andb_prop. unfold operation_byte at 1.
  by rewrite upper_space, upper_not_lower, Hc, IH.
Qed.

Lemma all_bytes_snoc p s c : all_bytes p (s +:+ String c EmptyString) = all_bytes p s && p c.
Proof. induction s as [|d s IH]; simpl; [by rewrite andb_true_r|]. by rewrite IH, andb_assoc. Qed.

(** The words of a text are not empty and have no separators. *)
Lemma fields_words sep s : forall cur, all_bytes (fun c => negb (sep c)) cur = true ->
  Forall (fun w => w <> EmptyString /\ all_bytes (fun c => negb (sep c)) w = true) (fields_func sep cur s).
Proof.
  induction s as [|c s IH]; intros cur Hcur; simpl.
  { case_decide; repeat constructor; done. }
  destruct (sep c) eqn:Ec.
  - case_decide; [by apply IH|]. constructor; [done|by apply IH].
  - apply IH. by rewrite all_bytes_snoc, Hcur, Ec.
Qed.

Theorem operation_name_word query : all_bytes operation_byte (SQLOperationName query) = true /\ SQLOperationName query <> "".
Proof.
  unfold SQLOperationName, FieldsFunc_str. pose proof (fields_words is_space query EmptyString eq_refl) as Hw.
  destruct (fields_func is_space EmptyString query) as [|w rest]; [done|]. apply Forall_cons in Hw as [[Hne Hw] _].
  split; [by apply ToUpper_word|]. by destruct w.
Qed.

(** Text of ASCII bytes. *)
Abbreviation plain := (all_bytes (fun c => byte_val c <? 128)).

Lemma plain_app a b : plain (a +:+ b) = plain a && plain b.
Proof. induction a as [|c a IH]; [done|]. simpl. by rewrite IH, andb_assoc. Qed.

Lemma digit_plain d : 0 <= d < 10 -> (byte_val (digit_char d) <? 128) = true.
Proof. intros Hd. unfold digit_char. rewrite byte_val_of by lia. apply Z.ltb_lt. lia. Qed.

Lemma format_nat_plain n : 0 <= n -> plain (format_nat n) = true.
Proof.
  intros Hn. pose proof (all_bytes_format_nat n Hn) as Hd. revert Hd. generalize (format_nat n). clear.
  induction s as [|c s IH]; [done|]. cbn [all_bytes]. intros [Hc Hs]%andb_prop. rewrite IH, andb_true_r by done.
  unfold is_digit, in_range in Hc. z_bool. apply Z.ltb_lt. change (byte_val "9") with 57 in *. lia.
Qed.

Lemma frac_digits_plain prec : forall v acc, plain acc = true -> plain (frac_digits prec v acc) = true.
Proof.
  induction prec as [|prec IH]; intros v acc Hacc; [done|]. cbn [frac_digits]. apply IH.
  assert ((byte_val (digit_char (v mod 10)) <? 128) = true) as Hd by (apply digit_plain, Z.mod_pos_bound; lia).
  destruct acc as [|c acc]; [destruct (v mod 10 =? 0); [done|]|]; cbn [all_bytes] in *; by rewrite Hd.
Qed.

Lemma frac_text_plain prec v : plain (frac_text prec v) = true.
Proof.
  unfold frac_text. pose proof (frac_digits_plain prec v EmptyString eq_refl) as H.
  destruct (frac_digits prec v EmptyString); [done|]. simpl. exact H.
Qed.

(** The text of a duration that is not negative is plain ASCII: the micro sign of
    [Duration.String] is never used. *)
Theorem duration_text_plain {F} key d : 0 <= d ->
  exists text, @KeyValueDuration F key d = (key, AString text) /\ plain text = true.
Proof.
  intros Hd. unfold KeyValueDuration, Microsecond, Millisecond.
  destruct (Z.leb_spec 1000 d); destruct (Z.ltb_spec d 1000000); cbn [andb]; eexists; (split; [reflexivity|]).
  - unfold FormatInt. rewrite Z.quot_div_nonneg by lia. assert (0 <= d / 1000) by (apply Z.div_pos; lia). destruct (Z.ltb_spec (d / 1000) 0); [lia|].
    by rewrite plain_app, format_nat_plain by lia.
  - unfold Duration_String. rewrite Z.abs_eq by lia. destruct (Z.ltb_spec d 0); [lia|].
    destruct (Z.eqb_spec d 0); [lia|]. destruct (Z.ltb_spec d 1000) as [?|_]; [lia|].
    destruct (Z.ltb_spec d 1000000) as [?|_]; [lia|].
    pose proof (Z.mod_pos_bound (d / 1000000000) 60 ltac:(lia)).
    pose proof (Z.mod_pos_bound (d / 1000000000 / 60) 60 ltac:(lia)).
    assert (0 <= d / 1000000000) by (apply Z.div_pos; lia).
    assert (0 <= d / 1000000000 / 60) by (apply Z.div_pos; lia).
    assert (0 <= d / 1000000000 / 60 / 60) by (apply Z.div_pos; lia). assert (0 <= d / 1000000) by (apply Z.div_pos; lia).
    repeat case_match; rewrite ?plain_app, ?frac_text_plain, ?format_nat_plain by lia; done.
  - unfold Duration_String. rewrite Z.abs_eq by lia. destruct (Z.ltb_spec d 0); [lia|].
    destruct (Z.ltb_spec d 1000000000); [|lia]. destruct (Z.eqb_spec d 0); [done|]. destruct (Z.ltb_spec d 1000); [|lia].
    by rewrite plain_app, format_nat_plain by lia.
  - lia.
Qed.

(** For a negative duration between a microsecond and a millisecond the micro sign
    is used after all. *)
Theorem negative_duration_micro {F} key d : - 1000000 < d <= - 1000 ->
  exists a b, @KeyValueDuration F key d = (key, AString (a +:+ micro +:+ b)).
Proof.
  intros Hd. unfold KeyValueDuration, Microsecond, Millisecond. destruct (Z.leb_spec 1000 d); [lia|]. cbn [andb].
  unfold Duration_String. destruct (Z.ltb_spec (Z.abs d) 1000000000); [|lia]. destruct (Z.eqb_spec (Z.abs d) 0); [lia|].
  destruct (Z.ltb_spec (Z.abs d) 1000); [lia|]. destruct (Z.ltb_spec (Z.abs d) 1000000); [|lia].
  destruct (Z.ltb_spec d 0); [|lia].
  exists (String "-" (format_nat (Z.abs d / 1000) +:+ frac_text 3 (Z.abs d))), "s".
  do 2 f_equal. rewrite append_cons. f_equal. by rewrite append_assoc.
Qed.

(** ** Witnesses *)

(** Contexts as lists of spans, the innermost first; odd spans are recording. *)
#[local] Instance demo_otel : Otel unit := {|
  ctx := list nat; span := nat;
  SpanFromContext := fun c => default 0%nat (head c);
  IsRecording := Nat.odd;
  tracer_Start := fun n c _ _ => ((2 * n + 1)%nat :: c, (2 * n + 1)%nat)
|}.

#[local] Instance demo_laws : OtelLaws demo_otel.
Proof. intros n c name opts. reflexivity. Qed.

Definition demo_tracer : Tracer (F := unit) := NewTracer [WithIncludeQueryParameters].
Definition demo_query : start_data (A := string) := QueryData "SELECT 1" ["x"].

Lemma operation_has_one_span_witness :
  exists s, ended (O := demo_otel) (op_end demo_query (op_start (fun x => x) demo_tracer 4 [1%nat] None demo_query).1
              (Some (mkError "boom" false None)) 0) = [s] /\ s = 9%nat.
Proof.
  destruct (operation_has_one_span (O := demo_otel) (fun x : string => x) demo_tracer 4 [1%nat] None demo_query
              (Some (mkError "boom" false None)) 0) as (s & name & opts & Hs & _ & He & _); [reflexivity|].
  exists s. split; [exact He|]. vm_compute in Hs. congruence.
Defined.

Lemma batch_spans_balanced_witness :
  exists s l, started (send_batch (O := demo_otel) (fun x : string => x) demo_tracer 1 [1%nat] None
                [("SELECT 1", ["x"], None); ("SELECT 2", [], Some (mkError "boom" false None))] None) = s :: l.
Proof.
  destruct (batch_spans_balanced (O := demo_otel) (fun x : string => x) demo_tracer 1 [1%nat] None
    [("SELECT 1", ["x"], None); ("SELECT 2", [], Some (mkError "boom" false None))] None) as (s & l & H & _); [reflexivity|].
  exists s, l. exact H.
Defined.

Lemma unrecorded_end_hits_caller_witness :
  ended (O := demo_otel) (op_end demo_query (op_start (fun x => x) demo_tracer 4 [2%nat] None demo_query).1 None 0) = [2%nat].
Proof. apply (unrecorded_end_hits_caller (O := demo_otel) (fun x : string => x) demo_tracer 4 [2%nat] None demo_query None 0). reflexivity. Defined.

Lemma batch_query_prefix_witness :
  exists s name opts rest,
  TraceBatchQuery (O := demo_otel) (fun x : string => x) demo_tracer 1 [1%nat] None "SELECT 1" [] None = Started s name opts :: rest /\
  name = "db.BatchQuery." +:+ "SELECT 1".
Proof.
  do 4 eexists. split; [reflexivity|].
  eapply (batch_query_prefix (O := demo_otel) (fun x : string => x) demo_tracer 1 [1%nat] None "SELECT 1" [] None); reflexivity.
Defined.

Lemma duration_text_plain_witness : exists text, @KeyValueDuration unit "d" 1500 = ("d", AString text) /\ plain text = true.
Proof. apply (duration_text_plain (F := unit) "d" 1500). lia. Defined.

Lemma negative_duration_micro_witness : exists a b, @KeyValueDuration unit "d" (-1500) = ("d", AString (a +:+ micro +:+ b)).
Proof. apply (negative_duration_micro (F := unit) "d" (-1500)). lia. Defined.
End PgxTracer.
