(* ===== verification/LoggerClient.v ===== *)
(** * The logger client: src/infra/logger_client (client.go, message.go)

    Validation and publication of change records.  The publisher and JSON are parameters; what
    is published is returned as a list. *)
From stdpp Require Import prelude strings list.
From Stdlib Require Import ZArith Lia.
From S2P Require Import Prelude.

Local Open Scope Z_scope.

Module LoggerClient.

Inductive Action := CreateAction | UpdateAction | DeleteAction | ReadAction.

Definition Action_String (a : Action) : string :=
  match a with CreateAction => "create" | UpdateAction => "update" | DeleteAction => "delete" | ReadAction => "read" end.

Definition ExhchangeName : string := "logger".

Section Client.
(** The bodies of records. *)
Context {V : Type}.

Record Record_ := mkRecord { rec_Id : string; NewState : option V }.

(** [Records] is [None] for a nil slice. *)
Record Message := mkMessage {
  Records : option (list Record_);
  UserId : Z;
  UserIp : string;
  Date : Z;
  m_Action : string;
  OperationId : string
}.

(** [now] is the time in seconds. *)
Definition NewMessage (now userId : Z) (userIp : string) (action : Action) (recordId : string) (recordBody : option V)
  : Message :=
  mkMessage (Some [mkRecord recordId recordBody]) userId userIp now (Action_String action) "".

Definition NewCreateMessage (now userId : Z) (userIp recordId : string) (body : option V) : Message :=
  NewMessage now userId userIp CreateAction recordId body.
Definition NewUpdateMessage (now userId : Z) (userIp recordId : string) (body : option V) : Message :=
  NewMessage now userId userIp UpdateAction recordId body.
Definition NewDeleteMessage (now userId : Z) (userIp recordId : string) : Message :=
  NewMessage now userId userIp DeleteAction recordId None.

Definition newline : string := String (Ascii.ascii_of_nat 10) EmptyString.

(** [errors.Join]: the messages, one per line. *)
Fixpoint join (errs : list string) : string :=
  match errs with [] => "" | [e] => e | e :: rest => e +:+ newline +:+ join rest end.

(** [ValidateMessage]; [None] is a nil message. *)
Definition ValidateMessage (message : option Message) : option string :=
  match message with
  | None => Some "message required"
  | Some m =>
      let errs := (if decide (UserIp m = "") then ["user ip required"] else []) ++
                  (if UserId m <=? 0 then ["user id required"] else []) ++
                  (if Date m <=? 0 then ["date required"] else []) in
      let ret errs := match errs with [] => None | _ => Some (join errs) end in
      if decide (m_Action m = Action_String CreateAction \/ m_Action m = Action_String UpdateAction) then
        ret (errs ++ match Records m with None => ["records required"] | Some _ => [] end)
      else if decide (m_Action m = Action_String DeleteAction) then ret errs
      else Some "invalid action"
  end.

(** What a message needs: a user, an address, a date, a known action, and records unless
    something is deleted. *)
Definition valid (m : Message) : Prop :=
  UserIp m <> "" /\ 0 < UserId m /\ 0 < Date m /\
  (m_Action m = "create" /\ is_Some (Records m) \/ m_Action m = "update" /\ is_Some (Records m) \/ m_Action m = "delete").

Lemma join_none errs : match errs with [] => None | _ => Some (join errs) end = None <-> errs = [].
Proof. by destruct errs. Qed.

(** [ValidateMessage] accepts exactly the valid messages. *)
Theorem validate_iff m : ValidateMessage (Some m) = None <-> valid m.
Proof.
  unfold ValidateMessage, valid, Action_String. set (errs := _ ++ _ ++ _).
  assert (errs = [] <-> UserIp m <> "" /\ 0 < UserId m /\ 0 < Date m) as Herr.
  { unfold errs. destruct (decide (UserIp m = "")), (Z.leb_spec (UserId m) 0), (Z.leb_spec (Date m) 0); simpl; split; (done || lia || tauto). }
  destruct (decide (_ \/ _)) as [Ha|Ha]; [|case_decide as Hd].
  - rewrite join_none. destruct (Records m) as [rs|]; [rewrite app_nil_r, Herr; naive_solver|].
    split; [by intros [_ ?]%app_eq_nil|]. intros (_ & _ & _ & [[_ [? ?]]|[[_ [? ?]]|Hd]]); [done..|]. rewrite Hd in Ha. naive_solver.
  - rewrite join_none, Herr. naive_solver.
  - split; [done|]. naive_solver.
Qed.

(** A message about reading is built without complaint and never accepted. *)
Theorem read_action_rejected now userId userIp recordId body :
  ValidateMessage (Some (NewMessage now userId userIp ReadAction recordId body)) = Some "invalid action".
Proof. reflexivity. Qed.

Definition formatKey (domainId : Z) (objClass : string) : string :=
  "logger." +:+ FormatInt domainId +:+ "." +:+ objClass.

(** A publication: exchange, routing key and body. *)
Abbreviation publication := (string * string * string)%type.

(** A publisher answers a publication with an error or not. *)
Abbreviation Publisher := (publication -> option string).

(** [Logger]; [None] is a nil publisher. *)
Record Logger := mkLogger { publisher : option Publisher }.

Definition LoggerOpts := Logger -> res string Logger.

Definition WithPublisher (p : option Publisher) : LoggerOpts := fun _ =>
  match p with None => Err "publisher is nil" | Some _ => Ok (mkLogger p) end.

Fixpoint apply_opts (opts : list LoggerOpts) (l : Logger) : res string Logger :=
  match opts with
  | [] => Ok l
  | o :: opts => match o l with Ok l => apply_opts opts l | Err e => Err e end
  end.

Definition New (pub : option Publisher) (opts : list LoggerOpts) : res string Logger :=
  match apply_opts opts (mkLogger pub) with
  | Err e => Err e
  | Ok l => match publisher l with None => Err "publisher is nil" | Some _ => Ok l end
  end.

Context (Marshal : Message -> res string string).

Definition with_operation (id : string) (m : Message) : Message :=
  mkMessage (Records m) (UserId m) (UserIp m) (Date m) (m_Action m) id.

(** [SendContext]: the returned operation id, the error, what is published and the message as
    the caller sees it afterwards.  [uuid] is the new id. *)
Definition SendContext (l : Logger) (uuid : string) (domainId : Z) (object : string) (message : option Message)
  : outcome (string * option string * list publication * option Message) :=
  if decide (object = "") then Ret ("", Some "no object", [], message)
  else match message with
       | None => Ret ("", Some "message required", [], message)
       | Some m =>
           if domainId <=? 0 then Ret ("", Some "domain required", [], message)
           else match ValidateMessage message with
                | Some e => Ret ("", Some e, [], message)
                | None =>
                    let m := with_operation uuid m in
                    match Marshal m with
                    | Err e => Ret ("", Some e, [], Some m)
                    | Ok body =>
                        match publisher l with
                        | None => Panic "nil pointer dereference"
                        | Some publish =>
                            let p := (ExhchangeName, formatKey domainId object, body) in
                            Ret ("", publish p, [p], Some m)
                        end
                    end
                end
       end.

(** The logger of one class of objects. *)
Record ObjectedLogger := mkObjected { objClass : string; parent : option Logger }.

Definition GetObjectedLogger (l : Logger) (object : string) : res string ObjectedLogger :=
  if decide (object = "") then Err "object required" else Ok (mkObjected object (Some l)).

Definition Objected_SendContext (l : option ObjectedLogger) (uuid : string) (domainId : Z) (message : option Message)
  : outcome (string * option string * list publication * option Message) :=
  match l with
  | None => Ret ("", Some "logger is nil", [], message)
  | Some l =>
      match parent l with
      | None => Ret ("", Some "no parent logger", [], message)
      | Some p => SendContext p uuid domainId (objClass l) message
      end
  end.

Definition GetObjClass (l : ObjectedLogger) : string := objClass l.

(** ** Theorems *)

(** Nothing is published unless the object, the domain and the message are valid; then one
    message goes to the exchange of the logger under the key of the domain and the object, and
    the error is that of the publisher. *)
Theorem send_publishes l uuid domainId object m publish body :
  publisher l = Some publish -> Marshal (with_operation uuid m) = Ok body ->
  exists id err pubs m', SendContext l uuid domainId object (Some m) = Ret (id, err, pubs, m') /\
  (object <> "" /\ 0 < domainId /\ valid m ->
     let p := ("logger", formatKey domainId object, body) in pubs = [p] /\ err = publish p) /\
  (¬ (object <> "" /\ 0 < domainId /\ valid m) -> pubs = [] /\ is_Some err /\ m' = Some m).
Proof.
  intros Hp Hb. unfold SendContext. case_decide as Ho; [do 4 eexists; split; [done|]; split; [tauto|eauto]|].
  destruct (Z.leb_spec domainId 0); [do 4 eexists; split; [done|]; split; [lia|eauto]|].
  pose proof (validate_iff m) as Hv. destruct (ValidateMessage (Some m)) as [e|].
  - do 4 eexists. split; [done|]. split; [|by eauto]. intros (_ & _ & H1). by apply Hv in H1.
  - rewrite Hb, Hp. do 4 eexists. split; [done|]. split; [done|]. intros Hn. exfalso. apply Hn. split; [done|]. split; [done|by apply Hv].
Qed.

(** The operation id that is returned is always empty: the new id only reaches the message. *)
Theorem operation_id_never_returned l uuid domainId object message id err pubs m' :
  SendContext l uuid domainId object message = Ret (id, err, pubs, m') -> id = "".
Proof. unfold SendContext. repeat case_match; intros E; by simplify_eq. Qed.

End Client.
Arguments Message V : clear implicits.

(** ** Witnesses *)

Definition demo_message : Message string := NewCreateMessage 1700000000 7 "10.0.0.1" "42" (Some "{}").

Lemma send_publishes_witness : exists id err pubs m',
  SendContext (fun m => Ok (OperationId m)) (mkLogger (Some (fun _ => None))) "uuid" 1 "contacts" (Some demo_message)
    = Ret (id, err, pubs, m') /\ pubs = [("logger", "logger.1.contacts", "uuid")].
Proof.
  destruct (send_publishes (fun m => Ok (OperationId m)) (mkLogger (Some (fun _ => None))) "uuid" 1 "contacts" demo_message
              (fun _ => None) "uuid" eq_refl eq_refl) as (id & err & pubs & m' & E & H & _).
  exists id, err, pubs, m'. split; [exact E|]. destruct H as [Hp _]; [|exact Hp].
  split; [discriminate|]. split; [lia|]. apply validate_iff. reflexivity.
Defined.

Lemma operation_id_never_returned_witness : exists id err pubs m',
  SendContext (fun m => Ok (OperationId m)) (mkLogger (Some (fun _ => None))) "uuid" 1 "contacts" (Some demo_message)
    = Ret (id, err, pubs, m') /\ id = "".
Proof.
  do 4 eexists. split; [reflexivity|].
  eapply (operation_id_never_returned (fun m => Ok (OperationId m)) (mkLogger (Some (fun _ => None))) "uuid" 1 "contacts" (Some demo_message)).
  reflexivity.
Defined.

End LoggerClient.
