(* ===== verification/FtsClient.v ===== *)
(** * The full-text search client: src/infra/fts_client (client.go, message.go)

    The messages for the search index and their ids.  The publisher, JSON and fmt are
    parameters. *)
From stdpp Require Import prelude strings list.
From Stdlib Require Import ZArith Lia.
From S2P Require Import Prelude Float64.

Local Open Scope Z_scope.

Module FtsClient.

Definition exchange : string := "fts-stock".
Definition MessageCreate : string := "create".
Definition MessageUpdate : string := "update".
Definition MessageDelete : string := "delete".

(** A JSON value as encoding/json gives it to [any]; a number is a float64. *)
Inductive raw :=
| RNull | RBool (b : bool) | RNumber (f : Float64.f64) | RString (s : string) | ROther (text : string).

(** [fmt.Sprintf("%v", raw)] after the switch: a number has become an int64. *)
Definition sprint (r : raw) : string :=
  match r with
  | RNull => "<nil>"
  | RBool b => if b then "true" else "false"
  | RNumber f => FormatInt (i64 (Float64.ftrunc f))
  | RString s => s
  | ROther text => text
  end.

(** [MessageId.UnmarshalJSON]; [decoded] is what json.Unmarshal makes of the data. *)
Definition UnmarshalJSON (decoded : res string raw) : res string string :=
  match decoded with
  | Err e => Err ("cannot unmarshal MessageId: " +:+ e)
  | Ok r => Ok (sprint r)
  end.

(** A JSON number that is written as an integer. *)
Definition number (z : Z) : raw := RNumber (Float64.of_Z z).

Section Client.
Context {A V : Type}.

Record Message := mkMessage { Id : string; DomainId : Z; ObjectName : string; Date : Z; Body : option string }.

(** fmt.Sprintf("%v") of an id, json.Marshal of a row and of a message. *)
Context (Sprint : A -> string) (MarshalRow : V -> res string string) (MarshalMessage : Message -> res string string).

Definition NewMessageId (v : A) : string := Sprint v.

Definition NewMessageJSON (domainId : Z) (objectName : string) (id : A) (row : option V) : res string string :=
  let m body := mkMessage (NewMessageId id) domainId objectName 0 body in
  match row with
  | None => MarshalMessage (m None)
  | Some row => match MarshalRow row with Err e => Err e | Ok body => MarshalMessage (m (Some body)) end
  end.

(** What is sent: exchange, routing key, body. *)
Definition send (key : string) (Send : string * string * string -> option string) (msg : res string string)
  : option string * list (string * string * string) :=
  match msg with
  | Err e => (Some e, [])
  | Ok body => let p := (exchange, key, body) in (Send p, [p])
  end.

Definition Create (Send : string * string * string -> option string) (domainId : Z) (objectName : string) (id : A) (row : option V) :=
  send MessageCreate Send (NewMessageJSON domainId objectName id row).
Definition Update (Send : string * string * string -> option string) (domainId : Z) (objectName : string) (id : A) (row : option V) :=
  send MessageUpdate Send (NewMessageJSON domainId objectName id row).
Definition Delete (Send : string * string * string -> option string) (domainId : Z) (objectName : string) (id : A) :=
  send MessageDelete Send (NewMessageJSON domainId objectName id None).

(** A message is sent exactly when its row and itself can be encoded, and a deletion has no body. *)
Theorem delete_has_no_body Send domainId objectName id :
  Delete Send domainId objectName id =
    match MarshalMessage (mkMessage (Sprint id) domainId objectName 0 None) with
    | Err e => (Some e, [])
    | Ok body => (Send (exchange, "delete", body), [(exchange, "delete", body)])
    end.
Proof. unfold Delete, send, NewMessageJSON. by destruct (MarshalMessage _). Qed.

End Client.

(** Integer ids below 2^53 are read back as their decimal text. *)
Theorem integer_id_read z : 0 <= z < 2 ^ 53 -> UnmarshalJSON (Ok (number z)) = Ok (FormatInt z).
Proof.
  intros Hz. unfold UnmarshalJSON, sprint, number. pose proof (Float64.of_Z_exact_int z Hz) as [Hn Hd].
  rewrite (Float64.ftrunc_exact _ z) by done. rewrite wrap_signed_small by lia. done.
Qed.

Lemma integer_id_read_witness : UnmarshalJSON (Ok (number 9007199254740991)) = Ok (FormatInt 9007199254740991).
Proof. apply (integer_id_read 9007199254740991). lia. Defined.

(** Two different ids beyond 2^53 are read as the same one. *)
Theorem large_ids_collide : UnmarshalJSON (Ok (number 9007199254740993)) = UnmarshalJSON (Ok (number 9007199254740992)).
Proof. vm_compute. reflexivity. Qed.

End FtsClient.
