(* ===== verification/ProtocGen.v ===== *)
(** * The protoc plugin: src/cmd/protoc-gen-go-webitel/internal (extract.go, generate.go)

    The options of services and methods and the Go file that is generated from them, line by
    line.  Descriptors carry the values that protobuf gives for the extensions: the zero value
    where an extension is not set. *)
From stdpp Require Import prelude strings list.
From Stdlib Require Import ZArith Lia Ascii.
From S2P Require Import Prelude.

Local Open Scope go_scope.
Local Open Scope Z_scope.

Module ProtocGen.

(** ** Descriptors *)

(** google.api.HttpRule; the pattern is a oneof. *)
Inductive pattern :=
| Get (p : string) | Put (p : string) | Post (p : string) | Delete (p : string) | Patch (p : string)
| Custom (kind path : string) | NoPattern.

Inductive HttpRule := mkRule (pat : pattern) (Body : string) (AdditionalBindings : list HttpRule).

Definition rule_pattern (r : HttpRule) : pattern := let '(mkRule p _ _) := r in p.
Definition rule_body (r : HttpRule) : string := let '(mkRule _ b _) := r in b.
Definition rule_additional (r : HttpRule) : list HttpRule := let '(mkRule _ _ a) := r in a.

(** The extensions: [None] where one is not set. *)
Record Method := mkMethod {
  m_Name : string; InputType : string; OutputType : string;
  m_http : option HttpRule; m_access : option Z
}.

Record Service := mkService {
  s_Name : string; s_objclass : option string; s_license : option (list string); s_Method : list Method
}.

Record File := mkFile { GoPackageName : string; Services : list Service }.

(** [extractOption]: a nil options pointer is an interface that is not nil, so that the
    extension, or its zero value, is always returned. *)
Definition extractOption {A} (zero : A) (ext : option A) : res string A := Ok (default zero ext).

(** ** extract.go *)

Record HttpBinding := mkBinding { Path : string; Method_ : string }.

(** [newHttpBinding]; a nil rule has the zero fields. *)
Definition newHttpBinding (r : option HttpRule) (m : string) : res string HttpBinding :=
  let body := match r with Some r => rule_body r | None => "" end in
  let none := Ok (mkBinding "" "") in
  match match r with Some r => rule_pattern r | None => NoPattern end with
  | Get p =>
      if decide (p = "") then none
      else if decide (body = "") then Ok (mkBinding p "GET")
      else Err ("must not set request body when http method is GET: " +:+ m)
  | Put p => if decide (p = "") then none else Ok (mkBinding p "PUT")
  | Post p => if decide (p = "") then none else Ok (mkBinding p "POST")
  | Delete p =>
      if decide (p = "") then none
      else if decide (body = "") then Ok (mkBinding p "DELETE")
      else Err ("must not set request body when http method is DELETE except allow_delete_body option is true: " +:+ m)
  | Patch p => if decide (p = "") then none else Ok (mkBinding p "PATCH")
  | Custom kind path => Ok (mkBinding path kind)
  | NoPattern => none
  end.

(** The loop over the additional bindings. *)
Fixpoint additional (rules : list HttpRule) (m : string) (bs : list HttpBinding) : res string (list HttpBinding) :=
  match rules with
  | [] => Ok bs
  | v :: rules =>
      match rule_additional v with
      | _ :: _ => Err ("additional_binding in additional_binding not allowed: " +:+ m)
      | [] => let? b := newHttpBinding (Some v) m in additional rules m (bs ++ [b])
      end
  end.

Definition extractMethodHttpOption (p : Method) : res string (list HttpBinding) :=
  let? obj := extractOption None (Some <$> m_http p) in
  let? b := newHttpBinding obj (m_Name p) in
  additional (match obj with Some r => rule_additional r | None => [] end) (m_Name p) [b].

Definition extractMethodAccessOption (p : Method) : res string Z := extractOption 0 (m_access p).
Definition extractServiceObjClassOption (p : Service) : res string string := extractOption "" (s_objclass p).
Definition extractServiceAdditionalLicenseOption (p : Service) : res string (list string) := extractOption [] (s_license p).

(** ** generate.go *)

Definition quote : string := String (Ascii.ascii_of_nat 34) EmptyString.
Definition quoted (s : string) : string := quote +:+ s +:+ quote.

(** [reg.ReplaceAllString(s, "")] with the expression [^(.*\.)]: what follows the last dot. *)
Fixpoint after_dot (s : string) : option string :=
  match s with
  | EmptyString => None
  | String c s => match after_dot s with Some t => Some t | None => if decide (c = "."%char) then Some s else None end
  end.

Definition strip_package (s : string) : string := default s (after_dot s).

Definition generateType : list string :=
  ["// WebitelServicesInfo is the list of services defined in proto files.";
   "type WebitelServicesInfo map[string]WebitelServices"; "";
   "type WebitelServices struct {"; "ObjClass           string"; "AdditionalLicenses []string";
   "WebitelMethods     map[string]WebitelMethod"; "}"; "";
   "// WebitelMethod is the list of methods defined in this service.";
   "type WebitelMethod struct {"; "HttpBindings []*HttpBinding"; "Access       int"; "Input        string";
   "Output       string"; "}"; "";
   "type HttpBinding struct {"; "Path   string"; "Method string"; "}"; ""].

Definition binding_lines (h : HttpBinding) : list string :=
  ["{"; "Path: " +:+ quoted (Path h) +:+ ","; "Method: " +:+ quoted (Method_ h) +:+ ","; "},"].

Definition ok_lines {A} (f : A -> list string) (r : res string A) : list string :=
  match r with Ok a => f a | Err _ => [] end.

Definition method_lines (m : Method) : list string :=
  [quoted (m_Name m) +:+ ": WebitelMethod{"] ++
  ok_lines (fun acc => ["Access: " +:+ FormatInt acc +:+ ","]) (extractMethodAccessOption m) ++
  ["Input: " +:+ quoted (strip_package (InputType m)) +:+ ",";
   "Output: " +:+ quoted (strip_package (OutputType m)) +:+ ",";
   "HttpBindings: []*HttpBinding{"] ++
  ok_lines (fun ht => concat (map binding_lines ht)) (extractMethodHttpOption m) ++
  ["},"; "},"].

Definition service_lines (s : Service) : list string :=
  [quoted (s_Name s) +:+ ": WebitelServices{"] ++
  ok_lines (fun objclass => ["ObjClass: " +:+ quoted objclass +:+ ","]) (extractServiceObjClassOption s) ++
  ["AdditionalLicenses: []string{"] ++
  ok_lines (fun licenses => map (fun l => quoted l +:+ ",") licenses) (extractServiceAdditionalLicenseOption s) ++
  ["},"; "WebitelMethods: map[string]WebitelMethod{"] ++
  concat (map method_lines (s_Method s)) ++
  ["},"; "},"].

Definition generateFileContent (files : list File) : list string :=
  generateType ++ ["var WebitelAPI = WebitelServicesInfo{"] ++
  concat (map (fun f => concat (map service_lines (Services f))) files) ++ ["}"; ""].

(** The version of protoc: major, minor, patch and suffix. *)
Definition protocVersion (v : option (Z * Z * Z * string)) : string :=
  match v with
  | None => "(unknown)"
  | Some (major, minor, patch, s) =>
      let suffix := if decide (s = "") then "" else "-" +:+ s in
      "v" +:+ FormatInt major +:+ "." +:+ FormatInt minor +:+ "." +:+ FormatInt patch +:+ suffix
  end.

(** [Generate]: the lines of options.go; without a file the first one is out of range. *)
Definition Generate (protoc : option (Z * Z * Z * string)) (files : list File) (version : string) : outcome (list string) :=
  match files with
  | [] => Panic "index out of range"
  | f :: _ =>
      Ret (["// Code generated by protoc-gen-go-webitel. DO NOT EDIT."; "// versions:";
            "// - protoc-gen-go-webitel v" +:+ version; "// - protoc                " +:+ protocVersion protoc; "";
            "package " +:+ GoPackageName f; ""] ++ generateFileContent files)
  end.

(** ** Nesting of the output *)

Fixpoint last_byte (s : string) : option ascii :=
  match s with EmptyString => None | String c EmptyString => Some c | String _ s => last_byte s end.

(** A line that ends in an opening brace, and one that begins with a closing brace. *)
Definition opens (l : string) : bool := bool_decide (last_byte l = Some "{"%char).
Definition closes (l : string) : bool := match l with String "}"%char _ => true | _ => false end.

(** The nesting after the lines; [None] when a brace closes nothing. *)
Fixpoint nesting (d : nat) (ls : list string) : option nat :=
  match ls with
  | [] => Some d
  | l :: ls =>
      if closes l then match d with 0%nat => None | S d => nesting d ls end
      else nesting (if opens l then S d else d) ls
  end.

(** ** Lemmas *)

Lemma nesting_app a b d : nesting d (a ++ b) = match nesting d a with Some d => nesting d b | None => None end.
Proof.
  revert d. induction a as [|l a IH]; intros d; [done|]. cbn [app nesting]. destruct (closes l); [destruct d; [done|]|]; apply IH.
Qed.

Lemma nesting_seq a b d d' : nesting d a = Some d' -> nesting d (a ++ b) = nesting d' b.
Proof. intros E. by rewrite nesting_app, E. Qed.

Lemma nesting_concat {A} (f : A -> list string) l : (forall x d, nesting d (f x) = Some d) ->
  forall d, nesting d (concat (map f l)) = Some d.
Proof.
  intros Hf. induction l as [|x l IH]; intros d; [done|]. cbn [map concat]. by rewrite nesting_app, Hf.
Qed.

Lemma last_byte_app a c t : last_byte (a +:+ String c t) = last_byte (String c t).
Proof.
  induction a as [|d a IH]; [done|]. rewrite append_cons. cbn [last_byte]. rewrite IH.
  destruct (a +:+ String c t) eqn:E; [by destruct a|done].
Qed.

(** A line with quoted text neither begins with a closing brace nor ends in quotes. *)
Lemma quoted_closes s t : closes (quoted s +:+ t) = false.
Proof. reflexivity. Qed.

Lemma quoted_opens pre s c t : opens (pre +:+ quoted s +:+ String c t) = bool_decide (last_byte (String c t) = Some "{"%char).
Proof.
  unfold opens, quoted. f_equal. assert (pre +:+ (quote +:+ s +:+ quote) +:+ String c t = (pre +:+ quote +:+ s +:+ quote) +:+ String c t) as ->
    by (by rewrite !append_assoc). by rewrite last_byte_app.
Qed.

Lemma field_line pre s d rest : closes (pre +:+ quoted s +:+ ",") = false ->
  nesting d ((pre +:+ quoted s +:+ ",") :: rest) = nesting d rest.
Proof. intros Hc. cbn [nesting]. rewrite Hc. by rewrite quoted_opens. Qed.

Lemma comma_line a d rest : closes (a +:+ ",") = false -> nesting d ((a +:+ ",") :: rest) = nesting d rest.
Proof. intros Hc. cbn [nesting]. rewrite Hc. unfold opens. by rewrite last_byte_app. Qed.

Lemma open_line s t d rest : last_byte t = Some "{"%char -> t <> "" ->
  nesting d ((quoted s +:+ t) :: rest) = nesting (S d) rest.
Proof.
  intros Ht Hne. cbn [nesting]. rewrite quoted_closes. destruct t as [|c t]; [done|].
  change (quoted s +:+ String c t) with ("" +:+ quoted s +:+ String c t). rewrite quoted_opens, Ht. by rewrite bool_decide_true.
Qed.

Lemma binding_nesting h d : nesting d (binding_lines h) = Some d.
Proof.
  unfold binding_lines. cbn [nesting]. change (closes "{") with false. change (opens "{") with true. cbn iota.
  change (nesting (S d) ([("Path: " +:+ quoted (Path h) +:+ ","); ("Method: " +:+ quoted (Method_ h) +:+ ",")] ++ ["},"]) = Some d).
  cbn [app]. by rewrite !field_line.
Qed.

Lemma method_nesting m d : nesting d (method_lines m) = Some d.
Proof.
  unfold method_lines.
  rewrite (nesting_seq _ _ d (S d)) by (by rewrite open_line).
  rewrite (nesting_seq _ _ (S d) (S d)).
  2: { unfold extractMethodAccessOption, extractOption. cbn [ok_lines]. rewrite <- append_assoc. by rewrite comma_line. }
  rewrite (nesting_seq _ _ (S d) (S (S d))) by (by rewrite !field_line).
  rewrite (nesting_seq _ _ (S (S d)) (S (S d))); [done|].
  destruct (extractMethodHttpOption m) as [ht|e]; [|done]. apply nesting_concat, binding_nesting.
Qed.

Lemma service_nesting s d : nesting d (service_lines s) = Some d.
Proof.
  unfold service_lines.
  rewrite (nesting_seq _ _ d (S d)) by (by rewrite open_line).
  rewrite (nesting_seq _ _ (S d) (S d))
    by (unfold extractServiceObjClassOption, extractOption; cbn [ok_lines]; by rewrite field_line).
  rewrite (nesting_seq _ _ (S d) (S (S d))) by done.
  rewrite (nesting_seq _ _ (S (S d)) (S (S d))).
  2: { unfold extractServiceAdditionalLicenseOption, extractOption. cbn [ok_lines]. generalize (default [] (s_license s)).
       induction l as [|l ls IH]; [done|]. cbn [map]. by rewrite comma_line. }
  rewrite (nesting_seq _ _ (S (S d)) (S (S d))) by done.
  rewrite (nesting_seq _ _ (S (S d)) (S (S d))) by (apply nesting_concat, method_nesting). done.
Qed.

(** ** Theorems *)

(** For every list of files and whatever the options contain, the braces of the generated
    declarations are balanced, none closing more than was opened. *)
Theorem output_nested files : nesting 0 (generateFileContent files) = Some 0%nat.
Proof.
  unfold generateFileContent. rewrite (nesting_seq _ _ 0 0) by reflexivity.
  rewrite (nesting_seq _ _ 0 1) by reflexivity. rewrite (nesting_seq _ _ 1 1); [done|].
  apply nesting_concat. intros f d. apply nesting_concat, service_nesting.
Qed.

(** A rule that has a binding: no body with GET and DELETE. *)
Definition plain_rule (r : HttpRule) : Prop :=
  match rule_pattern r with Get p | Delete p => p = "" \/ rule_body r = "" | _ => True end.

Lemma newHttpBinding_ok r m : is_Ok (newHttpBinding (Some r) m) <-> plain_rule r.
Proof.
  unfold newHttpBinding, plain_rule, is_Ok.
  destruct (rule_pattern r); repeat case_decide; split; intros Hok; try done; try (by eexists); try naive_solver.
Qed.

Lemma additional_ok rules m : forall bs, is_Ok (additional rules m bs) <->
  Forall (fun r => plain_rule r /\ rule_additional r = []) rules.
Proof.
  induction rules as [|r rules IH]; intros bs; cbn [additional]; [split; [constructor|by eexists]|].
  rewrite Forall_cons. destruct (rule_additional r) eqn:Ea.
  - pose proof (newHttpBinding_ok r m) as Hb. destruct (newHttpBinding (Some r) m) as [b|e]; cbn [res_bind].
    + rewrite IH. assert (plain_rule r) by (apply Hb; by eexists). tauto.
    + split; [by intros [? ?]|]. intros [[Hp _] _]. apply Hb in Hp. by destruct Hp.
  - split; [by intros [? ?]|]. naive_solver.
Qed.

(** The bindings of a method are written exactly when its rule and every additional rule are plain and no
    additional rule has additional ones; otherwise all of them are left out. *)
Theorem bindings_written_iff p r : m_http p = Some r ->
  (exists bs, extractMethodHttpOption p = Ok bs) <->
  plain_rule r /\ Forall (fun r => plain_rule r /\ rule_additional r = []) (rule_additional r).
Proof.
  intros Hr. unfold extractMethodHttpOption, extractOption. rewrite Hr. cbn [fmap option_fmap option_map default from_option id res_bind].
  pose proof (newHttpBinding_ok r (m_Name p)) as Hb. pose proof (additional_ok (rule_additional r) (m_Name p)) as Ha.
  destruct (newHttpBinding (Some r) (m_Name p)) as [b|e]; cbn [res_bind].
  - etrans; [apply (Ha [b])|]. assert (plain_rule r) by (apply Hb; by eexists). tauto.
  - split; [by intros [? ?]|]. intros [Hp _]. apply Hb in Hp. by destruct Hp.
Qed.

(** A method without options is described as one with the access of a creation and with an empty
    HTTP binding. *)
Theorem bare_method m : m_http m = None -> m_access m = None ->
  extractMethodAccessOption m = Ok 0 /\ extractMethodHttpOption m = Ok [mkBinding "" ""].
Proof. intros Hh Ha. unfold extractMethodAccessOption, extractMethodHttpOption, extractOption. by rewrite Ha, Hh. Qed.

Lemma after_dot_none s : all_bytes (fun c => negb (bool_decide (c = "."%char))) s = true -> after_dot s = None.
Proof.
  induction s as [|c s IH]; [done|]. cbn [all_bytes after_dot]. intros [Hc Hs]%andb_prop. rewrite IH by done.
  case_bool_decide; [done|]. by rewrite decide_False.
Qed.

(** A type is named without its package: what follows the last dot. *)
Theorem type_name_local package name : all_bytes (fun c => negb (bool_decide (c = "."%char))) name = true ->
  strip_package (package +:+ "." +:+ name) = name /\ strip_package name = name.
Proof.
  intros Hn. unfold strip_package. pose proof (after_dot_none name Hn) as E. split; [|by rewrite E].
  assert (after_dot (package +:+ "." +:+ name) = Some name) as ->; [|done].
  induction package as [|c p IH].
  - change ("" +:+ "." +:+ name) with (String "." name). cbn [after_dot]. by rewrite E.
  - rewrite append_cons. cbn [after_dot]. by rewrite IH.
Qed.

(** Services of the same name in different packages get entries with the same key, which is not a
    valid map literal. *)
Theorem same_service_twice s1 s2 f1 f2 : s_Name s1 = s_Name s2 ->
  let key := quoted (s_Name s1) +:+ ": WebitelServices{" in
  exists a b c, generateFileContent [mkFile f1 [s1]; mkFile f2 [s2]] = a ++ [key] ++ b ++ [key] ++ c.
Proof.
  intros Hn key. set (t1 := drop 1 (service_lines s1)). set (t2 := drop 1 (service_lines s2)).
  exists (generateType ++ ["var WebitelAPI = WebitelServicesInfo{"]), t1, (t2 ++ ["}"; ""]).
  unfold generateFileContent. cbn [map concat Services]. rewrite !app_nil_r.
  assert (service_lines s1 = [key] ++ t1) as -> by reflexivity.
  assert (service_lines s2 = [key] ++ t2) as -> by (unfold key; rewrite Hn; reflexivity). by rewrite <- !app_assoc.
Qed.

(** ** Witnesses *)

Definition demo_rule : HttpRule := mkRule (Post "/contacts") "*" [mkRule (Get "/contacts/{id}") "" []].
Definition demo_method : Method := mkMethod "Create" ".webitel.CreateRequest" ".webitel.Contact" (Some demo_rule) (Some 0).

Lemma bindings_written_iff_witness : exists bs, extractMethodHttpOption demo_method = Ok bs.
Proof.
  apply (bindings_written_iff demo_method demo_rule); [reflexivity|]. split; [exact I|].
  constructor; [|constructor]. split; [right; reflexivity|reflexivity].
Defined.

Lemma bare_method_witness :
  extractMethodHttpOption (mkMethod "Ping" "" "" None None) = Ok [mkBinding "" ""].
Proof. apply (bare_method (mkMethod "Ping" "" "" None None)); reflexivity. Defined.

Lemma type_name_local_witness : strip_package ".webitel.contacts.Contact" = "Contact".
Proof. destruct (type_name_local ".webitel.contacts" "Contact" eq_refl) as [H _]. exact H. Defined.

Lemma same_service_twice_witness :
  let s := mkService "Contacts" None None [] in
  exists a b c, generateFileContent [mkFile "a" [s]; mkFile "b" [s]] =
    a ++ [quoted "Contacts" +:+ ": WebitelServices{"] ++ b ++ [quoted "Contacts" +:+ ": WebitelServices{"] ++ c.
Proof. intros s. apply (same_service_twice s s "a" "b"). reflexivity. Defined.

End ProtocGen.
