(* ===== verification/AppConfig.v ===== *)
(** * Shared configuration: src/appconfig

    Flags of the sections, their environment variables, the loader over viper, the TLS settings and the
    settings of a [sql.DB] pool.  viper is a class with an operation per call of the loader and the laws its manual states: what each
    operation sets, and the order in which a key is looked up in what has been set. *)
From stdpp Require Import prelude strings list.
From Stdlib Require Import ZArith Lia Ascii.
From S2P Require Import Prelude Strconv.

Local Open Scope Z_scope.

Module AppConfig.

(** ** Flags *)

Record Flag := mkFlag { Name : string; DefValue : string; Value : string; Changed : bool }.

#[global] Instance Flag_eq_dec : EqDecision Flag.
Proof. solve_decision. Defined.

(** The texts pflag gives the defaults of its kinds of flags. *)
Inductive kind := String_ (s : string) | Bool_ (b : bool) | Int_ (n : Z) | Duration_zero.

Definition def_text (k : kind) : string :=
  match k with
  | String_ s => s
  | Bool_ b => if b then "true" else "false"
  | Int_ n => FormatInt n
  | Duration_zero => "0s"
  end.

(** [fs.String], [fs.Bool], [fs.Int] and [fs.Duration]: a second flag of a name panics. *)
Definition define (name : string) (k : kind) (fs : list Flag) : outcome (list Flag) :=
  if decide (name ∈ Name <$> fs) then Panic ("flag redefined: " +:+ name)
  else Ret (fs ++ [mkFlag name (def_text k) (def_text k) false]).

Fixpoint define_all (defs : list (string * kind)) (fs : list Flag) : outcome (list Flag) :=
  match defs with
  | [] => Ret fs
  | (n, k) :: defs => match define n k fs with Ret fs => define_all defs fs | Panic p => Panic p end
  end.

Record Sections := mkSections { Log : bool; Postgres : bool; Redis : bool; Consul : bool; Pubsub : bool; Profiler : bool }.

Definition log_flags : list (string * kind) :=
  [("log.level", String_ "info"); ("log.json", Bool_ false); ("log.otel", Bool_ false); ("log.file", String_ "");
   ("log.console", Bool_ true)].
Definition postgres_flags : list (string * kind) :=
  [("postgres.dsn", String_ ""); ("postgres.max_open_conns", Int_ 0); ("postgres.max_idle_conns", Int_ 0);
   ("postgres.conn_max_idle_time", Duration_zero); ("postgres.conn_max_lifetime", Duration_zero)].
Definition redis_flags : list (string * kind) :=
  [("redis.addr", String_ "localhost:6379"); ("redis.password", String_ ""); ("redis.db", Int_ 0)].
Definition consul_flags : list (string * kind) := [("consul.addr", String_ "localhost:8500")].
Definition pubsub_flags : list (string * kind) := [("pubsub.url", String_ ""); ("pubsub.driver", String_ "rabbitmq")].
Definition profiler_flags : list (string * kind) :=
  [("profiler.addr", String_ ""); ("profiler.mutex_fraction", Int_ 1); ("profiler.block_rate", Int_ 1)].

Definition section_flags (s : Sections) : list (string * kind) :=
  [("config_file", String_ "")] ++
  (if Log s then log_flags else []) ++ (if Postgres s then postgres_flags else []) ++
  (if Redis s then redis_flags else []) ++ (if Consul s then consul_flags else []) ++
  (if Pubsub s then pubsub_flags else []) ++ (if Profiler s then profiler_flags else []).

Definition RegisterFlags (s : Sections) (fs : list Flag) : outcome (list Flag) := define_all (section_flags s) fs.

Definition RegisterGRPCConnFlags (prefix : string) (verifyDefault : bool) (fs : list Flag) : outcome (list Flag) :=
  define_all
    [(prefix +:+ ".verify_certs", Bool_ verifyDefault); (prefix +:+ ".ca", String_ ""); (prefix +:+ ".cert", String_ "");
     (prefix +:+ ".key", String_ ""); (prefix +:+ ".client.ca", String_ ""); (prefix +:+ ".client.cert", String_ "");
     (prefix +:+ ".client.key", String_ "")] fs.

(** [strings.NewReplacer(".", "_", "-", "_")] *)
Fixpoint replace_key (s : string) : string :=
  match s with
  | EmptyString => EmptyString
  | String c s => String (if decide (c = "."%char \/ c = "-"%char) then "_"%char else c) (replace_key s)
  end.

(** The environment variable of a key. *)
Definition env_name (replacer : string -> string) (k : string) : string := replacer (Strconv.ToUpper k).

(** ** viper *)

(** [p] is a parent of the dotted key [k]. *)
Definition parent (p k : string) : Prop := String.prefix (p +:+ ".") k = true.

Definition environment := string -> option string.

(** An empty variable is not set. *)
Definition env_value (env : environment) (replacer : string -> string) (k : string) : option string :=
  match env (env_name replacer k) with Some "" => None | o => o end.

(** The flag of a key: of two that differ in case only, the later one. *)
Definition flag_in (fs : list Flag) (k : string) : option Flag := find (fun f => bool_decide (ToLower (Name f) = k)) (reverse fs).

(** What the loader calls of viper, and what a viper holds: the flags bound to it, the name and the values of its file, the
    defaults, the replacer of keys and whether it reads the environment.  [disk] are the values of the file of a name. *)
Class Viper (V : Type) := {
  viper_New : V;
  SetEnvKeyReplacer : (string -> string) -> V -> V;
  AutomaticEnv : V -> V;
  SetDefault : string -> string -> V -> V;
  BindPFlags : list Flag -> V -> res string V;
  SetConfigFile : string -> V -> V;
  ReadInConfig : V -> res string V;
  Get : environment -> V -> string -> option string;
  flag_of : V -> string -> option Flag;
  file_of : V -> string -> option string;
  default_of : V -> string -> option string;
  replacer_of : V -> string -> string;
  auto_of : V -> bool;
  config_of : V -> string;
  disk : string -> string -> option string
}.

(** The variable of a key, for a viper that reads the environment. *)
Definition env_seen {V} `{Viper V} (env : environment) (v : V) (k : string) : option string :=
  if auto_of v then env_value env (replacer_of v) k else None.

(** The order of precedence of viper's manual: a changed flag, the environment, the file, the default. *)
Definition precedence {V} `{Viper V} (env : environment) (v : V) (k : string) : option string :=
  let lower := match env_seen env v k with
               | Some x => Some x
               | None => match file_of v k with Some x => Some x | None => default_of v k end
               end in
  match flag_of v k with
  | Some f => if Changed f then Some (Value f) else lower
  | None => lower
  end.

(** No parent of the key has a value of its own, which would hide the key. *)
Definition unshadowed {V} `{Viper V} (env : environment) (v : V) (k : string) : Prop :=
  forall p, parent p k -> flag_of v p = None /\ env_seen env v p = None /\ file_of v p = None /\ default_of v p = None.

(** Each operation sets one part; a key that has a value in the order of precedence is found there. *)
Class ViperLaws (V : Type) `{Viper V} := {
  new_empty : forall k, flag_of viper_New k = None /\ file_of viper_New k = None /\ default_of viper_New k = None;
  replacer_set : forall r v, replacer_of (SetEnvKeyReplacer r v) = r;
  replacer_keeps : forall r v k, let v' := SetEnvKeyReplacer r v in
    (flag_of v' k, file_of v' k, default_of v' k, auto_of v') = (flag_of v k, file_of v k, default_of v k, auto_of v);
  auto_set : forall v, auto_of (AutomaticEnv v) = true;
  auto_keeps : forall v k, let v' := AutomaticEnv v in
    (flag_of v' k, file_of v' k, default_of v' k, replacer_of v') = (flag_of v k, file_of v k, default_of v k, replacer_of v);
  default_set : forall k d v, default_of (SetDefault k d v) (ToLower k) = Some d;
  default_other : forall k d v k', k' <> ToLower k -> ~ parent (ToLower k) k' -> ~ parent k' (ToLower k) ->
    default_of (SetDefault k d v) k' = default_of v k';
  default_related : forall k d v k', parent (ToLower k) k' \/ parent k' (ToLower k) ->
    default_of (SetDefault k d v) k' = None;
  default_keeps : forall n d v k, let v' := SetDefault n d v in
    (flag_of v' k, file_of v' k, replacer_of v', auto_of v') = (flag_of v k, file_of v k, replacer_of v, auto_of v);
  bind_ok : forall fs v v' k, BindPFlags fs v = Ok v' ->
    flag_of v' k = match flag_in fs k with Some f => Some f | None => flag_of v k end /\
    (file_of v' k, default_of v' k, replacer_of v', auto_of v') = (file_of v k, default_of v k, replacer_of v, auto_of v);
  config_set : forall f v, config_of (SetConfigFile f v) = f;
  config_keeps : forall f v k, let v' := SetConfigFile f v in
    (flag_of v' k, file_of v' k, default_of v' k, replacer_of v', auto_of v') =
    (flag_of v k, file_of v k, default_of v k, replacer_of v, auto_of v);
  read_ok : forall v v' k, ReadInConfig v = Ok v' -> file_of v' k = disk (V := V) (config_of v) k /\
    (flag_of v' k, default_of v' k, replacer_of v', auto_of v') = (flag_of v k, default_of v k, replacer_of v, auto_of v);
  get_precedence : forall env v k x, k = ToLower k -> unshadowed env v k -> precedence env v k = Some x -> Get env v k = Some x
}.

(** ** The loader *)

Section Loader.
Context {V T : Type} `{Viper V} (env : environment) (unmarshal : environment -> V -> res string T).

Record Loader := mkLoader { lv : V; sections : Sections }.

Definition NewLoader (s : Sections) : Loader :=
  let v := viper_New in
  let v := SetEnvKeyReplacer replace_key v in
  let v := AutomaticEnv v in
  mkLoader v s.

(** The visit of [Load]: the defaults of the flags that were not given. *)
Definition sync_defaults (fs : list Flag) (v : V) : V :=
  foldl (fun v f => if Changed f then v else SetDefault (Name f) (DefValue f) v) v fs.

(** [GetString]: a key without a value is empty. *)
Definition GetString (v : V) (k : string) : string := default "" (Get env v k).

(** The file of the flags and variables, when there is one. *)
Definition read_file (v : V) : res string V :=
  let f := GetString v "config_file" in
  if decide (f = "") then Ok v
  else match ReadInConfig (SetConfigFile f v) with
       | Ok v => Ok v
       | Err e => Err ("appconfig: read config file " +:+ f +:+ ": " +:+ e)
       end.

Definition Load (l : Loader) (fs : list Flag) : res string (Loader * T) :=
  let v := sync_defaults fs (lv l) in
  match BindPFlags fs v with
  | Err e => Err ("appconfig: bind flags: " +:+ e)
  | Ok v =>
      match read_file v with
      | Err e => Err e
      | Ok v =>
          match unmarshal env v with
          | Err e => Err ("appconfig: unmarshal: " +:+ e)
          | Ok target => Ok (mkLoader v (sections l), target)
          end
      end
  end.

End Loader.
Arguments mkLoader {V} lv sections.
Arguments lv {V}.
Arguments sections {V}.

(** ** TLS settings *)

Record TLS := mkTLS { CA : string; Cert : string; Key : string }.
Record GRPCConn := mkConn { conn_TLS : TLS; VerifyCerts : bool; Client : TLS }.

(** Errors: a [configErr], or any other error, maybe wrapped with [%w]. *)
Inductive error := configErr (msg : string) | Other (msg : string) | Wrapped (text : string) (inner : error).

Definition Error (e : error) : string :=
  match e with configErr m => "config: " +:+ m | Other m => m | Wrapped t _ => t end.

Fixpoint IsConfigError (e : error) : bool :=
  match e with configErr _ => true | Other _ => false | Wrapped _ e => IsConfigError e end.

Definition ValidateTLS (prefix : string) (t : TLS) : option error :=
  if decide (CA t = "") then Some (configErr (prefix +:+ ".ca is required when verify_certs is true"))
  else if decide (Cert t = "") then Some (configErr (prefix +:+ ".cert is required when verify_certs is true"))
  else if decide (Key t = "") then Some (configErr (prefix +:+ ".key is required when verify_certs is true"))
  else None.

Definition ValidateGRPCConn (prefix : string) (conn : GRPCConn) : option error :=
  if VerifyCerts conn then ValidateTLS prefix (conn_TLS conn) else None.

(** ** The pool of a [sql.DB] *)

(** The settings a [sql.DB] keeps; [maxIdleCount] 0 is the default of 2, -1 is none. *)
Record DB := mkDB { maxOpen : Z; maxIdleCount : Z; maxIdleTime : Z; maxLifetime : Z }.

Definition sql_Open : DB := mkDB 0 0 0 0.

Definition maxIdleConns (db : DB) : Z :=
  if maxIdleCount db =? 0 then 2 else if maxIdleCount db <? 0 then 0 else maxIdleCount db.

Definition SetMaxIdleConns (n : Z) (db : DB) : DB :=
  let db := mkDB (maxOpen db) (if 0 <? n then n else -1) (maxIdleTime db) (maxLifetime db) in
  if (0 <? maxOpen db) && (maxOpen db <? maxIdleConns db)
  then mkDB (maxOpen db) (maxOpen db) (maxIdleTime db) (maxLifetime db) else db.

Definition SetMaxOpenConns (n : Z) (db : DB) : DB :=
  let db := mkDB (if n <? 0 then 0 else n) (maxIdleCount db) (maxIdleTime db) (maxLifetime db) in
  if (0 <? maxOpen db) && (maxOpen db <? maxIdleConns db) then SetMaxIdleConns n db else db.

Record PostgresConfig := mkPostgres {
  DSN : string; MaxOpenConns : Z; MaxIdleConns : Z; ConnMaxIdleTime : Z; ConnMaxLifetime : Z
}.

Definition ApplyToSQLDB (p : PostgresConfig) (db : DB) : DB :=
  let db := if 0 <? MaxOpenConns p then SetMaxOpenConns (MaxOpenConns p) db else db in
  let db := if 0 <? MaxIdleConns p then SetMaxIdleConns (MaxIdleConns p) db else db in
  let db := if 0 <? ConnMaxIdleTime p
    then mkDB (maxOpen db) (maxIdleCount db) (ConnMaxIdleTime p) (maxLifetime db) else db in
  if 0 <? ConnMaxLifetime p then mkDB (maxOpen db) (maxIdleCount db) (maxIdleTime db) (ConnMaxLifetime p) else db.

(** ** Theorems on flags *)

Lemma define_all_spec defs : forall fs, NoDup (defs.*1 ++ (Name <$> fs)) ->
  define_all defs fs = Ret (fs ++ ((fun d => mkFlag d.1 (def_text d.2) (def_text d.2) false) <$> defs)).
Proof.
  induction defs as [|[n k] defs IH]; intros fs Hnd; cbn [define_all fmap list_fmap]; [by rewrite app_nil_r|].
  cbn in Hnd. apply NoDup_cons in Hnd as [Hn Hnd]. unfold define. rewrite decide_False by set_solver.
  rewrite IH, <- app_assoc; [done|]. rewrite fmap_app. cbn. rewrite (Permutation_app_comm (Name <$> fs)), Permutation_app_swap_app.
  cbn. by apply NoDup_cons.
Qed.

Lemma define_all_clash defs n : forall fs, n ∈ defs.*1 -> n ∈ Name <$> fs -> exists m, define_all defs fs = Panic m.
Proof.
  induction defs as [|[x k] defs IH]; intros fs Hn Hf; [set_solver|]. cbn [define_all]. unfold define.
  case_decide as D; [by eexists|]. apply IH; [|set_solver]. cbn in Hn. set_solver.
Qed.

(** The flag that a definition adds. *)
Definition flag_def (d : string * kind) : Flag := mkFlag d.1 (def_text d.2) (def_text d.2) false.

(** The prefix of a section in the names of its flags. *)
Definition section_of (name : string) : string := fst (span (fun c => negb (bool_decide (c = "."%char))) name).

Definition enabled (s : Sections) (sec : string) : bool :=
  match sec with
  | "config_file" => true | "log" => Log s | "postgres" => Postgres s | "redis" => Redis s
  | "consul" => Consul s | "pubsub" => Pubsub s | "profiler" => Profiler s | _ => false
  end.

(** What registration relies on, by cases on the sections. *)
Lemma section_flags_good s : NoDup (env_name replace_key <$> (section_flags s).*1) /\
  Forall (fun n => enabled s (section_of n) = true) (section_flags s).*1.
Proof.
  destruct s as [[] [] [] [] [] []]; (split; [apply (bool_decide_unpack _); vm_compute; exact I|]);
    repeat constructor; reflexivity.
Qed.

(** Registration in an empty flag set never panics and gives exactly the flags of the sections, each with its
    default, each belonging to a section that is on; no two of them have the same environment variable. *)
Theorem register_flags_exact s :
  RegisterFlags s [] = Ret (flag_def <$> section_flags s) /\
  (forall f, f ∈ flag_def <$> section_flags s -> enabled s (section_of (Name f)) = true) /\
  NoDup ((fun f => env_name replace_key (Name f)) <$> (flag_def <$> section_flags s)).
Proof.
  destruct (section_flags_good s) as [Hnd Hall]. split.
  - unfold RegisterFlags. rewrite define_all_spec; [done|]. cbn. rewrite app_nil_r. by apply NoDup_fmap_1 in Hnd.
  - split.
    + intros f (d & -> & Hd)%list_elem_of_fmap. rewrite Forall_forall in Hall. apply (Hall d.1). by apply (list_elem_of_fmap_2 fst).
    + rewrite <- list_fmap_compose in Hnd. rewrite <- list_fmap_compose. exact Hnd.
Qed.

(** A second loader on the same flag set panics, and so do the flags of a connection whose prefix is that of the
    client certificates of another one. *)
Theorem registration_panics :
  (forall s1 s2 fs, RegisterFlags s1 [] = Ret fs -> exists m, RegisterFlags s2 fs = Panic m) /\
  (forall prefix b1 b2 fs, RegisterGRPCConnFlags prefix b1 [] = Ret fs ->
     exists m, RegisterGRPCConnFlags (prefix +:+ ".client") b2 fs = Panic m).
Proof.
  split.
  - intros s1 s2 fs Hr. apply (define_all_clash _ "config_file"); [unfold section_flags; cbn; set_solver|].
    destruct (section_flags_good s1) as [Hnd _]. unfold RegisterFlags in Hr.
    rewrite define_all_spec in Hr by (cbn; rewrite app_nil_r; by apply NoDup_fmap_1 in Hnd).
    injection Hr as <-. unfold section_flags. cbn. set_solver.
  - intros prefix b1 b2 fs Hr. apply (define_all_clash _ (prefix +:+ ".client.ca")).
    + cbn. rewrite !append_assoc. cbn. set_solver.
    + unfold RegisterGRPCConnFlags in Hr. rewrite define_all_spec in Hr.
      * injection Hr as <-. cbn. set_solver.
      * cbn. repeat (apply NoDup_cons; split; [|]); try apply NoDup_nil_2;
          rewrite ?elem_of_cons, ?elem_of_nil; intros Hx; repeat destruct Hx as [Hx|Hx]; try done;
          apply (inj (String.append prefix)) in Hx; discriminate.
Qed.

(** ** Theorems on the loader *)

(** Flag sets whose names are in lower case, distinct, and none a parent of another. *)
Definition plain_flags (fs : list Flag) : Prop :=
  NoDup (Name <$> fs) /\ forall f, f ∈ fs -> ToLower (Name f) = Name f /\ forall g, g ∈ fs -> ~ parent (Name f) (Name g).

#[global] Instance parent_dec p k : Decision (parent p k).
Proof. unfold parent. apply _. Defined.

(** The parents of a key. *)
Fixpoint parents (k : string) : list string :=
  match k with
  | EmptyString => []
  | String c k => (if decide (c = "."%char) then [""] else []) ++ (String c <$> parents k)
  end.

Lemma parent_elem k : forall p, parent p k -> p ∈ parents k.
Proof.
  unfold parent. induction k as [|c k IH]; intros [|x p] Hp; try done; rewrite ?append_cons in Hp; cbn [String.prefix] in Hp.
  - change ("" +:+ ".") with "." in Hp. cbn [String.prefix] in Hp. destruct (ascii_dec "." c) as [<-|]; [|discriminate]. cbn. set_solver.
  - destruct (ascii_dec x c) as [->|]; [|discriminate]. cbn [parents]. apply elem_of_app. right. by apply list_elem_of_fmap_2, IH.
Qed.

Section LoaderTheorems.
Context {V T : Type} `{ViperLaws V}.

Lemma flag_in_elem fs f : plain_flags fs -> f ∈ fs -> flag_in fs (Name f) = Some f.
Proof.
  intros [Hnd Hp] Hf. unfold flag_in. assert (f ∈ reverse fs) as Hr by (by rewrite elem_of_reverse).
  assert (forall g, g ∈ reverse fs -> g ∈ fs) as Hs by (intros g; by rewrite elem_of_reverse).
  assert (forall g, g ∈ fs -> Name g = Name f -> g = f) as Hu.
  { intros g Hg E. apply list_elem_of_lookup in Hg as [i Hi]. apply list_elem_of_lookup in Hf as [j Hj].
    assert (i = j) as ->; [|congruence]. apply (NoDup_lookup (Name <$> fs) i j (Name f)); [done| |]; rewrite list_lookup_fmap, ?Hi, ?Hj; cbn; congruence. }
  induction (reverse fs) as [|g l IH]; [set_solver|]. cbn [find]. case_bool_decide as E.
  - f_equal. apply Hu; [apply Hs; set_solver|]. rewrite <- E. symmetry. apply Hp, Hs. set_solver.
  - apply IH; [|set_solver]. apply elem_of_cons in Hr as [->|Hr]; [|done]. destruct E. by apply Hp.
Qed.

Lemma flag_in_none fs k : (forall f, f ∈ fs -> ToLower (Name f) <> k) -> flag_in fs k = None.
Proof.
  intros Hn. unfold flag_in. assert (forall g, g ∈ reverse fs -> g ∈ fs) as Hs by (intros g; by rewrite elem_of_reverse).
  induction (reverse fs) as [|g l IH]; [done|]. cbn [find]. rewrite bool_decide_eq_false_2 by (apply Hn, Hs; set_solver).
  apply IH. set_solver.
Qed.

Lemma sync_keeps fs : forall v k, let v' := sync_defaults fs v in
  (flag_of v' k, file_of v' k, replacer_of v', auto_of v') = (flag_of v k, file_of v k, replacer_of v, auto_of v).
Proof.
  induction fs as [|f fs IH]; intros v k; [done|]. cbv zeta. change (sync_defaults (f :: fs) v) with
    (sync_defaults fs (if Changed f then v else SetDefault (Name f) (DefValue f) v)).
  rewrite (IH (if Changed f then v else SetDefault (Name f) (DefValue f) v) k). destruct (Changed f); [done|apply default_keeps].
Qed.

Lemma sync_none fs : forall v k, default_of v k = None -> (forall f, f ∈ fs -> ToLower (Name f) <> k) ->
  default_of (sync_defaults fs v) k = None.
Proof.
  induction fs as [|f fs IH]; intros v k Hv Hn; [done|]. change (sync_defaults (f :: fs) v) with
    (sync_defaults fs (if Changed f then v else SetDefault (Name f) (DefValue f) v)).
  apply IH; [|set_solver]. destruct (Changed f); [done|].
  destruct (decide (parent (ToLower (Name f)) k)); [by apply default_related; left|].
  destruct (decide (parent k (ToLower (Name f)))); [by apply default_related; right|].
  rewrite default_other; [done| |done|done]. intros ->. by apply (Hn f); [set_solver|].
Qed.

Lemma sync_other fs : forall v k, (forall f, f ∈ fs -> ToLower (Name f) <> k /\ ~ parent (ToLower (Name f)) k /\ ~ parent k (ToLower (Name f))) ->
  default_of (sync_defaults fs v) k = default_of v k.
Proof.
  induction fs as [|f fs IH]; intros v k Hn; [done|]. change (sync_defaults (f :: fs) v) with
    (sync_defaults fs (if Changed f then v else SetDefault (Name f) (DefValue f) v)).
  rewrite IH by set_solver. destruct (Changed f); [done|]. destruct (Hn f) as (? & ? & ?); [set_solver|].
  by apply default_other; [congruence| |].
Qed.

Lemma sync_default fs f : forall v, plain_flags fs -> f ∈ fs -> Changed f = false ->
  default_of (sync_defaults fs v) (Name f) = Some (DefValue f).
Proof.
  induction fs as [|g fs IH]; intros v [Hnd Hp] Hf Hc; [set_solver|]. change (sync_defaults (g :: fs) v) with
    (sync_defaults fs (if Changed g then v else SetDefault (Name g) (DefValue g) v)).
  cbn in Hnd. apply NoDup_cons in Hnd as [Hg Hnd]. apply elem_of_cons in Hf as [->|Hf].
  - rewrite Hc. destruct (Hp g ltac:(set_solver)) as [El Hpar]. rewrite sync_other.
    + rewrite <- El at 2. apply default_set.
    + intros h Hh. destruct (Hp h ltac:(set_solver)) as [-> Hph]. repeat split; [|apply Hph; set_solver|apply Hpar; set_solver].
      intros E. apply Hg. rewrite <- E. by apply list_elem_of_fmap_2.
  - apply IH; [|done|done]. split; [done|]. intros h Hh. destruct (Hp h ltac:(set_solver)) as [? Hph].
    split; [done|]. intros g' Hg'. apply Hph. set_solver.
Qed.

(** A viper with the flags of the loader, its settings, and the values [file]. *)
Definition loaded (s : Sections) (fs : list Flag) (file : string -> option string) (v : V) : Prop := forall k,
  flag_of v k = flag_in fs k /\ file_of v k = file k /\ default_of v k = default_of (sync_defaults fs (lv (NewLoader (V := V) s))) k /\
  replacer_of v = replace_key /\ auto_of v = true.

Lemma bound_loaded s fs v : BindPFlags fs (sync_defaults fs (lv (NewLoader (V := V) s))) = Ok v -> loaded s fs (fun _ => None) v.
Proof.
  unfold loaded, NewLoader. cbn [lv]. intros Hb k. destruct (bind_ok _ _ _ k Hb) as [Hf [= Hfi Hd Hr Ha]]. pose proof (sync_keeps fs (lv (NewLoader (V := V) s)) k) as [= E1 E2 E3 E4].
  cbn [lv NewLoader] in *. rewrite Hf, Hfi, Hd, Hr, Ha, E1, E2, E3, E4.
  pose proof (auto_keeps (SetEnvKeyReplacer replace_key viper_New) k) as [= -> -> _ ->].
  pose proof (replacer_keeps replace_key viper_New k) as [= -> -> _ _]. rewrite replacer_set, auto_set.
  destruct (new_empty k) as (-> & -> & _). by destruct (flag_in fs k).
Qed.

Lemma file_loaded s fs f v v' : loaded s fs (fun _ => None) v -> ReadInConfig (SetConfigFile f v) = Ok v' -> loaded s fs (disk (V := V) f) v'.
Proof.
  intros Hl Hr k. destruct (Hl k) as (E1 & _ & E3 & E4 & E5). destruct (read_ok _ _ k Hr) as [Hf [= H1 H2 H3 H4]].
  pose proof (config_keeps f v k) as [= C1 _ C3 C4 C5]. rewrite Hf, H1, H2, H3, H4, C1, C3, C4, C5, config_set. done.
Qed.

(** The value of a flag of such a viper. *)
Lemma loaded_get env s fs file v f : loaded s fs file v -> plain_flags fs -> f ∈ fs ->
  (forall p, parent p (Name f) -> env_value env replace_key p = None /\ file p = None) ->
  Get env v (Name f) = Some (
    if Changed f then Value f else default (default (DefValue f) (file (Name f))) (env_value env replace_key (Name f))).
Proof.
  intros Hl Hp Hf Hpar. apply get_precedence; [symmetry; by apply Hp| |].
  - intros p Hpn. destruct (Hl p) as (-> & -> & -> & E4 & E5). unfold env_seen. rewrite E4, E5. destruct (Hpar p Hpn) as [-> ->].
    assert (forall g, g ∈ fs -> ToLower (Name g) <> p) as Hno.
    { intros g Hg E. destruct (proj2 Hp g Hg) as [El Hnp]. apply (Hnp f Hf). by rewrite <- El, E. }
    split; [by apply flag_in_none|]. split; [done|]. split; [done|]. apply sync_none; [|done]. unfold NewLoader. cbn [lv].
    pose proof (auto_keeps (SetEnvKeyReplacer replace_key viper_New) p) as [= _ _ -> _].
    pose proof (replacer_keeps replace_key viper_New p) as [= _ _ -> _]. by destruct (new_empty p) as (_ & _ & ->).
  - unfold precedence, env_seen. destruct (Hl (Name f)) as (-> & -> & -> & -> & ->). rewrite (flag_in_elem fs f Hp Hf).
    destruct (Changed f) eqn:Ec; [done|]. destruct (env_value env replace_key (Name f)); [done|]. destruct (file (Name f)); [done|].
    by rewrite (sync_default fs f).
Qed.

(** The name of the file, from the command line, the environment or the default of its flag. *)
Definition file_name (env : environment) (c : Flag) : string :=
  if Changed c then Value c else default (DefValue c) (env_value env replace_key "config_file").

(** The values of that file; without a name there are none. *)
Definition file_values (env : environment) (c : Flag) (k : string) : option string :=
  if decide (file_name env c = "") then None else disk (V := V) (file_name env c) k.

Lemma load_loaded env unmarshal s fs l (t : T) c : Load env unmarshal (NewLoader (V := V) s) fs = Ok (l, t) -> plain_flags fs ->
  c ∈ fs -> Name c = "config_file" -> loaded s fs (file_values env c) (lv l).
Proof.
  unfold Load. intros Hl Hp Hc Hn. destruct (BindPFlags fs _) as [v1|e] eqn:Eb; [|done]. apply bound_loaded in Eb.
  destruct (read_file env v1) as [v2|e] eqn:Er; [|done]. destruct (unmarshal env v2) as [x|e]; [|done]. injection Hl as <- <-. cbn [lv].
  assert (GetString env v1 "config_file" = file_name env c) as Hg.
  { unfold GetString. rewrite <- Hn at 1. rewrite (loaded_get env s fs _ v1 c Eb Hp Hc); [by rewrite Hn|].
    rewrite Hn. intros p Hpar%parent_elem. by apply elem_of_nil in Hpar. }
  unfold read_file in Er. rewrite Hg in Er. unfold file_values. intros k. case_decide as D.
  - injection Er as <-. apply Eb.
  - destruct (ReadInConfig _) as [w|] eqn:Ew; [|done]. injection Er as <-. by apply (file_loaded s fs _ v1).
Qed.

(** C21: after a load, the value of a registered flag is the one given on the command line, else a non-empty environment
    variable named by the flag in upper case with underscores, else that of the configuration file, else the default of the flag;
    the file is the one whose name the flag [config_file] has by the same rule, if that is not empty.
    That is for flags in lower case, none a parent of another, whose parents have no value in the environment or the file; that a
    viper looks in the parts that were set in this order is taken from its manual. *)
Theorem load_precedence env unmarshal s fs l (t : T) c f :
  Load env unmarshal (NewLoader (V := V) s) fs = Ok (l, t) -> plain_flags fs -> c ∈ fs -> Name c = "config_file" -> f ∈ fs ->
  (forall p, parent p (Name f) -> env_value env replace_key p = None /\ file_values env c p = None) ->
  Get env (lv l) (Name f) = Some (
    if Changed f then Value f
    else default (default (DefValue f) (file_values env c (Name f))) (env_value env replace_key (Name f))).
Proof.
  intros Hl Hp Hc Hn Hf Hpar. eapply loaded_get; [by eapply load_loaded|done|done|done].
Qed.

End LoaderTheorems.

(** Two keys that differ in a dot, a dash or an underscore have the same environment variable. *)
Theorem separators_share_variable p q :
  env_name replace_key (p +:+ "." +:+ q) = env_name replace_key (p +:+ "_" +:+ q) /\
  env_name replace_key (p +:+ "-" +:+ q) = env_name replace_key (p +:+ "_" +:+ q).
Proof. unfold env_name. induction p as [|c p [IH1 IH2]]; [done|]. rewrite !(append_cons c p).
  cbn [Strconv.ToUpper replace_key]. by rewrite IH1, IH2.
Qed.

(** ** Theorems on TLS settings and pools *)

(** A connection is valid exactly when verification is off or its three paths are given; a refusal is a configuration
    error, also when it is wrapped.  The certificates of the client are not looked at. *)
Theorem validate_conn_iff prefix conn :
  (ValidateGRPCConn prefix conn = None <->
    (VerifyCerts conn = true -> CA (conn_TLS conn) <> "" /\ Cert (conn_TLS conn) <> "" /\ Key (conn_TLS conn) <> "")) /\
  (forall e text, ValidateGRPCConn prefix conn = Some e -> IsConfigError (Wrapped text e) = true) /\
  (forall c, ValidateGRPCConn prefix (mkConn (conn_TLS conn) (VerifyCerts conn) c) = ValidateGRPCConn prefix conn).
Proof.
  unfold ValidateGRPCConn, ValidateTLS. destruct conn as [[ca cert key] [] cl]; cbn; repeat case_decide; naive_solver.
Qed.

Lemma set_idle n db : 0 < n -> let d := SetMaxIdleConns n db in
  maxOpen d = maxOpen db /\ maxIdleTime d = maxIdleTime db /\ maxLifetime d = maxLifetime db /\
  maxIdleConns d = if 0 <? maxOpen db then Z.min n (maxOpen db) else n.
Proof.
  intros Hn. unfold SetMaxIdleConns. rewrite (proj2 (Z.ltb_lt 0 n) Hn). cbn [maxOpen maxIdleTime maxLifetime].
  assert (forall o x a b, 0 < x -> maxIdleConns (mkDB o x a b) = x) as Hx.
  { intros. unfold maxIdleConns. cbn. destruct (Z.eqb_spec x 0), (Z.ltb_spec x 0); lia. }
  rewrite (Hx _ n) by lia. destruct (Z.ltb_spec 0 (maxOpen db)); cbn [andb]; [|by rewrite Hx].
  destruct (Z.ltb_spec (maxOpen db) n); cbn [maxOpen maxIdleTime maxLifetime]; rewrite Hx by lia; repeat split; lia.
Qed.

Lemma set_open n : 0 < n -> let d := SetMaxOpenConns n sql_Open in
  maxOpen d = n /\ maxIdleTime d = 0 /\ maxLifetime d = 0 /\ maxIdleConns d = Z.min 2 n.
Proof.
  intros Hn. unfold SetMaxOpenConns, sql_Open. rewrite (proj2 (Z.ltb_ge n 0)) by lia. cbn [maxOpen maxIdleCount maxIdleTime maxLifetime].
  rewrite (proj2 (Z.ltb_lt 0 n) Hn). change (maxIdleConns (mkDB n 0 0 0)) with 2. cbn [andb].
  destruct (Z.ltb_spec n 2); [|repeat split; cbn; lia]. destruct (set_idle n (mkDB n 0 0 0) Hn) as (-> & -> & -> & ->).
  cbn [maxOpen maxIdleTime maxLifetime]. rewrite (proj2 (Z.ltb_lt 0 n) Hn). repeat split; lia.
Qed.

(** The settings of a new pool: the open connections are limited when the setting is positive, and the idle ones are
    the setting, or two, but never more than the open ones. *)
Theorem pool_settings p : let db := ApplyToSQLDB p sql_Open in
  maxOpen db = Z.max 0 (MaxOpenConns p) /\ maxIdleTime db = Z.max 0 (ConnMaxIdleTime p) /\
  maxLifetime db = Z.max 0 (ConnMaxLifetime p) /\
  maxIdleConns db = (let idle := if 0 <? MaxIdleConns p then MaxIdleConns p else 2 in
    if 0 <? MaxOpenConns p then Z.min idle (MaxOpenConns p) else idle).
Proof.
  destruct p as [dsn o i t l]. unfold ApplyToSQLDB. cbn [MaxOpenConns MaxIdleConns ConnMaxIdleTime ConnMaxLifetime].
  set (d1 := if 0 <? o then _ else _).
  assert (maxOpen d1 = Z.max 0 o /\ maxIdleTime d1 = 0 /\ maxLifetime d1 = 0 /\
    maxIdleConns d1 = if 0 <? o then Z.min 2 o else 2) as (Ho & Ht & Hl & Hi).
  { subst d1. destruct (Z.ltb_spec 0 o) as [Hp|Hp]; [|repeat split; cbn; lia]. destruct (set_open o Hp) as (-> & -> & -> & ->). lia. }
  clearbody d1. set (d2 := if 0 <? i then _ else _).
  assert (maxOpen d2 = Z.max 0 o /\ maxIdleTime d2 = 0 /\ maxLifetime d2 = 0 /\
    maxIdleConns d2 = (let idle := if 0 <? i then i else 2 in if 0 <? o then Z.min idle o else idle)) as (Ho' & Ht' & Hl' & Hi').
  { subst d2. destruct (Z.ltb_spec 0 i) as [Hp|Hp]; [|done]. destruct (set_idle i d1 Hp) as (-> & -> & -> & ->). rewrite Ho.
    repeat split; [done..|]. destruct (Z.ltb_spec 0 o); [rewrite (proj2 (Z.ltb_lt 0 (Z.max 0 o))) by lia; cbv zeta; lia|]. by rewrite (proj2 (Z.ltb_ge 0 (Z.max 0 o))) by lia. }
  clearbody d2. cbv zeta in *. rewrite <- Hi'. clear Hi Hi'.
  destruct (Z.ltb_spec 0 t), (Z.ltb_spec 0 l); cbn; rewrite ?Ho', ?Ht', ?Hl'; repeat split; lia.
Qed.

(** ** Witnesses *)

(** A viper as lists. *)
Record demo_viper := mkDemo {
  d_replacer : string -> string; d_auto : bool; d_config : string; d_flags : list Flag; d_file : list (string * string);
  d_defaults : list (string * string)
}.

Definition assoc (l : list (string * string)) (k : string) : option string := snd <$> find (fun x => bool_decide (x.1 = k)) l.

Definition related (a b : string) : bool := bool_decide (parent a b) || bool_decide (parent b a).

Definition demo_disk (name : string) : option (list (string * string)) :=
  if decide (name = "app.yaml") then Some [("redis.addr", "cache:6379"); ("log.level", "warn")] else None.

#[global] Instance demo_Viper : Viper demo_viper := {
  viper_New := mkDemo (fun k => k) false "" [] [] [];
  SetEnvKeyReplacer r v := mkDemo r (d_auto v) (d_config v) (d_flags v) (d_file v) (d_defaults v);
  AutomaticEnv v := mkDemo (d_replacer v) true (d_config v) (d_flags v) (d_file v) (d_defaults v);
  SetDefault k d v := mkDemo (d_replacer v) (d_auto v) (d_config v) (d_flags v) (d_file v)
    ((ToLower k, d) :: filter (fun x => related (ToLower k) x.1 = false) (d_defaults v));
  BindPFlags fs v := Ok (mkDemo (d_replacer v) (d_auto v) (d_config v) (d_flags v ++ fs) (d_file v) (d_defaults v));
  SetConfigFile f v := mkDemo (d_replacer v) (d_auto v) f (d_flags v) (d_file v) (d_defaults v);
  ReadInConfig v := match demo_disk (d_config v) with
                    | Some l => Ok (mkDemo (d_replacer v) (d_auto v) (d_config v) (d_flags v) l (d_defaults v))
                    | None => Err "no such file"
                    end;
  Get env v k :=
    let lower :=
      match (if d_auto v then env_value env (d_replacer v) k else None) with
      | Some x => Some x
      | None => match assoc (d_file v) k with Some x => Some x | None => assoc (d_defaults v) k end
      end in
    match flag_in (d_flags v) k with Some f => if Changed f then Some (Value f) else lower | None => lower end;
  flag_of v k := flag_in (d_flags v) k;
  file_of v k := assoc (d_file v) k;
  default_of v k := assoc (d_defaults v) k;
  replacer_of v := d_replacer v;
  auto_of v := d_auto v;
  config_of v := d_config v;
  disk name k := match demo_disk name with Some l => assoc l k | None => None end
}.

Lemma flag_in_app a b k : flag_in (a ++ b) k = match flag_in b k with Some f => Some f | None => flag_in a k end.
Proof.
  unfold flag_in. rewrite reverse_app. induction (reverse b) as [|x l IH]; [done|]. cbn. by case_bool_decide.
Qed.

Lemma assoc_filter P `{forall x, Decision (P x)} l k : (forall d, P (k, d)) -> assoc (filter P l) k = assoc l k.
Proof.
  intros HP. unfold assoc. induction l as [|[a b] l IH]; [done|]. rewrite filter_cons. case_decide as D; cbn.
  - by case_bool_decide.
  - case_bool_decide as E; [|done]. subst. by destruct D.
Qed.

Lemma assoc_filter_none P `{forall x, Decision (P x)} l k : (forall d, ~ P (k, d)) -> assoc (filter P l) k = None.
Proof.
  intros HP. unfold assoc. induction l as [|[a b] l IH]; [done|]. rewrite filter_cons. case_decide as D; cbn; [|done].
  case_bool_decide as E; [|done]. subst. by destruct (HP b).
Qed.

Lemma parent_irrefl k : ~ parent k k.
Proof.
  unfold parent. induction k as [|c k IH]; [done|]. rewrite append_cons. cbn [String.prefix].
  destruct (ascii_dec c c); [exact IH|done].
Qed.

#[global] Instance demo_Laws : ViperLaws demo_viper.
Proof.
  split; cbn; try done.
  - intros k d v. unfold assoc. cbn. by rewrite bool_decide_eq_true_2.
  - intros k d v k' Hne H1 H2. unfold assoc at 1. cbn. rewrite bool_decide_eq_false_2 by congruence.
    apply (assoc_filter _ (d_defaults v) k'). intros d0. unfold related. cbn. by rewrite !bool_decide_eq_false_2.
  - intros k d v k' Hr. assert (related (ToLower k) k' = true) as Hrel.
    { unfold related. destruct Hr as [Hr|Hr]; rewrite (bool_decide_eq_true_2 _ Hr); by rewrite ?orb_true_r. }
    unfold assoc. cbn. rewrite bool_decide_eq_false_2.
    + apply (assoc_filter_none _ (d_defaults v) k'). cbn. congruence.
    + intros E. rewrite E in Hrel. unfold related in Hrel. by rewrite !bool_decide_eq_false_2 in Hrel by apply parent_irrefl.
  - intros fs v v' k [= <-]. split; [apply flag_in_app|done].
  - intros v v' k. destruct (demo_disk (d_config v)) as [l|]; [|done]. by intros [= <-].
Qed.

Definition demo_sections : Sections := mkSections true false true false false false.
Definition demo_env : environment := fun k => if decide (k = "LOG_LEVEL") then Some "debug" else if decide (k = "REDIS_DB") then Some "" else None.
Definition demo_flags : list Flag :=
  mkFlag "config_file" "" "app.yaml" true :: tail (flag_def <$> section_flags demo_sections).
Definition demo_unmarshal : environment -> demo_viper -> res string nat := fun _ _ => Ok 0%nat.

Lemma registration_panics_witness : exists m, RegisterFlags demo_sections (flag_def <$> section_flags demo_sections) = Panic m.
Proof. apply (proj1 registration_panics demo_sections). vm_compute. reflexivity. Defined.

Definition demo_loader : Loader (V := demo_viper) :=
  match Load demo_env demo_unmarshal (NewLoader demo_sections) demo_flags with Ok (l, _) => l | Err _ => NewLoader demo_sections end.

Lemma demo_plain : plain_flags demo_flags.
Proof.
  split; [apply (bool_decide_unpack _); vm_compute; exact I|]. intros f Hf.
  assert (Forall (fun f => ToLower (Name f) = Name f /\ Forall (fun g => ~ parent (Name f) (Name g)) demo_flags) demo_flags) as Hall
    by (apply (bool_decide_unpack _); vm_compute; exact I).
  rewrite Forall_forall in Hall. destruct (Hall f Hf) as [? Hg]. rewrite Forall_forall in Hg. done.
Qed.

Lemma load_precedence_witness : Get demo_env (lv demo_loader) "redis.addr" = Some "cache:6379".
Proof.
  refine (load_precedence demo_env demo_unmarshal demo_sections demo_flags demo_loader 0%nat
    (mkFlag "config_file" "" "app.yaml" true) (mkFlag "redis.addr" "localhost:6379" "localhost:6379" false) _ demo_plain _ _ _ _).
  - vm_compute. reflexivity.
  - apply (bool_decide_unpack _). vm_compute. exact I.
  - reflexivity.
  - apply (bool_decide_unpack _). vm_compute. exact I.
  - intros p Hp. apply parent_elem, list_elem_of_In in Hp. vm_compute in Hp. destruct Hp as [<-|[]]. vm_compute. auto.
Defined.

End AppConfig.
