(* ===== verification/Adapters.v ===== *)
(** * Logger adapters and the profiling server: src/pkg/logger, src/infra/profiler,
    src/infra/pubsub/rabbitmq/logger.go and src/infra/pubsub/rabbitmq/pkg/adapter

    The adapters that put slog and wlog behind the logger interfaces of the repository: what
    becomes of the arguments of a call.  The profiling server: its routes, and its start and
    stop as steps with the goroutine that listens. *)
From stdpp Require Import prelude strings list.
From Stdlib Require Import ZArith Lia Ascii.
From S2P Require Import Prelude NetAddr.
Local Open Scope Z_scope.

Module Adapters.
Import NetAddr.

(** ** Arguments *)

(** A value of type [any]: a string, or another with its type and its text. *)
Inductive any := Str (s : string) | Val (typ text : string).

Inductive level := LevelDebug | LevelInfo | LevelWarn | LevelError.

(** An attribute of slog, or a field of wlog. *)
Record attr := mkAttr { key : string; value : any }.

(** A line of a log. *)
Record line := mkLine { lvl : level; msg : string; attrs : list attr }.

(** The loop of [toSlogAttrs] and of [toWlogFields]: [i] goes up by two while [i < len(args) - 1]. *)
Fixpoint toAttrs (args : list any) : list attr :=
  match args with
  | k :: v :: rest =>
      match k with
      | Str key => mkAttr key v :: toAttrs rest
      | Val _ _ => toAttrs rest
      end
  | _ => []
  end.

Definition toSlogAttrs := toAttrs.
Definition toWlogFields := toAttrs.

(** ** src/pkg/logger *)

Inductive method := Info | Error | Debug | Warn.

Definition SlogAdapter (m : method) (msg : string) (args : list any) : line :=
  mkLine (match m with Info => LevelInfo | Error => LevelError | Debug => LevelDebug | Warn => LevelWarn end) msg (toSlogAttrs args).

Definition WlogAdapter (m : method) (msg : string) (args : list any) : line :=
  mkLine (match m with Info => LevelInfo | Error => LevelError | Debug => LevelDebug | Warn => LevelWarn end) msg (toWlogFields args).

(** ** The adapters of rabbitmq *)

(** A call of the interface [Logger] of rabbitmq. *)
Inductive call := RInfo (msg : string) (args : list any) | RWarn (msg : string) (args : list any) | RError (msg : string) (err : any) (args : list any).

Definition NoopLogger (c : call) : list line := [].

Definition slog_Logger (c : call) : line :=
  match c with
  | RInfo msg args => mkLine LevelInfo msg (toSlogAttrs args)
  | RWarn msg args => mkLine LevelWarn msg (toSlogAttrs args)
  | RError msg err args => mkLine LevelError msg (toSlogAttrs (Str "error" :: err :: args))
  end.

Section Wlog.
(** [fmt.Sprintf], and a value as "%v" writes it. *)
Context (Sprintf : string -> list any -> string) (plain : any -> string).

Definition wlog_Logger (c : call) : line :=
  match c with
  | RInfo msg args => mkLine LevelInfo (Sprintf msg args) []
  | RWarn msg args => mkLine LevelWarn (Sprintf msg args) []
  | RError msg err args => mkLine LevelError (Sprintf msg args +:+ ": " +:+ plain err) []
  end.

(** What the documentation of fmt says of operands that the format does not use. *)
Definition extra (a : any) : string :=
  match a with Str s => "string=" +:+ s | Val t v => t +:+ "=" +:+ v end.
Definition extras (args : list any) : string :=
  match args with
  | [] => ""
  | a :: rest => "%!(EXTRA " +:+ fold_left (fun s b => s +:+ ", " +:+ extra b) rest (extra a) +:+ ")"
  end.
Hypothesis Sprintf_plain : forall f args, no_byte "%" f = true -> Sprintf f args = f +:+ extras args.

(** The wlog adapter takes the message for a format: the structured arguments that the publisher passes
    are written behind it as operands that nothing asked for. *)
Theorem wlog_garbles_attributes err : slog_Logger (RWarn "publish attempt failed" [Str "attempt"; Val "int" "1"; Str "error"; err]) =
    mkLine LevelWarn "publish attempt failed" [mkAttr "attempt" (Val "int" "1"); mkAttr "error" err] /\
  wlog_Logger (RWarn "publish attempt failed" [Str "attempt"; Val "int" "1"; Str "error"; err]) =
    mkLine LevelWarn ("publish attempt failed%!(EXTRA string=attempt, int=1, string=error, " +:+ extra err +:+ ")") [].
Proof.
  split; [done|]. unfold wlog_Logger. rewrite Sprintf_plain by done. reflexivity.
Qed.
End Wlog.

(** ** Lemmas *)

Definition flat (l : list (string * any)) : list any := l ≫= fun x => [Str x.1; x.2].

Lemma toAttrs_flat l rest : toAttrs (flat l ++ rest) = ((fun x => mkAttr x.1 x.2) <$> l) ++ toAttrs rest.
Proof. induction l as [|[k v] l IH]; [done|]. change (flat ((k, v) :: l)) with (Str k :: v :: flat l). simpl. by rewrite IH. Qed.

(** ** Properties of the adapters *)

(** Pairs of a name and a value all get through, in order and with their names, whichever adapter is used, with
    the level of the method; a last argument without a partner is dropped, and so is a pair whose
    first argument is not a string, without shifting the pairs that follow. *)
Theorem adapters_keep_pairs m msg l l' x t v :
  SlogAdapter m msg (flat l) = WlogAdapter m msg (flat l) /\
  attrs (SlogAdapter m msg (flat l)) = (fun x => mkAttr x.1 x.2) <$> l /\
  SlogAdapter m msg (flat l ++ [x]) = SlogAdapter m msg (flat l) /\
  attrs (SlogAdapter m msg (flat l ++ [Val t v; x] ++ flat l')) = (fun x => mkAttr x.1 x.2) <$> (l ++ l').
Proof.
  unfold SlogAdapter, WlogAdapter, toSlogAttrs, toWlogFields. cbn [attrs].
  split; [done|]. rewrite <- (app_nil_r (flat l)) at 1 2. rewrite !toAttrs_flat. split; [by rewrite app_nil_r|].
  split; [f_equal; rewrite <- (app_nil_r (flat l)); by rewrite <- ?app_assoc, !toAttrs_flat|].
  simpl. rewrite <- (app_nil_r (flat l')), toAttrs_flat. simpl. by rewrite app_nil_r, fmap_app.
Qed.

(** The broker passes the reason of a lost connection as its only argument, so the slog adapter drops
    it. *)
Theorem close_reason_dropped err : slog_Logger (RWarn "rabbitmq connection closed" [err]) = mkLine LevelWarn "rabbitmq connection closed" [].
Proof. done. Qed.

(** ** The profiling server *)

Record Config := mkConfig { Addr : string; MutexProfileFraction : Z; BlockProfileRate : Z }.

(** The handlers of net/http/pprof. *)
Inductive handler := Index | Cmdline | Profile | Symbol | Trace | Named (profile : string) | Redirect | NotFound.

(** The patterns of the server, and their handlers. *)
Definition routes : list (string * handler) :=
  [("/debug/pprof/", Index); ("/debug/pprof/cmdline", Cmdline); ("/debug/pprof/profile", Profile);
   ("/debug/pprof/symbol", Symbol); ("/debug/pprof/trace", Trace); ("/debug/pprof/heap", Named "heap");
   ("/debug/pprof/threadcreate", Named "threadcreate"); ("/debug/pprof/goroutine", Named "goroutine");
   ("/debug/pprof/mutex", Named "mutex"); ("/debug/pprof/block", Named "block")].

(** [http.ServeMux], for a clean path: the pattern of the path, else the longest pattern that ends in a slash
    and begins the path, else a redirect when only the last slash is missing. *)
Definition prefix_pattern (p path : string) : bool := ends_with "/" p && String.prefix p path.

Definition serve (path : string) : handler :=
  match assoc_lookup path routes with
  | Some h => h
  | None =>
      fold_left (fun best '(p, h) => if prefix_pattern p path then h else best) routes
        (match assoc_lookup (path +:+ "/") routes with Some _ => Redirect | None => NotFound end)
  end.

(** The server of a profiler: [listening] while it serves, [shut] once [Shutdown] has been called;
    [starting] counts the goroutines of [Start] that have not called [ListenAndServe] yet. *)
Record server := mkServer { s_addr : string; starting : nat; listening : bool; shut : bool }.

(** The rates of the runtime and the profiler, [None] when it is nil. *)
Record process := mkProcess { mutex_rate : Z; block_rate : Z; profiler : option server }.

Definition New (c : Config) (p : process) : process :=
  if decide (Addr c = "") then mkProcess (mutex_rate p) (block_rate p) None
  else mkProcess (MutexProfileFraction c) (BlockProfileRate c) (Some (mkServer (Addr c) 0 false false)).

Definition Start (p : process) : process :=
  match profiler p with
  | None => p
  | Some s => mkProcess (mutex_rate p) (block_rate p) (Some (mkServer (s_addr s) (S (starting s)) (listening s) (shut s)))
  end.

(** [Stop]: [Shutdown] closes the listeners at once; its error, of a context that is done while
    requests are served, is returned. *)
Definition Stop (err : option string) (p : process) : option string * process :=
  match profiler p with
  | None => (None, p)
  | Some s => (err, mkProcess (mutex_rate p) (block_rate p) (Some (mkServer (s_addr s) (starting s) false true)))
  end.

(** A goroutine of [Start] calls [ListenAndServe], which returns [ErrServerClosed] after a [Shutdown]; [bound]
    tells whether the address could be bound. *)
Definition listen (bound : bool) (p : process) : option process :=
  match profiler p with
  | Some s =>
      match starting s with
      | O => None
      | S n => Some (mkProcess (mutex_rate p) (block_rate p)
                       (Some (mkServer (s_addr s) n (listening s || (bound && negb (shut s))) (shut s))))
      end
  | None => None
  end.

(** [NewWithFx]: the hooks the application gets, none for a nil profiler. *)
Definition NewWithFx (c : Config) (p : process) : process * list (process -> process) :=
  let p := New c p in
  (p, match profiler p with None => [] | Some _ => [Start; fun p => (Stop None p).2] end).

Inductive pstep : process -> process -> Prop :=
| p_start p : pstep p (Start p)
| p_listen bound p p' : listen bound p = Some p' -> pstep p p'
| p_stop err p : pstep p (Stop err p).2.

(** What holds of a server that was made for an address. *)
Definition stopped (p : process) : Prop := forall s, profiler p = Some s -> shut s = true /\ listening s = false.

Lemma pstep_stopped p p' : stopped p -> pstep p p' -> stopped p'.
Proof.
  intros Hs Hst. destruct Hst as [p|bound p p' E|err p]; unfold stopped in *.
  - unfold Start. destruct (profiler p) as [s|] eqn:Ep; [|by rewrite Ep]. intros s' [= <-]. apply (Hs s eq_refl).
  - unfold listen in E. destruct (profiler p) as [s|] eqn:Ep; [|done]. destruct (starting s); [done|]. injection E as <-.
    destruct (Hs s eq_refl) as [H1 H2]. intros s' [= <-]. simpl. rewrite H1, H2. split; [done|]. by rewrite andb_false_r.
  - unfold Stop. destruct (profiler p) as [s|] eqn:Ep; [|simpl; by rewrite Ep]. by intros s' [= <-].
Qed.

(** The profiler is off without an address: nothing changes in the runtime, nothing is hooked
    into the application, and starting and stopping do nothing.  With an address, once [Stop] has been called it never
    listens again, even when a goroutine of [Start] comes to listen only afterwards. *)
Theorem profiler_lifecycle c p err :
  (Addr c = "" -> NewWithFx c p = (mkProcess (mutex_rate p) (block_rate p) None, []) /\
     Start (New c p) = New c p /\ Stop err (New c p) = (None, New c p)) /\
  (Addr c <> "" -> forall q q', runs pstep (New c p) q -> runs pstep (Stop err q).2 q' ->
     forall s, profiler q' = Some s -> listening s = false).
Proof.
  split.
  - intros E. unfold NewWithFx, New. rewrite decide_True by done. done.
  - intros _ q q' _ Hr s Hs. assert (stopped q') as H.
    { eapply (runs_inv pstep stopped); [exact pstep_stopped| |exact Hr]. unfold stopped, Stop. destruct (profiler q) eqn:E; [|simpl; by rewrite E].
      by intros s' [= <-]. }
    by destruct (H s Hs).
Qed.

(** Every path under "/debug/pprof/" is served, the ten patterns by their own handlers and the others by the index,
    and of the other paths only "/debug/pprof" is answered, with a redirect. *)
Theorem profiler_routes path :
  match assoc_lookup path routes with
  | Some h => serve path = h
  | None => serve path = if String.prefix "/debug/pprof/" path then Index
                         else if decide (path = "/debug/pprof") then Redirect else NotFound
  end.
Proof.
  unfold serve. destruct (assoc_lookup path routes) as [h|]; [done|].
  unfold routes at 1. cbn [fold_left]. unfold prefix_pattern. simpl (ends_with _ _). cbn [andb].
  destruct (String.prefix "/debug/pprof/" path); [done|].
  destruct (decide (path = "/debug/pprof")) as [->|Hne]; [done|].
  assert (forall p x, path +:+ "/" = p +:+ String x "" -> x = "/"%char /\ path = p) as Hlast.
  { intros p x. clear. revert p. induction path as [|c path IH]; intros [|c' p]; cbn; intros E; simplify_eq; try done.
    - by destruct p.
    - by destruct path.
    - by destruct (IH p) as [-> ->]. }
  unfold routes, assoc_lookup.
  rewrite (decide_False (P := path +:+ "/" = "/debug/pprof/")) by (intros E; by destruct (Hlast "/debug/pprof" "/"%char E)).
  repeat (rewrite decide_False; [|intros E; match type of E with _ = ?s => let n := eval vm_compute in (pred (String.length s)) in
    destruct (Hlast (String.substring 0 n s) (default "/"%char (String.get n s))) as [Hx _]; [exact E|discriminate Hx] end]).
  done.
Qed.

(** ** Witnesses *)

Lemma profiler_lifecycle_witness :
  let p := mkProcess 0 0 None in
  Start (New (mkConfig "" 5 5) p) = New (mkConfig "" 5 5) p.
Proof. cbn zeta. apply (proj1 (profiler_lifecycle (mkConfig "" 5 5) (mkProcess 0 0 None) None) eq_refl). Defined.

Lemma wlog_garbles_attributes_witness :
  msg (wlog_Logger (fun f args => f +:+ extras args) extra (RWarn "publish attempt failed" [Str "attempt"; Val "int" "1"; Str "error"; Val "*amqp.Error" "EOF"]))
    = "publish attempt failed%!(EXTRA string=attempt, int=1, string=error, *amqp.Error=EOF)".
Proof.
  rewrite (proj2 (wlog_garbles_attributes (fun f args => f +:+ extras args) extra (fun f args _ => eq_refl) (Val "*amqp.Error" "EOF"))).
  reflexivity.
Defined.

End Adapters.
